(* ===== verification/_CoqProject ===== *)
-Q . S2P
Prelude.v
Limits.v
BTreeMap.v
Packet.v
Fragment.v
Instruction.v
Synchronization.v
Timing.v
Reachability.v
TerminalWidth.v
Emulator.v
Terminal.v
Prediction.v
Errors.v
ClientHistory.v
Bootstrap.v
Driver.v
DriverInput.v
DriverInv.v
DriverSafety.v
DriverShutdown.v
EndToEnd.v
Session.v
Observer.v
Vt100Cell.v
Vt100Row.v
Vt100RowInv.v
Vt100Grid.v
Vt100GridInv.v
Vt100Screen.v
Vt100Attrs.v
Vt100Parser.v
Vt100ScreenInv.v
Vt100Format.v
EmulatorSafety.v
Vt100Tokens.v
Vt100Canvas.v
Vt100Glyph.v
Vt100Repaint.v
Vt100Roundtrip.v
Vt100Alike.v
Vt100Difference.v
Vt100Ansi.v
Vt100Display.v
Vt100Follow.v
Vt100Paint.v
SessionSafety.v
SessionDisplay.v
Fuzzing.v
