(* ===== verification/Prelude.v ===== *)
(** * Verification of mosh-client-rs

    ** The program

    [mosh-client-rs] is a client library for the Mosh protocol. [mosh-server]
    prints a connect record (parsed by [src/src/bootstrap.rs]); the client then
    talks to it in UDP datagrams. Each datagram is sealed ([crypto.rs],
    [packet.rs]) and carries one fragment ([fragment.rs]) of a compressed
    instruction ([instruction.rs]). Instructions carry differences between
    numbered states: the client's states are positions in its operation history
    ([session/client_history.rs]), the server's states are terminal screens
    ([terminal/]). [synchronization.rs] keeps track of which states each side
    holds, [timing.rs] decides when to send, [session/reachability.rs] reports
    silence of the peer, and [prediction.rs] displays typed characters ahead of
    the server. [session/driver.rs] owns one of each and moves them on commands,
    datagrams and timers; [session.rs] is the handle the application uses.

    ** The files

    - [Prelude.v]: the outcome of a Rust call ([Result], with [Panic] for a failing
      [expect], slice or index), the state-and-error monad [M] of methods with
      [&mut self], its weakest precondition [wp] and its [spec] triples, machine
      integers, byte strings, list lemmas and tactics.
    - [Limits.v]: the constants of [limits.rs].
    - [BTreeMap.v]: ordered maps as sorted association lists.
    - [Packet.v]: [crypto.rs] and [packet.rs] over the interface [Aead] (the
      [ocb3] crate).
    - [Fragment.v]: [fragment.rs], codec and reassembler.
    - [Instruction.v]: [instruction.rs] over the interfaces [Prost] and [Zlib].
    - [Synchronization.v]: [synchronization.rs].
    - [Timing.v]: [timing.rs]. [Reachability.v]: [session/reachability.rs].
    - [TerminalWidth.v]: [terminal_width.rs] and UTF-8. [Emulator.v]: the interface
      [Vt100] through which [terminal/] uses the emulator, and the events of [vte].
    - [Terminal.v]: [terminal/mod.rs], [terminal/state.rs] and [terminal/paint.rs]
      over the interface [Vt100]. The class [ScreenSet] is what the clients' proofs rely
      on: a set of screens, and what follows from a panic on one of them. Its
      instances are all reachable screens, the safe ones ([SessionSafety.v]) and those that are
      painted faithfully ([SessionDisplay.v]).
    - [Prediction.v]: [prediction.rs].
    - [Errors.v]: the error types of [session.rs] and the driver.
    - [ClientHistory.v]: [session/client_history.rs].
    - [Bootstrap.v]: [bootstrap.rs] over a base64 interface.
    - [Driver.v]: every handler of [session/driver.rs]; what the driver reads from
      outside is a script [Env] that it consumes.
    - [DriverInput.v]: the fragments that a script's datagrams authenticate to, and what
      can be assembled from them. [DriverInv.v], [DriverSafety.v]: the invariant between
      the driver's components, its input and the server's states, and its preservation by
      every handler. [DriverShutdown.v]: the local shutdown ends.
    - [EndToEnd.v]: one driver's output decoded by another.
    - [Session.v]: the commands of the handle of [session.rs], interleaved with the
      driver's polls, over the interface [Mpsc] of tokio's bounded channels. [Observer.v]: what
      the handle observes (state, reachability, output), over [Mpsc] and the interface [Watch] of
      tokio's watch channels.
    - [Vt100Cell.v] ([vt100/term.rs], [attrs.rs], [cell.rs]), [Vt100Row.v] ([row.rs]),
      [Vt100Grid.v] ([grid.rs]), [Vt100Screen.v] ([screen.rs]), [Vt100Parser.v]
      ([perform.rs], [callbacks.rs], [parser.rs]): the emulator, bottom up; the last
      one gives the instance of [Vt100]. Here the only failure is a panic, so
      operations return an [option]; arithmetic that overflows its type is a panic,
      as in a build with overflow checks, and so are a failed [unwrap] and an index
      out of range.
    - [Vt100RowInv.v], [Vt100GridInv.v], [Vt100ScreenInv.v]: the invariant of cells,
      rows, grids and screens, and its preservation by every operation.
    - [Vt100Format.v]: the writers succeed on well-formed screens. [Vt100Attrs.v]:
      attributes written as escape codes and read back.
    - [EmulatorSafety.v]: the theorems about the emulator as the client uses it.
    - [Vt100Tokens.v]: the characters, controls and escape sequences that the writers
      produce, the events the parser makes of them, and what they do to a screen.
      [Vt100Canvas.v]: moving, drawing and erasing on a terminal, also over the cells
      of an older row. [Vt100Glyph.v], [Vt100Repaint.v]: [Row::write_contents_diff] and
      [Row::write_contents_formatted] (a difference to new cells) in step with a terminal.
      [Vt100Roundtrip.v]: the rows of a full repaint, and the cursor. [Vt100Difference.v]: the
      rows of a difference. [Vt100Alike.v]: screens that look the same are written the same. [Vt100Ansi.v]: a concrete parser that meets the law
      required of [vte]. [Vt100Display.v]: a full repaint and the terminal that displays it.
      [Vt100Follow.v]: the same for a sequence of incremental repaints.
    - [Vt100Paint.v]: paintings that go wrong.
    - [SessionSafety.v]: the driver with the client's own emulator. [SessionDisplay.v]: its
      output on a terminal.
    - [Fuzzing.v]: the fuzz targets of [fuzzing.rs].

    ** What is shown

    - Sessions: what the client holds as a state of the server is that state, however
      datagrams are lost, repeated or reordered ([client_holds_server_states]); from a
      successful connection on, no input ends the session with an error that would mean a
      broken invariant of the client ([session_never_internal_error]), and while the
      server's resizes are safe nothing makes it panic ([session_never_panics]); rejected
      datagrams have no effect; an instruction reported as sent is decoded by a peer with
      the same key to itself, if its fragments arrive within their ten seconds; no command is accepted
      after a close, and where polls are atomic the close starts after every accepted command; a
      graceful close ends ([local_shutdown_ends]).
    - Synchronization and history: an invariant of all interleavings of plans and
      commits, the retention policy of reference states, acknowledgements, and
      differences as slices of the full operation log, of which what was acknowledged is dropped; the
      base of a retransmission.
    - Packets: the replay window is equivalent to remembering every number, no
      number is delivered twice, nonces are never reused, seal and open are
      inverse, and rejected plaintext is wiped.
    - Fragments and instructions: round trips, reassembly in any order, bounded
      memory, total decompression.
    - Timers: bounds of the estimator, exactness of the 16-bit timestamp echo,
      exact wake-up times of the scheduler and of reachability.
    - Terminal and prediction: validation of host bytes, monotone echo
      acknowledgements, prediction invariant, confirmation, display and expiry.
    - Emulator: on screens of at least two rows and two columns that are never
      narrowed through a wide character, no byte string makes it panic, and every
      such screen can be formatted and compared with every other; what printing and
      scrolling do; attributes survive a round trip through escape codes. Outside
      these sizes it does panic: [one_row_wrap_panics], [narrow_grid_panics] and
      [cut_row_panics].
    - Painting: for screens as above whose scroll region was never resized to a single row, a
      full repaint leaves any terminal of the same size, with the whole screen as its scroll
      region, with the cells, cursor, attributes and modes of the painted screen,
      and with the same bytes for a repaint ([full_repaint_shows]); sent the incremental repaint of
      each later state, it shows that state, if the changes are steady ([display_follows_client]); so the
      output of a whole session shows the state that the driver painted last ([session_output_shows]).
      Where this ends: mouse
      reports are never switched off ([full_repaint_keeps_mouse]), a screen whose scroll
      region was resized to a single row is painted wrongly
      ([collapsed_region_misplaces_text]), and a change that is not steady can
      overwrite text which did not change ([diff_overwrites_unchanged_text]).
    - The handle: the lifecycle states are seen in order, whatever the interleaving.
    - Fuzzing: the two fuzz targets can only fail through a resize of the terminal.
    - Bootstrap: the parser accepts exactly the documented records.

    ** Fuel

    [decompress_exact_zlib] runs its loop with fuel that [decompress_total] shows to
    be enough for every input. [run_turns] takes the number of turns of the
    driver's main loop and [run_local_shutdown] that of the shutdown loop; the
    theorems hold for every number, and [local_shutdown_ends] gives one that is enough
    for the shutdown loop. The main loop goes on until the session ends.

    ** Not modelled

    [lib.rs] has only re-exports; [test_support.rs] is for tests only; one-line accessors of
    fields and builders of escape codes are the projections and arguments of the model; the text of
    [Display] and [Debug] implementations and the tokio plumbing that
    spawns the driver are left out. Third-party crates (ocb3, prost, miniz_oxide,
    base64, vte, unicode-width, itoa, the channels of tokio) are classes with the documented laws the code
    relies on, each with a concrete instance that satisfies them. *)

From stdpp Require Export base tactics numbers list gmap.
From Stdlib Require Export Sorting.Sorted.

Local Open Scope Z_scope.

#[global] Arguments Z.eqb : simpl never.
#[global] Arguments Z.leb : simpl never.
#[global] Arguments Z.ltb : simpl never.

(** ** Outcomes of a Rust call

    [Ok] and [Err] are the two constructors of Rust's [Result]; [Panic] is the
    outcome of an [expect], [unwrap], out-of-range slice or index that fails.
    Every [expect] of the source is modelled by a [Panic] branch, so that its
    absence is a theorem and not an assumption. *)
Inductive Result (E A : Type) : Type :=
  | Ok (a : A)
  | Err (e : E)
  | Panic.
Arguments Ok {E A} a.
Arguments Err {E A} e.
Arguments Panic {E A}.

Definition map_err {E E' A} (f : E → E') (r : Result E A) : Result E' A :=
  match r with
  | Ok a => Ok a
  | Err e => Err (f e)
  | Panic => Panic
  end.

Definition map_ok {E A B} (f : A → B) (r : Result E A) : Result E B :=
  match r with
  | Ok a => Ok (f a)
  | Err e => Err e
  | Panic => Panic
  end.

Definition ok_or {E A} (e : E) (o : option A) : Result E A :=
  match o with Some a => Ok a | None => Err e end.

Definition expect {E A} (o : option A) : Result E A :=
  match o with Some a => Ok a | None => Panic end.

Definition is_ok {E A} (r : Result E A) : bool :=
  match r with Ok _ => true | _ => false end.

#[export] Instance Result_ret {E} : MRet (Result E) := λ A a, Ok a.
#[export] Instance Result_bind {E} : MBind (Result E) := λ A B f r,
  match r with
  | Ok a => f a
  | Err e => Err e
  | Panic => Panic
  end.

#[export] Instance Result_eq_dec {E A} `{EqDecision E} `{EqDecision A} :
  EqDecision (Result E A).
Proof. solve_decision. Defined.

(** ** The effect of a method

    A method on [&mut self] that returns a [Result] is a function from the
    state to the state it leaves behind and its outcome: on an early [?] return
    the assignments made so far are kept. *)
Definition M (S E A : Type) : Type := S → S * Result E A.

#[export] Instance M_ret {S E} : MRet (M S E) := λ A a s, (s, Ok a).
#[export] Instance M_bind {S E} : MBind (M S E) := λ A B f m s,
  match m s with
  | (s', Ok a) => f a s'
  | (s', Err e) => (s', Err e)
  | (s', Panic) => (s', Panic)
  end.

Definition get {S E} : M S E S := λ s, (s, Ok s).
Definition gets {S E A} (f : S → A) : M S E A := λ s, (s, Ok (f s)).
Definition put {S E} (s' : S) : M S E unit := λ _, (s', Ok tt).
Definition modify {S E} (f : S → S) : M S E unit := λ s, (f s, Ok tt).
Definition throw {S E A} (e : E) : M S E A := λ s, (s, Err e).
Definition lift {S E A} (r : Result E A) : M S E A := λ s, (s, r).

(** [if cond { return Err(e) }] *)
Definition fail_if {S E} (b : bool) (e : E) : M S E unit :=
  if b then throw e else mret tt.

(** [match call { ... }]: continue with the outcome, whatever it is. *)
Definition handle {S E E' A B} (m : M S E A) (k : Result E A → M S E' B) : M S E' B :=
  λ s, let '(s', r) := m s in k r s'.

(** A method of a field: run it on the field, convert its error ([From]). *)
Definition zoom {S T E E' A} (g : S → T) (p : T → S → S) (f : E → E')
    (m : M T E A) : M S E' A :=
  λ s, let '(t, r) := m (g s) in (p t s, map_err f r).

(** ** Machine integers

    A [w]-bit unsigned integer is a [Z]; [usize] is 64 bits wide. *)
Definition U8_MAX : Z := 255.
Definition U16_MAX : Z := 65535.
Definition U32_MAX : Z := 4294967295.
Definition U64_MAX : Z := 18446744073709551615.
Definition USIZE_MAX : Z := U64_MAX.

Definition checked_add (max a b : Z) : option Z :=
  if a + b <=? max then Some (a + b) else None.
Definition checked_sub (a b : Z) : option Z :=
  if b <=? a then Some (a - b) else None.
Definition checked_mul (max a b : Z) : option Z :=
  if a * b <=? max then Some (a * b) else None.
Definition saturating_add (max a b : Z) : Z := Z.min max (a + b).
Definition saturating_mul (max a b : Z) : Z := Z.min max (a * b).
Definition saturating_sub (a b : Z) : Z := Z.max 0 (a - b).
Definition wrapping_add (modulus a b : Z) : Z := (a + b) mod modulus.
Definition wrapping_sub (modulus a b : Z) : Z := (a - b) mod modulus.
Definition abs_diff (a b : Z) : Z := Z.abs (a - b).
Definition div_ceil (a b : Z) : Z := (a + b - 1) / b.
Definition clamp (lo hi x : Z) : Z := Z.max lo (Z.min hi x).
Definition try_from (max x : Z) : option Z :=
  if (0 <=? x) && (x <=? max) then Some x else None.

Definition is_u8 (x : Z) : Prop := 0 ≤ x ≤ U8_MAX.
Definition is_u16 (x : Z) : Prop := 0 ≤ x ≤ U16_MAX.
Definition is_u32 (x : Z) : Prop := 0 ≤ x ≤ U32_MAX.
Definition is_u64 (x : Z) : Prop := 0 ≤ x ≤ U64_MAX.

Definition is_some_and {A} (o : option A) (p : A → bool) : bool :=
  match o with Some a => p a | None => false end.

(** ** Byte strings and slices *)
Abbreviation bytes := (list Z).

Definition len {A} (l : list A) : Z := Z.of_nat (length l).

Definition bytes_eqb (a b : bytes) : bool := bool_decide (a = b).

(** [n] bytes of [x], most significant first: [to_be_bytes]. *)
Fixpoint to_be_bytes (n : nat) (x : Z) : bytes :=
  match n with
  | O => []
  | S n' => to_be_bytes n' (x / 256) ++ [x mod 256]
  end.

(** [from_be_bytes] *)
Definition from_be_bytes (l : bytes) : Z :=
  fold_left (λ acc b, acc * 256 + b) l 0.

(** [&buf[lo..hi]]: the bounds check is part of the expression. *)
Definition slice {E A} (lo hi : Z) (buf : list A) : Result E (list A) :=
  if (0 <=? lo) && (lo <=? hi) && (hi <=? len buf)
  then Ok (take (Z.to_nat (hi - lo)) (drop (Z.to_nat lo) buf))
  else Panic.

(** [buf[lo..hi].copy_from_slice(src)]: panics out of range and on a length
    mismatch, like the source. *)
Definition copy_slice {E} (lo hi : Z) (src : bytes) : M bytes E unit :=
  λ buf,
    if (0 <=? lo) && (lo <=? hi) && (hi <=? len buf) && (len src =? hi - lo)
    then (take (Z.to_nat lo) buf ++ src ++ drop (Z.to_nat hi) buf, Ok tt)
    else (buf, Panic).

(** Run a method on the mutable subslice [&mut buf[lo..hi]]. *)
Definition on_slice {E E' A} (lo hi : Z) (f : E → E') (m : M bytes E A) : M bytes E' A :=
  λ buf,
    match slice (E:=E') lo hi buf with
    | Ok sub =>
        let '(sub', r) := m sub in
        (take (Z.to_nat lo) buf ++ sub' ++ drop (Z.to_nat hi) buf, map_err f r)
    | _ => (buf, Panic)
    end.

(** [slice.zeroize()] *)
Definition zeroize {E} : M bytes E unit := λ buf, (replicate (length buf) 0, Ok tt).

(** A [loop] whose body either continues with new locals ([inl]) or returns
    ([inr]), run for at most [p] iterations; [inl] means not finished yet. *)
Fixpoint loop_for {St R} (p : positive) (body : St → St + R) (s : St) : St + R :=
  match p with
  | xH => body s
  | xO p' =>
      match loop_for p' body s with
      | inl s' => loop_for p' body s'
      | inr r => inr r
      end
  | xI p' =>
      match body s with
      | inl s1 =>
          match loop_for p' body s1 with
          | inl s' => loop_for p' body s'
          | inr r => inr r
          end
      | inr r => inr r
      end
  end.

(** [slice.chunks(n)] *)
Fixpoint chunks_fuel {A} (fuel n : nat) (l : list A) : list (list A) :=
  match fuel with
  | O => []
  | S fuel' =>
      match l with
      | [] => []
      | _ => take n l :: chunks_fuel fuel' n (drop n l)
      end
  end.

Definition chunks {A} (n : nat) (l : list A) : list (list A) :=
  chunks_fuel (length l) n l.

(** ** Weakest preconditions

    [wp m Q s] runs [m] from [s] and requires [Q] of the state and outcome it
    leaves; the rules below execute a method body symbolically. *)
Definition wp {S E A} (m : M S E A) (Q : S → Result E A → Prop) (s : S) : Prop :=
  Q (m s).1 (m s).2.

(** An outcome that is not a panic. *)
Definition no_panic {E A} (r : Result E A) : Prop := r ≠ Panic.

(** ** Automation *)
Create HintDb rust discriminated.

(** Destruct every [match] and [if] of the hypotheses and the goal, closing
    the impossible combinations. *)
Ltac cases :=
  repeat (case_match; simplify_eq/=; try done).

(** Destruct one [if] of the goal. *)
Ltac split_if :=
  match goal with |- context [if ?b then _ else _] => destruct b end.

(** Unfold the monad so that [simplify_eq/=] and [cases] can run a method. *)
Ltac run :=
  cbv [mbind mret M_bind M_ret Result_bind Result_ret get gets put modify throw
       lift fail_if zoom handle map_err map_ok ok_or expect wp] in *;
  simplify_eq/=.

(** The same on the goal only, leaving the hypotheses alone. *)
Ltac unfold_m :=
  cbv [mbind mret M_bind M_ret Result_bind Result_ret get gets put modify throw
       lift fail_if zoom handle map_err map_ok ok_or expect wp].

Section wp_rules.
Context {S E : Type}.

Lemma wp_mono {A} (m : M S E A) Q Q' s :
  wp m Q s → (∀ s' r, Q s' r → Q' s' r) → wp m Q' s.
Proof. unfold wp. auto. Qed.

Lemma wp_bind {A B} (m : M S E A) (f : A → M S E B) Q s :
  wp m (λ s' r, match r with
                | Ok a => wp (f a) Q s'
                | Err e => Q s' (Err e)
                | Panic => Q s' Panic
                end) s →
  wp (m ≫= f) Q s.
Proof. unfold wp, mbind, M_bind. destruct (m s) as [s' [a|e|]]; done. Qed.

Lemma wp_elim {A} (m : M S E A) Q s s' r :
  wp m Q s → m s = (s', r) → Q s' r.
Proof. unfold wp. by intros ? Hm; rewrite Hm in *. Qed.

Lemma wp_intro {A} (m : M S E A) (Q : S → Result E A → Prop) s :
  (∀ s' r, m s = (s', r) → Q s' r) → wp m Q s.
Proof. intros H. unfold wp. apply H. by destruct (m s). Qed.

Lemma wp_conj {A} (m : M S E A) Q Q' s :
  wp m Q s → wp m Q' s → wp m (λ s' r, Q s' r ∧ Q' s' r) s.
Proof. unfold wp. auto. Qed.

(** Execute the first statement of a body whose outcome is known. *)
Lemma bind_step {A B} (m : M S E A) (f : A → M S E B) s s' a :
  m s = (s', Ok a) → (m ≫= f) s = f a s'.
Proof. unfold mbind, M_bind. by intros ->. Qed.

Lemma fail_if_false b (e : E) (s : S) : b = false → fail_if b e s = (s, Ok tt).
Proof. by intros ->. Qed.

Lemma bind_Ok {A B} (m : M S E A) (f : A → M S E B) s s' b :
  (m ≫= f) s = (s', Ok b) →
  ∃ s1 a, m s = (s1, Ok a) ∧ f a s1 = (s', Ok b).
Proof.
  unfold mbind, M_bind. destruct (m s) as [s1 [a|e|]]; intros; simplify_eq; eauto.
Qed.

Lemma lift_bind_Ok {A B} (r : Result E A) (f : A → M S E B) s s' b :
  (lift r ≫= f) s = (s', Ok b) → ∃ a, r = Ok a ∧ f a s = (s', Ok b).
Proof. unfold mbind, M_bind, lift. destruct r; intros; simplify_eq; eauto. Qed.
End wp_rules.

(** Execute the leading statement; the side goal is its outcome. *)
Ltac mstep := erewrite bind_step; cycle 1.

Lemma handle_step {S E E' A B} (m : M S E A) (k : Result E A → M S E' B) s s' r :
  m s = (s', r) → handle m k s = k r s'.
Proof. unfold handle. by intros ->. Qed.

Lemma wp_handle {S E E' A B} (m : M S E A) (k : Result E A → M S E' B) Q s :
  wp m (λ s' r, wp (k r) Q s') s → wp (handle m k) Q s.
Proof. unfold wp, handle. by destruct (m s). Qed.

Lemma wp_zoom {S T E E' A} (g : S → T) (p : T → S → S) (f : E → E')
    (m : M T E A) (Q : S → Result E' A → Prop) s :
  wp m (λ t r, Q (p t s) (map_err f r)) (g s) → wp (zoom g p f m) Q s.
Proof. unfold wp, zoom. by destruct (m (g s)). Qed.

(** [spec bad pan m Q s]: run from [s], the method [m] ends with [Q] of its value
    and state, or with an error that is not [bad]; it panics only if [pan]. *)
Definition spec {S E A} (bad : E → bool) (pan : Prop) (m : M S E A) (Q : A → S → Prop) (s : S) : Prop :=
  match m s with
  | (s', Ok a) => Q a s'
  | (_, Err e) => bad e = false
  | (_, Panic) => pan
  end.

Section spec_rules.
Context {S E : Type} (bad : E → bool) (pan : Prop).

Lemma spec_intro {A} (m : M S E A) (Q : A → S → Prop) s :
  (∀ s' r, m s = (s', r) →
     match r with Ok a => Q a s' | Err e => bad e = false | Panic => pan end) →
  spec bad pan m Q s.
Proof. intros H. unfold spec. destruct (m s) as [s' r] eqn:Hm. specialize (H s' r eq_refl). by destruct r. Qed.

Lemma spec_mono {A} (m : M S E A) (Q Q' : A → S → Prop) s :
  spec bad pan m Q s → (∀ a s', Q a s' → Q' a s') → spec bad pan m Q' s.
Proof. unfold spec. destruct (m s) as [s' [a|e|]]; auto. Qed.

Lemma spec_and {A} (m : M S E A) (Q Q' : A → S → Prop) s :
  spec bad pan m Q s → spec bad pan m Q' s → spec bad pan m (λ a s', Q a s' ∧ Q' a s') s.
Proof. unfold spec. destruct (m s) as [s' [a|e|]]; auto. Qed.

Lemma spec_bind {A B} (m : M S E A) (f : A → M S E B) Q Q' s :
  spec bad pan m Q s → (∀ a s', Q a s' → spec bad pan (f a) Q' s') → spec bad pan (m ≫= f) Q' s.
Proof.
  unfold spec, mbind, M_bind. destruct (m s) as [s' [a|e|]]; intros Hm Hf; [by apply Hf|done|done].
Qed.

Lemma spec_ret {A} (a : A) (Q : A → S → Prop) s : Q a s → spec bad pan (mret a) Q s.
Proof. done. Qed.

Lemma spec_get_bind {B} (f : S → M S E B) Q s : spec bad pan (f s) Q s → spec bad pan (get ≫= f) Q s.
Proof. done. Qed.

Lemma spec_modify (f : S → S) (Q : unit → S → Prop) s : Q tt (f s) → spec bad pan (modify f) Q s.
Proof. done. Qed.

Lemma spec_modify_bind {B} (g : S → S) (f : unit → M S E B) Q s :
  spec bad pan (f tt) Q (g s) → spec bad pan (modify g ≫= f) Q s.
Proof. done. Qed.

Lemma spec_lift_bind {A B} (r : Result E A) (f : A → M S E B) Q s :
  match r with Ok a => spec bad pan (f a) Q s | Err e => bad e = false | Panic => pan end →
  spec bad pan (lift r ≫= f) Q s.
Proof. unfold spec, mbind, M_bind, lift. by destruct r. Qed.

Lemma spec_fail_if_bind {B} (b : bool) e (f : unit → M S E B) Q s :
  (b = true → bad e = false) → (b = false → spec bad pan (f tt) Q s) → spec bad pan (fail_if b e ≫= f) Q s.
Proof. unfold spec, mbind, M_bind, fail_if. destruct b; intros Ht Hf; [by apply Ht|by apply Hf]. Qed.

Lemma spec_handle {E' A B} (m : M S E' A) (k : Result E' A → M S E B) Q s :
  (∀ s' r, m s = (s', r) → spec bad pan (k r) Q s') → spec bad pan (handle m k) Q s.
Proof. unfold spec, handle. destruct (m s) as [s' r]. intros H. by apply (H s' r). Qed.
End spec_rules.

Lemma spec_zoom {S T E E' A} (bad : E' → bool) pan (g : S → T) (p : T → S → S) (f : E → E')
    (m : M T E A) (Q : A → S → Prop) s :
  spec (λ e, bad (f e)) pan m (λ a t, Q a (p t s)) (g s) → spec bad pan (zoom g p f m) Q s.
Proof. unfold spec, zoom. by destruct (m (g s)) as [t [a|e|]]. Qed.

(** A component that cannot panic, used where [pan] is allowed. *)
Lemma spec_no_panic {S E A} (bad : E → bool) (pan : Prop) (m : M S E A) Q s :
  spec bad False m Q s → spec bad pan m Q s.
Proof. unfold spec. destruct (m s) as [s' [a|e|]]; done. Qed.

(** A loop with a decreasing measure returns, and what it returns satisfies
    every postcondition that its invariant gives at the exits. *)
Section loops.
Context {St R : Type} (body : St → St + R) (measure : St → Z).
Context (I : St → Prop) (Q : R → Prop).
Context (Hmeasure : ∀ s, I s → 0 ≤ measure s).
Context (Hinl : ∀ s s', I s → body s = inl s' → I s' ∧ measure s' < measure s).
Context (Hinr : ∀ s r, I s → body s = inr r → Q r).

Lemma loop_for_progress p s :
  I s → match loop_for p body s with
        | inl s' => I s' ∧ measure s' + Z.pos p ≤ measure s
        | inr r => Q r
        end.
Proof.
  revert s. induction p as [p IH|p IH|]; intros s Hs; simpl.
  - destruct (body s) as [s1|r] eqn:Hb; [|by eapply Hinr].
    destruct (Hinl _ _ Hs Hb) as [Hs1 Hm1]. specialize (IH s1 Hs1) as IH1.
    destruct (loop_for p body s1) as [s2|r]; [|done]. destruct IH1 as [Hs2 Hm2].
    specialize (IH s2 Hs2). destruct (loop_for p body s2) as [s3|r]; [|done].
    split; [apply IH|lia].
  - specialize (IH s Hs) as IH1.
    destruct (loop_for p body s) as [s2|r]; [|done]. destruct IH1 as [Hs2 Hm2].
    specialize (IH s2 Hs2). destruct (loop_for p body s2) as [s3|r]; [|done].
    split; [apply IH|lia].
  - destruct (body s) as [s1|r] eqn:Hb; [|by eapply Hinr].
    destruct (Hinl _ _ Hs Hb). split; [done|lia].
Qed.

Lemma loop_for_returns p s :
  I s → measure s < Z.pos p → ∃ r, loop_for p body s = inr r ∧ Q r.
Proof.
  intros Hs Hp. pose proof (loop_for_progress p s Hs) as H.
  destruct (loop_for p body s) as [s'|r]; [|eauto].
  destruct H as [Hs' ?]. specialize (Hmeasure s' Hs'). lia.
Qed.
End loops.

(** ** Integers *)
Lemma checked_add_Some max a b c :
  checked_add max a b = Some c ↔ c = a + b ∧ a + b ≤ max.
Proof. unfold checked_add. case_match; split; intros; destruct_and?; simplify_eq; try split; lia || (f_equal; lia). Qed.

Lemma checked_add_None max a b : checked_add max a b = None ↔ max < a + b.
Proof. unfold checked_add. case_match; split; intros; destruct_and?; simplify_eq; try split; lia || (f_equal; lia). Qed.

Lemma checked_sub_Some a b c : checked_sub a b = Some c ↔ c = a - b ∧ b ≤ a.
Proof. unfold checked_sub. case_match; split; intros; destruct_and?; simplify_eq; try split; lia || (f_equal; lia). Qed.

Lemma checked_sub_None a b : checked_sub a b = None ↔ a < b.
Proof. unfold checked_sub. case_match; split; intros; destruct_and?; simplify_eq; try split; lia || (f_equal; lia). Qed.

Lemma checked_mul_Some max a b c :
  checked_mul max a b = Some c ↔ c = a * b ∧ a * b ≤ max.
Proof. unfold checked_mul. case_match; split; intros; destruct_and?; simplify_eq; try split; lia || (f_equal; lia). Qed.

(** Turn the outcomes of checked arithmetic into equations and bounds. *)
Ltac checked :=
  repeat match goal with
  | H : checked_add _ _ _ = Some _ |- _ => apply checked_add_Some in H; destruct H; simplify_eq
  | H : checked_add _ _ _ = None |- _ => apply checked_add_None in H
  | H : checked_sub _ _ = Some _ |- _ => apply checked_sub_Some in H; destruct H; simplify_eq
  | H : checked_sub _ _ = None |- _ => apply checked_sub_None in H
  end.

Lemma div_ceil_spec a b : 0 < b → b * (div_ceil a b - 1) < a ≤ b * div_ceil a b.
Proof.
  intros Hb. unfold div_ceil.
  pose proof (Z.div_mod (a + b - 1) b). pose proof (Z.mod_pos_bound (a + b - 1) b). nia.
Qed.

Lemma div_ceil_mono a a' b : 0 < b → a ≤ a' → div_ceil a b ≤ div_ceil a' b.
Proof. intros. apply Z.div_le_mono; lia. Qed.

Lemma clamp_bounds lo hi x : lo ≤ hi → lo ≤ clamp lo hi x ≤ hi.
Proof. unfold clamp. lia. Qed.

(** ** Lengths, slices and buffers *)
Lemma len_nil {A} : len (@nil A) = 0.
Proof. done. Qed.
Lemma len_cons {A} (x : A) l : len (x :: l) = len l + 1.
Proof. unfold len. simpl. lia. Qed.
Lemma len_app {A} (l k : list A) : len (l ++ k) = len l + len k.
Proof. unfold len. rewrite length_app. lia. Qed.
Lemma len_nonneg {A} (l : list A) : 0 ≤ len l.
Proof. unfold len. lia. Qed.
Lemma len_take {A} n (l : list A) : len (take n l) = Z.min (Z.of_nat n) (len l).
Proof. unfold len. rewrite length_take. lia. Qed.
Lemma len_drop {A} n (l : list A) : len (drop n l) = Z.max 0 (len l - Z.of_nat n).
Proof. unfold len. rewrite length_drop. lia. Qed.
Lemma len_0_nil {A} (l : list A) : len l = 0 → l = [].
Proof. destruct l; [done|]. rewrite len_cons. pose proof (len_nonneg l). lia. Qed.

Lemma slice_Ok {E A} lo hi (buf : list A) :
  0 ≤ lo ≤ hi → hi ≤ len buf →
  slice (E:=E) lo hi buf = Ok (take (Z.to_nat (hi - lo)) (drop (Z.to_nat lo) buf)).
Proof. intros. unfold slice. case_match; [done|lia]. Qed.

(** The middle of a buffer that is known to be [a ++ b ++ c]. *)
Lemma slice_mid {E A} lo hi (a b c : list A) :
  lo = len a → hi = len a + len b → slice (E:=E) lo hi (a ++ b ++ c) = Ok b.
Proof.
  intros -> ->. pose proof (len_nonneg a). pose proof (len_nonneg b). pose proof (len_nonneg c).
  rewrite slice_Ok; [|lia|rewrite !len_app; lia].
  replace (len a + len b - len a) with (len b) by lia. unfold len. rewrite !Nat2Z.id.
  rewrite drop_app_length, take_app_length. done.
Qed.

Lemma slice_end {E A} lo hi (a b : list A) :
  lo = len a → hi = len a + len b → slice (E:=E) lo hi (a ++ b) = Ok b.
Proof. intros. rewrite <- (app_nil_r b) at 1. by apply slice_mid. Qed.

Lemma copy_slice_Ok {E} lo hi src (buf : bytes) :
  0 ≤ lo ≤ hi → hi ≤ len buf → len src = hi - lo →
  copy_slice (E:=E) lo hi src buf =
    (take (Z.to_nat lo) buf ++ src ++ drop (Z.to_nat hi) buf, Ok tt).
Proof. intros. unfold copy_slice. case_match; [done|lia]. Qed.

(** Writing a buffer front to back: [pre] is what has been written so far. *)
Lemma copy_slice_next {E} lo hi src (pre rest : bytes) :
  lo = len pre → len src = hi - lo → hi ≤ len pre + len rest →
  copy_slice (E:=E) lo hi src (pre ++ rest) =
    ((pre ++ src) ++ drop (length src) rest, Ok tt).
Proof.
  intros -> Hsrc Hhi. pose proof (len_nonneg src). pose proof (len_nonneg pre).
  rewrite copy_slice_Ok; [|lia|rewrite len_app; lia|done].
  rewrite take_app_le; [|unfold len; lia].
  rewrite take_ge; [|unfold len; lia].
  replace (Z.to_nat hi) with (length pre + length src)%nat by (unfold len in *; lia).
  rewrite <- drop_drop, drop_app_length, app_assoc. done.
Qed.

Lemma copy_slice_first {E} hi src (rest : bytes) :
  len src = hi → hi ≤ len rest →
  copy_slice (E:=E) 0 hi src rest = (src ++ drop (length src) rest, Ok tt).
Proof. intros. apply (copy_slice_next 0 hi src [] rest); unfold len in *; simpl; lia. Qed.

(** Rewriting the middle of a buffer in place. *)
Lemma on_slice_mid {E E' A} lo hi (f : E → E') (m : M bytes E A) (a b c b' : bytes) r :
  lo = len a → hi = len a + len b → m b = (b', r) →
  on_slice lo hi f m (a ++ b ++ c) = (a ++ b' ++ c, map_err f r).
Proof.
  intros -> -> Hm. unfold on_slice. rewrite slice_mid by done. rewrite Hm.
  f_equal. rewrite take_app_le by (unfold len; lia). rewrite take_ge by (unfold len; lia).
  replace (Z.to_nat (len a + len b)) with (length a + length b)%nat by (unfold len; lia).
  by rewrite <- drop_drop, !drop_app_length.
Qed.

(** ** Big-endian encoding *)
Lemma length_to_be_bytes n x : length (to_be_bytes n x) = n.
Proof. revert x; induction n; intros; simpl; [done|]. rewrite length_app, IHn. simpl. lia. Qed.

Lemma len_to_be_bytes n x : len (to_be_bytes n x) = Z.of_nat n.
Proof. unfold len. by rewrite length_to_be_bytes. Qed.

Lemma from_be_bytes_snoc l b : from_be_bytes (l ++ [b]) = from_be_bytes l * 256 + b.
Proof. unfold from_be_bytes. by rewrite fold_left_app. Qed.

Lemma from_to_be_bytes n x :
  0 ≤ x < 256 ^ Z.of_nat n → from_be_bytes (to_be_bytes n x) = x.
Proof.
  revert x; induction n; intros x Hx.
  - simpl in *. change (from_be_bytes []) with 0. lia.
  - simpl. rewrite from_be_bytes_snoc, IHn.
    + pose proof (Z.div_mod x 256). lia.
    + rewrite Nat2Z.inj_succ, Z.pow_succ_r in Hx by lia.
      split; [apply Z.div_pos; lia|]. apply Z.div_lt_upper_bound; lia.
Qed.

Lemma to_be_bytes_u8 n x : Forall is_u8 (to_be_bytes n x).
Proof.
  revert x; induction n; intros; simpl; [done|].
  apply Forall_app. split; [done|]. constructor; [|done].
  unfold is_u8, U8_MAX. pose proof (Z.mod_pos_bound x 256). lia.
Qed.

Lemma from_be_bytes_bound l :
  Forall is_u8 l → 0 ≤ from_be_bytes l < 256 ^ len l.
Proof.
  induction l as [|b l IH] using rev_ind; intros Hl; [by vm_compute|].
  apply Forall_app in Hl as [Hl Hb]. apply Forall_cons in Hb as [Hb _].
  rewrite from_be_bytes_snoc, len_app. change (len [b]) with 1.
  rewrite Z.pow_add_r by (pose proof (len_nonneg l); lia).
  specialize (IH Hl). unfold is_u8, U8_MAX in Hb. rewrite Z.pow_1_r. lia.
Qed.

Lemma to_from_be_bytes l :
  Forall is_u8 l → to_be_bytes (length l) (from_be_bytes l) = l.
Proof.
  induction l as [|b l IH] using rev_ind; intros Hl; [done|].
  apply Forall_app in Hl as [Hl Hb]. apply Forall_cons in Hb as [Hb _].
  rewrite length_app, Nat.add_comm, from_be_bytes_snoc. simpl.
  unfold is_u8, U8_MAX in Hb.
  rewrite (Z.add_comm _ b), Z.div_add, Z.mod_add, Z.div_small, Z.mod_small by lia.
  by rewrite Z.add_0_l, IH.
Qed.

#[global] Arguments to_be_bytes : simpl never.
#[global] Arguments from_be_bytes : simpl never.

(** ** Chunks *)
Lemma chunks_fuel_concat {A} fuel n (l : list A) :
  (0 < n)%nat → (length l ≤ fuel)%nat → concat (chunks_fuel fuel n l) = l.
Proof.
  intros Hn. revert l; induction fuel; intros l Hl; destruct l as [|x l]; simpl in *; try done; [lia|].
  destruct n; [lia|]. simpl. rewrite IHfuel; [|rewrite length_drop; lia].
  by rewrite take_drop.
Qed.

Lemma chunks_concat {A} n (l : list A) : (0 < n)%nat → concat (chunks n l) = l.
Proof. intros. by apply chunks_fuel_concat. Qed.

Lemma chunks_fuel_bound {A} fuel n (l : list A) :
  (0 < n)%nat → Forall (λ c, 0 < length c ≤ n)%nat (chunks_fuel fuel n l).
Proof.
  intros Hn. revert l; induction fuel; intros l; simpl; [done|].
  destruct l as [|x l]; [done|]. constructor; [|apply IHfuel].
  destruct n; [lia|]. simpl. rewrite length_take. lia.
Qed.

Lemma chunks_bound {A} n (l : list A) :
  (0 < n)%nat → Forall (λ c, 0 < length c ≤ n)%nat (chunks n l).
Proof. apply chunks_fuel_bound. Qed.

Lemma chunks_fuel_length {A} fuel n (l : list A) :
  (0 < n)%nat → (length l ≤ fuel)%nat →
  len (chunks_fuel fuel n l) = div_ceil (len l) (Z.of_nat n).
Proof.
  intros Hn. revert l; induction fuel; intros l Hl; destruct l as [|x l]; simpl in *; try lia.
  - unfold div_ceil. change (len []) with 0. rewrite Z.div_small; unfold len; simpl; lia.
  - unfold div_ceil. change (len []) with 0. rewrite Z.div_small; unfold len; simpl; lia.
  - rewrite len_cons, IHfuel; [|rewrite length_drop; simpl; lia].
    rewrite len_drop. unfold div_ceil.
    destruct (decide (Z.of_nat n ≤ len (x :: l))) as [Hle|Hgt].
    + rewrite Z.max_r by lia.
      replace (len (x :: l) + Z.of_nat n - 1)
        with (len (x :: l) - Z.of_nat n + Z.of_nat n - 1 + 1 * Z.of_nat n) by lia.
      rewrite Z.div_add by lia. lia.
    + rewrite Z.max_l by lia. rewrite Z.div_small by lia.
      pose proof (len_nonneg l). rewrite len_cons in *.
      replace (len l + 1 + Z.of_nat n - 1) with (len l + 1 * Z.of_nat n) by lia.
      rewrite Z.div_add, Z.div_small by lia. lia.
Qed.

Lemma chunks_length {A} n (l : list A) :
  (0 < n)%nat → len (chunks n l) = div_ceil (len l) (Z.of_nat n).
Proof. intros. by apply chunks_fuel_length. Qed.
