(* ===== verification/Limits.v ===== *)
(** * The limits of [src/src/limits.rs]

    One definition per constant, with the value the source gives it. *)

From S2P Require Import Prelude.

Local Open Scope Z_scope.

Definition MAX_BOOTSTRAP_BYTES : Z := 4 * 1024.
Definition MAX_BOOTSTRAP_LINES : Z := 64.
Definition ENCODED_KEY_BYTES : Z := 22.
Definition DECODED_KEY_BYTES : Z := 16.
Definition MAX_DATAGRAM_BYTES : Z := 2 * 1024.
Definition MAX_FRAGMENT_BODY_BYTES : Z := 1400.
Definition MAX_FRAGMENTS_PER_INSTRUCTION : Z := 749.
Definition INCOMPLETE_INSTRUCTION_LIFETIME_MS : Z := 10000.
Definition MAX_COMPRESSED_INSTRUCTION_BYTES : Z := 1024 * 1024.
Definition MAX_DECOMPRESSED_INSTRUCTION_BYTES : Z := 2 * 1024 * 1024.
Definition MAX_STATE_DIFFERENCE_BYTES : Z := 2 * 1024 * 1024.
Definition MAX_INPUT_COMMAND_BYTES : Z := 64 * 1024.
Definition MAX_CLIENT_OPERATIONS_AFTER_ACK : Z := 4096.
Definition SESSION_COMMAND_QUEUE_CAPACITY : Z := 64.
Definition PENDING_OUTPUT_CHUNKS : Z := 1.
Definition MAX_TERMINAL_ROWS : Z := 200.
Definition MAX_TERMINAL_COLUMNS : Z := 500.
Definition MAX_TERMINAL_VISIBLE_CELLS : Z := 100000.
Definition MAX_UNICODE_SCALARS_PER_CELL : Z := 8.
Definition MAX_TERMINAL_OPERATIONS_PER_DIFFERENCE : Z := 4096.
Definition MAX_OUTPUT_CHUNK_BYTES : Z := 2 * 1024 * 1024.
Definition MAX_PENDING_PREDICTION_SCALARS : Z := 32.
Definition MAX_PENDING_PREDICTION_BYTES : Z := 32.
Definition MAX_PREDICTION_AGE_MS : Z := 10000.
Definition ADAPTIVE_PREDICTION_DISABLE_FRAME_MS : Z := 20.
Definition ADAPTIVE_PREDICTION_ENABLE_FRAME_MS : Z := 30.
Definition ADAPTIVE_PREDICTION_GLITCH_MS : Z := 250.
Definition MAX_SENT_STATES_AFTER_ACK : Z := 32.
Definition MAX_RECEIVED_REFERENCE_STATES : Z := 32.
Definition MIN_RETRANSMISSION_TIMEOUT_MS : Z := 50.
Definition MAX_RETRANSMISSION_TIMEOUT_MS : Z := 5000.
Definition INITIAL_RETRANSMISSION_TIMEOUT_MS : Z := 1000.
Definition MAX_RTT_SAMPLE_MS : Z := 60000.
Definition MIN_FRAME_INTERVAL_MS : Z := 20.
Definition MAX_FRAME_INTERVAL_MS : Z := 250.
Definition STATE_CHANGE_COLLECTION_MS : Z := 15.
Definition MAX_ACKNOWLEDGEMENT_DELAY_MS : Z := 100.
Definition HEARTBEAT_INTERVAL_MS : Z := 3000.
Definition NO_RECENT_CONTACT_MS : Z := 6500.
Definition NO_RECENT_REPLY_MS : Z := 10000.
Definition INITIAL_ATTACHMENT_TIMEOUT_MS : Z := 15000.
Definition GRACEFUL_CLOSE_ACK_TIMEOUT_MS : Z := 4000.
Definition MAX_TIMESTAMP_REPLY_AGE_MS : Z := 1000.

(** Evaluate every limit, then decide the linear arithmetic. *)
Ltac limits :=
  unfold MAX_BOOTSTRAP_BYTES, MAX_BOOTSTRAP_LINES, ENCODED_KEY_BYTES, DECODED_KEY_BYTES,
    MAX_DATAGRAM_BYTES, MAX_FRAGMENT_BODY_BYTES, MAX_FRAGMENTS_PER_INSTRUCTION,
    INCOMPLETE_INSTRUCTION_LIFETIME_MS, MAX_COMPRESSED_INSTRUCTION_BYTES,
    MAX_DECOMPRESSED_INSTRUCTION_BYTES, MAX_STATE_DIFFERENCE_BYTES, MAX_INPUT_COMMAND_BYTES,
    MAX_CLIENT_OPERATIONS_AFTER_ACK, SESSION_COMMAND_QUEUE_CAPACITY, PENDING_OUTPUT_CHUNKS,
    MAX_TERMINAL_ROWS, MAX_TERMINAL_COLUMNS, MAX_TERMINAL_VISIBLE_CELLS,
    MAX_UNICODE_SCALARS_PER_CELL, MAX_TERMINAL_OPERATIONS_PER_DIFFERENCE,
    MAX_OUTPUT_CHUNK_BYTES, MAX_PENDING_PREDICTION_SCALARS, MAX_PENDING_PREDICTION_BYTES,
    MAX_PREDICTION_AGE_MS, ADAPTIVE_PREDICTION_DISABLE_FRAME_MS,
    ADAPTIVE_PREDICTION_ENABLE_FRAME_MS, ADAPTIVE_PREDICTION_GLITCH_MS,
    MAX_SENT_STATES_AFTER_ACK, MAX_RECEIVED_REFERENCE_STATES, MIN_RETRANSMISSION_TIMEOUT_MS,
    MAX_RETRANSMISSION_TIMEOUT_MS, INITIAL_RETRANSMISSION_TIMEOUT_MS, MAX_RTT_SAMPLE_MS,
    MIN_FRAME_INTERVAL_MS, MAX_FRAME_INTERVAL_MS, STATE_CHANGE_COLLECTION_MS,
    MAX_ACKNOWLEDGEMENT_DELAY_MS, HEARTBEAT_INTERVAL_MS, NO_RECENT_CONTACT_MS,
    NO_RECENT_REPLY_MS, INITIAL_ATTACHMENT_TIMEOUT_MS, GRACEFUL_CLOSE_ACK_TIMEOUT_MS,
    MAX_TIMESTAMP_REPLY_AGE_MS, USIZE_MAX, U64_MAX, U32_MAX, U16_MAX, U8_MAX in *.

Ltac llia := limits; lia.
