(* ===== verification/BTreeMap.v ===== *)
(** * Ordered maps

    [std::collections::BTreeMap] with unsigned integer keys, as an association
    list in strictly increasing key order. It is used where the code relies on
    iteration in key order; elsewhere a [BTreeMap] is a [gmap]. *)

From S2P Require Import Prelude.

Local Open Scope Z_scope.

Fixpoint bt_get {A} (k : Z) (m : list (Z * A)) : option A :=
  match m with
  | [] => None
  | (k', v) :: m' => if k =? k' then Some v else bt_get k m'
  end.

Fixpoint bt_insert {A} (k : Z) (v : A) (m : list (Z * A)) : list (Z * A) :=
  match m with
  | [] => [(k, v)]
  | (k', v') :: m' =>
      if k <? k' then (k, v) :: m
      else if k =? k' then (k, v) :: m'
      else (k', v') :: bt_insert k v m'
  end.

(** [last_key_value] *)
Definition bt_last {A} (m : list (Z * A)) : option (Z * A) := last m.

Definition bt_keys {A} (m : list (Z * A)) : list Z := m.*1.
Definition bt_values {A} (m : list (Z * A)) : list A := m.*2.

(** Strictly increasing keys: the representation invariant. *)
Definition bt_wf {A} (m : list (Z * A)) : Prop := StronglySorted Z.lt (bt_keys m).

Lemma bt_insert_elem {A} k (v : A) m p :
  p ∈ bt_insert k v m → p = (k, v) ∨ p ∈ m.
Proof.
  induction m as [|[k' v'] m IH]; simpl; [set_solver|].
  repeat case_match; set_solver.
Qed.

Lemma bt_keys_insert {A} k (v : A) m x :
  x ∈ bt_keys (bt_insert k v m) ↔ x = k ∨ x ∈ bt_keys m.
Proof.
  unfold bt_keys. induction m as [|[k' v'] m IH]; simpl; [set_solver|].
  destruct (Z.ltb_spec k k'); [set_solver|].
  destruct (Z.eqb_spec k k') as [->|]; simpl; rewrite ?elem_of_cons; [set_solver|].
  rewrite IH. set_solver.
Qed.

Lemma bt_insert_wf {A} k (v : A) m : bt_wf m → bt_wf (bt_insert k v m).
Proof.
  unfold bt_wf. induction m as [|[k' v'] m IH]; simpl; intros Hwf; [by repeat constructor|].
  inversion Hwf as [|?? Hs Hall]; subst.
  destruct (Z.ltb_spec k k'); simpl.
  { constructor; [done|]. constructor; [done|]. eapply Forall_impl; [done|]. simpl. lia. }
  destruct (Z.eqb_spec k k') as [->|]; simpl; [done|].
  constructor; [by apply IH|]. apply Forall_forall. intros x Hx.
  apply bt_keys_insert in Hx as [->|Hx]; [lia|]. by eapply Forall_forall in Hall.
Qed.

Lemma bt_get_insert {A} k k' (v : A) m :
  bt_wf m → bt_get k (bt_insert k' v m) = if k =? k' then Some v else bt_get k m.
Proof.
  unfold bt_wf. induction m as [|[k1 v1] m IH]; intros Hwf; simpl; [done|].
  inversion Hwf as [|?? Hs Hall]; subst.
  destruct (Z.ltb_spec k' k1); simpl; [done|].
  destruct (Z.eqb_spec k' k1) as [->|]; simpl.
  - by destruct (k =? k1).
  - rewrite IH by done. destruct (Z.eqb_spec k k1), (Z.eqb_spec k k'); congruence.
Qed.

Lemma bt_get_None {A} k (m : list (Z * A)) : bt_get k m = None ↔ k ∉ bt_keys m.
Proof.
  unfold bt_keys. induction m as [|[k' v'] m IH]; simpl; [set_solver|].
  rewrite not_elem_of_cons. destruct (Z.eqb_spec k k'); naive_solver.
Qed.

Lemma bt_get_Some {A} k (v : A) m : bt_wf m → bt_get k m = Some v ↔ (k, v) ∈ m.
Proof.
  unfold bt_wf. induction m as [|[k' v'] m IH]; simpl; intros Hwf; [set_solver|].
  inversion Hwf as [|?? Hs Hall]; subst. rewrite elem_of_cons.
  destruct (Z.eqb_spec k k') as [->|Hne].
  - split; [naive_solver|]. intros [[= ->]|Hin]; [done|]. exfalso.
    eapply Forall_forall in Hall; [|by apply (list_elem_of_fmap_2 fst) in Hin]. simpl in *. lia.
  - rewrite IH by done. naive_solver.
Qed.

(** The list is determined by its keys and its lookup function. *)
Lemma bt_eta {A} (m : list (Z * A)) (f : Z → A) :
  (∀ k v, (k, v) ∈ m → v = f k) → bt_values m = f <$> bt_keys m.
Proof.
  unfold bt_keys, bt_values. induction m as [|[k v] m IH]; intros Hf; csimpl; [done|].
  rewrite IH; [|intros; apply Hf; set_solver]. f_equal. apply Hf. set_solver.
Qed.

Lemma bt_insert_length {A} k (v : A) m :
  bt_get k m = None → length (bt_insert k v m) = S (length m).
Proof.
  induction m as [|[k' v'] m IH]; simpl; intros Hk; [done|].
  destruct (Z.eqb_spec k k'); [done|]. destruct (Z.ltb_spec k k'); simpl; auto.
Qed.

(** The sum of a measure of the values grows by the inserted value's. *)
Definition bt_sum {A} (f : A → Z) (m : list (Z * A)) : Z :=
  foldr (λ p acc, f p.2 + acc) 0 m.

Lemma bt_sum_insert {A} (f : A → Z) k v m :
  bt_get k m = None → bt_sum f (bt_insert k v m) = f v + bt_sum f m.
Proof.
  unfold bt_sum. induction m as [|[k' v'] m IH]; simpl; intros Hk; [done|].
  destruct (Z.eqb_spec k k'); [done|]. destruct (Z.ltb_spec k k'); simpl; [done|].
  rewrite IH by done. lia.
Qed.

Lemma bt_last_Some {A} (m : list (Z * A)) kl vl :
  bt_wf m → bt_last m = Some (kl, vl) → kl ∈ bt_keys m ∧ ∀ k, k ∈ bt_keys m → k ≤ kl.
Proof.
  unfold bt_wf, bt_last, bt_keys. induction m as [|[k' v'] m IH]; simpl; intros Hwf Hl; [done|].
  inversion Hwf as [|?? Hs Hall]; subst. destruct m as [|p m].
  - simplify_eq/=. set_solver.
  - destruct (IH Hs Hl) as [Hin Hmax]. split; [set_solver|].
    intros k [->|Hk]%elem_of_cons; [|by apply Hmax].
    eapply Forall_forall in Hall; [|exact Hin]. simpl in Hall. lia.
Qed.

Lemma sorted_eq (l k : list Z) :
  StronglySorted Z.lt l → StronglySorted Z.lt k → (∀ x, x ∈ l ↔ x ∈ k) → l = k.
Proof.
  intros Hl. revert k. induction Hl as [|x l Hl IH Hx]; intros k Hk Heq.
  { destruct k as [|y k]; [done|]. exfalso. apply (not_elem_of_nil y), Heq. set_solver. }
  inversion Hk as [|y k' Hk' Hy]; subst.
  { exfalso. apply (not_elem_of_nil x), Heq. set_solver. }
  rewrite Forall_forall in Hx, Hy.
  assert (x = y) as ->.
  { assert (Hxk : x ∈ y :: k') by (apply Heq; set_solver).
    assert (Hyl : y ∈ x :: l) by (apply Heq; set_solver).
    apply elem_of_cons in Hxk as [->|Hxk]; [done|]. apply elem_of_cons in Hyl as [->|Hyl]; [done|].
    specialize (Hx _ Hyl). specialize (Hy _ Hxk). lia. }
  f_equal. apply IH; [done|]. intros z. specialize (Heq z). rewrite !elem_of_cons in Heq.
  split; intros Hz; [|].
  - destruct Heq as [[->|?] _]; [by right| |done]. specialize (Hx _ Hz). lia.
  - destruct Heq as [_ [->|?]]; [by right| |done]. specialize (Hy _ Hz). lia.
Qed.

Lemma seqZ_sorted m n : StronglySorted Z.lt (seqZ m n).
Proof.
  destruct (decide (0 ≤ n)) as [Hn|]; [|rewrite seqZ_nil by lia; constructor].
  revert m. pattern n. apply natlike_ind; [|clear n Hn; intros n Hn IH m|done].
  { intros m. rewrite seqZ_nil by lia. constructor. }
  rewrite seqZ_cons by lia. constructor; [replace (Z.pred (Z.succ n)) with n by lia; apply IH|].
  apply Forall_forall. intros x. rewrite elem_of_seqZ. lia.
Qed.
