(* ===== verification/Packet.v ===== *)
(** * Datagram packets: [src/src/crypto.rs] and [src/src/packet.rs]

    The OCB3 cipher comes from the [ocb3] crate and is the interface [Aead];
    everything around it (nonce construction, header layout, bounds, direction
    check, replay window, send sequence, zeroization of rejected plaintext) is
    translated from the source. *)

From S2P Require Import Prelude Limits.

Local Open Scope Z_scope.

(** ** [src/src/crypto.rs] *)
Definition NONCE_BYTES : Z := 12.
Definition TAG_BYTES : Z := 16.

(** The AEAD of the [ocb3] crate with empty associated data. Both calls work
    in place on the buffer; [aead_decrypt] also says whether the tag matched. *)
Class Aead := {
  aead_encrypt : bytes → bytes → bytes → option (bytes * bytes);
  aead_decrypt : bytes → bytes → bytes → bytes → bytes * bool;
}.

(** Documented behaviour of the crate: in-place operation, a 16-byte tag, and
    decryption with the produced tag inverts encryption. *)
Class AeadLaws (A : Aead) : Prop := {
  aead_encrypt_len k n pt ct tag :
    aead_encrypt k n pt = Some (ct, tag) → len ct = len pt ∧ len tag = TAG_BYTES;
  aead_decrypt_len k n ct tag : len (aead_decrypt k n ct tag).1 = len ct;
  aead_roundtrip k n pt ct tag :
    aead_encrypt k n pt = Some (ct, tag) → aead_decrypt k n ct tag = (pt, true);
  aead_encrypt_total k n pt :
    len pt ≤ MAX_DATAGRAM_BYTES → is_Some (aead_encrypt k n pt);
}.

(** [SessionKey] wraps the 16 key bytes, [SessionCrypto] the keyed cipher. *)
Record SessionKey := mkSessionKey { key_bytes : bytes }.
Record SessionCrypto := mkSessionCrypto { crypto_key : bytes }.

Definition SessionCrypto_new (key : SessionKey) : SessionCrypto :=
  mkSessionCrypto (key_bytes key).

Definition SessionCrypto_seal `{Aead} (c : SessionCrypto) (nonce : bytes) :
    M bytes unit bytes :=
  λ buffer,
    match aead_encrypt (crypto_key c) nonce buffer with
    | Some (buffer', tag) => (buffer', Ok tag)
    | None => (buffer, Err tt)
    end.

Definition SessionCrypto_open `{Aead} (c : SessionCrypto) (nonce tag : bytes) :
    M bytes unit unit :=
  λ buffer,
    let '(buffer', ok) := aead_decrypt (crypto_key c) nonce buffer tag in
    (buffer', if ok then Ok tt else Err tt).

(** ** [src/src/packet.rs] *)
Definition HEADER_BYTES : Z := 8.
Definition OVERHEAD_BYTES : Z := HEADER_BYTES + TAG_BYTES.
Definition MAX_PLAINTEXT_BYTES : Z := MAX_DATAGRAM_BYTES - OVERHEAD_BYTES.
Definition MAX_SEQUENCE : Z := Z.shiftl 1 63 - 1.
Definition DIRECTION_MASK : Z := Z.shiftl 1 63.
Definition REPLAY_WINDOW_BITS : Z := 64.

Inductive Direction := ClientToServer | ServerToClient.

#[export] Instance Direction_eq_dec : EqDecision Direction.
Proof. solve_decision. Defined.

Definition header_bit (d : Direction) : Z :=
  match d with
  | ClientToServer => 0
  | ServerToClient => DIRECTION_MASK
  end.

Inductive PacketError :=
  | DatagramTooShort
  | DatagramTooLarge
  | PlaintextTooLarge
  | OutputTooSmall
  | InvalidSequence
  | WrongDirection
  | AuthenticationFailed
  | Replay
  | TooOld
  | SequenceExhausted
  | UnexpectedSource.

#[export] Instance PacketError_eq_dec : EqDecision PacketError.
Proof. solve_decision. Defined.

(** [nonce]: four zero bytes, then the eight header bytes. *)
Fixpoint nonce_loop (header : bytes) (index : nat) (fuel : nat) (n : bytes) : bytes :=
  match fuel with
  | O => n
  | S fuel' =>
      if Z.of_nat index <? HEADER_BYTES
      then nonce_loop header (S index) fuel' (<[(index + 4)%nat := header !!! index]> n)
      else n
  end.

Definition nonce (header : bytes) : bytes :=
  nonce_loop header 0 9 (replicate 12 0).

Record PacketCodec := mkPacketCodec { codec_crypto : SessionCrypto }.

Definition PacketCodec_new (key : SessionKey) : PacketCodec :=
  mkPacketCodec (SessionCrypto_new key).

(** [PacketCodec::seal]; the state is the caller's output buffer. *)
Definition PacketCodec_seal `{Aead} (c : PacketCodec) (direction : Direction)
    (sequence : Z) (plaintext : bytes) : M bytes PacketError Z :=
  fail_if (MAX_SEQUENCE <? sequence) InvalidSequence;;
  fail_if (MAX_PLAINTEXT_BYTES <? len plaintext) PlaintextTooLarge;;
  let datagram_len := OVERHEAD_BYTES + len plaintext in
  output ← get;
  fail_if (len output <? datagram_len) OutputTooSmall;;
  let header := Z.lor (header_bit direction) sequence in
  let header_bytes := to_be_bytes 8 header in
  copy_slice 0 HEADER_BYTES header_bytes;;
  let body_end := HEADER_BYTES + len plaintext in
  copy_slice HEADER_BYTES body_end plaintext;;
  tag ← on_slice HEADER_BYTES body_end (λ _, PlaintextTooLarge)
          (SessionCrypto_seal (codec_crypto c) (nonce header_bytes));
  copy_slice body_end datagram_len tag;;
  mret datagram_len.

(** The plaintext of an [OpenedPacket] is a view of the datagram buffer from
    [HEADER_BYTES] to 16 bytes before its end. *)
Record OpenedPacket := mkOpenedPacket { sequence : Z; plaintext : bytes }.

(** [PacketCodec::open]; the state is the datagram buffer. *)
Definition PacketCodec_open `{Aead} (c : PacketCodec) (expected_direction : Direction) :
    M bytes PacketError OpenedPacket :=
  datagram ← get;
  fail_if (MAX_DATAGRAM_BYTES <? len datagram) DatagramTooLarge;;
  fail_if (len datagram <? OVERHEAD_BYTES) DatagramTooShort;;
  header_bytes ← lift (slice 0 HEADER_BYTES datagram);
  let header := from_be_bytes header_bytes in
  fail_if (negb (Z.land header DIRECTION_MASK =? header_bit expected_direction))
    WrongDirection;;
  let seq := Z.land header MAX_SEQUENCE in
  let body_end := len datagram - TAG_BYTES in
  tag ← lift (slice body_end (len datagram) datagram);
  handle
    (on_slice HEADER_BYTES body_end (λ e, e)
       (SessionCrypto_open (codec_crypto c) (nonce header_bytes) tag))
    (λ r, match r with
          | Ok _ =>
              opened ← get;
              view ← lift (slice HEADER_BYTES body_end opened);
              mret (mkOpenedPacket seq view)
          | Err _ =>
              on_slice HEADER_BYTES body_end (λ e, e) zeroize;;
              throw AuthenticationFailed
          | Panic => lift Panic
          end).

Record ReplayWindow := mkReplayWindow { highest : option Z; seen : Z }.

Definition ReplayWindow_default : ReplayWindow := mkReplayWindow None 0.

(** [ReplayWindow::accept]; [seen] is a [u64], so the shift drops high bits. *)
Definition ReplayWindow_accept (seq : Z) : M ReplayWindow PacketError unit :=
  λ w,
    match highest w with
    | None => (mkReplayWindow (Some seq) 1, Ok tt)
    | Some h =>
        if h <? seq then
          let shift := seq - h in
          (mkReplayWindow (Some seq)
             (if REPLAY_WINDOW_BITS <=? shift then 1
              else Z.lor (Z.land (Z.shiftl (seen w) shift) U64_MAX) 1), Ok tt)
        else
          let distance := h - seq in
          if REPLAY_WINDOW_BITS <=? distance then (w, Err TooOld)
          else
            let bit := Z.shiftl 1 distance in
            if negb (Z.land (seen w) bit =? 0) then (w, Err Replay)
            else (mkReplayWindow (highest w) (Z.lor (seen w) bit), Ok tt)
    end.

Record PacketReceiver := mkPacketReceiver {
  receiver_codec : PacketCodec;
  receiver_direction : Direction;
  receiver_replay : ReplayWindow;
}.

Definition PacketReceiver_new (key : SessionKey) (direction : Direction) : PacketReceiver :=
  mkPacketReceiver (PacketCodec_new key) direction ReplayWindow_default.

(** [PacketReceiver::open]; the state is the receiver and the datagram. *)
Definition PacketReceiver_open `{Aead} :
    M (PacketReceiver * bytes) PacketError OpenedPacket :=
  λ '(r, datagram),
    match PacketCodec_open (receiver_codec r) (receiver_direction r) datagram with
    | (datagram', Ok packet) =>
        match ReplayWindow_accept (sequence packet) (receiver_replay r) with
        | (replay', Ok _) =>
            ((mkPacketReceiver (receiver_codec r) (receiver_direction r) replay', datagram'),
             Ok packet)
        | (replay', Err error) =>
            let '(datagram'', _) :=
              on_slice (E:=PacketError) HEADER_BYTES (len datagram' - TAG_BYTES) (λ e, e)
                zeroize datagram' in
            ((mkPacketReceiver (receiver_codec r) (receiver_direction r) replay', datagram''),
             Err error)
        | (replay', Panic) => ((r, datagram'), Panic)
        end
    | (datagram', Err error) => ((r, datagram'), Err error)
    | (datagram', Panic) => ((r, datagram'), Panic)
    end.

(** Socket addresses of the standard library. *)
Record SocketAddrV4 := mkSocketAddrV4 { ip : Z; port : Z }.
Inductive SocketAddr := V4 (a : SocketAddrV4) | V6 (ip6 : Z) (port6 : Z).

#[export] Instance SocketAddrV4_eq_dec : EqDecision SocketAddrV4.
Proof. solve_decision. Defined.
#[export] Instance SocketAddr_eq_dec : EqDecision SocketAddr.
Proof. solve_decision. Defined.

Definition PacketReceiver_open_from `{Aead} (expected_source : SocketAddrV4)
    (actual_source : SocketAddr) : M (PacketReceiver * bytes) PacketError OpenedPacket :=
  if bool_decide (actual_source = V4 expected_source)
  then PacketReceiver_open
  else throw UnexpectedSource.

(** [SendSequence]: the next sequence number, [None] once exhausted. *)
Definition SendSequence : Type := option Z.
Definition SendSequence_new : SendSequence := Some 0.

Definition SendSequence_take : M SendSequence PacketError Z :=
  λ s,
    match s with
    | None => (s, Err SequenceExhausted)
    | Some seq =>
        (match checked_add U64_MAX seq 1 with
         | Some next => if next <=? MAX_SEQUENCE then Some next else None
         | None => None
         end, Ok seq)
    end.

(** ** The replay window refines a history of accepted numbers

    The abstract receiver remembers every accepted sequence number; the code
    keeps the newest one and a 64-bit mask. *)
Definition accept_spec (history : list Z) (seq : Z) : Result PacketError unit :=
  match history with
  | [] => Ok tt
  | _ =>
      if seq + REPLAY_WINDOW_BITS <=? foldr Z.max 0 history then Err TooOld
      else if bool_decide (seq ∈ history) then Err Replay
      else Ok tt
  end.

Definition accept_spec_next (history : list Z) (seq : Z) : list Z :=
  match accept_spec history seq with Ok _ => seq :: history | _ => history end.

Definition window_rel (w : ReplayWindow) (history : list Z) : Prop :=
  match highest w with
  | None => history = []
  | Some h =>
      h ∈ history ∧ Forall (λ x, 0 ≤ x ≤ h) history ∧
      ∀ d, 0 ≤ d < 64 → Z.testbit (seen w) d = bool_decide (h - d ∈ history)
  end.

(** Outcomes of a sequence of [accept] calls, and of the abstract receiver. *)
Fixpoint accept_all (w : ReplayWindow) (seqs : list Z) : list (Result PacketError unit) :=
  match seqs with
  | [] => []
  | seq :: rest => let '(w', r) := ReplayWindow_accept seq w in r :: accept_all w' rest
  end.

Fixpoint accept_spec_all (history seqs : list Z) : list (Result PacketError unit) :=
  match seqs with
  | [] => []
  | seq :: rest => accept_spec history seq :: accept_spec_all (accept_spec_next history seq) rest
  end.

(** Sequence numbers a receiver delivers for a list of incoming datagrams. *)
Fixpoint delivered `{Aead} (r : PacketReceiver) (datagrams : list bytes) : list Z :=
  match datagrams with
  | [] => []
  | d :: rest =>
      match PacketReceiver_open (r, d) with
      | ((r', _), Ok packet) => sequence packet :: delivered r' rest
      | ((r', _), _) => delivered r' rest
      end
  end.

(** [n] successive calls of [SendSequence::take]. *)
Fixpoint take_many (s : SendSequence) (n : nat) : list (Result PacketError Z) :=
  match n with
  | O => []
  | S n' => let '(s', r) := SendSequence_take s in r :: take_many s' n'
  end.

Lemma newest_eq history h :
  h ∈ history → Forall (λ x, 0 ≤ x ≤ h) history → foldr Z.max 0 history = h.
Proof.
  intros Hin Hall.
  assert (Hle : ∀ l, Forall (λ x, 0 ≤ x ≤ h) l → foldr Z.max 0 l ≤ Z.max 0 h).
  { induction 1; simpl; lia. }
  assert (Hge : ∀ l x, x ∈ l → x ≤ foldr Z.max 0 l).
  { induction l; intros x; simpl; [by intros ?%not_elem_of_nil|].
    intros [->|Hx]%elem_of_cons; [lia|]. specialize (IHl _ Hx). lia. }
  pose proof (Hle _ Hall). pose proof (Hge _ _ Hin).
  rewrite Forall_forall in Hall. specialize (Hall _ Hin). lia.
Qed.

Lemma land_pow2_eq0 a d : 0 ≤ d → (Z.land a (Z.shiftl 1 d) =? 0) = negb (Z.testbit a d).
Proof.
  intros Hd. rewrite Z.shiftl_1_l.
  destruct (Z.testbit a d) eqn:Hb; simpl.
  - apply Z.eqb_neq. intros H0. apply (f_equal (λ z, Z.testbit z d)) in H0.
    rewrite Z.land_spec, Z.pow2_bits_true, Hb, Z.bits_0 in H0 by lia. done.
  - apply Z.eqb_eq. apply Z.bits_inj'. intros n Hn.
    rewrite Z.land_spec, Z.pow2_bits_eqb, Z.bits_0 by lia.
    destruct (Z.eqb_spec d n) as [->|]; [by rewrite Hb|]. by rewrite andb_false_r.
Qed.

Lemma shifted_bit a s d :
  0 < s → 0 ≤ d < 64 →
  Z.testbit (Z.lor (Z.land (Z.shiftl a s) U64_MAX) 1) d =
    (d =? 0) || (s <=? d) && Z.testbit a (d - s).
Proof.
  intros Hs Hd. change U64_MAX with (Z.ones 64).
  rewrite Z.lor_spec, Z.land_spec, Z.shiftl_spec, Z.ones_spec_low by lia.
  rewrite andb_true_r. change 1 with (2 ^ 0). rewrite Z.pow2_bits_eqb by lia.
  rewrite (Z.eqb_sym 0 d), orb_comm. f_equal.
  destruct (Z.leb_spec s d); [done|]. by rewrite Z.testbit_neg_r by lia.
Qed.

Lemma window_rel_default : window_rel ReplayWindow_default [].
Proof. done. Qed.

(** The three ways a number can be accepted. *)
Lemma window_rel_first w seq :
  0 ≤ seq → highest w = None → window_rel (mkReplayWindow (Some seq) 1) [seq].
Proof.
  intros Hseq _. split; [set_solver|]. split; [constructor; [lia|done]|].
  intros d Hd. change 1 with (2 ^ 0). simpl. rewrite Z.pow2_bits_eqb by lia.
  destruct (Z.eqb_spec 0 d); symmetry; [apply bool_decide_eq_true|apply bool_decide_eq_false];
    rewrite list_elem_of_singleton; lia.
Qed.

Lemma window_rel_advance w h history seq :
  window_rel w history → highest w = Some h → h < seq →
  window_rel
    (mkReplayWindow (Some seq)
       (if REPLAY_WINDOW_BITS <=? seq - h then 1
        else Z.lor (Z.land (Z.shiftl (seen w) (seq - h)) U64_MAX) 1))
    (seq :: history).
Proof.
  unfold window_rel at 1. intros Hw Hh Hlt. rewrite Hh in Hw. destruct Hw as (Hin & Hall & Hbits).
  assert (Hold : ∀ x, x ∈ history → 0 ≤ x ≤ h) by (by apply Forall_forall).
  split; [set_solver|]. split.
  { pose proof (Hold _ Hin). constructor; [lia|]. eapply Forall_impl; [done|]. simpl. lia. }
  intros d Hd. simpl. unfold REPLAY_WINDOW_BITS.
  assert (Hgoal : (d =? 0) || bool_decide (seq - d ∈ history) = bool_decide (seq - d ∈ seq :: history)).
  { destruct (Z.eqb_spec d 0) as [->|Hne]; simpl.
    - symmetry. apply bool_decide_eq_true. set_unfold. left. lia.
    - apply bool_decide_ext. rewrite elem_of_cons. split; [by right|]. intros [?|?]; [lia|done]. }
  rewrite <- Hgoal. destruct (Z.leb_spec 64 (seq - h)).
  - change 1 with (2 ^ 0). rewrite Z.pow2_bits_eqb, Z.eqb_sym by lia.
    rewrite (bool_decide_eq_false_2 (seq - d ∈ history)); [by rewrite orb_false_r|].
    intros Hx%Hold. lia.
  - rewrite shifted_bit by lia. f_equal. destruct (Z.leb_spec (seq - h) d); simpl.
    + rewrite Hbits by lia. apply bool_decide_ext. by replace (h - (d - (seq - h))) with (seq - d) by lia.
    + symmetry. apply bool_decide_eq_false. intros Hx%Hold. lia.
Qed.

Lemma window_rel_fill w h history seq :
  window_rel w history → highest w = Some h → 0 ≤ seq ≤ h → h - seq < 64 →
  window_rel (mkReplayWindow (Some h) (Z.lor (seen w) (Z.shiftl 1 (h - seq)))) (seq :: history).
Proof.
  unfold window_rel at 1. intros Hw Hh Hle Hd. rewrite Hh in Hw. destruct Hw as (Hin & Hall & Hbits).
  split; [set_solver|]. split; [by constructor|].
  intros d Hd'. simpl. rewrite Z.lor_spec, Hbits, Z.shiftl_1_l, Z.pow2_bits_eqb by lia.
  destruct (Z.eqb_spec (h - seq) d) as [<-|Hne].
  - rewrite orb_true_r. symmetry. apply bool_decide_eq_true. set_unfold. left. lia.
  - rewrite orb_false_r. apply bool_decide_ext. rewrite elem_of_cons.
    split; [by right|]. intros [?|?]; [lia|done].
Qed.

Lemma accept_refines w history seq :
  window_rel w history → 0 ≤ seq →
  (ReplayWindow_accept seq w).2 = accept_spec history seq ∧
  window_rel (ReplayWindow_accept seq w).1 (accept_spec_next history seq).
Proof.
  intros Hw Hseq. unfold ReplayWindow_accept, accept_spec_next.
  destruct (highest w) as [h|] eqn:Hh.
  2: { unfold window_rel in Hw. rewrite Hh in Hw. subst. simpl.
       split; [done|]. by apply (window_rel_first w). }
  pose proof Hw as Hw'. unfold window_rel in Hw'. rewrite Hh in Hw'.
  destruct Hw' as (Hin & Hall & Hbits).
  assert (Hold : ∀ x, x ∈ history → 0 ≤ x ≤ h) by (by apply Forall_forall).
  assert (Hspec : accept_spec history seq =
    if seq + 64 <=? h then Err TooOld
    else if bool_decide (seq ∈ history) then Err Replay else Ok tt).
  { unfold accept_spec. rewrite (newest_eq history h) by done. destruct history; [set_solver|done]. }
  rewrite Hspec. clear Hspec. unfold REPLAY_WINDOW_BITS in *.
  destruct (Z.ltb_spec h seq).
  - destruct (Z.leb_spec (seq + 64) h); [lia|].
    rewrite bool_decide_eq_false_2; [|intros Hx%Hold; lia].
    split; [done|]. by apply window_rel_advance.
  - destruct (Z.leb_spec 64 (h - seq)), (Z.leb_spec (seq + 64) h); try lia; [done|].
    rewrite land_pow2_eq0, Hbits by lia. replace (h - (h - seq)) with seq by lia.
    destruct (bool_decide (seq ∈ history)); simpl; [done|]. split; [done|].
    by apply window_rel_fill.
Qed.

Lemma accept_all_refines w history seqs :
  window_rel w history → Forall (λ x, 0 ≤ x) seqs →
  accept_all w seqs = accept_spec_all history seqs.
Proof.
  intros Hw Hs. revert w history Hw. induction Hs as [|seq rest Hseq Hs IH]; intros; simpl; [done|].
  destruct (accept_refines w history seq Hw Hseq) as [Hr Hw'].
  destruct (ReplayWindow_accept seq w) as [w' r]. simpl in *. by rewrite Hr, (IH w' _ Hw').
Qed.

(** ** Header arithmetic *)
Lemma header_bit_range d : 0 ≤ header_bit d ≤ DIRECTION_MASK.
Proof. destruct d; vm_compute; split; discriminate. Qed.

Lemma header_lor_add d seq :
  0 ≤ seq ≤ MAX_SEQUENCE → Z.lor (header_bit d) seq = header_bit d + seq.
Proof.
  intros Hseq. rewrite Z.add_nocarry_lxor, Z.lxor_lor; [done|..].
  all: destruct d; simpl; [done|]; apply Z.bits_inj'; intros n Hn;
    rewrite Z.land_spec, Z.bits_0; change DIRECTION_MASK with (2 ^ 63);
    rewrite Z.pow2_bits_eqb by lia; destruct (Z.eqb_spec 63 n) as [<-|]; [|done];
    rewrite andb_true_l; rewrite <- (Z.mod_small seq (2 ^ 63));
    [apply Z.mod_pow2_bits_high; lia|]; change MAX_SEQUENCE with (2 ^ 63 - 1) in Hseq; lia.
Qed.

Lemma header_direction d seq :
  0 ≤ seq ≤ MAX_SEQUENCE → Z.land (Z.lor (header_bit d) seq) DIRECTION_MASK = header_bit d.
Proof.
  intros Hseq. change DIRECTION_MASK with (Z.shiftl 1 63) in *.
  apply Z.bits_inj'. intros n Hn. rewrite Z.land_spec, Z.lor_spec, Z.shiftl_1_l, Z.pow2_bits_eqb by lia.
  assert (Hs : Z.testbit seq 63 = false).
  { rewrite <- (Z.mod_small seq (2 ^ 63)); [apply Z.mod_pow2_bits_high; lia|].
    change MAX_SEQUENCE with (2 ^ 63 - 1) in Hseq. lia. }
  assert (Hd : Z.testbit (header_bit d) n = (63 =? n) && Z.testbit (header_bit d) 63).
  { destruct d; simpl; [by rewrite Z.bits_0, andb_false_r|].
    change DIRECTION_MASK with (2 ^ 63). rewrite !Z.pow2_bits_eqb by lia. by rewrite andb_true_r. }
  destruct (Z.eqb_spec 63 n) as [<-|Hne]; simpl in *.
  - by rewrite Hs, orb_false_r, andb_true_r.
  - by rewrite Hd, andb_false_r.
Qed.

Lemma header_sequence d seq :
  0 ≤ seq ≤ MAX_SEQUENCE → Z.land (Z.lor (header_bit d) seq) MAX_SEQUENCE = seq.
Proof.
  intros Hseq. rewrite header_lor_add by done.
  change MAX_SEQUENCE with (Z.ones 63) in *. rewrite Z.land_ones by lia.
  change (Z.ones 63) with (2 ^ 63 - 1) in Hseq.
  destruct d; simpl; [apply Z.mod_small; lia|].
  change DIRECTION_MASK with (1 * 2 ^ 63). rewrite Z.add_comm, Z.mod_add, Z.mod_small; lia.
Qed.

Lemma header_range d seq :
  0 ≤ seq ≤ MAX_SEQUENCE → 0 ≤ Z.lor (header_bit d) seq < 256 ^ 8.
Proof.
  intros Hseq. rewrite header_lor_add by done. pose proof (header_bit_range d).
  change MAX_SEQUENCE with (2 ^ 63 - 1) in *. change DIRECTION_MASK with (2 ^ 63) in *. lia.
Qed.

(** [nonce] really is the zero-padded header. *)
Lemma nonce_eq h : length h = 8%nat → nonce h = [0; 0; 0; 0] ++ h.
Proof. intros. do 9 (destruct h as [|? h]; [try done|]); done. Qed.

Lemma nonce_inj h h' : length h = 8%nat → length h' = 8%nat → nonce h = nonce h' → h = h'.
Proof. intros ??. rewrite !nonce_eq by done. by intros [=]. Qed.

(** ** The codec *)
Lemma sequence_range header : 0 ≤ Z.land header MAX_SEQUENCE ≤ MAX_SEQUENCE.
Proof.
  change MAX_SEQUENCE with (Z.ones 63). rewrite Z.land_ones by lia.
  change (Z.ones 63) with (2 ^ 63 - 1). pose proof (Z.mod_pos_bound header (2 ^ 63)). lia.
Qed.

Section codec.
Context `{HA : Aead} {HL : AeadLaws HA}.

Lemma PacketCodec_open_sequence c d datagram datagram' p :
  PacketCodec_open c d datagram = (datagram', Ok p) → 0 ≤ sequence p ≤ MAX_SEQUENCE.
Proof.
  unfold PacketCodec_open. run. intros H. cases. apply sequence_range.
Qed.

Lemma on_slice_zeroize {E} lo hi (buf : bytes) :
  0 ≤ lo ≤ hi → hi ≤ len buf →
  on_slice (E':=E) lo hi (λ e, e) zeroize buf =
    (take (Z.to_nat lo) buf ++ replicate (Z.to_nat (hi - lo)) 0 ++ drop (Z.to_nat hi) buf, Ok tt).
Proof.
  intros. unfold on_slice. rewrite slice_Ok by lia. simpl.
  rewrite length_take, length_drop. repeat f_equal. unfold len in *. lia.
Qed.

(** What [seal] writes: header, ciphertext and tag at the front of the buffer. *)
Lemma PacketCodec_seal_Ok c d seq pt out :
  0 ≤ seq ≤ MAX_SEQUENCE → len pt ≤ MAX_PLAINTEXT_BYTES → OVERHEAD_BYTES + len pt ≤ len out →
  ∃ ct tag,
    aead_encrypt (crypto_key (codec_crypto c))
      (nonce (to_be_bytes 8 (Z.lor (header_bit d) seq))) pt = Some (ct, tag) ∧
    len ct = len pt ∧ len tag = TAG_BYTES ∧
    PacketCodec_seal c d seq pt out =
      ((to_be_bytes 8 (Z.lor (header_bit d) seq) ++ ct ++ tag) ++
         drop (Z.to_nat (OVERHEAD_BYTES + len pt)) out,
       Ok (OVERHEAD_BYTES + len pt)).
Proof.
  intros Hseq Hpt Hout. set (h := to_be_bytes 8 _).
  assert (Hh : len h = 8) by apply len_to_be_bytes.
  pose proof (len_nonneg pt). unfold OVERHEAD_BYTES, MAX_PLAINTEXT_BYTES in *.
  destruct (aead_encrypt_total (crypto_key (codec_crypto c)) (nonce h) pt) as [[ct tag] Henc].
  { unfold OVERHEAD_BYTES, HEADER_BYTES, TAG_BYTES in *. lia. }
  destruct (aead_encrypt_len _ _ _ _ _ Henc) as [Hct Htag].
  exists ct, tag. split_and!; [done..|].
  unfold PacketCodec_seal. fold h.
  change HEADER_BYTES with 8 in *. change TAG_BYTES with 16 in *.
  change MAX_DATAGRAM_BYTES with 2048 in *. change MAX_PLAINTEXT_BYTES with 2024 in *.
  change OVERHEAD_BYTES with 24 in *.
  mstep; [apply fail_if_false; lia|]. mstep; [apply fail_if_false; lia|].
  mstep; [done|]. mstep; [apply fail_if_false; lia|].
  mstep; [apply copy_slice_first; lia|].
  mstep; [apply copy_slice_next; [lia|lia|rewrite len_drop; unfold len in *; lia]|].
  rewrite <- app_assoc.
  mstep; [rewrite (on_slice_mid _ _ _ _ _ _ _ ct (Ok tag)); [done|lia|lia|]|].
  { unfold SessionCrypto_seal. by rewrite Henc. }
  rewrite app_assoc.
  mstep; [apply copy_slice_next; [rewrite len_app; lia|lia|]|].
  { rewrite len_app, !len_drop. unfold len in *. lia. }
  unfold mret, M_ret. f_equal. rewrite !drop_drop, <- !app_assoc. do 4 f_equal. unfold len in *. lia.
Qed.

Lemma PacketCodec_open_sealed c d seq pt ct tag :
  0 ≤ seq ≤ MAX_SEQUENCE → len pt ≤ MAX_PLAINTEXT_BYTES →
  len ct = len pt → len tag = TAG_BYTES →
  aead_encrypt (crypto_key (codec_crypto c))
    (nonce (to_be_bytes 8 (Z.lor (header_bit d) seq))) pt = Some (ct, tag) →
  PacketCodec_open c d (to_be_bytes 8 (Z.lor (header_bit d) seq) ++ ct ++ tag) =
    (to_be_bytes 8 (Z.lor (header_bit d) seq) ++ pt ++ tag, Ok (mkOpenedPacket seq pt)).
Proof.
  intros Hseq Hpt Hct Htag Henc. set (h := to_be_bytes 8 _) in *.
  assert (Hh : len h = 8) by apply len_to_be_bytes.
  pose proof (len_nonneg pt).
  assert (Hlen : len (h ++ ct ++ tag) = 24 + len pt).
  { rewrite !len_app. change TAG_BYTES with 16 in Htag. lia. }
  unfold PacketCodec_open. mstep; [done|]. rewrite Hlen.
  change OVERHEAD_BYTES with 24. change HEADER_BYTES with 8.
  change TAG_BYTES with 16 in *. change MAX_PLAINTEXT_BYTES with 2024 in Hpt.
  change MAX_DATAGRAM_BYTES with 2048.
  mstep; [apply fail_if_false; lia|]. mstep; [apply fail_if_false; lia|].
  mstep; [unfold lift; f_equal; apply (slice_mid _ _ [] h (ct ++ tag)); unfold len in *; simpl; lia|].
  assert (Hf : from_be_bytes h = Z.lor (header_bit d) seq).
  { apply from_to_be_bytes. by apply header_range. }
  rewrite Hf, header_direction, header_sequence, Z.eqb_refl by done.
  mstep; [by apply fail_if_false|].
  mstep; [unfold lift; f_equal; rewrite (app_assoc h);
          apply slice_end; rewrite ?len_app; lia|].
  erewrite handle_step; [|apply (on_slice_mid _ _ _ _ _ _ _ pt (Ok tt)); [lia|lia|]].
  - cbn [map_err]. mstep; [done|]. mstep; [|done].
    unfold lift. f_equal. apply slice_mid; lia.
  - unfold SessionCrypto_open. by rewrite (aead_roundtrip _ _ _ _ _ Henc).
Qed.

(** [open] never panics and, when it rejects a datagram, either leaves it alone
    or has overwritten the whole plaintext region with zeros. *)
Lemma PacketCodec_open_cases c d datagram :
  match PacketCodec_open c d datagram with
  | (datagram', Ok p) => len datagram' = len datagram ∧ OVERHEAD_BYTES ≤ len datagram ∧
      slice (E:=PacketError) HEADER_BYTES (len datagram - TAG_BYTES) datagram' = Ok (plaintext p)
  | (datagram', Err AuthenticationFailed) =>
      datagram' = take 8 datagram ++ replicate (Z.to_nat (len datagram - OVERHEAD_BYTES)) 0 ++
                  drop (Z.to_nat (len datagram - TAG_BYTES)) datagram
  | (datagram', Err (DatagramTooLarge | DatagramTooShort | WrongDirection)) => datagram' = datagram
  | (_, Err _) | (_, Panic) => False
  end.
Proof.
  unfold PacketCodec_open, fail_if.
  change OVERHEAD_BYTES with 24. change HEADER_BYTES with 8. change TAG_BYTES with 16.
  mstep; [done|].
  destruct (Z.ltb_spec MAX_DATAGRAM_BYTES (len datagram)); [done|]. mstep; [done|].
  destruct (Z.ltb_spec (len datagram) 24); [done|]. mstep; [done|].
  mstep; [unfold lift; f_equal; apply slice_Ok; lia|].
  set (hb := take _ (drop (Z.to_nat 0) datagram)).
  destruct (negb _); [done|]. mstep; [done|].
  mstep; [unfold lift; f_equal; apply slice_Ok; lia|]. set (tag := take _ (drop _ datagram)).
  unfold handle, on_slice. rewrite slice_Ok by lia. set (body := take _ (drop (Z.to_nat 8) datagram)).
  assert (Hbody : len body = len datagram - 24) by (unfold body; rewrite len_take, len_drop; lia).
  unfold SessionCrypto_open. pose proof (aead_decrypt_len (crypto_key (codec_crypto c)) (nonce hb) body tag) as Hdl.
  destruct (aead_decrypt _ _ body tag) as [body' ok]. simpl in Hdl.
  set (post := take (Z.to_nat 8) datagram ++ body' ++ drop (Z.to_nat (len datagram - 16)) datagram).
  assert (Hpost : len post = len datagram).
  { unfold post. rewrite !len_app, len_take, len_drop. lia. }
  destruct ok; cbn [map_err].
  - mstep; [done|]. mstep; [unfold lift; f_equal; apply slice_Ok; lia|]. simpl.
    split_and!; [lia|lia|]. by rewrite slice_Ok by lia.
  - mstep; [unfold on_slice; rewrite slice_Ok by lia; done|]. simpl.
    rewrite length_take, length_drop. unfold throw.
    replace (_ `min` _)%nat with (Z.to_nat (len datagram - 24)) by (unfold len in *; lia).
    unfold post. rewrite take_app_le by (rewrite length_take; unfold len in *; lia).
    rewrite take_take, Nat.min_id. f_equal. f_equal.
    rewrite app_assoc, drop_app_ge by (rewrite length_app, length_take; unfold len in *; lia).
    rewrite length_app, length_take, drop_drop. f_equal. unfold len in *. lia.
Qed.

(** A rejected datagram leaves the receiver as it was. *)
Lemma PacketReceiver_open_rejected r datagram r' datagram' e :
  PacketReceiver_open (r, datagram) = ((r', datagram'), Err e) → r' = r.
Proof.
  unfold PacketReceiver_open. destruct (PacketCodec_open _ _ datagram) as [d1 [p|e1|]]; [|by intros [= ->]|done].
  destruct (ReplayWindow_accept _ _) as [w [[]|e1|]] eqn:Hw; [done| |done].
  destruct (on_slice _ _ _ _ d1) as [d2 x]. intros [= <- _ _].
  unfold ReplayWindow_accept in Hw. destruct r as [c d w0]. simpl in *. cases.
Qed.

(** Opening a datagram fails only with the errors of a rejected datagram. *)
Lemma PacketReceiver_open_cases r datagram :
  match (PacketReceiver_open (r, datagram)).2 with
  | Ok _ | Err (DatagramTooLarge | DatagramTooShort | WrongDirection | AuthenticationFailed | Replay | TooOld) => True
  | _ => False
  end.
Proof.
  unfold PacketReceiver_open.
  pose proof (PacketCodec_open_cases (receiver_codec r) (receiver_direction r) datagram) as Hc.
  destruct (PacketCodec_open _ _ datagram) as [d1 [p|e|]]; [|by destruct e|done].
  unfold ReplayWindow_accept. destruct (highest (receiver_replay r)); [|done].
  repeat split_if; simpl; try done; by destruct (on_slice _ _ _ _ _).
Qed.

Lemma delivered_fresh r datagrams history :
  window_rel (receiver_replay r) history →
  NoDup (delivered r datagrams) ∧ ∀ x, x ∈ delivered r datagrams → x ∉ history.
Proof.
  clear HL. revert r history. induction datagrams as [|d rest IH]; intros r history Hw; simpl.
  { split; [constructor|]. intros x Hx. set_solver. }
  unfold PacketReceiver_open.
  destruct (PacketCodec_open _ _ d) as [d' [p|e|]] eqn:Hopen; [|by apply IH..].
  apply PacketCodec_open_sequence in Hopen.
  destruct (accept_refines _ _ (sequence p) Hw) as [Hr Hw']; [lia|].
  destruct (ReplayWindow_accept _ _) as [w' res]. simpl in *. subst res.
  unfold accept_spec_next in Hw'.
  destruct (accept_spec history (sequence p)) as [[]|e|] eqn:Hspec.
  - edestruct (IH (mkPacketReceiver (receiver_codec r) (receiver_direction r) w')) as [Hnd Hfresh]; [exact Hw'|].
    split.
    + constructor; [|done]. intros Hin. apply (Hfresh _ Hin). set_solver.
    + intros x [->|Hx]%elem_of_cons; [|by apply Hfresh in Hx; set_solver].
      unfold accept_spec in Hspec. destruct history; [set_solver|]. cases.
      by eapply bool_decide_eq_false_1.
  - destruct (on_slice _ _ _ _ _) as [d'' ?]. by apply IH.
  - by apply IH.
Qed.

End codec.

Lemma take_many_in_order n m :
  Z.of_nat m ≤ MAX_SEQUENCE →
  take_many (Some (Z.of_nat m)) n =
    map Ok (seqZ (Z.of_nat m) (Z.min (Z.of_nat n) (MAX_SEQUENCE - Z.of_nat m + 1))) ++
    replicate (Z.to_nat (Z.of_nat n - (MAX_SEQUENCE - Z.of_nat m + 1))) (Err SequenceExhausted).
Proof.
  revert m. induction n; intros m Hm.
  { rewrite Z.min_l by lia. simpl. replace (Z.to_nat _) with O by lia. done. }
  simpl take_many. assert (HU : MAX_SEQUENCE < U64_MAX) by done.
  rewrite seqZ_cons by lia. simpl.
  replace (checked_add U64_MAX (Z.of_nat m) 1) with (Some (Z.of_nat m + 1))
    by (symmetry; apply checked_add_Some; lia).
  destruct (Z.leb_spec (Z.of_nat m + 1) MAX_SEQUENCE).
  - replace (Z.of_nat m + 1) with (Z.of_nat (S m)) by lia. rewrite IHn by lia.
    do 3 f_equal; [f_equal; lia|]. f_equal. lia.
  - assert (Hex : ∀ k, take_many None k = replicate k (Err SequenceExhausted)).
    { induction k; simpl; [done|]. by rewrite IHk. }
    rewrite Hex. f_equal. rewrite Z.min_r by lia.
    replace (Z.pred _) with 0 by lia. simpl. f_equal. lia.
Qed.

(** ** Main theorems *)

(** C9. Over any sequence of arriving sequence numbers the 64-bit replay window
    gives exactly the verdicts of a receiver that remembers every number it
    ever accepted: accept, [Replay], or [TooOld] when 64 or more behind. *)
Theorem replay_window_refines_history (seqs : list Z) :
  Forall (λ x, 0 ≤ x) seqs →
  accept_all ReplayWindow_default seqs = accept_spec_all [] seqs.
Proof. apply accept_all_refines, window_rel_default. Qed.

Lemma replay_window_refines_history_witness :
  accept_all ReplayWindow_default [5; 3; 5; 70; 6; 7; 7] =
    accept_spec_all [] [5; 3; 5; 70; 6; 7; 7] ∧
  accept_spec_all [] [5; 3; 5; 70; 6; 7; 7] =
    [Ok tt; Ok tt; Err Replay; Ok tt; Err TooOld; Ok tt; Err Replay].
Proof.
  split; [apply replay_window_refines_history; repeat constructor; lia | vm_compute; reflexivity].
Defined.

(** C10. Whatever datagrams arrive, in whatever order and however often, a
    receiver never delivers two packets with the same sequence number. *)
Theorem received_at_most_once `{Aead} (key : SessionKey) (d : Direction)
    (datagrams : list bytes) :
  NoDup (delivered (PacketReceiver_new key d) datagrams).
Proof. eapply delivered_fresh. apply window_rel_default. Qed.

(** C23. The nonce determines direction and sequence number, so distinct packets
    of a session never share a nonce. *)
Theorem nonce_unique (d d' : Direction) (s s' : Z) :
  0 ≤ s ≤ MAX_SEQUENCE → 0 ≤ s' ≤ MAX_SEQUENCE →
  nonce (to_be_bytes 8 (Z.lor (header_bit d) s)) =
    nonce (to_be_bytes 8 (Z.lor (header_bit d') s')) →
  d = d' ∧ s = s'.
Proof.
  intros Hs Hs' Hn. apply nonce_inj in Hn; [|apply length_to_be_bytes..].
  apply (f_equal from_be_bytes) in Hn.
  rewrite !from_to_be_bytes in Hn by (by apply header_range).
  pose proof (header_direction d s Hs) as H1. pose proof (header_sequence d s Hs) as H2.
  rewrite Hn, header_direction in H1 by done. rewrite Hn, header_sequence in H2 by done.
  split; [|done]. by destruct d, d'.
Qed.

Lemma nonce_unique_witness :
  nonce (to_be_bytes 8 (Z.lor (header_bit ServerToClient) 7)) =
    [0; 0; 0; 0; 128; 0; 0; 0; 0; 0; 0; 7] ∧
  (ServerToClient = ServerToClient ∧ 7 = 7).
Proof.
  split; [vm_compute; reflexivity|].
  apply (nonce_unique ServerToClient ServerToClient 7 7); [by vm_compute..|reflexivity].
Defined.

(** [SendSequence::take] hands out 0, 1, 2, ... up to [MAX_SEQUENCE] and
    reports [SequenceExhausted] for ever after: no number is handed out twice. *)
Theorem send_sequence_in_order (n : nat) :
  take_many SendSequence_new n =
    map Ok (seqZ 0 (Z.min (Z.of_nat n) (MAX_SEQUENCE + 1))) ++
    replicate (Z.to_nat (Z.of_nat n - (MAX_SEQUENCE + 1))) (Err SequenceExhausted).
Proof.
  pose proof (take_many_in_order n 0) as H. change (Z.of_nat 0) with 0 in H.
  rewrite Z.sub_0_r in H. apply H. by vm_compute.
Qed.

(** C24. What [seal] writes, a receiver with the same key and direction opens to
    the same plaintext and sequence number, and the number is then used up: the
    same datagram again is a [Replay]. *)
Theorem seal_open_roundtrip `{HA : Aead} `{!AeadLaws HA} (key : SessionKey) (d : Direction)
    (seq : Z) (pt out : bytes) :
  0 ≤ seq ≤ MAX_SEQUENCE → len pt ≤ MAX_PLAINTEXT_BYTES → OVERHEAD_BYTES + len pt ≤ len out →
  ∃ out' n r' buf',
    PacketCodec_seal (PacketCodec_new key) d seq pt out = (out', Ok n) ∧
    n = OVERHEAD_BYTES + len pt ∧
    PacketReceiver_open (PacketReceiver_new key d, take (Z.to_nat n) out') =
      ((r', buf'), Ok (mkOpenedPacket seq pt)) ∧
    (PacketReceiver_open (r', take (Z.to_nat n) out')).2 = Err Replay.
Proof.
  intros Hseq Hpt Hout.
  destruct (PacketCodec_seal_Ok (PacketCodec_new key) d seq pt out)
    as (ct & tag & Henc & Hct & Htag & Hseal); [done..|].
  pose proof (PacketCodec_open_sealed (PacketCodec_new key) d seq pt ct tag
                Hseq Hpt Hct Htag Henc) as Hopen.
  set (h := to_be_bytes 8 _) in *.
  assert (Hh : len h = 8) by apply len_to_be_bytes.
  assert (Htake : take (Z.to_nat (OVERHEAD_BYTES + len pt))
    ((h ++ ct ++ tag) ++ drop (Z.to_nat (OVERHEAD_BYTES + len pt)) out) = h ++ ct ++ tag).
  { apply take_app_length'. change OVERHEAD_BYTES with 24. change TAG_BYTES with 16 in Htag.
    rewrite !length_app. unfold len in *. lia. }
  eexists _, _, _, _. split; [exact Hseal|]. split; [done|]. rewrite Htake.
  unfold PacketReceiver_open, PacketReceiver_new. cbn [receiver_codec receiver_direction].
  rewrite Hopen. cbn [sequence ReplayWindow_accept ReplayWindow_default highest receiver_replay].
  split; [done|]. cbn [receiver_codec receiver_direction].
  rewrite Hopen. cbn [sequence].
  unfold ReplayWindow_accept. cbn [highest receiver_replay seen].
  rewrite Z.ltb_irrefl, Z.sub_diag. simpl. by destruct (on_slice _ _ _ _ _).
Qed.

(** A concrete cipher that satisfies the interface: no encryption, and a tag of
    sixteen bytes that must match. *)
Definition null_aead : Aead := {|
  aead_encrypt := λ _ _ pt, Some (pt, replicate 16 170);
  aead_decrypt := λ _ _ ct tag, (ct, bytes_eqb tag (replicate 16 170));
|}.

Lemma null_aead_laws : AeadLaws null_aead.
Proof.
  split; simpl.
  - intros ????? [= <- <-]. done.
  - done.
  - intros ????? [= <- <-]. done.
  - eauto.
Qed.

Lemma seal_open_roundtrip_witness :
  ∃ out' n r' buf',
    PacketCodec_seal (H:=null_aead) (PacketCodec_new (mkSessionKey (replicate 16 1)))
      ClientToServer 3 [104; 105] (replicate 40 9) = (out', Ok n) ∧
    n = OVERHEAD_BYTES + len [104; 105] ∧
    PacketReceiver_open (H:=null_aead)
      (PacketReceiver_new (mkSessionKey (replicate 16 1)) ClientToServer, take (Z.to_nat n) out') =
      ((r', buf'), Ok (mkOpenedPacket 3 [104; 105])) ∧
    (PacketReceiver_open (H:=null_aead) (r', take (Z.to_nat n) out')).2 = Err Replay.
Proof.
  apply (seal_open_roundtrip (HA:=null_aead) (AeadLaws0:=null_aead_laws)
           (mkSessionKey (replicate 16 1)) ClientToServer 3 [104; 105] (replicate 40 9));
    by vm_compute.
Defined.

(** C25. A datagram that fails authentication or is a replay discloses nothing:
    its plaintext region is all zeros afterwards and the receiver is unchanged;
    every other rejection leaves datagram and receiver untouched. [open] does
    not panic. *)
Theorem rejected_datagram_zeroized `{HA : Aead} `{!AeadLaws HA} (r r' : PacketReceiver)
    (datagram datagram' : bytes) (res : Result PacketError OpenedPacket) :
  PacketReceiver_open (r, datagram) = ((r', datagram'), res) →
  match res with
  | Ok _ => True
  | Err (AuthenticationFailed | Replay | TooOld) =>
      r' = r ∧ slice (E:=PacketError) HEADER_BYTES (len datagram - TAG_BYTES) datagram' =
        Ok (replicate (Z.to_nat (len datagram - OVERHEAD_BYTES)) 0)
  | Err _ => r' = r ∧ datagram' = datagram
  | Panic => False
  end.
Proof.
  unfold PacketReceiver_open. intros Hopen.
  pose proof (PacketCodec_open_cases (receiver_codec r) (receiver_direction r) datagram) as Hc.
  assert (Hlen : ∀ b, PacketCodec_open (receiver_codec r) (receiver_direction r) datagram =
    (b, Err AuthenticationFailed) → OVERHEAD_BYTES ≤ len datagram).
  { unfold PacketCodec_open. run. intros. cases; lia. }
  destruct (PacketCodec_open _ _ datagram) as [d1 [p|e|]] eqn:Hcodec; [..|done].
  - destruct Hc as (Hl & Hge & _). change OVERHEAD_BYTES with 24 in *.
    rewrite on_slice_zeroize in Hopen by (change TAG_BYTES with 16; change HEADER_BYTES with 8; lia).
    unfold ReplayWindow_accept in Hopen.
    assert (Hz : slice (E:=PacketError) HEADER_BYTES (len datagram - TAG_BYTES)
      (take (Z.to_nat HEADER_BYTES) d1 ++
       replicate (Z.to_nat (len d1 - TAG_BYTES - HEADER_BYTES)) 0 ++
       drop (Z.to_nat (len d1 - TAG_BYTES)) d1) = Ok (replicate (Z.to_nat (len datagram - 24)) 0)).
    { rewrite Hl. change HEADER_BYTES with 8. change TAG_BYTES with 16.
      replace (len datagram - 16 - 8) with (len datagram - 24) by lia.
      apply slice_mid; unfold len in *; rewrite length_take, ?length_replicate; lia. }
    destruct r; simpl in *. cases; simplify_eq/=; by destruct receiver_replay0.
  - destruct e; simplify_eq; try done.
    split; [done|]. specialize (Hlen _ eq_refl). change OVERHEAD_BYTES with 24 in *.
    change HEADER_BYTES with 8. change TAG_BYTES with 16.
    apply slice_mid; unfold len in *; rewrite length_take, ?length_replicate; lia.
Qed.

Lemma rejected_datagram_zeroized_witness :
  ∃ datagram',
    PacketReceiver_open (H:=null_aead)
      (PacketReceiver_new (mkSessionKey []) ClientToServer, replicate 8 0 ++ [1; 2] ++ replicate 16 5) =
      ((PacketReceiver_new (mkSessionKey []) ClientToServer, datagram'), Err AuthenticationFailed) ∧
    slice (E:=PacketError) HEADER_BYTES 10 datagram' = Ok [0; 0].
Proof.
  eexists. split; [vm_compute; reflexivity|].
  refine (proj2 (rejected_datagram_zeroized (HA:=null_aead) (AeadLaws0:=null_aead_laws)
    (PacketReceiver_new (mkSessionKey []) ClientToServer) _
    (replicate 8 0 ++ [1; 2] ++ replicate 16 5) _ (Err AuthenticationFailed) _)).
  vm_compute. reflexivity.
Defined.
