(* ===== verification/Fragment.v ===== *)
(** * Fragments and reassembly: [src/src/fragment.rs]

    The 14-byte fragment envelope, its encoder and decoder, and the bounded
    reassembler that keeps at most one incomplete instruction. *)

From S2P Require Import Prelude Limits BTreeMap.

Local Open Scope Z_scope.

Definition TIMESTAMP_BYTES : Z := 2.
Definition TIMESTAMP_REPLY_BYTES : Z := 2.
Definition IDENTIFIER_BYTES : Z := 8.
Definition FRAGMENT_WORD_BYTES : Z := 2.
Definition FRAGMENT_HEADER_BYTES : Z :=
  TIMESTAMP_BYTES + TIMESTAMP_REPLY_BYTES + IDENTIFIER_BYTES + FRAGMENT_WORD_BYTES.
Definition FINAL_FRAGMENT_BIT : Z := Z.shiftl 1 15.
Definition MAX_FRAGMENT_NUMBER : Z := FINAL_FRAGMENT_BIT - 1.
Definition NO_TIMESTAMP_REPLY : Z := U16_MAX.

Inductive FragmentError :=
  | TooShort
  | BodyTooLarge
  | FragmentNumberOutOfRange
  | FragmentOutputTooSmall.

Inductive ReassemblyError :=
  | ReassemblyNumberOutOfRange
  | ConflictingFragment
  | InstructionTooLarge
  | TooManyIncompleteInstructions
  | ReassemblyTimeMovedBackwards
  | ReassemblyTimerExhausted.

#[export] Instance FragmentError_eq_dec : EqDecision FragmentError.
Proof. solve_decision. Defined.
#[export] Instance ReassemblyError_eq_dec : EqDecision ReassemblyError.
Proof. solve_decision. Defined.

Inductive ReassemblyOutcome :=
  | Pending
  | Duplicate
  | Complete (instruction : bytes).

#[export] Instance ReassemblyOutcome_eq_dec : EqDecision ReassemblyOutcome.
Proof. solve_decision. Defined.

Record Fragment := mkFragment {
  timestamp : Z;
  timestamp_reply : option Z;
  identifier : Z;
  number : Z;
  is_final : bool;
  body : bytes;
}.

Record StoredFragment := mkStoredFragment { stored_body : bytes; stored_final : bool }.

#[export] Instance StoredFragment_eq_dec : EqDecision StoredFragment.
Proof. solve_decision. Defined.

Record IncompleteInstruction := mkIncompleteInstruction {
  inc_identifier : Z;
  created_at_ms : Z;
  stored_bytes : Z;
  final_number : option Z;
  fragments : list (Z * StoredFragment);
}.

Inductive InsertKind := New | DuplicateKind.

Definition IncompleteInstruction_new (id created : Z) : IncompleteInstruction :=
  mkIncompleteInstruction id created 0 None [].

(** [IncompleteInstruction::classify] *)
Definition classify (i : IncompleteInstruction) (f : Fragment) : Result ReassemblyError InsertKind :=
  match bt_get (number f) (fragments i) with
  | Some existing =>
      if bytes_eqb (stored_body existing) (body f) && eqb (stored_final existing) (is_final f)
      then Ok DuplicateKind
      else Err ConflictingFragment
  | None =>
      if is_some_and (final_number i) (λ n, n <? number f)
         || is_final f &&
            (bool_decide (is_Some (final_number i))
             || is_some_and (bt_last (fragments i)) (λ p, number f <? p.1))
      then Err ConflictingFragment
      else Ok New
  end.

(** [IncompleteInstruction::insert] *)
Definition insert_fragment (f : Fragment) (i : IncompleteInstruction) : IncompleteInstruction :=
  mkIncompleteInstruction (inc_identifier i) (created_at_ms i)
    (stored_bytes i + len (body f))
    (if is_final f then Some (number f) else final_number i)
    (bt_insert (number f) (mkStoredFragment (body f) (is_final f)) (fragments i)).

(** [IncompleteInstruction::is_complete] *)
Definition is_complete (i : IncompleteInstruction) : bool :=
  match final_number i with
  | None => false
  | Some n =>
      (len (fragments i) =? n + 1) && bool_decide (bt_keys (fragments i) = seqZ 0 (n + 1))
  end.

(** [IncompleteInstruction::assemble] *)
Definition assemble (i : IncompleteInstruction) : bytes :=
  concat (stored_body <$> bt_values (fragments i)).

Record FragmentReassembler := mkFragmentReassembler {
  incomplete : option IncompleteInstruction;
  last_observed_ms : Z;
}.

Definition FragmentReassembler_new (started_at_ms : Z) : FragmentReassembler :=
  mkFragmentReassembler None started_at_ms.

Definition set_incomplete (i : option IncompleteInstruction) (r : FragmentReassembler) :=
  mkFragmentReassembler i (last_observed_ms r).

(** [FragmentReassembler::observe_time] *)
Definition reassembler_observe_time (now_ms : Z) : M FragmentReassembler ReassemblyError unit :=
  r ← get;
  fail_if (now_ms <? last_observed_ms r) ReassemblyTimeMovedBackwards;;
  put (mkFragmentReassembler (incomplete r) now_ms).

(** [FragmentReassembler::expire_due] *)
Definition expire_due (now_ms : Z) : M FragmentReassembler ReassemblyError Z :=
  r ← get;
  expired ← match incomplete r with
            | None => mret false
            | Some i =>
                deadline ← lift (ok_or ReassemblyTimerExhausted
                  (checked_add U64_MAX (created_at_ms i) INCOMPLETE_INSTRUCTION_LIFETIME_MS));
                mret (deadline <=? now_ms)
            end;
  if expired : bool then put (set_incomplete None r);; mret 1 else mret 0.

(** [FragmentReassembler::push] *)
Definition push (now_ms : Z) (f : Fragment) :
    M FragmentReassembler ReassemblyError ReassemblyOutcome :=
  reassembler_observe_time now_ms;;
  expire_due now_ms;;
  fail_if (MAX_FRAGMENTS_PER_INSTRUCTION <=? number f) ReassemblyNumberOutOfRange;;
  r ← get;
  match incomplete r with
  | Some i =>
      if inc_identifier i =? identifier f then
        match classify i f with
        | Err error => put (set_incomplete None r);; throw error
        | Panic => lift Panic
        | Ok DuplicateKind => mret Duplicate
        | Ok New =>
            instruction_bytes ← lift (ok_or InstructionTooLarge
              (checked_add USIZE_MAX (stored_bytes i) (len (body f))));
            fail_if (MAX_COMPRESSED_INSTRUCTION_BYTES <? instruction_bytes) InstructionTooLarge;;
            let i' := insert_fragment f i in
            if is_complete i'
            then put (set_incomplete None r);; mret (Complete (assemble i'))
            else put (set_incomplete (Some i') r);; mret Pending
        end
      else if (number f =? 0) && is_final f then
        if len (body f) <=? MAX_COMPRESSED_INSTRUCTION_BYTES
        then mret (Complete (body f)) else throw InstructionTooLarge
      else throw TooManyIncompleteInstructions
  | None =>
      if (number f =? 0) && is_final f then
        if len (body f) <=? MAX_COMPRESSED_INSTRUCTION_BYTES
        then mret (Complete (body f)) else throw InstructionTooLarge
      else
        fail_if (MAX_COMPRESSED_INSTRUCTION_BYTES <? len (body f)) InstructionTooLarge;;
        put (set_incomplete
               (Some (insert_fragment f (IncompleteInstruction_new (identifier f) now_ms))) r);;
        mret Pending
  end.

(** [FragmentReassembler::expire] *)
Definition expire (now_ms : Z) : M FragmentReassembler ReassemblyError Z :=
  reassembler_observe_time now_ms;; expire_due now_ms.

(** [FragmentReassembler::clear] *)
Definition clear : M FragmentReassembler ReassemblyError Z :=
  r ← get;
  put (set_incomplete None r);;
  mret (if incomplete r then 1 else 0).

Definition incomplete_count (r : FragmentReassembler) : Z := if incomplete r then 1 else 0.

Definition reassembler_stored_bytes (r : FragmentReassembler) : Z :=
  match incomplete r with Some i => stored_bytes i | None => 0 end.

(** [encode]; the state is the output buffer. *)
Definition encode (ts : Z) (reply : option Z) (id num : Z) (fin : bool) (payload : bytes) :
    M bytes FragmentError Z :=
  fail_if (MAX_FRAGMENT_NUMBER <? num) FragmentNumberOutOfRange;;
  fail_if (MAX_FRAGMENT_BODY_BYTES <? len payload) BodyTooLarge;;
  let encoded_len := FRAGMENT_HEADER_BYTES + len payload in
  output ← get;
  fail_if (len output <? encoded_len) FragmentOutputTooSmall;;
  copy_slice 0 2 (to_be_bytes 2 ts);;
  copy_slice 2 4 (to_be_bytes 2 (default NO_TIMESTAMP_REPLY reply));;
  copy_slice 4 12 (to_be_bytes 8 id);;
  let fragment_word := Z.lor num (if fin then FINAL_FRAGMENT_BIT else 0) in
  copy_slice 12 14 (to_be_bytes 2 fragment_word);;
  copy_slice FRAGMENT_HEADER_BYTES encoded_len payload;;
  mret encoded_len.

(** [decode] *)
Definition decode (plaintext : bytes) : Result FragmentError Fragment :=
  if len plaintext <? FRAGMENT_HEADER_BYTES then Err TooShort
  else
    payload ← slice FRAGMENT_HEADER_BYTES (len plaintext) plaintext;
    if MAX_FRAGMENT_BODY_BYTES <? len payload then Err BodyTooLarge
    else
      ts ← slice 0 2 plaintext;
      raw_reply ← slice 2 4 plaintext;
      id ← slice 4 12 plaintext;
      word ← slice 12 14 plaintext;
      let reply := from_be_bytes raw_reply in
      let fragment_word := from_be_bytes word in
      Ok (mkFragment (from_be_bytes ts)
            (if reply =? NO_TIMESTAMP_REPLY then None else Some reply)
            (from_be_bytes id)
            (Z.land fragment_word MAX_FRAGMENT_NUMBER)
            (negb (Z.land fragment_word FINAL_FRAGMENT_BIT =? 0))
            payload).

(** ** The envelope *)
Lemma fragment_word_number num (fin : bool) :
  0 ≤ num ≤ MAX_FRAGMENT_NUMBER →
  Z.land (Z.lor num (if fin then FINAL_FRAGMENT_BIT else 0)) MAX_FRAGMENT_NUMBER = num.
Proof.
  intros Hn. change MAX_FRAGMENT_NUMBER with (Z.ones 15) in *.
  rewrite Z.land_lor_distr_l.
  replace (Z.land (if fin then FINAL_FRAGMENT_BIT else 0) (Z.ones 15)) with 0 by (by destruct fin).
  rewrite Z.lor_0_r, Z.land_ones, Z.mod_small; [done|change (Z.ones 15) with 32767 in Hn; lia|lia].
Qed.

Lemma fragment_word_final num (fin : bool) :
  0 ≤ num ≤ MAX_FRAGMENT_NUMBER →
  negb (Z.land (Z.lor num (if fin then FINAL_FRAGMENT_BIT else 0)) FINAL_FRAGMENT_BIT =? 0) = fin.
Proof.
  intros Hn. rewrite Z.land_lor_distr_l.
  assert (H0 : Z.land num FINAL_FRAGMENT_BIT = 0).
  { apply Z.bits_inj'. intros k Hk. rewrite Z.land_spec, Z.bits_0.
    unfold FINAL_FRAGMENT_BIT. rewrite Z.shiftl_1_l, Z.pow2_bits_eqb by lia.
    destruct (Z.eqb_spec 15 k) as [<-|]; [|by rewrite andb_false_r].
    rewrite <- (Z.mod_small num (2 ^ 15)); [by rewrite Z.mod_pow2_bits_high by lia|].
    change MAX_FRAGMENT_NUMBER with 32767 in Hn. lia. }
  rewrite H0. by destruct fin.
Qed.

Lemma fragment_word_range num (fin : bool) :
  0 ≤ num ≤ MAX_FRAGMENT_NUMBER →
  0 ≤ Z.lor num (if fin then FINAL_FRAGMENT_BIT else 0) < 256 ^ 2.
Proof.
  intros Hn. change MAX_FRAGMENT_NUMBER with 32767 in Hn.
  split; [apply Z.lor_nonneg; split; [lia|by destruct fin]|].
  destruct fin; [|rewrite Z.lor_0_r; lia].
  apply Z.log2_lt_cancel. rewrite Z.log2_lor by (lia || done).
  change (Z.log2 (256 ^ 2)) with 16. change (Z.log2 FINAL_FRAGMENT_BIT) with 15.
  assert (Z.log2 num ≤ Z.log2 32767) by (apply Z.log2_le_mono; lia).
  change (Z.log2 32767) with 14 in *. lia.
Qed.

(** The bytes an envelope occupies. *)
Definition envelope (ts : Z) (reply : option Z) (id num : Z) (fin : bool) (payload : bytes) : bytes :=
  to_be_bytes 2 ts ++ to_be_bytes 2 (default NO_TIMESTAMP_REPLY reply) ++
  to_be_bytes 8 id ++ to_be_bytes 2 (Z.lor num (if fin then FINAL_FRAGMENT_BIT else 0)) ++ payload.

Lemma len_envelope ts reply id num fin payload :
  len (envelope ts reply id num fin payload) = 14 + len payload.
Proof. unfold envelope. rewrite !len_app, !len_to_be_bytes. lia. Qed.

Ltac buffer_lia :=
  rewrite ?len_app, ?len_drop, ?length_to_be_bytes, ?len_to_be_bytes; lia.

Lemma encode_Ok ts reply id num fin payload out :
  num ≤ MAX_FRAGMENT_NUMBER → len payload ≤ MAX_FRAGMENT_BODY_BYTES →
  FRAGMENT_HEADER_BYTES + len payload ≤ len out →
  encode ts reply id num fin payload out =
    (envelope ts reply id num fin payload ++ drop (Z.to_nat (14 + len payload)) out,
     Ok (14 + len payload)).
Proof.
  intros Hn Hp Ho. pose proof (len_nonneg payload). unfold encode.
  change FRAGMENT_HEADER_BYTES with 14 in *.
  mstep; [apply fail_if_false; lia|]. mstep; [apply fail_if_false; lia|].
  mstep; [done|]. mstep; [apply fail_if_false; lia|].
  mstep; [apply copy_slice_first; buffer_lia|].
  mstep; [apply copy_slice_next; buffer_lia|].
  mstep; [apply copy_slice_next; buffer_lia|].
  mstep; [apply copy_slice_next; buffer_lia|].
  mstep; [apply copy_slice_next; buffer_lia|].
  unfold mret, M_ret, envelope. f_equal. rewrite !drop_drop, <- !app_assoc, !length_to_be_bytes.
  do 6 f_equal. unfold len in *. lia.
Qed.

Lemma decode_envelope ts reply id num fin payload :
  is_u16 ts → (∀ r, reply = Some r → 0 ≤ r < U16_MAX) → is_u64 id →
  0 ≤ num ≤ MAX_FRAGMENT_NUMBER → len payload ≤ MAX_FRAGMENT_BODY_BYTES →
  decode (envelope ts reply id num fin payload) = Ok (mkFragment ts reply id num fin payload).
Proof.
  intros Hts Hr Hid Hn Hp. pose proof (len_nonneg payload).
  unfold is_u16, is_u64 in *. unfold decode. rewrite len_envelope.
  change FRAGMENT_HEADER_BYTES with 14.
  destruct (Z.ltb_spec (14 + len payload) 14); [lia|].
  set (a := to_be_bytes 2 ts). set (b := to_be_bytes 2 (default NO_TIMESTAMP_REPLY reply)).
  set (c := to_be_bytes 8 id). set (d := to_be_bytes 2 (Z.lor num (if fin then FINAL_FRAGMENT_BIT else 0))).
  assert (Ha : len a = 2) by apply len_to_be_bytes. assert (Hb : len b = 2) by apply len_to_be_bytes.
  assert (Hc : len c = 8) by apply len_to_be_bytes. assert (Hd : len d = 2) by apply len_to_be_bytes.
  assert (Hrep : 0 ≤ default NO_TIMESTAMP_REPLY reply < 256 ^ 2).
  { destruct reply as [r|]; simpl; [specialize (Hr r eq_refl); llia|]. unfold NO_TIMESTAMP_REPLY. llia. }
  assert (Hfa : from_be_bytes a = ts) by (apply from_to_be_bytes; llia).
  assert (Hfb : from_be_bytes b = default NO_TIMESTAMP_REPLY reply) by (by apply from_to_be_bytes).
  assert (Hfc : from_be_bytes c = id) by (apply from_to_be_bytes; llia).
  assert (Hfd : from_be_bytes d = Z.lor num (if fin then FINAL_FRAGMENT_BIT else 0))
    by (apply from_to_be_bytes, fragment_word_range; done).
  change (envelope ts reply id num fin payload) with (a ++ b ++ c ++ d ++ payload).
  clearbody a b c d.
  replace (slice 14 (14 + len payload) (a ++ b ++ c ++ d ++ payload)) with (Ok (E:=FragmentError) payload).
  2: { symmetry. rewrite (app_assoc c), (app_assoc b), (app_assoc a). apply slice_end; rewrite !len_app; lia. }
  simpl. destruct (Z.ltb_spec MAX_FRAGMENT_BODY_BYTES (len payload)); [lia|].
  replace (slice 0 2 (a ++ b ++ c ++ d ++ payload)) with (Ok (E:=FragmentError) a).
  2: { symmetry. apply (slice_mid 0 2 [] a); unfold len in *; simpl; lia. }
  replace (slice 2 4 (a ++ b ++ c ++ d ++ payload)) with (Ok (E:=FragmentError) b).
  2: { symmetry. apply slice_mid; lia. }
  replace (slice 4 12 (a ++ b ++ c ++ d ++ payload)) with (Ok (E:=FragmentError) c).
  2: { symmetry. rewrite (app_assoc a). apply slice_mid; rewrite ?len_app; lia. }
  replace (slice 12 14 (a ++ b ++ c ++ d ++ payload)) with (Ok (E:=FragmentError) d).
  2: { symmetry. rewrite (app_assoc b), (app_assoc a). apply slice_mid; rewrite ?len_app; lia. }
  simpl. rewrite Hfa, Hfb, Hfc, Hfd, fragment_word_number, fragment_word_final by done. do 2 f_equal.
  destruct reply as [r|]; simpl; [|done]. specialize (Hr r eq_refl). unfold NO_TIMESTAMP_REPLY.
  destruct (Z.eqb_spec r U16_MAX); [lia|done].
Qed.

Lemma decode_cases p :
  match decode p with
  | Ok f => 14 ≤ len p ∧ len (body f) = len p - 14 ∧ len (body f) ≤ MAX_FRAGMENT_BODY_BYTES ∧
            0 ≤ number f ≤ MAX_FRAGMENT_NUMBER
  | Err TooShort => len p < 14
  | Err BodyTooLarge => MAX_FRAGMENT_BODY_BYTES < len p - 14
  | _ => False
  end.
Proof.
  unfold decode. change FRAGMENT_HEADER_BYTES with 14.
  destruct (Z.ltb_spec (len p) 14); [done|].
  rewrite !slice_Ok by lia. cbn [mbind Result_bind].
  assert (Hl : len (take (Z.to_nat (len p - 14)) (drop (Z.to_nat 14) p)) = len p - 14).
  { rewrite len_take, len_drop. lia. }
  destruct (Z.ltb_spec MAX_FRAGMENT_BODY_BYTES (len (take (Z.to_nat (len p - 14)) (drop (Z.to_nat 14) p)))); [lia|].
  cbn [body number].
  split_and!; [lia|lia|lia|..]; change MAX_FRAGMENT_NUMBER with (Z.ones 15);
    rewrite Z.land_ones by lia; set (w := from_be_bytes _);
    pose proof (Z.mod_pos_bound w (2 ^ 15)); change (Z.ones 15) with 32767; lia.
Qed.

(** ** Reassembler invariant *)
Definition stored_len (s : StoredFragment) : Z := len (stored_body s).

Definition incomplete_inv (i : IncompleteInstruction) : Prop :=
  bt_wf (fragments i) ∧
  Forall (λ p, 0 ≤ p.1 < MAX_FRAGMENTS_PER_INSTRUCTION) (fragments i) ∧
  stored_bytes i = bt_sum stored_len (fragments i) ∧
  stored_bytes i ≤ MAX_COMPRESSED_INSTRUCTION_BYTES ∧
  (∀ n, final_number i = Some n → n ∈ bt_keys (fragments i) ∧ ∀ k, k ∈ bt_keys (fragments i) → k ≤ n) ∧
  is_complete i = false.

Definition reassembler_inv (r : FragmentReassembler) : Prop :=
  ∀ i, incomplete r = Some i → incomplete_inv i.

Lemma insert_fragment_inv i f :
  incomplete_inv i → classify i f = Ok New → 0 ≤ number f < MAX_FRAGMENTS_PER_INSTRUCTION →
  stored_bytes i + len (body f) ≤ MAX_COMPRESSED_INSTRUCTION_BYTES →
  is_complete (insert_fragment f i) = false → incomplete_inv (insert_fragment f i).
Proof.
  intros (Hwf & Hk & Hsum & Hmax & Hfin & _) Hc Hn Hb Hic.
  unfold classify in Hc. destruct (bt_get _ _) eqn:Hget; [cases|].
  destruct (_ || _) eqn:Hcl in Hc; [done|].
  split_and!; simpl; [by apply bt_insert_wf| |by rewrite Hsum, bt_sum_insert; [unfold stored_len; simpl; lia|]|done| |done].
  - apply Forall_forall. intros p [->|Hp]%bt_insert_elem; [done|]. by eapply Forall_forall in Hk.
  - intros n Hfn. apply orb_false_iff in Hcl as [Hgt Hf]. destruct (is_final f).
    + simplify_eq. split; [apply bt_keys_insert; by left|].
      intros k [->|Hin]%bt_keys_insert; [done|].
      apply andb_false_iff in Hf as [?|Hf]; [done|]. apply orb_false_iff in Hf as [_ Hl].
      destruct (bt_last (fragments i)) as [[kl vl]|] eqn:Hlast.
      * apply bt_last_Some in Hlast as [_ Hmaxk]; [|done]. specialize (Hmaxk _ Hin). simpl in Hl. lia.
      * unfold bt_last in Hlast. apply last_None in Hlast. rewrite Hlast in Hin. set_solver.
    + specialize (Hfin n Hfn) as [Hin Hle]. rewrite Hfn in Hgt. simpl in Hgt.
      split; [apply bt_keys_insert; by right|].
      intros k [->|Hk']%bt_keys_insert; [lia|]. by apply Hle.
Qed.

Lemma new_instruction_inv f now :
  0 ≤ number f < MAX_FRAGMENTS_PER_INSTRUCTION → (number f =? 0) && is_final f = false →
  len (body f) ≤ MAX_COMPRESSED_INSTRUCTION_BYTES →
  incomplete_inv (insert_fragment f (IncompleteInstruction_new (identifier f) now)).
Proof.
  intros Hn Hz Hl. split_and!; simpl.
  - repeat constructor.
  - constructor; [done|constructor].
  - unfold stored_len. simpl. lia.
  - lia.
  - intros n. destruct (is_final f); intros; simplify_eq. unfold bt_keys. simpl. set_solver.
  - unfold is_complete. simpl. destruct (is_final f); [|done].
    apply andb_false_iff. left. apply Z.eqb_neq. unfold len. simpl. lia.
Qed.

Lemma expire_due_inv now r r' x :
  reassembler_inv r → expire_due now r = (r', x) →
  reassembler_inv r' ∧ last_observed_ms r' = last_observed_ms r ∧ no_panic x.
Proof.
  intros Hi. unfold expire_due, no_panic. run. intros H. cases; split_and!; try done.
Qed.

Lemma observe_time_inv now r r' x :
  reassembler_observe_time now r = (r', x) →
  incomplete r' = incomplete r ∧ no_panic x ∧ (x = Ok tt → last_observed_ms r' = now).
Proof. unfold reassembler_observe_time, no_panic. run. intros H. cases. Qed.

Lemma len_assemble i : len (assemble i) = bt_sum stored_len (fragments i).
Proof.
  unfold assemble, bt_values, bt_sum, stored_len. induction (fragments i) as [|[k v] m IH]; csimpl; [done|].
  rewrite len_app, IH. done.
Qed.

Lemma stored_bytes_insert f i : stored_bytes (insert_fragment f i) = stored_bytes i + len (body f).
Proof. done. Qed.

Lemma push_inv now f r :
  reassembler_inv r → 0 ≤ number f →
  wp (push now f)
    (λ r' x, reassembler_inv r' ∧ no_panic x ∧
       ∀ v, x = Ok (Complete v) → len v ≤ MAX_COMPRESSED_INSTRUCTION_BYTES) r.
Proof.
  intros Hi Hn. apply wp_bind, wp_intro.
  intros r1 x1 (Hinc & Hnp & _)%observe_time_inv.
  destruct x1 as [[]|e|]; [|by split_and!; [intros i; rewrite Hinc; apply Hi|..]|done].
  apply wp_bind, wp_intro. intros r2 x2 He.
  apply expire_due_inv in He as (Hi2 & _ & Hnp2); [|intros i; rewrite Hinc; apply Hi].
  destruct x2 as [z|e|]; [|by split_and!|done].
  clear r r1 Hi Hinc Hnp Hnp2. unfold wp, no_panic. run.
  destruct (Z.leb_spec MAX_FRAGMENTS_PER_INSTRUCTION (number f)); simpl; [done|].
  destruct (incomplete r2) as [i|] eqn:Hinc.
  - specialize (Hi2 i Hinc). assert (Hk : reassembler_inv r2) by (intros ?; by rewrite Hinc; intros [= <-]).
    destruct (inc_identifier i =? identifier f).
    2: { cases; split_and!; try done; naive_solver lia. }
    destruct (classify i f) as [[]|e|] eqn:Hc; simpl; [|done|done|].
    2: { exfalso. unfold classify in Hc. cases. }
    unfold checked_add. destruct (Z.leb_spec (stored_bytes i + len (body f)) USIZE_MAX); simpl; [|done].
    destruct (Z.ltb_spec MAX_COMPRESSED_INSTRUCTION_BYTES (stored_bytes i + len (body f))); simpl; [done|].
    destruct (is_complete (insert_fragment f i)) eqn:Hic; simpl; split_and!; try done.
    + intros v [= <-]. rewrite len_assemble. destruct Hi2 as (Hwf & _ & Hsum & _).
      unfold classify in Hc. destruct (bt_get _ _) eqn:Hget; [cases|].
      simpl. rewrite bt_sum_insert by done. unfold stored_len at 1. simpl. lia.
    + intros ? [= <-]. by apply insert_fragment_inv.
  - assert (Hk : reassembler_inv r2) by (intros ?; by rewrite Hinc).
    destruct ((number f =? 0) && is_final f) eqn:Hz; simpl.
    + cases; split_and!; try done. intros v [= <-]. lia.
    + destruct (Z.ltb_spec MAX_COMPRESSED_INSTRUCTION_BYTES (len (body f))); simpl; split_and!; try done.
      intros ? [= <-]. by apply new_instruction_inv.
Qed.

(** ** Reassembly in any order *)

(** [f] is fragment [number f] of the instruction [id] cut into [bs]. *)
Definition is_piece (id : Z) (bs : list bytes) (f : Fragment) : Prop :=
  identifier f = id ∧ 0 ≤ number f ∧ bs !! Z.to_nat (number f) = Some (body f) ∧
  is_final f = (number f =? len bs - 1).

(** Push a list of (arrival time, fragment) pairs; collect the outcomes. *)
Fixpoint push_all (r : FragmentReassembler) (arrivals : list (Z * Fragment)) :
    FragmentReassembler * list (Result ReassemblyError ReassemblyOutcome) :=
  match arrivals with
  | [] => (r, [])
  | (now, f) :: rest =>
      let '(r', x) := push now f r in
      let '(r'', xs) := push_all r' rest in (r'', x :: xs)
  end.

(** The stored fragments are exactly the pieces with the numbers in [ns]. *)
Definition holds_pieces (i : IncompleteInstruction) (bs : list bytes) (ns : list Z) : Prop :=
  bt_wf (fragments i) ∧
  (∀ k, k ∈ bt_keys (fragments i) ↔ k ∈ ns) ∧
  len (fragments i) = len ns ∧
  (∀ k s, (k, s) ∈ fragments i → 0 ≤ k ∧ bs !! Z.to_nat k = Some (stored_body s)) ∧
  stored_bytes i = bt_sum stored_len (fragments i) ∧
  final_number i = if bool_decide (len bs - 1 ∈ ns) then Some (len bs - 1) else None.

Definition collecting (r : FragmentReassembler) (id t0 : Z) (bs : list bytes) (ns : list Z) : Prop :=
  ∃ i, incomplete r = Some i ∧ inc_identifier i = id ∧ created_at_ms i = t0 ∧
       NoDup ns ∧ holds_pieces i bs ns.

Lemma is_piece_range id bs f : is_piece id bs f → 0 ≤ number f < len bs.
Proof. intros (_ & ? & Hl & _). apply lookup_lt_Some in Hl. unfold len. lia. Qed.

Lemma sum_submseteq (f : Z → Z) (l k : list Z) :
  (∀ x, x ∈ k → 0 ≤ f x) → l ⊆+ k → foldr (λ x acc, f x + acc) 0 l ≤ foldr (λ x acc, f x + acc) 0 k.
Proof.
  intros Hf Hs. apply submseteq_Permutation in Hs as [k' Hk].
  assert (Hperm : ∀ a b : list Z, a ≡ₚ b →
    foldr (λ x acc, f x + acc) 0 a = foldr (λ x acc, f x + acc) 0 b).
  { induction 1; simpl; lia. }
  rewrite (Hperm _ _ Hk). clear Hperm.
  assert (Hk' : ∀ x, x ∈ k' → 0 ≤ f x) by (intros x Hx; apply Hf; rewrite Hk; set_solver).
  assert (0 ≤ foldr (λ x acc, f x + acc) 0 k').
  { clear Hk. induction k'; simpl; [lia|]. specialize (IHk' ltac:(set_solver)).
    specialize (Hk' a ltac:(set_solver)). lia. }
  clear Hk Hf. induction l; simpl; lia.
Qed.

Lemma pieces_seqZ (bs : list bytes) : (λ k, bs !!! Z.to_nat k) <$> seqZ 0 (len bs) = bs.
Proof.
  apply list_eq. intros i. rewrite list_lookup_fmap. destruct (decide (i < length bs)%nat).
  - rewrite lookup_seqZ_lt by (unfold len; lia). simpl.
    replace (Z.to_nat (0 + Z.of_nat i)) with i by lia. symmetry. apply list_lookup_lookup_total_lt. lia.
  - rewrite lookup_seqZ_ge by (unfold len; lia). simpl. symmetry. apply lookup_ge_None. lia.
Qed.

Lemma len_concat_pieces (bs : list bytes) :
  foldr (λ k acc, len (bs !!! Z.to_nat k) + acc) 0 (seqZ 0 (len bs)) = len (concat bs).
Proof.
  assert (Hmap : ∀ ks : list Z, foldr (λ k acc, len (bs !!! Z.to_nat k) + acc) 0 ks =
    len (concat ((λ k, bs !!! Z.to_nat k) <$> ks))).
  { induction ks as [|k ks IH]; csimpl; [done|]. by rewrite len_app, IH. }
  by rewrite Hmap, pieces_seqZ.
Qed.

Lemma holds_pieces_sum i bs ns :
  NoDup ns → holds_pieces i bs ns → Forall (λ k, 0 ≤ k < len bs) ns →
  stored_bytes i = foldr (λ k acc, len (bs !!! Z.to_nat k) + acc) 0 (bt_keys (fragments i)) ∧
  bt_keys (fragments i) ⊆+ seqZ 0 (len bs).
Proof.
  intros Hnd (Hwf & Hkeys & Hlen & Hv & Hsum & _) Hr. split.
  - rewrite Hsum. unfold bt_sum, bt_keys, stored_len. revert Hv. clear.
    induction (fragments i) as [|[k s] m IH]; intros Hv; csimpl; [done|].
    rewrite IH by (intros; apply Hv; set_solver).
    destruct (Hv k s) as [_ Hl]; [set_solver|]. by rewrite (list_lookup_total_correct _ _ _ Hl).
  - apply NoDup_submseteq; [|intros k Hk%Hkeys; apply elem_of_seqZ; by eapply Forall_forall in Hr].
    clear -Hwf. unfold bt_wf in Hwf. induction Hwf as [|x l _ IH Hx]; constructor; [|done].
    intros Hin. eapply Forall_forall in Hx; [|done]. lia.
Qed.

(** A new piece fits, and is classified as new. *)
Lemma piece_is_new i id bs ns f :
  holds_pieces i bs ns → Forall (λ k, 0 ≤ k < len bs) ns → is_piece id bs f → number f ∉ ns →
  classify i f = Ok New.
Proof.
  intros (Hwf & Hkeys & Hlen & Hv & Hsum & Hfin) Hr Hp Hnew.
  pose proof (is_piece_range _ _ _ Hp). destruct Hp as (_ & _ & _ & Hf). unfold classify.
  rewrite (proj2 (bt_get_None _ _)) by (by rewrite Hkeys). rewrite Hfin, Hf.
  destruct (Z.eqb_spec (number f) (len bs - 1)) as [Heq|Hne].
  - rewrite bool_decide_eq_false_2 by congruence. simpl.
    destruct (bt_last (fragments i)) as [[kl vl]|] eqn:Hl; simpl; [|done].
    apply bt_last_Some in Hl as [Hin _]; [|done]. apply Hkeys in Hin.
    eapply Forall_forall in Hr; [|done]. simpl in Hr.
    destruct (Z.ltb_spec (number f) kl); [lia|done].
  - case_bool_decide; simpl; [|done]. destruct (Z.ltb_spec (len bs - 1) (number f)); [lia|done].
Qed.

Lemma holds_pieces_insert i id bs ns f :
  holds_pieces i bs ns → is_piece id bs f → number f ∉ ns →
  holds_pieces (insert_fragment f i) bs (number f :: ns).
Proof.
  intros (Hwf & Hkeys & Hlen & Hv & Hsum & Hfin) (Hid & Hn & Hb & Hf) Hnew.
  assert (Hget : bt_get (number f) (fragments i) = None) by (apply bt_get_None; by rewrite Hkeys).
  unfold holds_pieces. simpl. split_and!.
  - by apply bt_insert_wf.
  - intros k. rewrite bt_keys_insert, Hkeys. set_solver.
  - rewrite len_cons, <- Hlen. unfold len. rewrite bt_insert_length by done. lia.
  - intros k s [[= -> ->]|Hin]%bt_insert_elem; [done|by apply Hv].
  - rewrite bt_sum_insert by done. unfold stored_len at 1. simpl. lia.
  - rewrite Hf, Hfin. destruct (Z.eqb_spec (number f) (len bs - 1)) as [Heq|Hne].
    + rewrite bool_decide_eq_true_2; [by rewrite Heq|]. set_solver.
    + erewrite bool_decide_ext; [done|]. set_solver.
Qed.

Lemma holds_pieces_complete i bs ns :
  NoDup ns → holds_pieces i bs ns → Forall (λ k, 0 ≤ k < len bs) ns → 1 ≤ len bs →
  is_complete i = (len ns =? len bs) ∧ (len ns = len bs → assemble i = concat bs).
Proof.
  intros Hnd Hh Hr Hpos. pose proof (holds_pieces_sum i bs ns Hnd Hh Hr) as [_ Hsub].
  destruct Hh as (Hwf & Hkeys & Hlen & Hv & Hsum & Hfin).
  assert (Hlk : length (bt_keys (fragments i)) = length (fragments i)) by apply length_fmap.
  assert (Hall : len ns = len bs → bt_keys (fragments i) = seqZ 0 (len bs)).
  { intros Heq. apply sorted_eq; [done|apply seqZ_sorted|]. intros k.
    assert (Hp : bt_keys (fragments i) ≡ₚ seqZ 0 (len bs)).
    { apply submseteq_length_Permutation; [done|]. rewrite length_seqZ, Hlk. unfold len in *. lia. }
    by rewrite Hp. }
  split.
  - unfold is_complete. rewrite Hfin, Hlen.
    destruct (Z.eqb_spec (len ns) (len bs)) as [Heq|Hne].
    + rewrite bool_decide_eq_true_2.
      * replace (len bs - 1 + 1) with (len bs) by lia.
        rewrite Heq, Z.eqb_refl, Hall by done. by apply bool_decide_eq_true_2.
      * apply Hkeys. rewrite Hall by done. apply elem_of_seqZ. lia.
    + case_bool_decide; [|done]. replace (len bs - 1 + 1) with (len bs) by lia.
      by rewrite (proj2 (Z.eqb_neq _ _) Hne).
  - intros Heq. unfold assemble. rewrite <- (pieces_seqZ bs). rewrite <- Hall by done.
    f_equal. unfold bt_values, bt_keys. rewrite <- !list_fmap_compose. apply list_fmap_ext.
    intros ? [k s] Hin%list_elem_of_lookup_2. simpl. destruct (Hv _ _ Hin) as [_ Hl].
    by rewrite (list_lookup_total_correct _ _ _ Hl).
Qed.

(** One more piece within the lifetime of the instruction being collected. *)
Lemma push_piece r id t0 bs ns now f :
  collecting r id t0 bs ns → Forall (λ k, 0 ≤ k < len bs) ns → is_piece id bs f → number f ∉ ns →
  len bs ≤ MAX_FRAGMENTS_PER_INSTRUCTION → len (concat bs) ≤ MAX_COMPRESSED_INSTRUCTION_BYTES →
  last_observed_ms r ≤ now → now < t0 + INCOMPLETE_INSTRUCTION_LIFETIME_MS →
  t0 + INCOMPLETE_INSTRUCTION_LIFETIME_MS ≤ U64_MAX →
  ∃ r', last_observed_ms r' = now ∧
    if len ns + 1 =? len bs
    then push now f r = (r', Ok (Complete (concat bs))) ∧ incomplete r' = None
    else push now f r = (r', Ok Pending) ∧ collecting r' id t0 bs (number f :: ns).
Proof.
  intros (i & Hi & Hid & Ht & Hnd & Hh) Hr Hp Hnew Hn Hmax Hnow Hlife Hu.
  pose proof (is_piece_range _ _ _ Hp). pose proof (piece_is_new _ _ _ _ _ Hh Hr Hp Hnew) as Hc.
  pose proof (holds_pieces_insert _ _ _ _ _ Hh Hp Hnew) as Hh'.
  assert (Hnd' : NoDup (number f :: ns)) by (by constructor).
  assert (Hr' : Forall (λ k, 0 ≤ k < len bs) (number f :: ns)) by (by constructor).
  destruct (holds_pieces_complete _ _ _ Hnd' Hh' Hr') as [Hic Has]; [lia|].
  destruct (holds_pieces_sum _ _ _ Hnd' Hh' Hr') as [Hs Hsub].
  assert (Hfit : stored_bytes i + len (body f) ≤ len (concat bs)).
  { rewrite <- stored_bytes_insert, Hs, <- len_concat_pieces.
    apply sum_submseteq; [intros; apply len_nonneg|done]. }
  assert (Husize : checked_add USIZE_MAX (stored_bytes i) (len (body f)) =
    Some (stored_bytes i + len (body f))).
  { apply checked_add_Some. split; [done|]. llia. }
  rewrite len_cons in Hic, Has.
  exists (set_incomplete (if len ns + 1 =? len bs then None else Some (insert_fragment f i))
            (mkFragmentReassembler (incomplete r) now)).
  split; [done|]. unfold push, reassembler_observe_time, expire_due. unfold_m.
  destruct (Z.ltb_spec now (last_observed_ms r)); [lia|]. simpl. rewrite Hi, Ht.
  rewrite (proj2 (checked_add_Some U64_MAX t0 INCOMPLETE_INSTRUCTION_LIFETIME_MS _) (conj eq_refl Hu)).
  destruct (Z.leb_spec (t0 + INCOMPLETE_INSTRUCTION_LIFETIME_MS) now); [lia|]. simpl.
  destruct (Z.leb_spec MAX_FRAGMENTS_PER_INSTRUCTION (number f)); [lia|]. simpl.
  destruct Hp as (Hpid & _). rewrite Hpid, Hid, Z.eqb_refl, Hc.
  rewrite Husize.
  destruct (Z.ltb_spec MAX_COMPRESSED_INSTRUCTION_BYTES (stored_bytes i + len (body f))); [lia|].
  rewrite Hic. destruct (Z.eqb_spec (len ns + 1) (len bs)) as [Heq|Hne]; simpl.
  - by rewrite (Has Heq).
  - split; [done|]. exists (insert_fragment f i). by split_and!.
Qed.

(** Arrival times never go backwards and stay below [limit]. *)
Fixpoint timely (last limit : Z) (arrivals : list (Z * Fragment)) : Prop :=
  match arrivals with
  | [] => True
  | (now, _) :: rest => last ≤ now < limit ∧ timely now limit rest
  end.

Definition arrival_number (a : Z * Fragment) : Z := number a.2.

Lemma push_all_collecting r id t0 bs ns arrivals :
  collecting r id t0 bs ns → arrivals ≠ [] →
  ns ++ (arrival_number <$> arrivals) ≡ₚ seqZ 0 (len bs) →
  Forall (λ a, is_piece id bs a.2) arrivals →
  len bs ≤ MAX_FRAGMENTS_PER_INSTRUCTION → len (concat bs) ≤ MAX_COMPRESSED_INSTRUCTION_BYTES →
  timely (last_observed_ms r) (t0 + INCOMPLETE_INSTRUCTION_LIFETIME_MS) arrivals →
  t0 + INCOMPLETE_INSTRUCTION_LIFETIME_MS ≤ U64_MAX →
  ∃ r', incomplete r' = None ∧
    push_all r arrivals =
      (r', replicate (length arrivals - 1) (Ok Pending) ++ [Ok (Complete (concat bs))]).
Proof.
  revert r ns. induction arrivals as [|[now f] rest IH]; intros r ns Hc Hne Hperm Hp Hn Hmax Ht Hu; [done|].
  apply Forall_cons in Hp as [Hpf Hp]. destruct Ht as [Hnow Ht]. simpl in Hpf. csimpl in Hperm.
  assert (Hnd : NoDup (ns ++ arrival_number (now, f) :: (arrival_number <$> rest)))
    by (rewrite Hperm; apply NoDup_seqZ).
  assert (Hr : Forall (λ k, 0 ≤ k < len bs) ns).
  { apply Forall_forall. intros k Hk. apply (elem_of_seqZ 0 (len bs) k). rewrite <- Hperm. set_solver. }
  assert (Hnew : number f ∉ ns).
  { apply NoDup_app in Hnd as (_ & Hd & _). intros Hin. apply (Hd _ Hin). unfold arrival_number. set_solver. }
  assert (Hlen : len ns + 1 + len rest = len bs).
  { apply Permutation_length in Hperm. rewrite length_app, length_seqZ in Hperm. simpl in Hperm.
    rewrite length_fmap in Hperm. unfold len in *. lia. }
  destruct (push_piece r id t0 bs ns now f) as (r' & Hr' & Hstep); try done; [lia..|].
  simpl push_all. destruct (Z.eqb_spec (len ns + 1) (len bs)) as [Heq|Hne'].
  - destruct Hstep as [-> Hi']. assert (rest = []) as -> by (apply len_0_nil; lia). simpl. eauto.
  - destruct Hstep as [-> Hc'].
    destruct (IH r' (number f :: ns)) as (r'' & Hi'' & Hall); try done.
    + intros ->. unfold len in *. simpl in *. lia.
    + rewrite <- Hperm. unfold arrival_number at 2. simpl. by rewrite Permutation_middle.
    + by rewrite Hr'.
    + exists r''. split; [done|]. rewrite Hall. f_equal.
      destruct rest; [unfold len in *; simpl in *; lia|]. simpl. by rewrite Nat.sub_0_r.
Qed.

Lemma push_first_piece r id bs now f :
  incomplete r = None → is_piece id bs f → last_observed_ms r ≤ now →
  len bs ≤ MAX_FRAGMENTS_PER_INSTRUCTION → len (concat bs) ≤ MAX_COMPRESSED_INSTRUCTION_BYTES →
  ∃ r', last_observed_ms r' = now ∧
    if len bs =? 1
    then push now f r = (r', Ok (Complete (concat bs))) ∧ incomplete r' = None
    else push now f r = (r', Ok Pending) ∧ collecting r' id now bs [number f].
Proof.
  intros Hi Hp Hnow Hn Hmax. pose proof (is_piece_range _ _ _ Hp) as Hrange.
  assert (Hfit : len (body f) ≤ len (concat bs)).
  { destruct Hp as (_ & _ & Hl & _). revert Hl. generalize (Z.to_nat (number f)). clear.
    induction bs as [|b bs IH]; intros [|k] Hl; simplify_eq/=; rewrite len_app.
    - pose proof (len_nonneg (concat bs)). lia.
    - specialize (IH _ Hl). pose proof (len_nonneg b). lia. }
  assert (Hh : holds_pieces (insert_fragment f (IncompleteInstruction_new (identifier f) now)) bs [number f]).
  { apply (holds_pieces_insert _ id); [|done|set_solver]. split_and!; try done; simpl.
    - constructor. - intros k s Hin. set_solver. }
  destruct Hp as (Hid & H0 & Hl & Hf).
  unfold push, reassembler_observe_time, expire_due. unfold_m.
  destruct (Z.ltb_spec now (last_observed_ms r)); [lia|]. simpl. rewrite Hi.
  destruct (Z.leb_spec MAX_FRAGMENTS_PER_INSTRUCTION (number f)); [lia|]. simpl. rewrite Hf.
  destruct (Z.eqb_spec (len bs) 1) as [Hone|Hone].
  - destruct (Z.eqb_spec (number f) 0) as [Hz|]; [|lia]. destruct (Z.eqb_spec (number f) (len bs - 1)); [|lia].
    simpl. destruct (Z.leb_spec (len (body f)) MAX_COMPRESSED_INSTRUCTION_BYTES); [|lia].
    exists (mkFragmentReassembler None now). split_and!; [done| |done]. do 3 f_equal.
    destruct bs as [|b [|]]; [done| |unfold len in *; simpl in *; lia].
    rewrite Hz in Hl. simplify_eq/=. by rewrite app_nil_r.
  - replace ((number f =? 0) && (number f =? len bs - 1)) with false by lia.
    destruct (Z.ltb_spec MAX_COMPRESSED_INSTRUCTION_BYTES (len (body f))); [lia|].
    eexists (set_incomplete (Some _) (mkFragmentReassembler None now)). split_and!; [done..|].
    eexists. split_and!; [done..| |done]. apply NoDup_singleton.
Qed.

(** ** Main theorems *)

(** What [encode] writes, [decode] reads back: every field and the body,
    for all field values of their machine types (a present timestamp reply
    other than 65535, which is the wire encoding of an absent one). *)
Theorem fragment_roundtrip (ts : Z) (reply : option Z) (id num : Z) (fin : bool)
    (payload out : bytes) :
  is_u16 ts → (∀ r, reply = Some r → 0 ≤ r < U16_MAX) → is_u64 id →
  0 ≤ num ≤ MAX_FRAGMENT_NUMBER → len payload ≤ MAX_FRAGMENT_BODY_BYTES →
  FRAGMENT_HEADER_BYTES + len payload ≤ len out →
  ∃ out' n, encode ts reply id num fin payload out = (out', Ok n) ∧
    decode (take (Z.to_nat n) out') = Ok (mkFragment ts reply id num fin payload).
Proof.
  intros. eexists _, _. split; [apply encode_Ok; done || lia|].
  pose proof (len_envelope ts reply id num fin payload) as Hl.
  rewrite take_app_length' by (unfold len in *; lia). by apply decode_envelope.
Qed.

Lemma fragment_roundtrip_witness :
  ∃ out' n,
    encode 513 (Some 7) 9 3 true [1; 2; 3] (replicate 20 0) = (out', Ok n) ∧
    decode (take (Z.to_nat n) out') = Ok (mkFragment 513 (Some 7) 9 3 true [1; 2; 3]).
Proof.
  apply fragment_roundtrip; try (by vm_compute). intros r [= <-]. by vm_compute.
Defined.

(** [decode] is total: it never panics, rejects exactly the plaintexts that
    are shorter than the header or carry more than 1400 body bytes, and every
    fragment it returns has a 15-bit number and the rest of the plaintext as
    its body. *)
Theorem fragment_decode_total (p : bytes) :
  match decode p with
  | Ok f => 14 ≤ len p ∧ len (body f) = len p - 14 ∧ len (body f) ≤ MAX_FRAGMENT_BODY_BYTES ∧
            0 ≤ number f ≤ MAX_FRAGMENT_NUMBER
  | Err TooShort => len p < 14
  | Err BodyTooLarge => MAX_FRAGMENT_BODY_BYTES < len p - 14
  | _ => False
  end.
Proof. apply decode_cases. Qed.

(** The reassembler stays within its memory bounds whatever is pushed:
    stored numbers are below 749 and in order, the byte counter is the sum of
    the stored bodies and at most 1 MiB, no stored instruction is complete, a
    completed instruction is at most 1 MiB, and no [expect] fails. *)
Theorem reassembler_bounded (now : Z) (f : Fragment) (r : FragmentReassembler) :
  reassembler_inv r → 0 ≤ number f →
  wp (push now f)
    (λ r' x, reassembler_inv r' ∧ no_panic x ∧
       ∀ v, x = Ok (Complete v) → len v ≤ MAX_COMPRESSED_INSTRUCTION_BYTES) r.
Proof. apply push_inv. Qed.

Lemma reassembler_bounded_witness :
  wp (push 5 (mkFragment 0 None 7 1 true [1; 2]))
    (λ r' x, reassembler_inv r' ∧ no_panic x ∧
       ∀ v, x = Ok (Complete v) → len v ≤ MAX_COMPRESSED_INSTRUCTION_BYTES)
    (FragmentReassembler_new 0).
Proof. apply reassembler_bounded; [intros i [=]|by vm_compute]. Defined.

(** C11. The pieces of one instruction, pushed in any order within ten seconds,
    give [Pending] until the last one and then exactly the concatenated
    instruction, leaving the reassembler empty. *)
Theorem reassembly_any_order (r : FragmentReassembler) (id t0 : Z) (bs : list bytes)
    (f0 : Fragment) (rest : list (Z * Fragment)) :
  incomplete r = None → last_observed_ms r ≤ t0 →
  len bs ≤ MAX_FRAGMENTS_PER_INSTRUCTION → len (concat bs) ≤ MAX_COMPRESSED_INSTRUCTION_BYTES →
  Forall (λ a, is_piece id bs a.2) ((t0, f0) :: rest) →
  arrival_number <$> ((t0, f0) :: rest) ≡ₚ seqZ 0 (len bs) →
  timely t0 (t0 + INCOMPLETE_INSTRUCTION_LIFETIME_MS) rest →
  t0 + INCOMPLETE_INSTRUCTION_LIFETIME_MS ≤ U64_MAX →
  ∃ r', incomplete r' = None ∧
    push_all r ((t0, f0) :: rest) =
      (r', replicate (length rest) (Ok Pending) ++ [Ok (Complete (concat bs))]).
Proof.
  intros Hi Hl Hn Hmax Hp Hperm Ht Hu. apply Forall_cons in Hp as [Hp0 Hp].
  destruct (push_first_piece r id bs t0 f0) as (r1 & Hr1 & Hstep); [done..|].
  pose proof (Permutation_length Hperm) as Hlen. rewrite length_fmap, length_seqZ in Hlen. simpl in Hlen.
  simpl push_all. destruct (Z.eqb_spec (len bs) 1) as [H1|H1].
  - destruct Hstep as [-> Hi1]. assert (rest = []) as -> by (apply len_0_nil; unfold len in *; lia).
    simpl. eauto.
  - destruct Hstep as [-> Hc].
    destruct (push_all_collecting r1 id t0 bs [number f0] rest) as (r' & Hi' & Hall); try done.
    + intros ->. unfold len in *. simpl in *. lia.
    + by rewrite Hr1.
    + exists r'. split; [done|]. rewrite Hall. f_equal.
      destruct rest; [unfold len in *; simpl in *; lia|]. simpl. by rewrite Nat.sub_0_r.
Qed.

Lemma reassembly_any_order_witness :
  ∃ r', incomplete r' = None ∧
    push_all (FragmentReassembler_new 0)
      [(10, mkFragment 0 None 4 2 true [5]); (11, mkFragment 0 None 4 0 false [1; 2]);
       (12, mkFragment 0 None 4 1 false [3; 4])] =
      (r', [Ok Pending; Ok Pending; Ok (Complete [1; 2; 3; 4; 5])]).
Proof.
  apply (reassembly_any_order (FragmentReassembler_new 0) 4 10 [[1; 2]; [3; 4]; [5]]
           (mkFragment 0 None 4 2 true [5])
           [(11, mkFragment 0 None 4 0 false [1; 2]); (12, mkFragment 0 None 4 1 false [3; 4])]);
    try (by vm_compute).
  - repeat constructor; by vm_compute.
  - vm_compute. apply (Permutation_trans (l' := [0; 2; 1])); [apply perm_swap|apply perm_skip, perm_swap].
Defined.
