(* ===== verification/Instruction.v ===== *)
(** * Transport instructions: [src/src/instruction.rs]

    Protocol Buffers encoding comes from the [prost] derive and zlib from
    [miniz_oxide]; both are interfaces here. The size limits, validation,
    version check and the bounded decompression loop are translated. *)

From S2P Require Import Prelude Limits.

Local Open Scope Z_scope.

Definition PROTOCOL_VERSION : Z := 2.
Definition SHUTDOWN_STATE : Z := U64_MAX.
Definition ZLIB_LEVEL : Z := 6.
Definition DECOMPRESSION_CHUNK_BYTES : Z := 16 * 1024.

Inductive InstructionError :=
  | InvalidTerminalSize
  | DecodedTooLarge
  | CompressedTooLarge
  | InvalidCompression
  | TrailingCompressedData
  | InvalidMessage
  | IncompatibleVersion
  | InputTooLarge
  | TooManyClientOperations
  | StateDifferenceTooLarge.

#[export] Instance InstructionError_eq_dec : EqDecision InstructionError.
Proof. solve_decision. Defined.

Inductive ClientOperation :=
  | Input (input : bytes)
  | Resize (columns rows : Z).

#[export] Instance ClientOperation_eq_dec : EqDecision ClientOperation.
Proof. solve_decision. Defined.

Record TransportInstruction := mkTransportInstruction {
  protocol_version : Z;
  base_state : Z;
  new_state : Z;
  acknowledged_state : Z;
  discard_before_state : Z;
  state_difference : bytes;
  chaff : bytes;
}.

#[export] Instance TransportInstruction_eq_dec : EqDecision TransportInstruction.
Proof. solve_decision. Defined.

Definition is_shutdown (i : TransportInstruction) : bool := new_state i =? SHUTDOWN_STATE.

(** The wire messages of a client difference. *)
Record TerminalBytes := mkTerminalBytes { tb_bytes : bytes }.
Record TerminalSize := mkTerminalSize { ts_columns : Z; ts_rows : Z }.
Record WireClientOperation := mkWireClientOperation {
  bytes_operation : option TerminalBytes;
  initial_size : option TerminalSize;
}.
Record WireClientDifference := mkWireClientDifference { wire_operations : list WireClientOperation }.

(** [prost::Message] for the two message types this file encodes. *)
Class Prost := {
  instruction_to_vec : TransportInstruction → bytes;
  instruction_encoded_len : TransportInstruction → Z;
  instruction_decode : bytes → option TransportInstruction;
  difference_to_vec : WireClientDifference → bytes;
  difference_encoded_len : WireClientDifference → Z;
}.

(** The field types of the message. *)
Definition instruction_wf (i : TransportInstruction) : Prop :=
  is_u32 (protocol_version i) ∧ is_u64 (base_state i) ∧ is_u64 (new_state i) ∧
  is_u64 (acknowledged_state i) ∧ is_u64 (discard_before_state i) ∧
  Forall is_u8 (state_difference i) ∧ Forall is_u8 (chaff i).

#[export] Instance instruction_wf_dec i : Decision (instruction_wf i).
Proof. unfold instruction_wf, is_u32, is_u64, is_u8. apply _. Defined.

(** [encoded_len] is the length of the encoding, decoding inverts it and gives
    fields of their types, and the encoding of a message with one repeated field is the concatenation of the
    encodings of its elements. *)
Class ProstLaws (P : Prost) : Prop := {
  instruction_encoded_len_ok i : instruction_encoded_len i = len (instruction_to_vec i);
  instruction_roundtrip i :
    instruction_wf i → instruction_decode (instruction_to_vec i) = Some i;
  difference_encoded_len_ok d : difference_encoded_len d = len (difference_to_vec d);
  instruction_decode_wf l i : instruction_decode l = Some i → instruction_wf i;
  difference_to_vec_app a b :
    difference_to_vec (mkWireClientDifference (a ++ b)) =
      difference_to_vec (mkWireClientDifference a) ++ difference_to_vec (mkWireClientDifference b);
}.

(** [miniz_oxide]: one-shot compression and the streaming [inflate] call,
    which returns the new state, bytes consumed, bytes written and a status. *)
Inductive InflateStatus := StreamEnd | StreamOk | NeedDict | StreamError.

Class Zlib := {
  compress_to_vec_zlib : bytes → Z → bytes;
  InflateState : Type;
  inflate_new : InflateState;
  inflate : InflateState → bytes → Z → InflateState * Z * bytes * InflateStatus;
}.

(** A call stays within the buffers it is given. *)
Class ZlibBounds (ZL : Zlib) : Prop := {
  inflate_bounds st input writable st' consumed written status :
    0 ≤ writable → inflate st input writable = (st', consumed, written, status) →
    0 ≤ consumed ≤ len input ∧ len written ≤ writable;
}.

(** Streaming decompression of a compressed [x]: from a state that still has to
    read [rest_in] and produce [rest_out], a call consumes and produces a prefix
    of each, makes progress unless it ends the stream, and ends it exactly when
    both are used up. A compressed stream has at least its header. *)
Class ZlibLaws (ZL : Zlib) := {
  compress_nonempty x : compress_to_vec_zlib x ZLIB_LEVEL ≠ [];
  inflating : InflateState → bytes → bytes → Prop;
  inflating_start x : inflating inflate_new (compress_to_vec_zlib x ZLIB_LEVEL) x;
  inflating_step st rest_in rest_out writable :
    inflating st rest_in rest_out → 1 ≤ writable →
    ∃ st' c w status,
      inflate st rest_in writable = (st', Z.of_nat c, take w rest_out, status) ∧
      (c ≤ length rest_in)%nat ∧ (w ≤ length rest_out)%nat ∧ Z.of_nat w ≤ writable ∧
      (status = StreamEnd ∧ c = length rest_in ∧ w = length rest_out
       ∨ status = StreamOk ∧ (c ≠ 0 ∨ w ≠ 0)%nat ∧
         inflating st' (drop c rest_in) (drop w rest_out));
}.

(** The per-operation validation and conversion of [encode_client_difference]. *)
Definition wire_operation (operation : ClientOperation) : Result InstructionError WireClientOperation :=
  match operation with
  | Input bytes =>
      if MAX_INPUT_COMMAND_BYTES <? len bytes then Err InputTooLarge
      else Ok (mkWireClientOperation (Some (mkTerminalBytes bytes)) None)
  | Resize columns rows =>
      if (columns =? 0) || (MAX_TERMINAL_COLUMNS <? columns)
         || (rows =? 0) || (MAX_TERMINAL_ROWS <? rows)
      then Err InvalidTerminalSize
      else Ok (mkWireClientOperation None (Some (mkTerminalSize columns rows)))
  end.

Fixpoint convert_operations (operations : list ClientOperation) :
    Result InstructionError (list WireClientOperation) :=
  match operations with
  | [] => Ok []
  | operation :: rest =>
      wire ← wire_operation operation;
      wires ← convert_operations rest;
      Ok (wire :: wires)
  end.

(** [encode_client_difference] *)
Definition encode_client_difference `{Prost} (operations : list ClientOperation) :
    Result InstructionError bytes :=
  if MAX_CLIENT_OPERATIONS_AFTER_ACK <? len operations then Err TooManyClientOperations
  else
    wires ← convert_operations operations;
    let difference := mkWireClientDifference wires in
    if MAX_STATE_DIFFERENCE_BYTES <? difference_encoded_len difference
    then Err StateDifferenceTooLarge
    else Ok (difference_to_vec difference).

(** [TransportInstruction::initial] *)
Definition TransportInstruction_initial `{Prost} (columns rows : Z) (chaff : bytes) :
    Result InstructionError TransportInstruction :=
  if (columns =? 0) || (MAX_TERMINAL_COLUMNS <? columns)
     || (rows =? 0) || (MAX_TERMINAL_ROWS <? rows)
  then Err InvalidTerminalSize
  else
    difference ← encode_client_difference [Resize columns rows];
    Ok (mkTransportInstruction PROTOCOL_VERSION 0 1 0 0 difference chaff).

(** [TransportInstruction::encode_zlib] *)
Definition encode_zlib `{Prost} `{Zlib} (i : TransportInstruction) : Result InstructionError bytes :=
  if MAX_DECOMPRESSED_INSTRUCTION_BYTES <? instruction_encoded_len i then Err DecodedTooLarge
  else
    let compressed := compress_to_vec_zlib (instruction_to_vec i) ZLIB_LEVEL in
    if MAX_COMPRESSED_INSTRUCTION_BYTES <? len compressed then Err CompressedTooLarge
    else Ok compressed.

(** One iteration of the loop of [decompress_exact_zlib]; the locals are the
    inflate state, the bytes consumed and the output so far. *)
Definition decompress_body `{Zlib} (compressed : bytes) :
    InflateState * Z * bytes → (InflateState * Z * bytes) + Result InstructionError bytes :=
  λ '(state, consumed, output),
    if MAX_DECOMPRESSED_INSTRUCTION_BYTES <? len output then inr Panic
    else
      let remaining := MAX_DECOMPRESSED_INSTRUCTION_BYTES - len output in
      let writable := clamp 1 DECOMPRESSION_CHUNK_BYTES remaining in
      match slice (E:=InstructionError) consumed (len compressed) compressed with
      | Ok input =>
          let '(state', bytes_consumed, written, status) := inflate state input writable in
          let consumed' := consumed + bytes_consumed in
          if remaining <? len written then inr (Err DecodedTooLarge)
          else if DECOMPRESSION_CHUNK_BYTES <? len written then inr Panic
          else
            let output' := output ++ written in
            match status with
            | StreamEnd =>
                if consumed' =? len compressed then inr (Ok output')
                else inr (Err TrailingCompressedData)
            | StreamOk =>
                if negb (bytes_consumed =? 0) || negb (len written =? 0)
                then inl (state', consumed', output')
                else inr (Err InvalidCompression)
            | NeedDict | StreamError => inr (Err InvalidCompression)
            end
      | _ => inr Panic
      end.

(** More iterations than a call can make: each consumes or writes a byte. *)
Definition decompress_iterations (compressed : bytes) : positive :=
  Z.to_pos (len compressed + MAX_DECOMPRESSED_INSTRUCTION_BYTES + 1).

(** [decompress_exact_zlib]; [inl] would be a loop that has not returned. *)
Definition decompress_exact_zlib `{Zlib} (compressed : bytes) :
    (InflateState * Z * bytes) + Result InstructionError bytes :=
  loop_for (decompress_iterations compressed) (decompress_body compressed) (inflate_new, 0, []).

(** [TransportInstruction::decode_zlib] *)
Definition decode_zlib `{Prost} `{Zlib} (compressed : bytes) :
    Result InstructionError TransportInstruction :=
  if MAX_COMPRESSED_INSTRUCTION_BYTES <? len compressed then Err CompressedTooLarge
  else
    match decompress_exact_zlib compressed with
    | inr (Ok decoded) =>
        match instruction_decode decoded with
        | None => Err InvalidMessage
        | Some instruction =>
            if protocol_version instruction =? PROTOCOL_VERSION then Ok instruction
            else Err IncompatibleVersion
        end
    | inr (Err e) => Err e
    | inr Panic | inl _ => Panic
    end.

(** ** The decompression loop *)
Definition decompress_inv `{Zlib} (compressed : bytes) : InflateState * Z * bytes → Prop :=
  λ '(_, consumed, output),
    0 ≤ consumed ≤ len compressed ∧ len output ≤ MAX_DECOMPRESSED_INSTRUCTION_BYTES.

Definition decompress_measure `{Zlib} (compressed : bytes) : InflateState * Z * bytes → Z :=
  λ '(_, consumed, output),
    len compressed - consumed + (MAX_DECOMPRESSED_INSTRUCTION_BYTES - len output).

Lemma writable_bounds r : 1 ≤ clamp 1 DECOMPRESSION_CHUNK_BYTES r ≤ DECOMPRESSION_CHUNK_BYTES.
Proof. apply clamp_bounds. by vm_compute. Qed.

Lemma decompress_iterations_enough compressed :
  len compressed + MAX_DECOMPRESSED_INSTRUCTION_BYTES < Z.pos (decompress_iterations compressed).
Proof. unfold decompress_iterations. pose proof (len_nonneg compressed). rewrite Z2Pos.id; llia. Qed.

Lemma len_drop_Z {A} n (l : list A) : 0 ≤ n ≤ len l → len (drop (Z.to_nat n) l) = len l - n.
Proof. intros. rewrite len_drop. lia. Qed.

Lemma slice_tail {E A} n (l : list A) :
  0 ≤ n ≤ len l → slice (E:=E) n (len l) l = Ok (drop (Z.to_nat n) l).
Proof. intros. rewrite slice_Ok, take_ge; [done|rewrite length_drop; unfold len in *; lia|lia|lia]. Qed.

Lemma decompress_returns `{ZL : Zlib} `{!ZlibBounds ZL} (compressed : bytes) :
  ∃ r, decompress_exact_zlib compressed = inr r ∧
    (no_panic r ∧ ∀ out, r = Ok out → len out ≤ MAX_DECOMPRESSED_INSTRUCTION_BYTES).
Proof.
  unfold decompress_exact_zlib.
  apply (loop_for_returns (decompress_body compressed) (decompress_measure compressed)
           (decompress_inv compressed)
           (λ r, no_panic r ∧ ∀ out, r = Ok out → len out ≤ MAX_DECOMPRESSED_INSTRUCTION_BYTES)).
  - intros [[st c] out]. unfold decompress_inv, decompress_measure. lia.
  - intros [[st c] out] [[st' c'] out'] [Hc Ho]. unfold decompress_body, decompress_measure, decompress_inv.
    destruct (Z.ltb_spec MAX_DECOMPRESSED_INSTRUCTION_BYTES (len out)); [lia|].
    rewrite slice_tail by lia. destruct (inflate _ _ _) as [[[st1 k] w] status] eqn:Hi.
    pose proof (writable_bounds (MAX_DECOMPRESSED_INSTRUCTION_BYTES - len out)).
    apply inflate_bounds in Hi as [Hk Hw]; [|lia]. rewrite len_drop_Z in Hk by lia. intros Hb. cases.
    rewrite len_app. pose proof (len_nonneg w). lia.
  - intros [[st c] out] r [Hc Ho]. unfold decompress_body.
    destruct (Z.ltb_spec MAX_DECOMPRESSED_INSTRUCTION_BYTES (len out)); [lia|].
    rewrite slice_tail by lia. destruct (inflate _ _ _) as [[[st1 k] w] status] eqn:Hi.
    pose proof (writable_bounds (MAX_DECOMPRESSED_INSTRUCTION_BYTES - len out)).
    apply inflate_bounds in Hi as [Hk Hw]; [|lia].
    intros H1. unfold no_panic. cases; split; try done; try lia.
    intros ? [= <-]. rewrite len_app. lia.
  - split; [pose proof (len_nonneg compressed); lia|by vm_compute].
  - unfold decompress_measure. pose proof (decompress_iterations_enough compressed).
    change (len (@nil Z)) with 0. lia.
Qed.

(** The invariant of decompressing a compressed [x]. *)
Definition inflating_inv `{ZL : Zlib} `{!ZlibLaws ZL} (x compressed : bytes) :
    InflateState * Z * bytes → Prop :=
  λ '(st, consumed, output),
    0 ≤ consumed ≤ len compressed ∧ len output ≤ MAX_DECOMPRESSED_INSTRUCTION_BYTES ∧
    ∃ rest_out, output ++ rest_out = x ∧ inflating st (drop (Z.to_nat consumed) compressed) rest_out.

Lemma decompress_compressed `{ZL : Zlib} `{!ZlibLaws ZL} (x : bytes) :
  decompress_exact_zlib (compress_to_vec_zlib x ZLIB_LEVEL) =
    inr (if len x <=? MAX_DECOMPRESSED_INSTRUCTION_BYTES then Ok x else Err DecodedTooLarge).
Proof.
  set (c := compress_to_vec_zlib x ZLIB_LEVEL).
  unfold decompress_exact_zlib.
  edestruct (loop_for_returns (decompress_body c) (decompress_measure c) (inflating_inv x c)
    (λ r, r = if len x <=? MAX_DECOMPRESSED_INSTRUCTION_BYTES then Ok x else Err DecodedTooLarge))
    as (r & Hr & ->); [..|exact Hr].
  - intros [[st k] out] (? & ? & _). unfold decompress_measure. lia.
  - intros [[st k] out] [[st' k'] out'] (Hk & Ho & rest & Hx & Hi).
    unfold decompress_body, decompress_measure, inflating_inv.
    destruct (Z.ltb_spec MAX_DECOMPRESSED_INSTRUCTION_BYTES (len out)); [lia|].
    rewrite slice_tail by lia.
    destruct (inflating_step _ _ _ _ Hi (proj1 (writable_bounds (MAX_DECOMPRESSED_INSTRUCTION_BYTES - len out))))
      as (st1 & n & w & status & -> & Hn & Hw & Hww & Hcase).
    assert (Hlw : len (take w rest) = Z.of_nat w) by (rewrite len_take; unfold len; lia).
    assert (Hlk : Z.of_nat n ≤ len c - k) by (pose proof (len_drop_Z k c Hk); unfold len in *; lia).
    intros H1. destruct Hcase as [(-> & _)|(-> & Hp & Hi')]; cases.
    rewrite len_app, Hlw in *. split_and!; try lia. exists (drop w rest).
    split; [by rewrite <- app_assoc, take_drop|].
    by rewrite Z2Nat.inj_add, Nat2Z.id, <- drop_drop by lia.
  - intros [[st k] out] r (Hk & Ho & rest & Hx & Hi). unfold decompress_body.
    destruct (Z.ltb_spec MAX_DECOMPRESSED_INSTRUCTION_BYTES (len out)); [lia|].
    rewrite slice_tail by lia.
    pose proof (writable_bounds (MAX_DECOMPRESSED_INSTRUCTION_BYTES - len out)) as Hwb.
    destruct (inflating_step _ _ _ _ Hi (proj1 Hwb)) as (st1 & n & w & status & -> & Hn & Hw & Hww & Hcase).
    assert (Hlw : len (take w rest) = Z.of_nat w) by (rewrite len_take; unfold len; lia).
    assert (Hlk : len (drop (Z.to_nat k) c) = len c - k) by (by apply len_drop_Z).
    assert (Hlx : len x = len out + len rest) by (rewrite <- Hx, len_app; done).
    rewrite Hlw. unfold len in Hlk, Hlx.
    destruct (Z.ltb_spec (MAX_DECOMPRESSED_INSTRUCTION_BYTES - len out) (Z.of_nat w)).
    { intros [= <-]. destruct (Z.leb_spec (len x) MAX_DECOMPRESSED_INSTRUCTION_BYTES); [|done].
      unfold len in *. lia. }
    destruct (Z.ltb_spec DECOMPRESSION_CHUNK_BYTES (Z.of_nat w)); [lia|].
    destruct Hcase as [(-> & -> & ->)|(-> & Hp & Hi')].
    + destruct (Z.eqb_spec (k + Z.of_nat (length (drop (Z.to_nat k) c))) (len c)); [|unfold len in *; lia].
      intros [= <-]. rewrite take_ge, Hx by lia.
      destruct (Z.leb_spec (len x) MAX_DECOMPRESSED_INSTRUCTION_BYTES); [done|unfold len in *; lia].
    + replace (negb (Z.of_nat n =? 0) || negb (Z.of_nat w =? 0)) with true by lia. done.
  - split; [pose proof (len_nonneg c); lia|]. split; [by vm_compute|].
    exists x. split; [done|]. simpl. apply inflating_start.
  - unfold decompress_measure. pose proof (decompress_iterations_enough c).
    change (len (@nil Z)) with 0. lia.
Qed.

(** C26. Decompression always returns, never panics, and never produces more than
    [MAX_DECOMPRESSED_INSTRUCTION_BYTES] bytes, whatever the compressed bytes
    are and whatever the decompressor answers within its buffers. *)
Theorem decompress_total `{ZL : Zlib} `{!ZlibBounds ZL} (compressed : bytes) :
  ∃ r, decompress_exact_zlib compressed = inr r ∧ no_panic r ∧
    ∀ out, r = Ok out → len out ≤ MAX_DECOMPRESSED_INSTRUCTION_BYTES.
Proof. destruct (decompress_returns compressed) as (r & ? & ? & ?). eauto. Qed.

(** Decompressing what the compressor produced returns the original bytes,
    in however many chunks the decompressor delivers them, exactly when they fit
    the limit; a larger original is refused as [DecodedTooLarge]. *)
Theorem decompress_compress `{ZL : Zlib} `{!ZlibLaws ZL} (x : bytes) :
  decompress_exact_zlib (compress_to_vec_zlib x ZLIB_LEVEL) =
    inr (if len x <=? MAX_DECOMPRESSED_INSTRUCTION_BYTES then Ok x else Err DecodedTooLarge).
Proof. apply decompress_compressed. Qed.

Lemma decode_encode_zlib `{PR : Prost} `{!ProstLaws PR} `{ZL : Zlib} `{!ZlibLaws ZL}
    (i : TransportInstruction) (c : bytes) :
  instruction_wf i → protocol_version i = PROTOCOL_VERSION →
  encode_zlib i = Ok c → decode_zlib c = Ok i.
Proof.
  intros Hwf Hv. unfold encode_zlib, decode_zlib. rewrite instruction_encoded_len_ok.
  destruct (Z.ltb_spec MAX_DECOMPRESSED_INSTRUCTION_BYTES (len (instruction_to_vec i))); [done|].
  destruct (Z.ltb_spec MAX_COMPRESSED_INSTRUCTION_BYTES
              (len (compress_to_vec_zlib (instruction_to_vec i) ZLIB_LEVEL))) as [|Hc]; [done|].
  intros [= <-]. destruct (Z.ltb_spec MAX_COMPRESSED_INSTRUCTION_BYTES
              (len (compress_to_vec_zlib (instruction_to_vec i) ZLIB_LEVEL))); [lia|].
  rewrite decompress_compressed.
  destruct (Z.leb_spec (len (instruction_to_vec i)) MAX_DECOMPRESSED_INSTRUCTION_BYTES); [|lia].
  rewrite instruction_roundtrip by done. by rewrite Hv.
Qed.

(** An instruction of this protocol version that encodes decodes to itself. *)
Theorem instruction_zlib_roundtrip `{PR : Prost} `{!ProstLaws PR} `{ZL : Zlib} `{!ZlibLaws ZL}
    (i : TransportInstruction) (c : bytes) :
  instruction_wf i → protocol_version i = PROTOCOL_VERSION →
  encode_zlib i = Ok c → decode_zlib c = Ok i.
Proof. apply decode_encode_zlib. Qed.

(** ** Client differences *)

(** An operation the encoder accepts, by its size limits. *)
Definition operation_valid (operation : ClientOperation) : Prop :=
  match operation with
  | Input b => len b ≤ MAX_INPUT_COMMAND_BYTES
  | Resize c r => c ≠ 0 ∧ c ≤ MAX_TERMINAL_COLUMNS ∧ r ≠ 0 ∧ r ≤ MAX_TERMINAL_ROWS
  end.

(** The wire form of an accepted operation. *)
Definition to_wire (operation : ClientOperation) : WireClientOperation :=
  match operation with
  | Input b => mkWireClientOperation (Some (mkTerminalBytes b)) None
  | Resize c r => mkWireClientOperation None (Some (mkTerminalSize c r))
  end.

Lemma wire_operation_valid op :
  operation_valid op → wire_operation op = Ok (to_wire op).
Proof.
  destruct op; simpl; intros; case_match; try done; lia.
Qed.

Lemma wire_operation_invalid op :
  ¬ operation_valid op →
  ∃ e, wire_operation op = Err e ∧ (e = InputTooLarge ∨ e = InvalidTerminalSize).
Proof.
  destruct op; simpl; intros; case_match; eauto; exfalso; lia.
Qed.

#[export] Instance operation_valid_dec op : Decision (operation_valid op).
Proof. destruct op; unfold operation_valid; apply _. Defined.

Lemma convert_operations_valid ops :
  Forall operation_valid ops → convert_operations ops = Ok (to_wire <$> ops).
Proof.
  induction 1 as [|op ops Hop _ IH]; [done|]. csimpl.
  rewrite wire_operation_valid by done. cbn. by rewrite IH.
Qed.

Lemma convert_operations_invalid ops :
  ¬ Forall operation_valid ops →
  ∃ e, convert_operations ops = Err e ∧ (e = InputTooLarge ∨ e = InvalidTerminalSize).
Proof.
  induction ops as [|op ops IH]; intros Hn; [by destruct Hn|]. simpl.
  destruct (decide (operation_valid op)) as [Hv|Hv].
  - rewrite wire_operation_valid by done. cbn.
    destruct IH as (e & -> & ?); [|by eauto]. intros ?. apply Hn. by constructor.
  - destruct (wire_operation_invalid op Hv) as (e & -> & ?). cbn. eauto.
Qed.

Lemma convert_operations_Ok ops wires :
  convert_operations ops = Ok wires → Forall operation_valid ops.
Proof.
  intros Hc. destruct (decide (Forall operation_valid ops)) as [|Hn]; [done|].
  destruct (convert_operations_invalid ops Hn) as (e & He & _). congruence.
Qed.

(** The encoding of an accepted list of operations. *)
Definition difference_bytes `{Prost} (ops : list ClientOperation) : bytes :=
  difference_to_vec (mkWireClientDifference (to_wire <$> ops)).

Lemma encode_client_difference_inv `{PR : Prost} `{!ProstLaws PR} ops b :
  encode_client_difference ops = Ok b →
  len ops ≤ MAX_CLIENT_OPERATIONS_AFTER_ACK ∧ Forall operation_valid ops ∧
  len (difference_bytes ops) ≤ MAX_STATE_DIFFERENCE_BYTES ∧ b = difference_bytes ops.
Proof.
  unfold encode_client_difference.
  destruct (Z.ltb_spec MAX_CLIENT_OPERATIONS_AFTER_ACK (len ops)); [done|].
  destruct (convert_operations ops) as [w| |] eqn:Hc; cbn; try done.
  pose proof (convert_operations_Ok _ _ Hc) as Hv. rewrite convert_operations_valid in Hc by done.
  injection Hc as <-. rewrite difference_encoded_len_ok.
  destruct (Z.ltb_spec MAX_STATE_DIFFERENCE_BYTES (len (difference_bytes ops))) as [H'|H'];
    unfold difference_bytes in *; [by rewrite (proj2 (Z.ltb_lt _ _) H')|].
  rewrite (proj2 (Z.ltb_ge _ _) H'). intros [= <-]. done.
Qed.

Lemma encode_client_difference_Ok `{PR : Prost} `{!ProstLaws PR} ops :
  len ops ≤ MAX_CLIENT_OPERATIONS_AFTER_ACK → Forall operation_valid ops →
  len (difference_bytes ops) ≤ MAX_STATE_DIFFERENCE_BYTES →
  encode_client_difference ops = Ok (difference_bytes ops).
Proof.
  intros Hl Hv Hb. unfold encode_client_difference.
  destruct (Z.ltb_spec MAX_CLIENT_OPERATIONS_AFTER_ACK (len ops)); [lia|].
  rewrite convert_operations_valid by done. cbn. rewrite difference_encoded_len_ok.
  unfold difference_bytes in *. by rewrite (proj2 (Z.ltb_ge _ _) Hb).
Qed.

(** A part of an encodable list is encodable. *)
Lemma difference_bytes_app `{PR : Prost} `{!ProstLaws PR} a b :
  difference_bytes (a ++ b) = difference_bytes a ++ difference_bytes b.
Proof. unfold difference_bytes. by rewrite fmap_app, difference_to_vec_app. Qed.

(** A client difference encodes, as the wire form of exactly its operations
    in order, if and only if it has at most 4096 of them, every one respects the
    input-size and terminal-size limits, and the encoding fits 2 MiB; otherwise
    the call is a typed error and never a panic. *)
Theorem client_difference_encodes `{PR : Prost} (ops : list ClientOperation) :
  let d := mkWireClientDifference (to_wire <$> ops) in
  (len ops ≤ MAX_CLIENT_OPERATIONS_AFTER_ACK ∧ Forall operation_valid ops ∧
   difference_encoded_len d ≤ MAX_STATE_DIFFERENCE_BYTES ∧
   encode_client_difference ops = Ok (difference_to_vec d))
  ∨ (¬ (len ops ≤ MAX_CLIENT_OPERATIONS_AFTER_ACK ∧ Forall operation_valid ops ∧
        difference_encoded_len d ≤ MAX_STATE_DIFFERENCE_BYTES) ∧
     ∃ e, encode_client_difference ops = Err e ∧
       e ∈ [TooManyClientOperations; InputTooLarge; InvalidTerminalSize; StateDifferenceTooLarge]).
Proof.
  intros d. unfold encode_client_difference.
  destruct (Z.ltb_spec MAX_CLIENT_OPERATIONS_AFTER_ACK (len ops)).
  { right. split; [lia|]. eexists. split; [done|]. set_solver. }
  destruct (decide (Forall operation_valid ops)) as [Hv|Hv].
  - rewrite convert_operations_valid by done. cbn. fold d.
    destruct (Z.ltb_spec MAX_STATE_DIFFERENCE_BYTES (difference_encoded_len d)).
    + right. split; [lia|]. eexists. split; [done|]. set_solver.
    + by left.
  - destruct (convert_operations_invalid ops Hv) as (e & -> & He). cbn.
    right. split; [tauto|]. exists e. split; [done|]. destruct He as [-> | ->]; set_solver.
Qed.

(** ** Concrete instances of the two interfaces *)

(** Escaped bytes: each preceded by 1, the string closed by 0. *)
Definition escape (b : bytes) : bytes := concat ((λ x, [1; x]) <$> b) ++ [0].

Fixpoint unescape (l : bytes) : option (bytes * bytes) :=
  match l with
  | 0 :: rest => Some ([], rest)
  | 1 :: x :: rest =>
      match unescape rest with
      | Some (b, rest') => Some (x :: b, rest')
      | None => None
      end
  | _ => None
  end.

Lemma unescape_escape b rest : unescape (escape b ++ rest) = Some (b, rest).
Proof. induction b as [|x b IH]; [done|]. unfold escape in *. csimpl. by rewrite IH. Qed.

Definition plain_instruction (i : TransportInstruction) : bytes :=
  protocol_version i :: base_state i :: new_state i :: acknowledged_state i ::
  discard_before_state i :: escape (state_difference i) ++ escape (chaff i).

Definition plain_decode (l : bytes) : option TransportInstruction :=
  match l with
  | v :: b :: n :: a :: t :: rest =>
      match unescape rest with
      | Some (d, rest') =>
          match unescape rest' with
          | Some (c, []) =>
              let i := mkTransportInstruction v b n a t d c in
              if bool_decide (instruction_wf i) then Some i else None
          | _ => None
          end
      | None => None
      end
  | _ => None
  end.

Definition plain_operation (o : WireClientOperation) : bytes :=
  match bytes_operation o with Some b => 2 :: escape (tb_bytes b) | None => [] end ++
  match initial_size o with Some s => [3; ts_columns s; ts_rows s] | None => [] end.

Definition plain_difference (d : WireClientDifference) : bytes :=
  concat (plain_operation <$> wire_operations d).

#[local] Instance plain_prost : Prost := {|
  instruction_to_vec := plain_instruction;
  instruction_encoded_len i := len (plain_instruction i);
  instruction_decode := plain_decode;
  difference_to_vec := plain_difference;
  difference_encoded_len d := len (plain_difference d);
|}.

#[local] Instance plain_prost_laws : ProstLaws plain_prost.
Proof.
  constructor; [done| |done| |].
  3: { intros a b. simpl. unfold plain_difference. simpl. by rewrite fmap_app, concat_app. }
  2: { intros l i. simpl. unfold plain_decode. intros H. repeat case_match; simplify_eq.
       match goal with H : bool_decide _ = true |- _ => by apply bool_decide_eq_true in H end. }
  intros [v b n a t d c] Hwf. simpl. unfold plain_instruction. simpl. rewrite unescape_escape.
  rewrite <- (app_nil_r (escape c)), unescape_escape. by rewrite bool_decide_eq_true_2.
Qed.

(** The stored format: the contents and one closing byte. *)
#[local] Instance stored_zlib : Zlib := {|
  compress_to_vec_zlib x _ := x ++ [0];
  InflateState := unit;
  inflate_new := tt;
  inflate _ input writable :=
    let contents := (length input - 1)%nat in
    let n := Nat.min (Z.to_nat writable) contents in
    if (n =? contents)%nat
    then (tt, Z.of_nat (Nat.min (n + 1) (length input)), take n input, StreamEnd)
    else (tt, Z.of_nat n, take n input, StreamOk);
|}.

#[local] Instance stored_zlib_bounds : ZlibBounds stored_zlib.
Proof.
  constructor. intros [] input w [] c wr s Hw H. simpl in H.
  case_match; injection H as <- <- _; rewrite len_take; unfold len; lia.
Qed.

#[local, refine] Instance stored_zlib_laws : ZlibLaws stored_zlib := {|
  inflating _ rest_in rest_out := rest_in = rest_out ++ [0];
|}.
Proof.
  - intros x H. by apply app_eq_nil in H as [_ ?].
  - done.
  - intros [] ? out w -> Hw. simpl. rewrite length_app. simpl.
    replace (length out + 1 - 1)%nat with (length out) by lia.
    destruct (Nat.eqb_spec (Z.to_nat w `min` length out) (length out)) as [He|He].
    + exists tt, (length out + 1)%nat, (length out), StreamEnd.
      split; [|split; [done|split; [done|split; [lia|]]]; left; split_and!; done].
      rewrite He, take_app_le, Nat.min_id by done. done.
    + exists tt, (Z.to_nat w `min` length out)%nat, (Z.to_nat w `min` length out)%nat, StreamOk.
      split; [by rewrite take_app_le by lia|].
      split; [lia|]. split; [lia|]. split; [lia|]. right. split; [done|]. split; [lia|].
      by rewrite drop_app_le by lia.
Defined.

Definition sample_instruction : TransportInstruction :=
  mkTransportInstruction PROTOCOL_VERSION 3 5 2 1 [104; 105] [7].

Lemma decompress_total_witness :
  ∃ r, decompress_exact_zlib (H:=stored_zlib) [1; 2; 3] = inr r ∧ no_panic r ∧
    ∀ out, r = Ok out → len out ≤ MAX_DECOMPRESSED_INSTRUCTION_BYTES.
Proof. apply (decompress_total (ZL:=stored_zlib)). Defined.

Lemma decompress_compress_witness :
  decompress_exact_zlib (H:=stored_zlib) (compress_to_vec_zlib [1; 2; 3] ZLIB_LEVEL) = inr (Ok [1; 2; 3]).
Proof. apply (decompress_compress (ZL:=stored_zlib) [1; 2; 3]). Defined.

Lemma instruction_zlib_roundtrip_witness :
  decode_zlib (plain_instruction sample_instruction ++ [0]) = Ok sample_instruction.
Proof.
  apply (instruction_zlib_roundtrip (PR:=plain_prost) (ZL:=stored_zlib)).
  - unfold instruction_wf, is_u32, is_u64, is_u8. simpl. split_and!; repeat constructor; vm_compute; congruence.
  - reflexivity.
  - vm_compute. reflexivity.
Defined.

Example oversized_input_refused :
  encode_client_difference [Input (replicate (Z.to_nat (64 * 1024 + 1)) 0)] = Err InputTooLarge.
Proof. vm_compute. reflexivity. Qed.
