(* ===== verification/Synchronization.v ===== *)
(** * State synchronization: [src/src/synchronization.rs]

    The bookkeeping of both directions of the protocol: which client states were
    sent and when, which one the server is known to hold, and which server
    states are kept as references. Plans are tokens: [plan_send] and
    [begin_receive] issue them, [commit_send] and [commit_receive] redeem them
    against the generation they were issued at. *)

From S2P Require Import Prelude Limits Instruction BTreeMap.

Local Open Scope Z_scope.

Inductive SynchronizationError :=
  | StateNumberExhausted
  | InvalidAcknowledgement
  | SyncIncompatibleVersion
  | InvalidStateTransition
  | InvalidThrowaway
  | InvalidRetransmissionTimeout
  | TimeMovedBackwards
  | NoNewState
  | StalePlan
  | GenerationExhausted.

#[export] Instance SynchronizationError_eq_dec : EqDecision SynchronizationError.
Proof. solve_decision. Defined.

Inductive AcknowledgementDisposition :=
  | Advanced (from to : Z)
  | Current
  | Stale
  | Unknown.

#[export] Instance AcknowledgementDisposition_eq_dec : EqDecision AcknowledgementDisposition.
Proof. solve_decision. Defined.

Record SendPlan := mkSendPlan {
  sp_generation : Z;
  sp_base_state : Z;
  sp_target_state : Z;
  sp_acknowledged_state : Z;
  sp_throwaway_state : Z;
  sp_planned_at_ms : Z;
}.

Record SendCommit := mkSendCommit { sc_capacity_evicted_state : option Z }.

(** [SendPlan::instruction] *)
Definition SendPlan_instruction (p : SendPlan) (state_difference chaff : bytes) : TransportInstruction :=
  mkTransportInstruction PROTOCOL_VERSION (sp_base_state p) (sp_target_state p)
    (sp_acknowledged_state p) (sp_throwaway_state p) state_difference chaff.

Record ApplyPlan := mkApplyPlan {
  ap_generation : Z;
  ap_base_state : Z;
  ap_target_state : Z;
  ap_throwaway_state : Z;
  ap_difference : bytes;
  ap_becomes_latest : bool;
}.

Inductive RemoteStateDisposition :=
  | Apply (plan : ApplyPlan)
  | AlreadyConstructed
  | MissingReference
  | BelowThrowawayFloor
  | BelowRetentionWindow.

Record ReceiveTransition := mkReceiveTransition {
  acknowledgement : AcknowledgementDisposition;
  remote_state : RemoteStateDisposition;
}.

Record ShutdownTransition := mkShutdownTransition {
  st_base_state : Z;
  st_difference : bytes;
}.

Record ReceiveCommit := mkReceiveCommit {
  rc_discard_before_state : Z;
  rc_capacity_evicted_state : option Z;
}.

Record SentState := mkSentState { number : Z; sent_at_ms : Z }.

Record SynchronizationState := mkSynchronizationState {
  local_latest : Z;
  known_receiver_state : Z;
  sent_states : list SentState;
  sender_generation : Z;
  remote_latest : Z;
  remote_throwaway_floor : Z;
  received_states : list Z;
  receiver_generation : Z;
}.

Definition SynchronizationState_new : SynchronizationState :=
  mkSynchronizationState 0 0 [] 0 0 0 [0] 0.

(** [VecDeque::contains] *)
Definition contains (x : Z) (l : list Z) : bool := existsb (Z.eqb x) l.

(** [latest_unacknowledged_sent_at_ms] *)
Definition latest_unacknowledged_sent_at_ms (s : SynchronizationState) : option Z :=
  sent_at_ms <$> last (sent_states s).

Definition find_sent (n : Z) (l : list SentState) : option SentState :=
  find (λ sent, number sent =? n) l.

Definition sent_state_sent_at_ms (s : SynchronizationState) (n : Z) : option Z :=
  sent_at_ms <$> find_sent n (sent_states s).

Abbreviation SyncM := (M SynchronizationState SynchronizationError).

(** [advance_local] *)
Definition advance_local : SyncM Z :=
  s ← get;
  next_state ← lift (ok_or StateNumberExhausted (checked_add U64_MAX (local_latest s) 1));
  next_generation ← lift (ok_or GenerationExhausted (checked_add U64_MAX (sender_generation s) 1));
  put (mkSynchronizationState next_state (known_receiver_state s) (sent_states s) next_generation
         (remote_latest s) (remote_throwaway_floor s) (received_states s) (receiver_generation s)) ;;
  mret next_state.

(** The loop of [plan_send] over the sent states, newest first. *)
Fixpoint plan_base (now_ms retransmission_timeout_ms known : Z) (newest_first : list SentState) :
    Result SynchronizationError Z :=
  match newest_first with
  | [] => Ok known
  | sent :: rest =>
      elapsed ← ok_or TimeMovedBackwards (checked_sub now_ms (sent_at_ms sent));
      if elapsed <? retransmission_timeout_ms then Ok (number sent)
      else plan_base now_ms retransmission_timeout_ms known rest
  end.

(** [plan_send] *)
Definition plan_send (now_ms retransmission_timeout_ms : Z) (s : SynchronizationState) :
    Result SynchronizationError SendPlan :=
  if negb ((MIN_RETRANSMISSION_TIMEOUT_MS <=? retransmission_timeout_ms)
           && (retransmission_timeout_ms <=? MAX_RETRANSMISSION_TIMEOUT_MS))
  then Err InvalidRetransmissionTimeout
  else
    base_state ← plan_base now_ms retransmission_timeout_ms (known_receiver_state s)
                   (rev (sent_states s));
    if local_latest s <=? base_state then Err NoNewState
    else Ok (mkSendPlan (sender_generation s) base_state (local_latest s) (remote_latest s)
               (known_receiver_state s) now_ms).

(** [iter_mut().find(..)]: overwrite the send time of the first match. *)
Fixpoint update_sent (n now_ms : Z) (l : list SentState) : list SentState :=
  match l with
  | [] => []
  | sent :: rest =>
      if number sent =? n then mkSentState n now_ms :: rest
      else sent :: update_sent n now_ms rest
  end.

(** The update of [sent_states] in [commit_send], with the evicted state. *)
Definition record_sent (p : SendPlan) (known : Z) (sent : list SentState) : list SentState * option Z :=
  if known <? sp_target_state p then
    match find_sent (sp_target_state p) sent with
    | Some _ => (update_sent (sp_target_state p) (sp_planned_at_ms p) sent, None)
    | None =>
        let '(sent', evicted) :=
          if len sent =? MAX_SENT_STATES_AFTER_ACK
          then (tail sent, number <$> head sent) else (sent, None) in
        (sent' ++ [mkSentState (sp_target_state p) (sp_planned_at_ms p)], evicted)
    end
  else (sent, None).

(** [commit_send] *)
Definition commit_send (p : SendPlan) : SyncM SendCommit :=
  s ← get;
  fail_if (negb (sp_generation p =? sender_generation s)
           || negb (sp_target_state p =? local_latest s)
           || negb (sp_acknowledged_state p =? remote_latest s)
           || negb (sp_throwaway_state p =? known_receiver_state s)) StalePlan ;;
  next_generation ← lift (ok_or GenerationExhausted (checked_add U64_MAX (sender_generation s) 1));
  let '(sent, evicted) := record_sent p (known_receiver_state s) (sent_states s) in
  put (mkSynchronizationState (local_latest s) (known_receiver_state s) sent next_generation
         (remote_latest s) (remote_throwaway_floor s) (received_states s) (receiver_generation s)) ;;
  mret (mkSendCommit evicted).

(** [validate_instruction] *)
Definition validate_instruction (i : TransportInstruction) (s : SynchronizationState) :
    Result SynchronizationError unit :=
  if negb (protocol_version i =? PROTOCOL_VERSION) then Err SyncIncompatibleVersion
  else if local_latest s <? acknowledged_state i then Err InvalidAcknowledgement
  else if new_state i <=? base_state i then Err InvalidStateTransition
  else if base_state i <? discard_before_state i then Err InvalidThrowaway
  else Ok tt.

(** [usize::from] of a [bool] *)
Definition usize_from (b : bool) : nat := if b then 1%nat else 0%nat.

(** [can_retain_received_state] *)
Definition can_retain_received_state (target_state : Z) (s : SynchronizationState) : bool :=
  if len (received_states s) <? MAX_RECEIVED_REFERENCE_STATES then true
  else
    let protected_floor := bool_decide (head (received_states s) = Some (remote_throwaway_floor s)) in
    let first_evictable := usize_from protected_floor in
    is_some_and (received_states s !! first_evictable) (λ n, n <? target_state).

(** [observe_acknowledgement] *)
Definition observe_acknowledgement (ack : Z) : SyncM AcknowledgementDisposition :=
  s ← get;
  if ack <? known_receiver_state s then mret Stale
  else if ack =? known_receiver_state s then mret Current
  else if negb (existsb (λ sent, number sent =? ack) (sent_states s)) then mret Unknown
  else
    next_generation ← lift (ok_or GenerationExhausted (checked_add U64_MAX (sender_generation s) 1));
    put (mkSynchronizationState (local_latest s) ack
           (filter (λ sent, ack < number sent) (sent_states s)) next_generation
           (remote_latest s) (remote_throwaway_floor s) (received_states s) (receiver_generation s)) ;;
    mret (Advanced (known_receiver_state s) ack).

(** The disposition [begin_receive] gives the remote state. *)
Definition classify_remote (i : TransportInstruction) (s : SynchronizationState) : RemoteStateDisposition :=
  if (new_state i <? remote_throwaway_floor s) || (base_state i <? remote_throwaway_floor s)
  then BelowThrowawayFloor
  else if contains (new_state i) (received_states s) then AlreadyConstructed
  else if negb (contains (base_state i) (received_states s)) then MissingReference
  else if negb (can_retain_received_state (new_state i) s) then BelowRetentionWindow
  else Apply (mkApplyPlan (receiver_generation s) (base_state i) (new_state i)
                (discard_before_state i) (state_difference i) (remote_latest s <? new_state i)).

(** [begin_receive] *)
Definition begin_receive (i : TransportInstruction) : SyncM ReceiveTransition :=
  s ← get;
  lift (validate_instruction i s) ;;
  ack ← observe_acknowledgement (acknowledged_state i);
  disposition ← gets (classify_remote i);
  mret (mkReceiveTransition ack disposition).

(** [begin_shutdown_receive] *)
Definition begin_shutdown_receive (i : TransportInstruction) : SyncM ShutdownTransition :=
  s ← get;
  fail_if (negb (protocol_version i =? PROTOCOL_VERSION)
           || negb (new_state i =? SHUTDOWN_STATE)
           || (local_latest s <? acknowledged_state i)
           || (base_state i <? discard_before_state i)
           || (base_state i <? remote_throwaway_floor s)
           || negb (contains (base_state i) (received_states s))) InvalidStateTransition ;;
  observe_acknowledgement (acknowledged_state i) ;;
  mret (mkShutdownTransition (base_state i) (state_difference i)).

(** [VecDeque::remove]: [None] and no change out of range. *)
Definition vecdeque_remove (i : nat) (l : list Z) : list Z * option Z :=
  match l !! i with
  | Some x => (delete i l, Some x)
  | None => (l, None)
  end.

(** The capacity eviction of [commit_receive]. *)
Definition evict_received (floor : Z) (received : list Z) : list Z * option Z :=
  if len received =? MAX_RECEIVED_REFERENCE_STATES then
    let protected_floor := bool_decide (head received = Some floor) in
    let removal_index := usize_from protected_floor in
    vecdeque_remove removal_index received
  else (received, None).

(** [position(|n| *n > target)] and [insert]: before the first larger number. *)
Fixpoint insert_before_larger (target : Z) (received : list Z) : list Z :=
  match received with
  | [] => [target]
  | n :: rest => if target <? n then target :: received else n :: insert_before_larger target rest
  end.

(** [commit_receive] *)
Definition commit_receive (p : ApplyPlan) : SyncM ReceiveCommit :=
  s ← get;
  fail_if (negb (ap_generation p =? receiver_generation s)
           || negb (contains (ap_base_state p) (received_states s))
           || contains (ap_target_state p) (received_states s)) StalePlan ;;
  next_generation ← lift (ok_or GenerationExhausted (checked_add U64_MAX (receiver_generation s) 1));
  let latest := if ap_becomes_latest p then ap_target_state p else remote_latest s in
  let floor := if ap_becomes_latest p
               then Z.max (remote_throwaway_floor s) (ap_throwaway_state p)
               else remote_throwaway_floor s in
  let retained := if ap_becomes_latest p
                  then filter (λ n, floor ≤ n) (received_states s)
                  else received_states s in
  let '(kept, evicted) := evict_received floor retained in
  put (mkSynchronizationState (local_latest s) (known_receiver_state s) (sent_states s)
         (sender_generation s) latest floor (insert_before_larger (ap_target_state p) kept)
         next_generation) ;;
  mret (mkReceiveCommit floor evicted).

(** ** The invariant *)
Record sync_wf (s : SynchronizationState) : Prop := {
  wf_known : 0 ≤ known_receiver_state s ≤ local_latest s;
  wf_local : local_latest s ≤ U64_MAX;
  wf_sent_sorted : StronglySorted Z.lt (number <$> sent_states s);
  wf_sent_range : Forall (λ x, known_receiver_state s < number x ≤ local_latest s) (sent_states s);
  wf_sent_len : len (sent_states s) ≤ MAX_SENT_STATES_AFTER_ACK;
  wf_sender_generation : is_u64 (sender_generation s);
  wf_received_sorted : StronglySorted Z.lt (received_states s);
  wf_received_range : Forall (λ n, remote_throwaway_floor s ≤ n ≤ remote_latest s) (received_states s);
  wf_latest : remote_latest s ∈ received_states s;
  wf_remote_u64 : 0 ≤ remote_throwaway_floor s ∧ remote_latest s ≤ U64_MAX;
  wf_received_len : len (received_states s) ≤ MAX_RECEIVED_REFERENCE_STATES;
  wf_receiver_generation : is_u64 (receiver_generation s);
}.

(** A receive token that was issued at the current receiver state. *)
Record apply_plan_ok (s : SynchronizationState) (p : ApplyPlan) : Prop := {
  ap_base_held : ap_base_state p ∈ received_states s;
  ap_target_new : ap_target_state p ∉ received_states s;
  ap_order : 0 ≤ ap_throwaway_state p ≤ ap_base_state p;
  ap_forward : ap_base_state p < ap_target_state p ≤ U64_MAX;
  ap_latest : ap_becomes_latest p = (remote_latest s <? ap_target_state p);
  ap_retained : can_retain_received_state (ap_target_state p) s = true;
}.

(** A send token that was issued at the current sender state. *)
Record send_plan_ok (s : SynchronizationState) (p : SendPlan) : Prop := {
  sp_base_known : sp_base_state p = known_receiver_state s
                  ∨ sp_base_state p ∈ number <$> sent_states s;
  sp_target_latest : sp_target_state p = local_latest s;
  sp_forward : sp_base_state p < sp_target_state p;
  sp_throwaway_known : sp_throwaway_state p = known_receiver_state s;
}.

(** ** List lemmas *)
Lemma contains_spec x l : contains x l = true ↔ x ∈ l.
Proof.
  unfold contains. rewrite existsb_exists. split.
  - intros (y & Hy & He%Z.eqb_eq). subst. by apply list_elem_of_In.
  - intros Hx. exists x. split; [by apply list_elem_of_In|apply Z.eqb_refl].
Qed.

Lemma contains_false x l : contains x l = false ↔ x ∉ l.
Proof. rewrite <- contains_spec. by destruct (contains x l). Qed.

Lemma Forall_sublist {A} (P : A → Prop) (l k : list A) : sublist l k → Forall P k → Forall P l.
Proof. rewrite !Forall_forall. eauto using elem_of_sublist. Qed.

Lemma sorted_sublist (l k : list Z) :
  sublist l k → StronglySorted Z.lt k → StronglySorted Z.lt l.
Proof.
  induction 1 as [|x l k Hlk IH|x l k Hlk IH]; intros Hs; [constructor| |].
  - inversion Hs as [|?? Hk Ha]; subst. constructor; [by apply IH|]. by eapply Forall_sublist.
  - inversion Hs; subst. by apply IH.
Qed.

Lemma sublist_fmap {A B} (f : A → B) (l k : list A) : sublist l k → sublist (f <$> l) (f <$> k).
Proof. induction 1; csimpl; by constructor. Qed.

Lemma sorted_snoc (l : list Z) x :
  StronglySorted Z.lt l → Forall (λ y, y < x) l → StronglySorted Z.lt (l ++ [x]).
Proof.
  induction 1 as [|y l Hl IH Hy]; intros Hx; simpl; [by repeat constructor|].
  apply Forall_cons in Hx as [? ?]. constructor; [by apply IH|].
  apply Forall_app. split; [done|]. by repeat constructor.
Qed.

Lemma len_filter_le {A} (P : A → Prop) `{!∀ x, Decision (P x)} (l : list A) :
  len (filter P l) ≤ len l.
Proof. unfold len. pose proof (length_filter P l). lia. Qed.

Lemma insert_before_larger_elem t l x : x ∈ insert_before_larger t l ↔ x = t ∨ x ∈ l.
Proof. induction l; simpl; [set_solver|]. case_match; set_solver. Qed.

Lemma insert_before_larger_len t l : len (insert_before_larger t l) = len l + 1.
Proof. induction l; simpl; [done|]. case_match; rewrite !len_cons; lia. Qed.

Lemma insert_before_larger_sorted t l :
  StronglySorted Z.lt l → t ∉ l → StronglySorted Z.lt (insert_before_larger t l).
Proof.
  induction 1 as [|y l Hl IH Hy]; intros Ht; simpl; [by repeat constructor|].
  destruct (Z.ltb_spec t y).
  - constructor; [by constructor|]. constructor; [done|]. eapply Forall_impl; [done|]. simpl. lia.
  - constructor; [apply IH; set_solver|]. apply Forall_forall. intros x Hx.
    apply insert_before_larger_elem in Hx as [->|Hx]; [set_solver by lia|].
    by eapply Forall_forall in Hy.
Qed.

Lemma StronglySorted_lookup_lt (l : list Z) i j x y :
  StronglySorted Z.lt l → l !! i = Some x → l !! j = Some y → (i < j)%nat → x < y.
Proof.
  intros Hs. revert i j. induction Hs as [|z l Hs IH Hz]; intros i j Hi Hj Hij; [done|].
  destruct j as [|j]; [lia|]. destruct i as [|i]; simplify_eq/=.
  - eapply Forall_lookup_1 in Hz; [|exact Hj]. done.
  - apply (IH i j); [done|done|lia].
Qed.

Lemma usize_from_le b : (usize_from b ≤ 1)%nat.
Proof. destruct b; simpl; lia. Qed.

Lemma evict_received_sublist floor l : sublist (evict_received floor l).1 l.
Proof.
  unfold evict_received, vecdeque_remove. case_match; [|done]. case_match; [|done].
  apply sublist_delete.
Qed.

Lemma evict_received_len floor l :
  len l ≤ MAX_RECEIVED_REFERENCE_STATES →
  len (evict_received floor l).1 + 1 ≤ MAX_RECEIVED_REFERENCE_STATES.
Proof.
  intros Hl. unfold evict_received, vecdeque_remove.
  destruct (Z.eqb_spec (len l) MAX_RECEIVED_REFERENCE_STATES) as [He|]; [|simpl; lia].
  set (k := usize_from _). assert (k ≤ 1)%nat by apply usize_from_le.
  destruct (lookup_lt_is_Some_2 l k) as [x Hx].
  { unfold len in He. revert He. limits. lia. }
  rewrite Hx. unfold len in *. simpl. rewrite length_delete by eauto. revert He. limits. lia.
Qed.

Lemma find_sent_None n l : find_sent n l = None ↔ n ∉ number <$> l.
Proof.
  unfold find_sent. induction l as [|x l IH]; csimpl; [set_solver|].
  rewrite not_elem_of_cons. destruct (Z.eqb_spec (number x) n); naive_solver.
Qed.

Lemma update_sent_numbers n t l : number <$> update_sent n t l = number <$> l.
Proof.
  induction l as [|x l IH]; [done|]. csimpl.
  destruct (Z.eqb_spec (number x) n); csimpl; congruence.
Qed.

Lemma update_sent_len n t l : len (update_sent n t l) = len l.
Proof. unfold len. by rewrite <- (length_fmap number), update_sent_numbers, length_fmap. Qed.

Lemma Forall_number (P : Z → Prop) l : Forall (λ x, P (number x)) l ↔ Forall P (number <$> l).
Proof. by rewrite Forall_fmap. Qed.

(** ** Every operation keeps the invariant *)
Lemma advance_local_wf s s' r : sync_wf s → advance_local s = (s', r) → sync_wf s'.
Proof.
  intros [] H. unfold advance_local in H. run. cases. checked.
  constructor; simpl; unfold is_u64 in *; try done; try lia.
  eapply Forall_impl; [done|]. simpl. lia.
Qed.

Lemma observe_acknowledgement_wf ack s s' r :
  sync_wf s → observe_acknowledgement ack s = (s', r) → sync_wf s'.
Proof.
  intros Hwf H. unfold observe_acknowledgement in H. run. cases. checked.
  destruct Hwf. apply negb_false_iff, existsb_exists in H2 as (x & Hx%list_elem_of_In & Hn%Z.eqb_eq).
  assert (known_receiver_state s < ack ≤ local_latest s)
    by (subst; by eapply (Forall_forall (λ x, _ < number x ≤ _)) in wf_sent_range0).
  constructor; simpl; unfold is_u64 in *; try done; try lia.
  - eapply sorted_sublist; [apply sublist_fmap, sublist_filter|done].
  - apply Forall_forall. intros y [Hy Hin]%list_elem_of_filter.
    eapply Forall_forall in wf_sent_range0; [|exact Hin]. simpl in *. lia.
  - etrans; [apply len_filter_le|done].
Qed.

Lemma begin_receive_wf i s s' r : sync_wf s → begin_receive i s = (s', r) → sync_wf s'.
Proof.
  intros Hwf H. unfold begin_receive in H. run. cases; eauto using observe_acknowledgement_wf.
Qed.

Lemma begin_shutdown_receive_wf i s s' r :
  sync_wf s → begin_shutdown_receive i s = (s', r) → sync_wf s'.
Proof.
  intros Hwf H. unfold begin_shutdown_receive in H. run. cases; eauto using observe_acknowledgement_wf.
Qed.

(** What [record_sent] does to the sent states of a plan for the newest state. *)
Lemma record_sent_wf p s :
  sync_wf s → sp_target_state p = local_latest s →
  let sent := (record_sent p (known_receiver_state s) (sent_states s)).1 in
  StronglySorted Z.lt (number <$> sent) ∧
  Forall (λ x, known_receiver_state s < number x ≤ local_latest s) sent ∧
  len sent ≤ MAX_SENT_STATES_AFTER_ACK.
Proof.
  intros [] Ht. unfold record_sent. rewrite Ht.
  destruct (Z.ltb_spec (known_receiver_state s) (local_latest s)); [|done].
  destruct (find_sent (local_latest s) (sent_states s)) eqn:Hf.
  { simpl. rewrite update_sent_len. split_and!; [by rewrite update_sent_numbers| |done].
    apply (Forall_number (λ n, _ < n ≤ _)). rewrite update_sent_numbers. by apply Forall_number. }
  apply find_sent_None in Hf.
  assert (∃ kept e, (if len (sent_states s) =? MAX_SENT_STATES_AFTER_ACK
    then (tail (sent_states s), number <$> head (sent_states s)) else (sent_states s, None)) = (kept, e)
    ∧ sublist kept (sent_states s) ∧ len kept + 1 ≤ MAX_SENT_STATES_AFTER_ACK) as (kept & e & -> & Hsub & Hlen).
  { destruct (Z.eqb_spec (len (sent_states s)) MAX_SENT_STATES_AFTER_ACK) as [He|]; do 2 eexists; split_and!; try done; try lia.
    - destruct (sent_states s); [done|]. by constructor.
    - destruct (sent_states s); [by vm_compute in He|]. simpl. rewrite len_cons in He. lia. }
  simpl. rewrite fmap_app, len_app. split_and!; [| |done].
  - apply sorted_snoc.
    + apply sublist_fmap with (f := number) in Hsub. by eapply sorted_sublist.
    + apply Forall_forall. intros n Hn.
      assert (n ∈ number <$> sent_states s) as Hin
        by (eapply elem_of_sublist; [done|by apply sublist_fmap]).
      assert (n ≠ local_latest s) by congruence.
      apply (Forall_number (λ n, _ < n ≤ _)) in wf_sent_range0.
      eapply Forall_forall in wf_sent_range0; [|exact Hin]. simpl in *. lia.
  - apply Forall_app. split; [by eapply Forall_sublist|]. repeat constructor; simpl; lia.
Qed.

Lemma commit_send_wf p s s' r : sync_wf s → commit_send p s = (s', r) → sync_wf s'.
Proof.
  intros Hwf H. unfold commit_send in H. run. cases; checked.
  rename select SynchronizationState into s.
  assert (sp_target_state p = local_latest s) as Ht by lia.
  pose proof (record_sent_wf p s Hwf Ht) as Hr. simpl in Hr.
  match goal with H : record_sent _ _ _ = _ |- _ => rewrite H in Hr end.
  destruct Hwf, Hr as (? & ? & ?). constructor; simpl; unfold is_u64 in *; try done; lia.
Qed.

(** The reference list of [commit_receive], as one function of the receiver state. *)
Definition receive_floor (p : ApplyPlan) (s : SynchronizationState) : Z :=
  if ap_becomes_latest p then Z.max (remote_throwaway_floor s) (ap_throwaway_state p)
  else remote_throwaway_floor s.

Definition receive_latest (p : ApplyPlan) (s : SynchronizationState) : Z :=
  if ap_becomes_latest p then ap_target_state p else remote_latest s.

Definition receive_retained (p : ApplyPlan) (s : SynchronizationState) : list Z :=
  if ap_becomes_latest p then filter (λ n, receive_floor p s ≤ n) (received_states s)
  else received_states s.

Definition received_after (p : ApplyPlan) (s : SynchronizationState) : SynchronizationState :=
  mkSynchronizationState (local_latest s) (known_receiver_state s) (sent_states s)
    (sender_generation s) (receive_latest p s) (receive_floor p s)
    (insert_before_larger (ap_target_state p)
       (evict_received (receive_floor p s) (receive_retained p s)).1)
    (receiver_generation s + 1).

Lemma commit_receive_Ok p s :
  apply_plan_ok s p → ap_generation p = receiver_generation s → receiver_generation s < U64_MAX →
  commit_receive p s =
    (received_after p s,
     Ok (mkReceiveCommit (receive_floor p s) (evict_received (receive_floor p s) (receive_retained p s)).2)).
Proof.
  intros [] Hg Hmax. unfold commit_receive, received_after, receive_floor, receive_latest, receive_retained.
  apply contains_spec in ap_base_held0. apply contains_false in ap_target_new0.
  assert (checked_add U64_MAX (receiver_generation s) 1 = Some (receiver_generation s + 1)) as Hc
    by (apply checked_add_Some; lia).
  unfold_m. rewrite Hg, ap_base_held0, ap_target_new0, Z.eqb_refl, Hc. simpl.
  unfold receive_floor. by destruct (evict_received _ _).
Qed.

Lemma receive_retained_spec p s :
  sync_wf s → apply_plan_ok s p →
  sublist (receive_retained p s) (received_states s) ∧
  Forall (λ n, receive_floor p s ≤ n ≤ remote_latest s) (receive_retained p s) ∧
  ap_base_state p ∈ receive_retained p s ∧
  0 ≤ receive_floor p s ≤ ap_base_state p.
Proof.
  intros [] []. unfold receive_retained, receive_floor.
  pose proof (proj1 (Forall_forall _ _) wf_received_range0) as Hr.
  pose proof (Hr _ ap_base_held0). simpl in *.
  destruct (ap_becomes_latest p).
  - split_and!; [apply sublist_filter| |apply list_elem_of_filter; split; [lia|done]|lia|lia].
    apply Forall_forall. intros n [? Hn]%list_elem_of_filter. specialize (Hr n Hn). lia.
  - split_and!; done || lia.
Qed.

(** The newest reference is never the one that is evicted. *)
Lemma evict_keeps_last floor l x :
  StronglySorted Z.lt l → x ∈ l → Forall (λ n, n ≤ x) l → x ∈ (evict_received floor l).1.
Proof.
  intros Hs Hx Hle. unfold evict_received, vecdeque_remove.
  destruct (Z.eqb_spec (len l) MAX_RECEIVED_REFERENCE_STATES) as [He|]; [|done].
  cbv zeta. set (k := usize_from _). assert (k ≤ 1)%nat as Hf by apply usize_from_le.
  destruct (l !! k) as [y|] eqn:Hy; [|done]. simpl.
  apply list_elem_of_lookup in Hx as [i Hi].
  assert (k < i)%nat.
  { destruct (decide (i ≤ 1)%nat) as [Hi1|]; [|lia]. exfalso.
    destruct (lookup_lt_is_Some_2 l 2) as [z Hz]; [revert He; unfold len; limits; lia|].
    pose proof (Forall_lookup_1 _ _ _ _ Hle Hz). simpl in *.
    pose proof (StronglySorted_lookup_lt l i 2 x z Hs Hi Hz ltac:(lia)). lia. }
  apply list_elem_of_lookup. exists (pred i). rewrite list_lookup_delete_ge by lia.
  by replace (S (pred i)) with i by lia.
Qed.

Lemma commit_receive_wf p s s' r :
  sync_wf s → (ap_generation p = receiver_generation s → apply_plan_ok s p) →
  commit_receive p s = (s', r) → sync_wf s'.
Proof.
  intros Hwf Hp H.
  destruct (decide (ap_generation p = receiver_generation s)) as [Hg|Hg]; cycle 1.
  { unfold commit_receive in H. run. cases; lia. }
  destruct (decide (receiver_generation s < U64_MAX)) as [Hm|Hm]; cycle 1.
  { unfold commit_receive in H. run. cases; checked; lia. }
  specialize (Hp Hg). rewrite commit_receive_Ok in H by done. simplify_eq.
  destruct (receive_retained_spec p s Hwf Hp) as (Hsub & Hrange & Hbase & Hfloor).
  destruct Hwf, Hp. pose proof (evict_received_sublist (receive_floor p s) (receive_retained p s)) as Hev.
  constructor; simpl; unfold is_u64 in *; try done; try lia.
  - apply insert_before_larger_sorted.
    + eapply sorted_sublist; [etrans; [exact Hev|exact Hsub]|done].
    + intros Hin. apply ap_target_new0. eapply elem_of_sublist; [exact Hin|by etrans].
  - apply Forall_forall. intros n [->|Hn]%insert_before_larger_elem.
    + unfold receive_latest. rewrite ap_latest0. case_match; lia.
    + assert (n ∈ receive_retained p s) as Hn' by (by eapply elem_of_sublist).
      eapply Forall_forall in Hrange; [|exact Hn']. simpl in *.
      unfold receive_latest. rewrite ap_latest0. case_match; lia.
  - apply insert_before_larger_elem. unfold receive_latest.
    destruct (ap_becomes_latest p) eqn:Hl; [by left|right]. apply evict_keeps_last.
    + by eapply sorted_sublist.
    + unfold receive_retained. by rewrite Hl.
    + eapply Forall_impl; [exact Hrange|]. simpl. lia.
  - split; [lia|]. unfold receive_latest. case_match; lia.
  - rewrite insert_before_larger_len. apply evict_received_len.
    etrans; [|done]. unfold len. pose proof (sublist_length _ _ Hsub). lia.
Qed.

(** ** The tokens *)
Lemma plan_base_spec now rto known l b :
  plan_base now rto known l = Ok b → b = known ∨ b ∈ number <$> l.
Proof.
  induction l as [|x l IH]; simpl; intros H; [simplify_eq; by left|].
  run. cases; [right; csimpl; set_solver|]. destruct IH; [done|by left|right; csimpl; set_solver].
Qed.

Lemma plan_send_ok now rto s p :
  plan_send now rto s = Ok p →
  send_plan_ok s p ∧ sp_generation p = sender_generation s ∧ sp_acknowledged_state p = remote_latest s
  ∧ sp_planned_at_ms p = now.
Proof.
  unfold plan_send. run. intros H. cases.
  split; [|done]. split; simpl; try done; [|lia].
  match goal with H : plan_base _ _ _ _ = _ |- _ => apply plan_base_spec in H as [->|Hb] end; [by left|].
  right. apply list_elem_of_fmap in Hb as (x & -> & Hx). apply list_elem_of_fmap_2.
  by apply list_elem_of_In, in_rev, list_elem_of_In in Hx.
Qed.

(** The two halves of the state. *)
Definition receiver_half (s : SynchronizationState) :=
  (remote_latest s, remote_throwaway_floor s, received_states s, receiver_generation s).
Definition sender_half (s : SynchronizationState) :=
  (local_latest s, known_receiver_state s, sent_states s, sender_generation s).

Lemma apply_plan_ok_half s s' p :
  receiver_half s' = receiver_half s → apply_plan_ok s p → apply_plan_ok s' p.
Proof.
  unfold receiver_half. intros H []. injection H as Hl Hf Hr Hg.
  unfold can_retain_received_state in *. constructor; unfold can_retain_received_state; rewrite ?Hl, ?Hf, ?Hr; done.
Qed.

Lemma send_plan_ok_half s s' p :
  sender_half s' = sender_half s → send_plan_ok s p → send_plan_ok s' p.
Proof.
  unfold sender_half. intros H []. injection H as Hl Hf Hr Hg.
  constructor; rewrite ?Hl, ?Hf, ?Hr; done.
Qed.

(** An operation either leaves a half alone or moves it to a new generation. *)
Definition sender_moves (s s' : SynchronizationState) : Prop :=
  sender_half s' = sender_half s ∨ sender_generation s < sender_generation s'.
Definition receiver_moves (s s' : SynchronizationState) : Prop :=
  receiver_half s' = receiver_half s ∨ receiver_generation s < receiver_generation s'.

Lemma advance_local_moves s s' r :
  advance_local s = (s', r) → sender_moves s s' ∧ receiver_half s' = receiver_half s.
Proof.
  intros H. unfold advance_local in H. run. cases; checked;
    (split; [first [by left|right; simpl; lia]|done]).
Qed.

Lemma observe_acknowledgement_moves ack s s' r :
  observe_acknowledgement ack s = (s', r) → sender_moves s s' ∧ receiver_half s' = receiver_half s.
Proof.
  intros H. unfold observe_acknowledgement in H. run. cases; checked;
    (split; [first [by left|right; simpl; lia]|done]).
Qed.

Lemma begin_receive_moves i s s' r :
  begin_receive i s = (s', r) → sender_moves s s' ∧ receiver_half s' = receiver_half s.
Proof.
  intros H. unfold begin_receive in H. run.
  cases; try (split; [by left|done]); eauto using observe_acknowledgement_moves.
Qed.

Lemma begin_shutdown_receive_moves i s s' r :
  begin_shutdown_receive i s = (s', r) → sender_moves s s' ∧ receiver_half s' = receiver_half s.
Proof.
  intros H. unfold begin_shutdown_receive in H. run.
  cases; try (split; [by left|done]); eauto using observe_acknowledgement_moves.
Qed.

Lemma commit_send_moves p s s' r :
  commit_send p s = (s', r) → sender_moves s s' ∧ receiver_half s' = receiver_half s.
Proof.
  intros H. unfold commit_send in H. run. cases; checked;
    (split; [first [by left|right; simpl; lia]|done]).
Qed.

Lemma commit_receive_moves p s s' r :
  commit_receive p s = (s', r) → sender_half s' = sender_half s ∧ receiver_moves s s'.
Proof.
  intros H. unfold commit_receive in H. run. cases; checked;
    (split; [done|first [by left|right; simpl; lia]]).
Qed.

Lemma begin_receive_plan i s s' t p :
  instruction_wf i → sync_wf s → begin_receive i s = (s', Ok t) → remote_state t = Apply p →
  apply_plan_ok s' p ∧ ap_generation p = receiver_generation s' ∧
  ap_difference p = state_difference i ∧ ap_base_state p = base_state i ∧ ap_target_state p = new_state i.
Proof.
  intros Hi Hwf H Ht. pose proof (begin_receive_moves _ _ _ _ H) as [_ Hh].
  unfold begin_receive, validate_instruction in H. run. cases.
  unfold classify_remote in Ht. cases. split; [|done].
  destruct Hi as (? & ? & ? & ? & ? & ? & ?). unfold is_u64 in *.
  split; simpl; try done; try lia.
  - by apply contains_spec, negb_false_iff.
  - by apply contains_false.
  - by apply negb_false_iff.
Qed.

(** ** The component as a transition system

    A world is the state with every plan handed out so far, committed or not,
    so that plans may be redeemed late, twice, or never. *)
Record World := mkWorld {
  w_sync : SynchronizationState;
  w_sends : list SendPlan;
  w_applies : list ApplyPlan;
}.

Definition issued (r : Result SynchronizationError ReceiveTransition) : list ApplyPlan :=
  match r with
  | Ok (mkReceiveTransition _ (Apply p)) => [p]
  | _ => []
  end.

Inductive sync_step : World → World → Prop :=
  | step_advance s s' sends applies r :
      advance_local s = (s', r) → sync_step (mkWorld s sends applies) (mkWorld s' sends applies)
  | step_plan_send s sends applies now rto p :
      plan_send now rto s = Ok p → sync_step (mkWorld s sends applies) (mkWorld s (p :: sends) applies)
  | step_commit_send s s' sends applies p r :
      p ∈ sends → commit_send p s = (s', r) →
      sync_step (mkWorld s sends applies) (mkWorld s' sends applies)
  | step_begin_receive s s' sends applies i r :
      instruction_wf i → begin_receive i s = (s', r) →
      sync_step (mkWorld s sends applies) (mkWorld s' sends (issued r ++ applies))
  | step_begin_shutdown s s' sends applies i r :
      begin_shutdown_receive i s = (s', r) →
      sync_step (mkWorld s sends applies) (mkWorld s' sends applies)
  | step_commit_receive s s' sends applies p r :
      p ∈ applies → commit_receive p s = (s', r) →
      sync_step (mkWorld s sends applies) (mkWorld s' sends applies).

Record world_ok (w : World) : Prop := {
  wo_sync : sync_wf (w_sync w);
  wo_sends p : p ∈ w_sends w → sp_generation p ≤ sender_generation (w_sync w) ∧
    (sp_generation p = sender_generation (w_sync w) → send_plan_ok (w_sync w) p);
  wo_applies p : p ∈ w_applies w → ap_generation p ≤ receiver_generation (w_sync w) ∧
    (ap_generation p = receiver_generation (w_sync w) → apply_plan_ok (w_sync w) p);
}.

Definition world_new : World := mkWorld SynchronizationState_new [] [].

Lemma sync_new_wf : sync_wf SynchronizationState_new.
Proof.
  split; simpl; unfold is_u64; try (vm_compute; intuition congruence); repeat constructor; lia.
Qed.

(** Old tokens stay old, or stay valid. *)
Lemma sends_carried s s' p :
  sender_moves s s' →
  (sp_generation p ≤ sender_generation s ∧ (sp_generation p = sender_generation s → send_plan_ok s p)) →
  sp_generation p ≤ sender_generation s' ∧ (sp_generation p = sender_generation s' → send_plan_ok s' p).
Proof.
  intros [Hh|Hg] [Hle Hok]; [|split; lia].
  assert (sender_generation s' = sender_generation s) as -> by (unfold sender_half in Hh; congruence).
  split; [done|]. intros. eapply send_plan_ok_half; eauto.
Qed.

Lemma applies_carried s s' p :
  receiver_moves s s' →
  (ap_generation p ≤ receiver_generation s ∧ (ap_generation p = receiver_generation s → apply_plan_ok s p)) →
  ap_generation p ≤ receiver_generation s' ∧ (ap_generation p = receiver_generation s' → apply_plan_ok s' p).
Proof.
  intros [Hh|Hg] [Hle Hok]; [|split; lia].
  assert (receiver_generation s' = receiver_generation s) as -> by (unfold receiver_half in Hh; congruence).
  split; [done|]. intros. eapply apply_plan_ok_half; eauto.
Qed.

Lemma world_carried s s' sends applies :
  sync_wf s' → sender_moves s s' → receiver_moves s s' →
  world_ok (mkWorld s sends applies) → world_ok (mkWorld s' sends applies).
Proof.
  intros ??? []. split; simpl in *; eauto using sends_carried, applies_carried.
Qed.

Lemma sync_step_ok w w' : sync_step w w' → world_ok w → world_ok w'.
Proof.
  intros Hstep Hok. pose proof (wo_sync _ Hok) as Hwf. destruct Hstep; simpl in *.
  - destruct (advance_local_moves _ _ _ H). eapply world_carried; eauto using advance_local_wf; by left.
  - destruct (plan_send_ok _ _ _ _ H) as (Hp & Hg & _). destruct Hok. split; simpl in *; try done.
    intros q [->|Hq]%elem_of_cons; [split; [lia|done]|auto].
  - destruct (commit_send_moves _ _ _ _ H0). eapply world_carried; eauto using commit_send_wf; by left.
  - destruct (begin_receive_moves _ _ _ _ H0) as [Hs Hr].
    assert (world_ok (mkWorld s' sends applies)) as [].
    { eapply world_carried; eauto using begin_receive_wf; by left. }
    split; simpl in *; try done. intros p [Hp|Hp]%elem_of_app; [|auto].
    destruct r as [[a [q| | | |]]| |]; simpl in Hp; try set_solver.
    apply list_elem_of_singleton in Hp as ->.
    destruct (begin_receive_plan i s s' _ q H Hwf H0 eq_refl) as (Hq & Hg & _). split; [lia|done].
  - destruct (begin_shutdown_receive_moves _ _ _ _ H).
    eapply world_carried; eauto using begin_shutdown_receive_wf; by left.
  - destruct (commit_receive_moves _ _ _ _ H0). eapply world_carried; eauto; [|by left].
    eapply commit_receive_wf; [done| |done]. by apply (wo_applies _ Hok).
Qed.

Lemma sync_reachable w : rtc sync_step world_new w → world_ok w.
Proof.
  intros H. assert (world_ok world_new) as Hnew
    by (split; simpl; [apply sync_new_wf|set_solver..]).
  induction H; eauto using sync_step_ok.
Qed.

(** ** Retention of reference states *)

(** The policy, for the states [before] a commit and the [target] it adds: kept are the target
    and the states not below the floor, except that when those are already 32 the smallest
    one other than the floor itself is evicted to make room. *)
Record retention (floor target : Z) (before after : list Z) (evicted : option Z) : Prop := {
  rt_sorted : StronglySorted Z.lt after;
  rt_contents n : n ∈ after ↔ n = target ∨ n ∈ before ∧ floor ≤ n ∧ evicted ≠ Some n;
  rt_full : evicted = None ↔ len (filter (λ n, floor ≤ n) before) < MAX_RECEIVED_REFERENCE_STATES;
  rt_evicted x : evicted = Some x →
    x ∈ before ∧ floor < x < target ∧ ∀ n, n ∈ before → floor < n → x ≤ n;
}.

Lemma elem_of_delete_sorted (l : list Z) k x n :
  StronglySorted Z.lt l → l !! k = Some x → n ∈ delete k l ↔ n ∈ l ∧ n ≠ x.
Proof.
  intros Hs. revert k. induction Hs as [|y l Hs IH Hy]; intros k Hk; [done|].
  destruct k as [|k]; simplify_eq/=.
  - split; [|set_solver]. intros Hn. eapply Forall_forall in Hy; [|exact Hn]. split; [set_solver|lia].
  - pose proof (Forall_lookup_1 _ _ _ _ Hy Hk). rewrite !elem_of_cons, (IH k Hk). split; [|tauto].
    intros [->|[? ?]]; [split; [by left|lia]|tauto].
Qed.

(** The index that both computations of the code find: the smallest state above the floor. *)
Lemma evictable_smallest floor (l : list Z) x :
  StronglySorted Z.lt l → Forall (λ n, floor ≤ n) l →
  l !! usize_from (bool_decide (head l = Some floor)) = Some x →
  floor < x ∧ ∀ n, n ∈ l → floor < n → x ≤ n.
Proof.
  intros Hs Hf Hx. inversion Hs as [|y l' Hs' Hy]; subst; [by case_bool_decide|].
  apply Forall_cons in Hf as [Hfy _]. simpl in Hx. case_bool_decide as Hh; simpl in Hx.
  - injection Hh as ->. pose proof (Forall_lookup_1 _ _ _ _ Hy Hx) as Hlt. split; [done|].
    intros n [->|Hn]%elem_of_cons Hfn; [lia|]. destruct l' as [|z l']; [done|]. simplify_eq/=.
    inversion Hs' as [|?? _ Hz]; subst. apply elem_of_cons in Hn as [->|Hn]; [done|].
    eapply Forall_forall in Hz; [|exact Hn]. lia.
  - injection Hx as ->. assert (x ≠ floor) by congruence. split; [lia|].
    intros n [->|Hn]%elem_of_cons _; [done|]. eapply Forall_forall in Hy; [|exact Hn]. lia.
Qed.

Lemma evict_retention floor t before l :
  l = filter (λ n, floor ≤ n) before →
  StronglySorted Z.lt l → t ∉ l → len l ≤ MAX_RECEIVED_REFERENCE_STATES →
  (∀ x, len l = MAX_RECEIVED_REFERENCE_STATES →
    l !! usize_from (bool_decide (head l = Some floor)) = Some x → x < t) →
  retention floor t before (insert_before_larger t (evict_received floor l).1) (evict_received floor l).2.
Proof.
  intros Hl Hs Ht Hlen Hx. assert (∀ n, n ∈ l ↔ floor ≤ n ∧ n ∈ before) as Hin by (intros; by rewrite Hl, list_elem_of_filter).
  assert (Forall (λ n, floor ≤ n) l) as Hf by (apply Forall_forall; intros n Hn; by apply Hin).
  pose proof (evict_received_sublist floor l) as Hsub.
  assert (StronglySorted Z.lt (insert_before_larger t (evict_received floor l).1)) as Hsorted.
  { apply insert_before_larger_sorted; [by eapply sorted_sublist|]. intros H. apply Ht. by eapply elem_of_sublist. }
  revert Hsorted. unfold evict_received, vecdeque_remove. cbv zeta.
  destruct (Z.eqb_spec (len l) MAX_RECEIVED_REFERENCE_STATES) as [He|Hne].
  - destruct (lookup_lt_is_Some_2 l (usize_from (bool_decide (head l = Some floor)))) as [x Hk].
    { pose proof (usize_from_le (bool_decide (head l = Some floor))). revert He. unfold len. limits. lia. }
    rewrite Hk. simpl. intros Hsorted. destruct (evictable_smallest floor l x Hs Hf Hk) as [Hfx Hmin].
    split; [done| | |].
    + intros n. rewrite insert_before_larger_elem, (elem_of_delete_sorted _ _ x) by done. rewrite Hin. naive_solver.
    + rewrite <- Hl. split; [done|lia].
    + intros y [= <-]. pose proof (list_elem_of_lookup_2 _ _ _ Hk) as Hxl%Hin. split_and!; [tauto|done|by apply Hx|].
      intros n Hn Hfn. apply Hmin; [apply Hin; split; [lia|done]|done].
  - simpl. intros Hsorted. split; [done| | |done].
    + intros n. rewrite insert_before_larger_elem, Hin. naive_solver.
    + rewrite <- Hl. split; [lia|done].
Qed.

Lemma receive_retained_filter p s :
  sync_wf s → receive_retained p s = filter (λ n, receive_floor p s ≤ n) (received_states s).
Proof.
  intros []. unfold receive_retained, receive_floor. destruct (ap_becomes_latest p); [done|].
  clear -wf_received_range0. induction wf_received_range0 as [|n l Hn _ IH]; [done|].
  rewrite filter_cons, decide_True, <- IH by lia. done.
Qed.

Lemma received_after_spec p s :
  sync_wf s → apply_plan_ok s p →
  retention (receive_floor p s) (ap_target_state p) (received_states s) (received_states (received_after p s))
    (evict_received (receive_floor p s) (receive_retained p s)).2.
Proof.
  intros Hwf Hp. destruct (receive_retained_spec p s Hwf Hp) as (Hsub & Hrange & _ & _).
  pose proof (receive_retained_filter p s Hwf) as Hfilter. destruct Hwf, Hp.
  apply evict_retention; [done|by eapply sorted_sublist| | |].
  - intros H. apply ap_target_new0. by eapply elem_of_sublist.
  - etrans; [|done]. unfold len. pose proof (sublist_length _ _ Hsub). lia.
  - intros x Hfull Hx. eapply Forall_lookup_1 in Hrange; [|exact Hx]. simpl in Hrange.
    destruct (ap_becomes_latest p) eqn:Hb; [lia|].
    unfold receive_retained, receive_floor in *. rewrite Hb in *.
    unfold can_retain_received_state in ap_retained0. cbv zeta in ap_retained0. rewrite Hfull, Hx in ap_retained0.
    rewrite Z.ltb_irrefl in ap_retained0. simpl in ap_retained0. lia.
Qed.

Lemma commit_receive_gen p s s' c :
  commit_receive p s = (s', Ok c) → ap_generation p = receiver_generation s ∧ receiver_generation s < U64_MAX.
Proof. intros H. unfold commit_receive in H. run. cases; checked; lia. Qed.

Lemma plan_base_newest now rto known l b :
  plan_base now rto known l = Ok b →
  (∃ newer x older, l = newer ++ x :: older ∧ b = number x ∧ now - sent_at_ms x < rto ∧
     Forall (λ y, rto ≤ now - sent_at_ms y) newer) ∨
  (b = known ∧ Forall (λ y, rto ≤ now - sent_at_ms y) l).
Proof.
  induction l as [|x l IH]; simpl; intros H; [simplify_eq; by right|].
  run. cases; checked.
  - left. exists [], x, l. split_and!; try done; lia.
  - destruct (IH H) as [(newer & y & older & -> & -> & ? & ?)|[-> ?]].
    + left. exists (x :: newer), y, older. split_and!; try done. constructor; [lia|done].
    + right. split; [done|]. constructor; [lia|done].
Qed.

Lemma plan_base_total now rto known l :
  Forall (λ y, sent_at_ms y ≤ now) l → ∃ b, plan_base now rto known l = Ok b.
Proof.
  induction 1 as [|x l Hx _ IH]; simpl; [eauto|].
  rewrite (proj2 (checked_sub_Some now (sent_at_ms x) _) (conj eq_refl Hx)). cbn.
  case_match; eauto.
Qed.

(** C6. From the initial state, through any interleaving of the operations, with
    plans committed late, repeatedly or never and any instructions received: the
    known receiver state never passes the newest local state; the sent states are
    strictly ascending between the two and at most 32; the reference states are
    strictly ascending, at most 32, never below the throwaway floor and always
    contain the newest remote state; and a plan whose generation is current is
    still valid for the state it would be committed to. *)
Theorem sync_invariant (w : World) : rtc sync_step world_new w → world_ok w.
Proof. apply sync_reachable. Qed.

(** C7. Committing a received state that is the newest raises the floor to the instruction's
    throwaway number, if that is higher; another one leaves the floor alone. Kept as references, in
    ascending order, are the new state and exactly the earlier ones that are not below the floor;
    only when those are already 32 one of them is evicted: the smallest above the floor, so never the
    floor itself, and it is older than the new state. The commit reports the floor and the evicted
    state. *)
Theorem receive_retention_policy s sends applies p s' c :
  rtc sync_step world_new (mkWorld s sends applies) → p ∈ applies →
  commit_receive p s = (s', Ok c) →
  retention (remote_throwaway_floor s') (ap_target_state p) (received_states s) (received_states s')
    (rc_capacity_evicted_state c) ∧
  remote_latest s' = Z.max (remote_latest s) (ap_target_state p) ∧
  remote_throwaway_floor s' =
    (if bool_decide (remote_latest s < ap_target_state p)
     then Z.max (remote_throwaway_floor s) (ap_throwaway_state p) else remote_throwaway_floor s) ∧
  rc_discard_before_state c = remote_throwaway_floor s'.
Proof.
  intros Hr Hp Hc. apply sync_reachable in Hr as [Hwf _ Happ]. simpl in *.
  destruct (commit_receive_gen _ _ _ _ Hc) as [Hg Hm]. destruct (Happ p Hp) as [_ Hok].
  specialize (Hok Hg). rewrite commit_receive_Ok in Hc by done. simplify_eq.
  split; [by apply received_after_spec|].
  unfold received_after, receive_latest, receive_floor. simpl. rewrite (ap_latest _ _ Hok).
  case_bool_decide; destruct (Z.ltb_spec (remote_latest s) (ap_target_state p)); split_and!; done || lia.
Qed.

(** C35. In every well-formed state, a send plan's base is the newest sent state whose last transmission is
    younger than the retransmission timeout, and the known receiver state when
    every transmission is older; with a valid timeout and a clock that has not
    gone back, planning fails only because there is nothing newer than that base. *)
Theorem send_plan_base now rto s :
  sync_wf s → MIN_RETRANSMISSION_TIMEOUT_MS ≤ rto ≤ MAX_RETRANSMISSION_TIMEOUT_MS →
  Forall (λ x, sent_at_ms x ≤ now) (sent_states s) →
  ∃ base,
    ((∃ x, x ∈ sent_states s ∧ base = number x ∧ now - sent_at_ms x < rto ∧
        ∀ y, y ∈ sent_states s → base < number y → rto ≤ now - sent_at_ms y) ∨
     (base = known_receiver_state s ∧ ∀ y, y ∈ sent_states s → rto ≤ now - sent_at_ms y)) ∧
    plan_send now rto s =
      if local_latest s =? base then Err NoNewState
      else Ok (mkSendPlan (sender_generation s) base (local_latest s) (remote_latest s)
                 (known_receiver_state s) now).
Proof.
  intros Hwf Hrto Htimes. apply Forall_rev in Htimes.
  destruct (plan_base_total now rto (known_receiver_state s) _ Htimes) as [b Hb].
  exists b. assert (b ≤ local_latest s) as Hle.
  { destruct Hwf. apply plan_base_spec in Hb as [->|(x & -> & Hx%list_elem_of_In%in_rev%list_elem_of_In)%list_elem_of_fmap];
      [lia|]. eapply Forall_forall in wf_sent_range0; [|exact Hx]. simpl in *. lia. }
  split.
  - apply plan_base_newest in Hb as [(newer & x & older & Hrev & -> & Hx & Hnew)|[-> Hall]]; [left|right].
    + assert (sent_states s = rev older ++ x :: rev newer) as Hsent.
      { rewrite <- (rev_involutive (sent_states s)), Hrev, rev_app_distr. simpl. by rewrite <- app_assoc. }
      destruct Hwf. rewrite Hsent in *. exists x. split_and!; try done; [set_solver|].
      intros y [Hy|[->|Hy]%elem_of_cons]%elem_of_app Hlt; [|lia|].
      * exfalso. rewrite fmap_app in wf_sent_sorted0. csimpl in wf_sent_sorted0.
        assert (number y < number x); [|lia].
        apply list_elem_of_lookup in Hy as [i Hi].
        eapply (StronglySorted_lookup_lt _ i (length (rev older))); [exact wf_sent_sorted0|..].
        -- rewrite lookup_app_l by (rewrite length_fmap; by eapply lookup_lt_Some).
           by rewrite list_lookup_fmap, Hi.
        -- rewrite lookup_app_r by (by rewrite length_fmap). by rewrite length_fmap, Nat.sub_diag.
        -- by eapply lookup_lt_Some.
      * apply list_elem_of_In, in_rev, list_elem_of_In in Hy. by eapply Forall_forall in Hnew.
    + split; [done|]. intros y Hy. eapply Forall_forall in Hall; [exact Hall|].
      by apply list_elem_of_In, in_rev; rewrite rev_involutive; apply list_elem_of_In.
  - unfold plan_send. rewrite Hb. cbn.
    replace (negb _) with false by (symmetry; lia).
    destruct (Z.leb_spec (local_latest s) b), (Z.eqb_spec (local_latest s) b); done || lia.
Qed.

(** ** Error paths *)
Lemma observe_acknowledgement_err ack s s' e :
  observe_acknowledgement ack s = (s', Err e) → s' = s.
Proof. intros H. unfold observe_acknowledgement in H. run. cases. Qed.

(** An operation that fails leaves the state exactly as it was, and none of
    them panics. *)
Theorem sync_failure_atomic s s' :
  (∀ e, advance_local s = (s', Err e) → s' = s) ∧
  (∀ p e, commit_send p s = (s', Err e) → s' = s) ∧
  (∀ i e, begin_receive i s = (s', Err e) → s' = s) ∧
  (∀ i e, begin_shutdown_receive i s = (s', Err e) → s' = s) ∧
  (∀ p e, commit_receive p s = (s', Err e) → s' = s).
Proof.
  split_and!; intros * H.
  - unfold advance_local in H. run. cases.
  - unfold commit_send in H. run. cases.
  - unfold begin_receive in H. run. cases; eauto using observe_acknowledgement_err.
  - unfold begin_shutdown_receive in H. run. cases; eauto using observe_acknowledgement_err.
  - unfold commit_receive in H. run. cases.
Qed.

Lemma commit_send_fresh now rto p s :
  plan_send now rto s = Ok p →
  (commit_send p s).2 = Err GenerationExhausted ∨ is_ok (commit_send p s).2 = true.
Proof.
  intros Hp. destruct (plan_send_ok _ _ _ _ Hp) as ([] & Hg & Ha & _).
  unfold commit_send. unfold_m. rewrite Hg, Ha, sp_target_latest0, sp_throwaway_known0, !Z.eqb_refl.
  simpl. cases; simpl; auto.
Qed.

Lemma commit_receive_fresh p s :
  apply_plan_ok s p → ap_generation p = receiver_generation s →
  (commit_receive p s).2 = Err GenerationExhausted ∨
  commit_receive p s =
    (received_after p s,
     Ok (mkReceiveCommit (receive_floor p s) (evict_received (receive_floor p s) (receive_retained p s)).2)).
Proof.
  intros Hok Hg. destruct (decide (receiver_generation s < U64_MAX)); [right; by apply commit_receive_Ok|left].
  destruct Hok. apply contains_spec in ap_base_held0. apply contains_false in ap_target_new0.
  unfold commit_receive. unfold_m. rewrite Hg, ap_base_held0, ap_target_new0, Z.eqb_refl. simpl.
  assert (checked_add U64_MAX (receiver_generation s) 1 = None) as -> by (apply checked_add_None; lia).
  done.
Qed.

(** A plan committed with no operation of its half in between is accepted:
    the only failure left is the exhaustion of the 64-bit generation. *)
Theorem fresh_plans_commit s :
  sync_wf s →
  (∀ now rto p, plan_send now rto s = Ok p →
     (commit_send p s).2 = Err GenerationExhausted ∨ is_ok (commit_send p s).2 = true) ∧
  (∀ i s' t p, instruction_wf i → begin_receive i s = (s', Ok t) → remote_state t = Apply p →
     (commit_receive p s').2 = Err GenerationExhausted ∨ is_ok (commit_receive p s').2 = true).
Proof.
  intros Hwf. split; [intros now rto p Hp; by eapply commit_send_fresh|].
  intros i s' t p Hi Hb Ht. destruct (begin_receive_plan _ _ _ _ _ Hi Hwf Hb Ht) as (Hok & Hg & _).
  destruct (commit_receive_fresh p s' Hok Hg) as [Hc|Hc]; rewrite ?Hc; auto.
Qed.

(** C22. An acknowledgement moves the known receiver state only forward and only
    to a state that was sent and is still tracked; it then forgets exactly the
    sent states it covers. Any other acknowledgement changes nothing. *)
Theorem acknowledgement_advances ack s :
  sync_wf s → sender_generation s < U64_MAX →
  observe_acknowledgement ack s =
    if bool_decide (ack ∈ number <$> sent_states s)
    then (mkSynchronizationState (local_latest s) ack
            (filter (λ x, ack < number x) (sent_states s)) (sender_generation s + 1)
            (remote_latest s) (remote_throwaway_floor s) (received_states s) (receiver_generation s),
          Ok (Advanced (known_receiver_state s) ack))
    else (s, Ok (if ack <? known_receiver_state s then Stale
                 else if ack =? known_receiver_state s then Current else Unknown)).
Proof.
  intros [] Hg. unfold observe_acknowledgement. unfold_m.
  assert (checked_add U64_MAX (sender_generation s) 1 = Some (sender_generation s + 1)) as ->
    by (apply checked_add_Some; lia).
  assert (existsb (λ x, number x =? ack) (sent_states s) = bool_decide (ack ∈ number <$> sent_states s)) as ->.
  { apply eq_bool_prop_intro. rewrite bool_decide_spec, list_elem_of_fmap, Is_true_true, existsb_exists.
    split; intros (x & ? & ?); exists x; rewrite ?list_elem_of_In in *; split; try done; lia. }
  case_bool_decide as Hin.
  - apply list_elem_of_fmap in Hin as (x & -> & Hx).
    eapply Forall_forall in wf_sent_range0; [|exact Hx]. simpl in *.
    destruct (Z.ltb_spec (number x) (known_receiver_state s)); [lia|].
    destruct (Z.eqb_spec (number x) (known_receiver_state s)); [lia|]. done.
  - destruct (ack <? known_receiver_state s); [done|]. by destruct (ack =? known_receiver_state s).
Qed.

(** ** Witnesses *)
Definition sample_receive : TransportInstruction :=
  mkTransportInstruction PROTOCOL_VERSION 0 4 0 0 [120] [].

Lemma sample_receive_wf : instruction_wf sample_receive.
Proof. unfold instruction_wf, is_u32, is_u64, is_u8. simpl. split_and!; repeat constructor; vm_compute; congruence. Qed.

Definition sample_plan : ApplyPlan := mkApplyPlan 0 0 4 0 [120] true.

Lemma sample_trace :
  rtc sync_step world_new (mkWorld SynchronizationState_new [] [sample_plan]).
Proof.
  apply rtc_once.
  apply (step_begin_receive SynchronizationState_new SynchronizationState_new [] [] sample_receive
           (Ok (mkReceiveTransition Current (Apply sample_plan)))).
  - apply sample_receive_wf.
  - vm_compute. reflexivity.
Qed.

Lemma sync_invariant_witness : world_ok (mkWorld SynchronizationState_new [] [sample_plan]).
Proof. apply sync_invariant. exact sample_trace. Defined.

(** One state after another is received and committed, until the references are full. *)
Definition received_next (i : TransportInstruction) (w : World) : World :=
  let '(s, r) := begin_receive i (w_sync w) in mkWorld s (w_sends w) (issued r ++ w_applies w).

Definition committed_next (w : World) : World :=
  match w_applies w with
  | p :: _ => mkWorld (commit_receive p (w_sync w)).1 (w_sends w) (w_applies w)
  | [] => w
  end.

Definition following (n : Z) : TransportInstruction := mkTransportInstruction PROTOCOL_VERSION n (n + 1) 0 0 [] [].

Lemma received_next_step n w :
  is_u64 n → is_u64 (n + 1) → rtc sync_step w (received_next (following n) w).
Proof.
  intros Hn Hn'. unfold received_next. destruct w as [s sends applies]. simpl.
  destruct (begin_receive (following n) s) as [s' r] eqn:H. apply rtc_once. eapply step_begin_receive; [|exact H].
  unfold instruction_wf, following, is_u32, is_u64, is_u8 in *. simpl. split_and!; try done || lia.
Qed.

Lemma committed_next_step w : rtc sync_step w (committed_next w).
Proof.
  unfold committed_next. destruct w as [s sends [|p applies]]; simpl; [apply rtc_refl|].
  destruct (commit_receive p s) as [s' r] eqn:H. apply rtc_once. eapply step_commit_receive; [|exact H]. set_solver.
Qed.

Definition numbers (n : nat) : list Z := Z.of_nat <$> seq 0 n.
Definition full_world : World := foldl (λ w n, committed_next (received_next (following n) w)) world_new (numbers 31).
Definition next_world : World := received_next (following 31) full_world.

Lemma next_world_reached : rtc sync_step world_new next_world.
Proof.
  unfold next_world, full_world.
  assert (∀ l w, Forall (λ n, 0 ≤ n < U64_MAX) l →
    rtc sync_step w (foldl (λ w n, committed_next (received_next (following n) w)) w l)) as Hl.
  { induction l as [|n l IH]; intros w Hl; [apply rtc_refl|]. apply Forall_cons in Hl as [Hn Hl]. simpl.
    etrans; [apply (received_next_step n); unfold is_u64; lia|]. etrans; [apply committed_next_step|]. by apply IH. }
  etrans; [apply Hl|apply received_next_step; unfold is_u64; vm_compute; intuition congruence].
  apply Forall_fmap, Forall_seq. simpl. limits. lia.
Qed.

Definition next_sync : SynchronizationState := Eval vm_compute in w_sync next_world.
Definition next_plan : ApplyPlan := mkApplyPlan 31 31 32 0 [] true.

Lemma next_sync_reached : rtc sync_step world_new (mkWorld next_sync [] (w_applies next_world)).
Proof.
  replace (mkWorld next_sync [] (w_applies next_world)) with next_world by (vm_compute; reflexivity).
  apply next_world_reached.
Qed.

Lemma next_plan_issued : next_plan ∈ w_applies next_world.
Proof. apply (list_elem_of_lookup_2 _ 0). vm_compute. reflexivity. Qed.

Definition committed_sync : SynchronizationState := Eval vm_compute in (commit_receive next_plan next_sync).1.

(** The 33rd state evicts state 1: state 0 is the floor. *)
Lemma receive_retention_policy_witness :
  retention 0 32 (received_states next_sync) (received_states committed_sync) (Some 1).
Proof.
  refine (proj1 (receive_retention_policy next_sync [] (w_applies next_world) next_plan committed_sync
    (mkReceiveCommit 0 (Some 1)) next_sync_reached next_plan_issued _)).
  vm_compute. reflexivity.
Defined.

Definition sample_sent : SynchronizationState :=
  mkSynchronizationState 3 0 [mkSentState 1 100; mkSentState 2 900] 5 0 0 [0] 0.

Lemma sample_sent_wf : sync_wf sample_sent.
Proof.
  split; simpl; unfold is_u64; try (vm_compute; intuition congruence);
    repeat constructor; simpl; try lia.
Qed.

Lemma send_plan_base_witness :
  ∃ base, plan_send 1000 250 sample_sent =
    if local_latest sample_sent =? base then Err NoNewState
    else Ok (mkSendPlan 5 base 3 0 0 1000).
Proof.
  destruct (send_plan_base 1000 250 sample_sent) as (base & _ & H).
  - exact sample_sent_wf.
  - vm_compute. intuition congruence.
  - repeat constructor; simpl; lia.
  - exists base. exact H.
Defined.

Lemma fresh_plans_commit_witness :
  let p := mkSendPlan 5 2 3 0 0 1000 in
  plan_send 1000 250 sample_sent = Ok p ∧
  ((commit_send p sample_sent).2 = Err GenerationExhausted ∨
   is_ok (commit_send p sample_sent).2 = true).
Proof.
  cbv zeta. split; [vm_compute; reflexivity|].
  apply (fresh_plans_commit sample_sent sample_sent_wf) with (now := 1000) (rto := 250).
  vm_compute. reflexivity.
Defined.

Lemma acknowledgement_advances_witness :
  (observe_acknowledgement 2 sample_sent).2 = Ok (Advanced 0 2).
Proof.
  rewrite (acknowledgement_advances 2 sample_sent); [|exact sample_sent_wf|vm_compute; reflexivity].
  vm_compute. reflexivity.
Defined.
