(* ===== verification/Timing.v ===== *)
(** * Timers: [src/src/timing.rs]

    The integer round-trip estimator, the 16-bit wire timestamps and the send
    scheduler. Every clock reading is an argument, in milliseconds, as in the
    source. *)

From S2P Require Import Prelude Limits.

Local Open Scope Z_scope.

Definition CLOCK_GRANULARITY_MS : Z := 1.
Definition TIMESTAMP_MODULUS : Z := Z.shiftl 1 16.
Definition NO_TIMESTAMP_REPLY : Z := U16_MAX.

Inductive TimingError :=
  | TimingTimeMovedBackwards
  | TimerExhausted
  | InvalidRttSample
  | TimingStalePlan
  | TimingGenerationExhausted.

#[export] Instance TimingError_eq_dec : EqDecision TimingError.
Proof. solve_decision. Defined.

(** ** The estimator *)
Record RttEstimator := mkRttEstimator {
  smoothed_rtt_eighths : option Z;
  rtt_variation_eighths : Z;
  retransmission_timeout_ms : Z;
}.

Definition RttEstimator_new : RttEstimator :=
  mkRttEstimator None 0 INITIAL_RETRANSMISSION_TIMEOUT_MS.

Definition smoothed_rtt_ms (r : RttEstimator) : option Z :=
  (λ value, div_ceil value 8) <$> smoothed_rtt_eighths r.

Definition frame_interval_ms (r : RttEstimator) : Z :=
  clamp MIN_FRAME_INTERVAL_MS MAX_FRAME_INTERVAL_MS
    (match smoothed_rtt_ms r with
     | None => MAX_FRAME_INTERVAL_MS
     | Some smoothed => div_ceil smoothed 2
     end).

(** [calculate_rto_ms]; the [expect] is the [Panic] branch. *)
Definition calculate_rto_ms (r : RttEstimator) : Result TimingError Z :=
  smoothed ← expect (smoothed_rtt_eighths r);
  variation ← ok_or TimerExhausted (checked_mul U64_MAX (rtt_variation_eighths r) 4);
  let granularity := CLOCK_GRANULARITY_MS * 8 in
  timeout_eighths ← ok_or TimerExhausted (checked_add U64_MAX smoothed (Z.max variation granularity));
  Ok (clamp MIN_RETRANSMISSION_TIMEOUT_MS MAX_RETRANSMISSION_TIMEOUT_MS (div_ceil timeout_eighths 8)).

Definition set_smoothed (v : option Z) (r : RttEstimator) : RttEstimator :=
  mkRttEstimator v (rtt_variation_eighths r) (retransmission_timeout_ms r).
Definition set_variation (v : Z) (r : RttEstimator) : RttEstimator :=
  mkRttEstimator (smoothed_rtt_eighths r) v (retransmission_timeout_ms r).
Definition set_timeout (v : Z) (r : RttEstimator) : RttEstimator :=
  mkRttEstimator (smoothed_rtt_eighths r) (rtt_variation_eighths r) v.

(** [observe_sample] *)
Definition observe_sample (sample_ms : Z) : M RttEstimator TimingError unit :=
  fail_if (MAX_RTT_SAMPLE_MS <? sample_ms) InvalidRttSample ;;
  sample_eighths ← lift (ok_or TimerExhausted (checked_mul U64_MAX sample_ms 8));
  r ← get;
  match smoothed_rtt_eighths r with
  | None =>
      modify (set_smoothed (Some sample_eighths)) ;;
      variation ← lift (ok_or TimerExhausted (checked_mul U64_MAX sample_ms 4));
      modify (set_variation variation)
  | Some smoothed =>
      let deviation := abs_diff smoothed sample_eighths in
      weighted ← lift (ok_or TimerExhausted
        (weighted ← checked_mul U64_MAX (rtt_variation_eighths r) 3;
         checked_add U64_MAX weighted deviation));
      modify (set_variation (weighted / 4)) ;;
      weighted ← lift (ok_or TimerExhausted
        (weighted ← checked_mul U64_MAX smoothed 7;
         checked_add U64_MAX weighted sample_eighths));
      modify (set_smoothed (Some (weighted / 8)))
  end ;;
  r ← get;
  timeout ← lift (calculate_rto_ms r);
  modify (set_timeout timeout).

(** ** Wire timestamps *)
Record OutgoingTimestamps := mkOutgoingTimestamps {
  timestamp : Z;
  timestamp_reply : option Z;
}.

Inductive RttSampleDisposition :=
  | Updated (sample_ms : Z)
  | NoReply
  | Reordered
  | Implausible.

Record DatagramTiming := mkDatagramTiming {
  estimator : RttEstimator;
  highest_received_sequence : option Z;
  last_received_timestamp : option (Z * Z);
  dt_last_observed_ms : Z;
}.

Definition DatagramTiming_new (started_at_ms : Z) : DatagramTiming :=
  mkDatagramTiming RttEstimator_new None None started_at_ms.

(** [wire_milliseconds]; the [expect] is the [Panic] branch. *)
Definition wire_milliseconds (now_ms : Z) : Result TimingError Z :=
  expect (try_from U16_MAX (now_ms mod TIMESTAMP_MODULUS)).

(** [DatagramTiming::observe_time] *)
Definition datagram_observe_time (now_ms : Z) : M DatagramTiming TimingError unit :=
  d ← get;
  fail_if (now_ms <? dt_last_observed_ms d) TimingTimeMovedBackwards ;;
  put (mkDatagramTiming (estimator d) (highest_received_sequence d) (last_received_timestamp d) now_ms).

(** [outgoing] *)
Definition outgoing (now_ms : Z) : M DatagramTiming TimingError OutgoingTimestamps :=
  datagram_observe_time now_ms ;;
  d ← get;
  let reply :=
    '(received, received_at_ms) ← last_received_timestamp d;
    age_ms ← checked_sub now_ms received_at_ms;
    if MAX_TIMESTAMP_REPLY_AGE_MS <? age_ms then None
    else
      age ← try_from U16_MAX age_ms;
      let reply := wrapping_add TIMESTAMP_MODULUS received age in
      if negb (reply =? NO_TIMESTAMP_REPLY) then Some reply else None in
  timestamp ← lift (wire_milliseconds now_ms);
  mret (mkOutgoingTimestamps timestamp reply).

Definition set_estimator (r : RttEstimator) (d : DatagramTiming) : DatagramTiming :=
  mkDatagramTiming r (highest_received_sequence d) (last_received_timestamp d) (dt_last_observed_ms d).

(** [observe_received] *)
Definition observe_received (sequence timestamp : Z) (timestamp_reply : option Z) (now_ms : Z) :
    M DatagramTiming TimingError RttSampleDisposition :=
  datagram_observe_time now_ms ;;
  d ← get;
  if is_some_and (highest_received_sequence d) (λ highest, sequence <=? highest) then mret Reordered
  else
    put (mkDatagramTiming (estimator d) (Some sequence) (Some (timestamp, now_ms)) (dt_last_observed_ms d)) ;;
    match timestamp_reply with
    | None => mret NoReply
    | Some reply =>
        wire_now ← lift (wire_milliseconds now_ms);
        let sample_ms := wrapping_sub TIMESTAMP_MODULUS wire_now reply in
        if MAX_RTT_SAMPLE_MS <? sample_ms then mret Implausible
        else
          zoom estimator set_estimator (λ e, e) (observe_sample sample_ms) ;;
          mret (Updated sample_ms)
    end.

(** ** The send scheduler *)

(** [SendReasons]: a bit set in a [u8]. *)
Definition SendReasons : Type := Z.
Definition STATE_CHANGE : SendReasons := Z.shiftl 1 0.
Definition RETRANSMISSION : SendReasons := Z.shiftl 1 1.
Definition ACKNOWLEDGEMENT : SendReasons := Z.shiftl 1 2.
Definition HEARTBEAT : SendReasons := Z.shiftl 1 3.
Definition reasons_contains (reasons reason : SendReasons) : bool := negb (Z.land reasons reason =? 0).
Definition reasons_insert (reason reasons : SendReasons) : SendReasons := Z.lor reasons reason.

Record WakePlan := mkWakePlan {
  wp_generation : Z;
  wp_planned_at_ms : Z;
  wp_reasons : SendReasons;
}.

Inductive SchedulerPoll :=
  | Pending (wake_at_ms : Z)
  | Send (plan : WakePlan).

Record SendScheduler := mkSendScheduler {
  started_at_ms : Z;
  ss_last_observed_ms : Z;
  last_send_ms : option Z;
  local_change_at_ms : option Z;
  acknowledgement_at_ms : option Z;
  send_not_before_ms : option Z;
  ss_generation : Z;
}.

Definition SendScheduler_new (started_at_ms : Z) : SendScheduler :=
  mkSendScheduler started_at_ms started_at_ms None None None None 0.

Abbreviation SchedM := (M SendScheduler TimingError).

Definition checked_deadline (start_ms delay_ms : Z) : Result TimingError Z :=
  ok_or TimerExhausted (checked_add U64_MAX start_ms delay_ms).

(** [map(..).transpose()?] of a deadline computation. *)
Definition deadline_of (start : option Z) (f : Z → Result TimingError Z) : Result TimingError (option Z) :=
  match start with
  | None => Ok None
  | Some s => d ← f s; Ok (Some d)
  end.

(** [SendScheduler::observe_time] *)
Definition scheduler_observe_time (now_ms : Z) : SchedM unit :=
  s ← get;
  fail_if (now_ms <? ss_last_observed_ms s) TimingTimeMovedBackwards ;;
  put (mkSendScheduler (started_at_ms s) now_ms (last_send_ms s) (local_change_at_ms s)
         (acknowledgement_at_ms s) (send_not_before_ms s) (ss_generation s)).

(** [next_generation] *)
Definition next_generation (s : SendScheduler) : Result TimingError Z :=
  ok_or TimingGenerationExhausted (checked_add U64_MAX (ss_generation s) 1).

(** [note_local_change] *)
Definition note_local_change (now_ms : Z) : SchedM unit :=
  scheduler_observe_time now_ms ;;
  s ← get;
  match local_change_at_ms s with
  | Some _ => mret tt
  | None =>
      generation ← lift (next_generation s);
      put (mkSendScheduler (started_at_ms s) (ss_last_observed_ms s) (last_send_ms s) (Some now_ms)
             (acknowledgement_at_ms s) (send_not_before_ms s) generation)
  end.

(** [note_acknowledgement_needed] *)
Definition note_acknowledgement_needed (now_ms : Z) : SchedM unit :=
  scheduler_observe_time now_ms ;;
  s ← get;
  match acknowledgement_at_ms s with
  | Some _ => mret tt
  | None =>
      generation ← lift (next_generation s);
      put (mkSendScheduler (started_at_ms s) (ss_last_observed_ms s) (last_send_ms s)
             (local_change_at_ms s) (Some now_ms) (send_not_before_ms s) generation)
  end.

(** [local_change_due] *)
Definition local_change_due (frame_interval : Z) (s : SendScheduler) : Result TimingError (option Z) :=
  deadline_of (local_change_at_ms s) (λ changed_at,
    collection_due ← checked_deadline changed_at STATE_CHANGE_COLLECTION_MS;
    frame ← deadline_of (last_send_ms s) (λ sent_at, checked_deadline sent_at frame_interval);
    let frame_due := default collection_due frame in
    Ok (Z.max collection_due frame_due)).

Definition due (now_ms : Z) (deadline : option Z) : bool :=
  is_some_and deadline (λ d, d <=? now_ms).

(** [.into_iter().flatten().min()] *)
Definition min_deadline (l : list (option Z)) : option Z :=
  fold_right (λ d acc,
    match d, acc with
    | Some x, Some y => Some (Z.min x y)
    | Some x, None => Some x
    | None, _ => acc
    end) None l.

(** [poll] *)
Definition poll (now_ms : Z) (timing : RttEstimator) (latest_unacknowledged_sent_at_ms : option Z) :
    SchedM SchedulerPoll :=
  scheduler_observe_time now_ms ;;
  fail_if (is_some_and latest_unacknowledged_sent_at_ms (λ sent_at, now_ms <? sent_at))
    TimingTimeMovedBackwards ;;
  s ← get;
  state_due ← lift (local_change_due (frame_interval_ms timing) s);
  acknowledgement_due ← lift (deadline_of (acknowledgement_at_ms s)
    (λ received_at, checked_deadline received_at MAX_ACKNOWLEDGEMENT_DELAY_MS));
  retransmission_due ← lift (deadline_of latest_unacknowledged_sent_at_ms
    (λ sent_at, checked_deadline sent_at (retransmission_timeout_ms timing)));
  heartbeat_due ← lift (checked_deadline (default (started_at_ms s) (last_send_ms s)) HEARTBEAT_INTERVAL_MS);
  let reasons := 0 in
  let reasons := if due now_ms state_due then reasons_insert STATE_CHANGE reasons else reasons in
  let reasons := if due now_ms retransmission_due then reasons_insert RETRANSMISSION reasons else reasons in
  let reasons := if due now_ms acknowledgement_due then reasons_insert ACKNOWLEDGEMENT reasons else reasons in
  let reasons := if heartbeat_due <=? now_ms then reasons_insert HEARTBEAT reasons else reasons in
  if negb (reasons =? 0) then
    match send_not_before_ms s with
    | Some not_before =>
        if now_ms <? not_before then mret (Pending not_before)
        else mret (Send (mkWakePlan (ss_generation s) now_ms reasons))
    | None => mret (Send (mkWakePlan (ss_generation s) now_ms reasons))
    end
  else
    wake_at_ms ← lift (expect (min_deadline [state_due; acknowledgement_due; retransmission_due; Some heartbeat_due]));
    mret (Pending wake_at_ms).

(** [SendScheduler::commit_send] *)
Definition scheduler_commit_send (p : WakePlan) : SchedM unit :=
  s ← get;
  fail_if (negb (wp_generation p =? ss_generation s)
           || negb (wp_planned_at_ms p =? ss_last_observed_ms s)) TimingStalePlan ;;
  generation ← lift (next_generation s);
  put (mkSendScheduler (started_at_ms s) (ss_last_observed_ms s) (Some (wp_planned_at_ms p)) None None
         None generation).

(** [defer_send] *)
Definition defer_send (now_ms delay_ms : Z) : SchedM unit :=
  not_before ← lift (checked_deadline now_ms delay_ms);
  scheduler_observe_time now_ms ;;
  s ← get;
  put (mkSendScheduler (started_at_ms s) (ss_last_observed_ms s) (last_send_ms s) (local_change_at_ms s)
         (acknowledgement_at_ms s) (Some not_before) (ss_generation s)).

(** ** The estimator's invariant *)
Definition MAX_RTT_EIGHTHS : Z := MAX_RTT_SAMPLE_MS * 8.

Record rtt_wf (r : RttEstimator) : Prop := {
  rw_smoothed v : smoothed_rtt_eighths r = Some v → 0 ≤ v ≤ MAX_RTT_EIGHTHS;
  rw_variation : 0 ≤ rtt_variation_eighths r ≤ MAX_RTT_EIGHTHS;
  rw_timeout : MIN_RETRANSMISSION_TIMEOUT_MS ≤ retransmission_timeout_ms r ≤ MAX_RETRANSMISSION_TIMEOUT_MS;
}.

Lemma rtt_new_wf : rtt_wf RttEstimator_new.
Proof. split; simpl; [done|..]; vm_compute; intuition congruence. Qed.

(** The published update, without machine arithmetic: an eighth of the new
    sample, a quarter of the new deviation. *)
Definition rtt_update (sample_ms : Z) (r : RttEstimator) : RttEstimator :=
  let '(smoothed, variation) :=
    match smoothed_rtt_eighths r with
    | None => (sample_ms * 8, sample_ms * 4)
    | Some v => ((v * 7 + sample_ms * 8) / 8,
                 (rtt_variation_eighths r * 3 + Z.abs (v - sample_ms * 8)) / 4)
    end in
  mkRttEstimator (Some smoothed) variation
    (clamp MIN_RETRANSMISSION_TIMEOUT_MS MAX_RETRANSMISSION_TIMEOUT_MS
       (div_ceil (smoothed + Z.max (4 * variation) 8) 8)).

Lemma checked_mul_ok a b : 0 ≤ a → a * b ≤ U64_MAX → checked_mul U64_MAX a b = Some (a * b).
Proof. intros. by apply checked_mul_Some. Qed.

Lemma checked_add_ok a b : a + b ≤ U64_MAX → checked_add U64_MAX a b = Some (a + b).
Proof. intros. by apply checked_add_Some. Qed.

Lemma rtt_update_wf sample r : rtt_wf r → 0 ≤ sample ≤ MAX_RTT_SAMPLE_MS → rtt_wf (rtt_update sample r).
Proof.
  intros [Hs Hv Ht] Hr. unfold rtt_update, MAX_RTT_EIGHTHS in *.
  destruct (smoothed_rtt_eighths r) as [v|]; [specialize (Hs v eq_refl)|];
    split; cbn [smoothed_rtt_eighths rtt_variation_eighths retransmission_timeout_ms];
    unfold MAX_RTT_EIGHTHS; try (apply clamp_bounds; by vm_compute); try intros w [= <-]; try lia;
    (split; [apply Z.div_pos|apply Z.div_le_upper_bound]; lia).
Qed.

Lemma calculate_rto_ok r v :
  smoothed_rtt_eighths r = Some v → 0 ≤ v ≤ MAX_RTT_EIGHTHS → 0 ≤ rtt_variation_eighths r ≤ MAX_RTT_EIGHTHS →
  calculate_rto_ms r = Ok (clamp MIN_RETRANSMISSION_TIMEOUT_MS MAX_RETRANSMISSION_TIMEOUT_MS
    (div_ceil (v + Z.max (4 * rtt_variation_eighths r) 8) 8)).
Proof.
  intros Hv ??. unfold calculate_rto_ms. rewrite Hv. unfold_m. unfold MAX_RTT_EIGHTHS in *.
  rewrite checked_mul_ok by llia. unfold CLOCK_GRANULARITY_MS. rewrite checked_add_ok by llia.
  do 3 f_equal. lia.
Qed.

Lemma observe_sample_ok sample r :
  rtt_wf r → 0 ≤ sample ≤ MAX_RTT_SAMPLE_MS → observe_sample sample r = (rtt_update sample r, Ok tt).
Proof.
  intros Hwf Hr. pose proof (rtt_update_wf _ _ Hwf Hr) as [Hs' Hv' _].
  destruct Hwf as [Hs Hv Ht]. unfold observe_sample.
  mstep; [apply fail_if_false; lia|].
  mstep; [unfold lift; rewrite checked_mul_ok by llia; done|].
  mstep; [done|]. unfold rtt_update in *.
  destruct (smoothed_rtt_eighths r) as [v|]; [specialize (Hs v eq_refl)|];
    unfold MAX_RTT_EIGHTHS, abs_diff in *.
  - mstep.
    { mstep; [unfold lift; rewrite checked_mul_ok by llia; cbn [mbind option_bind];
              rewrite checked_add_ok by llia; done|].
      mstep; [done|].
      mstep; [unfold lift; rewrite checked_mul_ok by llia; cbn [mbind option_bind];
              rewrite checked_add_ok by llia; done|]. done. }
    mstep; [done|]. mstep.
    { unfold lift. erewrite calculate_rto_ok; [done|done|..];
        cbn [set_smoothed set_variation smoothed_rtt_eighths rtt_variation_eighths] in *.
      - specialize (Hs' _ eq_refl). unfold MAX_RTT_EIGHTHS in *. lia.
      - unfold MAX_RTT_EIGHTHS. lia. }
    done.
  - mstep; [mstep; [done|]; mstep; [unfold lift; rewrite checked_mul_ok by llia; done|]; done|].
    mstep; [done|]. mstep.
    { unfold lift. erewrite calculate_rto_ok; [done|done|..];
        cbn [set_smoothed set_variation smoothed_rtt_eighths rtt_variation_eighths] in *.
      - specialize (Hs' _ eq_refl). unfold MAX_RTT_EIGHTHS in *. lia.
      - unfold MAX_RTT_EIGHTHS. lia. }
    done.
Qed.

Lemma div_eighth_between v x lo hi :
  lo * 8 ≤ v ≤ hi * 8 → lo ≤ x ≤ hi → lo * 8 ≤ (v * 7 + x * 8) / 8 ≤ hi * 8.
Proof.
  intros. split; [apply Z.div_le_lower_bound|apply Z.div_le_upper_bound]; lia.
Qed.

Lemma div_ceil_eighths v lo hi : lo * 8 ≤ v ≤ hi * 8 → lo ≤ div_ceil v 8 ≤ hi.
Proof. intros. pose proof (div_ceil_spec v 8 ltac:(lia)). lia. Qed.

(** Feed a list of samples; a rejected one changes nothing. *)
Definition observe_samples (samples : list Z) (r : RttEstimator) : RttEstimator :=
  fold_left (λ r x, (observe_sample x r).1) samples r.

Lemma observe_sample_total sample r :
  rtt_wf r → 0 ≤ sample →
  observe_sample sample r =
    (if MAX_RTT_SAMPLE_MS <? sample then (r, Err InvalidRttSample) else (rtt_update sample r, Ok tt)) ∧
  rtt_wf (observe_sample sample r).1.
Proof.
  intros Hwf Hs. destruct (Z.ltb_spec MAX_RTT_SAMPLE_MS sample) as [Hl|Hl].
  - assert (observe_sample sample r = (r, Err InvalidRttSample)) as ->; [|done].
    unfold observe_sample. unfold_m. by rewrite (proj2 (Z.ltb_lt _ _) Hl).
  - rewrite observe_sample_ok by (done || lia). split; [done|]. by apply rtt_update_wf; [|lia].
Qed.

Lemma frame_interval_bounds r :
  MIN_FRAME_INTERVAL_MS ≤ frame_interval_ms r ≤ MAX_FRAME_INTERVAL_MS.
Proof. apply clamp_bounds. by vm_compute. Qed.

Lemma observe_samples_range lo hi samples r :
  0 ≤ lo → hi ≤ MAX_RTT_SAMPLE_MS → rtt_wf r → Forall (λ x, lo ≤ x ≤ hi) samples →
  (∀ v, smoothed_rtt_eighths r = Some v → lo * 8 ≤ v ≤ hi * 8) →
  rtt_wf (observe_samples samples r) ∧
  ∀ v, smoothed_rtt_eighths (observe_samples samples r) = Some v → lo * 8 ≤ v ≤ hi * 8.
Proof.
  intros Hlo Hhi Hwf Hall. revert r Hwf. induction Hall as [|x samples Hx _ IH]; intros r Hwf Hv; [done|].
  unfold observe_samples in *. simpl.
  rewrite observe_sample_ok by (done || lia). simpl. apply IH; [apply rtt_update_wf; [done|lia]|].
  unfold rtt_update. intros v. destruct (smoothed_rtt_eighths r) as [w|] eqn:Hw; simpl; intros [= <-]; [|lia].
  apply div_eighth_between; [by apply Hv|lia].
Qed.

(** C29. The estimator never panics and never runs out of range: every sample up
    to 60 s is accepted with the published update (1/8 of the sample, 1/4 of the
    deviation), a longer one is refused and changes nothing, the retransmission
    timeout stays within 50 and 5000 ms and the frame interval within 20 and 250. *)
Theorem rtt_estimator_total samples sample :
  Forall (λ x, 0 ≤ x) samples → 0 ≤ sample →
  let r := observe_samples samples RttEstimator_new in
  observe_sample sample r =
    (if MAX_RTT_SAMPLE_MS <? sample then (r, Err InvalidRttSample) else (rtt_update sample r, Ok tt)) ∧
  MIN_RETRANSMISSION_TIMEOUT_MS ≤ retransmission_timeout_ms r ≤ MAX_RETRANSMISSION_TIMEOUT_MS ∧
  MIN_FRAME_INTERVAL_MS ≤ frame_interval_ms r ≤ MAX_FRAME_INTERVAL_MS.
Proof.
  intros Hall Hs r. assert (rtt_wf r) as Hwf.
  { subst r. unfold observe_samples. generalize rtt_new_wf. generalize RttEstimator_new.
    induction Hall as [|x l Hx _ IH]; intros r0 Hr0; [done|]. simpl. apply IH, observe_sample_total; done. }
  split; [by apply observe_sample_total|]. split; [apply Hwf|apply frame_interval_bounds].
Qed.

(** The smoothed round-trip time stays within the range of the samples. *)
Theorem smoothed_rtt_in_range lo hi samples v :
  0 ≤ lo → hi ≤ MAX_RTT_SAMPLE_MS → Forall (λ x, lo ≤ x ≤ hi) samples →
  smoothed_rtt_ms (observe_samples samples RttEstimator_new) = Some v → lo ≤ v ≤ hi.
Proof.
  intros Hlo Hhi Hall Hv. unfold smoothed_rtt_ms in Hv.
  destruct (smoothed_rtt_eighths _) as [w|] eqn:Hw; simplify_eq/=. apply div_ceil_eighths.
  eapply (observe_samples_range lo hi samples RttEstimator_new); eauto using rtt_new_wf. done.
Qed.

(** ** Timestamps *)
Lemma wire_milliseconds_Ok t : 0 ≤ t → wire_milliseconds t = Ok (t mod 65536).
Proof.
  intros Ht. unfold wire_milliseconds, try_from. change TIMESTAMP_MODULUS with 65536.
  pose proof (Z.mod_pos_bound t 65536 ltac:(lia)).
  replace ((0 <=? t mod 65536) && (t mod 65536 <=? U16_MAX)) with true; [done|]. symmetry. llia.
Qed.

Lemma outgoing_spec now d :
  0 ≤ now → dt_last_observed_ms d ≤ now →
  ∃ reply, outgoing now d =
    (mkDatagramTiming (estimator d) (highest_received_sequence d) (last_received_timestamp d) now,
     Ok (mkOutgoingTimestamps (now mod 65536) reply)) ∧
  ∀ r, reply = Some r → r ≠ NO_TIMESTAMP_REPLY ∧
    ∃ received at_ms, last_received_timestamp d = Some (received, at_ms) ∧
      0 ≤ now - at_ms ≤ MAX_TIMESTAMP_REPLY_AGE_MS ∧ r = (received + (now - at_ms)) mod 65536.
Proof.
  intros Hnow Hlast. unfold outgoing, datagram_observe_time. eexists. split.
  { mstep; [mstep; [done|]; mstep; [apply fail_if_false; lia|]; done|].
    mstep; [done|]. mstep; [unfold lift; by rewrite wire_milliseconds_Ok|]. done. }
  intros r. simpl. destruct (last_received_timestamp d) as [[received at_ms]|]; [|done]. simpl.
  destruct (checked_sub now at_ms) as [age|] eqn:Ha; [|done]. checked. simpl.
  destruct (Z.ltb_spec MAX_TIMESTAMP_REPLY_AGE_MS (now - at_ms)); [done|].
  unfold try_from. case_match; [|done]. simpl. unfold wrapping_add. change TIMESTAMP_MODULUS with 65536.
  destruct (Z.eqb_spec ((received + (now - at_ms)) mod 65536) NO_TIMESTAMP_REPLY); [done|].
  simpl. intros [= <-]. split; [done|]. eauto 6 with lia.
Qed.

Lemma observe_received_fresh seq ts reply now d d' r :
  observe_received seq ts reply now d = (d', Ok r) → r ≠ Reordered →
  last_received_timestamp d' = Some (ts, now) ∧ dt_last_observed_ms d' = now.
Proof.
  intros H Hr. unfold observe_received, datagram_observe_time in H. run. cases.
Qed.

Lemma observe_received_sample seq ts r now d d' disp :
  0 ≤ now → observe_received seq ts (Some r) now d = (d', Ok disp) → disp ≠ Reordered →
  (now mod 65536 - r) mod 65536 ≤ MAX_RTT_SAMPLE_MS →
  disp = Updated ((now mod 65536 - r) mod 65536).
Proof.
  intros Hn H Hr Hs. unfold observe_received, datagram_observe_time in H.
  rewrite wire_milliseconds_Ok in H by done. unfold wrapping_sub in H. change TIMESTAMP_MODULUS with 65536 in H.
  run. cases. lia.
Qed.


(** ** The scheduler's deadlines *)
Definition state_deadline (rtt : RttEstimator) (s : SendScheduler) : option Z :=
  (λ changed_at,
     Z.max (changed_at + STATE_CHANGE_COLLECTION_MS)
       (match last_send_ms s with
        | Some sent_at => sent_at + frame_interval_ms rtt
        | None => changed_at + STATE_CHANGE_COLLECTION_MS
        end)) <$> local_change_at_ms s.
Definition acknowledgement_deadline (s : SendScheduler) : option Z :=
  (λ t, t + MAX_ACKNOWLEDGEMENT_DELAY_MS) <$> acknowledgement_at_ms s.
Definition retransmission_deadline (rtt : RttEstimator) (latest : option Z) : option Z :=
  (λ t, t + retransmission_timeout_ms rtt) <$> latest.
Definition heartbeat_deadline (s : SendScheduler) : Z :=
  default (started_at_ms s) (last_send_ms s) + HEARTBEAT_INTERVAL_MS.

Definition at_most (b : Z) (o : option Z) : Prop := ∀ x, o = Some x → 0 ≤ x ≤ b.

Record sched_wf (s : SendScheduler) : Prop := {
  sw_started : 0 ≤ started_at_ms s ≤ ss_last_observed_ms s;
  sw_last_send : at_most (ss_last_observed_ms s) (last_send_ms s);
  sw_change : at_most (ss_last_observed_ms s) (local_change_at_ms s);
  sw_ack : at_most (ss_last_observed_ms s) (acknowledgement_at_ms s);
  sw_generation : is_u64 (ss_generation s);
}.

(** Room for the longest timer before the 64-bit clock ends. *)
Definition clock_room (now : Z) : Prop := 0 ≤ now ∧ now + MAX_RETRANSMISSION_TIMEOUT_MS ≤ U64_MAX.

Definition with_time (now : Z) (s : SendScheduler) : SendScheduler :=
  mkSendScheduler (started_at_ms s) now (last_send_ms s) (local_change_at_ms s)
    (acknowledgement_at_ms s) (send_not_before_ms s) (ss_generation s).

Definition reasons_spec (now : Z) (state retransmission acknowledgement : option Z) (heartbeat : Z) : SendReasons :=
  (if due now state then 1 else 0) + (if due now retransmission then 2 else 0) +
  (if due now acknowledgement then 4 else 0) + (if heartbeat <=? now then 8 else 0).

Lemma reasons_fold now st rt ak hb :
  (let reasons := 0 in
   let reasons := if due now st then reasons_insert STATE_CHANGE reasons else reasons in
   let reasons := if due now rt then reasons_insert RETRANSMISSION reasons else reasons in
   let reasons := if due now ak then reasons_insert ACKNOWLEDGEMENT reasons else reasons in
   if hb <=? now then reasons_insert HEARTBEAT reasons else reasons) = reasons_spec now st rt ak hb.
Proof. unfold reasons_spec. by destruct (due now st), (due now rt), (due now ak), (hb <=? now). Qed.

Lemma reasons_zero now st rt ak hb :
  reasons_spec now st rt ak hb = 0 ↔
  due now st = false ∧ due now rt = false ∧ due now ak = false ∧ now < hb.
Proof.
  unfold reasons_spec. destruct (due now st), (due now rt), (due now ak), (Z.leb_spec hb now);
    split; intros; destruct_and?; try done; try lia; try (split_and!; done || lia).
Qed.

(** The outcome of a poll, from the deadlines. *)
Definition poll_spec (now : Z) (rtt : RttEstimator) (latest : option Z) (s : SendScheduler) : SchedulerPoll :=
  let state := state_deadline rtt s in
  let acknowledgement := acknowledgement_deadline s in
  let retransmission := retransmission_deadline rtt latest in
  let heartbeat := heartbeat_deadline s in
  let reasons := reasons_spec now state retransmission acknowledgement heartbeat in
  if reasons =? 0 then
    Pending (default heartbeat (min_deadline [state; acknowledgement; retransmission; Some heartbeat]))
  else
    match send_not_before_ms s with
    | Some not_before => if now <? not_before then Pending not_before
                         else Send (mkWakePlan (ss_generation s) now reasons)
    | None => Send (mkWakePlan (ss_generation s) now reasons)
    end.

Lemma checked_deadline_Ok a b : a + b ≤ U64_MAX → checked_deadline a b = Ok (a + b).
Proof. intros. unfold checked_deadline. by rewrite checked_add_ok. Qed.

Lemma local_change_due_Ok rtt s :
  sched_wf s → clock_room (ss_last_observed_ms s) →
  local_change_due (frame_interval_ms rtt) s = Ok (state_deadline rtt s).
Proof.
  intros [] [_ Hroom]. unfold local_change_due, state_deadline, deadline_of.
  destruct (local_change_at_ms s) as [c|]; [|done]. specialize (sw_change0 c eq_refl).
  pose proof (frame_interval_bounds rtt).
  rewrite checked_deadline_Ok by llia. cbn [mbind Result_bind].
  destruct (last_send_ms s) as [l|]; [|done]. specialize (sw_last_send0 l eq_refl).
  rewrite checked_deadline_Ok by llia. done.
Qed.

Lemma deadline_of_Ok start delay bound :
  at_most bound start → bound + delay ≤ U64_MAX →
  deadline_of start (λ t, checked_deadline t delay) = Ok ((λ t, t + delay) <$> start).
Proof.
  intros Hb Hroom. destruct start as [t|]; [|done]. specialize (Hb t eq_refl). simpl.
  rewrite checked_deadline_Ok by lia. done.
Qed.

Lemma with_time_wf now s : sched_wf s → ss_last_observed_ms s ≤ now → sched_wf (with_time now s).
Proof.
  intros [] Hle. unfold at_most in *. split; simpl; unfold at_most; try done; try lia;
    intros x Hx; [specialize (sw_last_send0 x Hx)|specialize (sw_change0 x Hx)|specialize (sw_ack0 x Hx)]; lia.
Qed.

Lemma poll_Ok now rtt latest s :
  sched_wf s → rtt_wf rtt → ss_last_observed_ms s ≤ now → clock_room now → at_most now latest →
  poll now rtt latest s = (with_time now s, Ok (poll_spec now rtt latest s)).
Proof.
  intros Hwf Hrtt Hle [Hpos Hroom] Hlatest.
  pose proof (with_time_wf now s Hwf Hle) as Hwf'.
  unfold poll, scheduler_observe_time.
  mstep; [mstep; [done|]; mstep; [apply fail_if_false; lia|]; done|]. fold (with_time now s).
  mstep; [apply fail_if_false; destruct latest as [t|]; [|done]; specialize (Hlatest t eq_refl); simpl; lia|].
  mstep; [done|]. mstep; [unfold lift; by rewrite local_change_due_Ok|].
  destruct Hwf', Hrtt.
  mstep; [unfold lift; rewrite (deadline_of_Ok _ _ now); [done|done|llia]|].
  mstep; [unfold lift; rewrite (deadline_of_Ok _ _ now); [done|done|lia]|].
  mstep.
  { unfold lift. rewrite checked_deadline_Ok; [done|]. destruct (last_send_ms s) as [l|] eqn:Hl; simpl.
    - rewrite Hl. simpl. specialize (sw_last_send0 l Hl). simpl in *. llia.
    - rewrite Hl. simpl in *. llia. }
  change (state_deadline rtt (with_time now s)) with (state_deadline rtt s).
  change ((λ t, t + MAX_ACKNOWLEDGEMENT_DELAY_MS) <$> acknowledgement_at_ms (with_time now s))
    with (acknowledgement_deadline s).
  change ((λ t, t + retransmission_timeout_ms rtt) <$> latest) with (retransmission_deadline rtt latest).
  change (default (started_at_ms (with_time now s)) (last_send_ms (with_time now s)) + HEARTBEAT_INTERVAL_MS)
    with (heartbeat_deadline s).
  rewrite reasons_fold. unfold poll_spec. cbn zeta.
  destruct (Z.eqb_spec (reasons_spec now (state_deadline rtt s) (retransmission_deadline rtt latest)
    (acknowledgement_deadline s) (heartbeat_deadline s)) 0) as [Hz|Hz]; simpl.
  - destruct (state_deadline rtt s), (acknowledgement_deadline s),
      (retransmission_deadline rtt latest); done.
  - destruct (send_not_before_ms s) as [nb|]; [|done]. by destruct (now <? nb).
Qed.

(** ** Wake-ups *)
Lemma min_deadline_spec l w :
  min_deadline l = Some w → Some w ∈ l ∧ ∀ x, Some x ∈ l → w ≤ x.
Proof.
  revert w. induction l as [|[y|] l IH]; intros w; simpl; [done|..].
  - destruct (min_deadline l) as [z|] eqn:Hz; intros [= <-].
    + destruct (IH z eq_refl) as [Hin Hmin]. split.
      * destruct (Z.min_spec y z) as [[_ ->]|[_ ->]]; set_solver.
      * intros x [[= ->]|Hx]%elem_of_cons; [lia|]. specialize (Hmin x Hx). lia.
    + split; [set_solver|]. intros x [[= ->]|Hx]%elem_of_cons; [lia|]. exfalso. clear IH.
      induction l as [|[q|] l IHl]; [set_solver|by simpl in Hz; destruct (min_deadline l)|].
      apply IHl; [done|set_solver].
  - intros Hw. destruct (IH w Hw) as [Hin Hmin]. split; [set_solver|]. set_solver.
Qed.

Lemma due_later now now' d : now ≤ now' → due now d = true → due now' d = true.
Proof. unfold due. destruct d; simpl; lia. Qed.

(** Everything that is due stays due. *)
Lemma reasons_later now now' st rt ak hb :
  now ≤ now' → reasons_spec now st rt ak hb ≠ 0 → reasons_spec now' st rt ak hb ≠ 0.
Proof.
  intros Hle Hne Hz. apply Hne. apply reasons_zero in Hz as (? & ? & ? & ?). apply reasons_zero.
  split_and!; try lia; apply not_true_is_false; intros ?;
    match goal with H : due now ?d = true |- _ => apply (due_later now now') in H; [congruence|lia] end.
Qed.

Definition send_deadlines (rtt : RttEstimator) (latest : option Z) (s : SendScheduler) : list (option Z) :=
  [state_deadline rtt s; acknowledgement_deadline s; retransmission_deadline rtt latest;
   Some (heartbeat_deadline s)].

Lemma send_reasons_zero now rtt latest s :
  reasons_spec now (state_deadline rtt s) (retransmission_deadline rtt latest)
    (acknowledgement_deadline s) (heartbeat_deadline s) = 0 ↔
  ∀ d, Some d ∈ send_deadlines rtt latest s → now < d.
Proof.
  rewrite reasons_zero. unfold send_deadlines, due.
  destruct (state_deadline rtt s), (acknowledgement_deadline s), (retransmission_deadline rtt latest);
    simpl; setoid_rewrite elem_of_cons; setoid_rewrite elem_of_cons; setoid_rewrite elem_of_cons;
    setoid_rewrite list_elem_of_singleton.
  all: split; [intros (? & ? & ? & ?) d; intuition (simplify_eq; lia)|intros H; split_and!; try done;
    try (apply not_true_is_false; intros ?%Z.leb_le)]; try (eapply Z.lt_irrefl; eapply Z.lt_le_trans; [apply H|eassumption]); eauto.
Qed.

Lemma poll_spec_wait now rtt latest s w :
  poll_spec now rtt latest s = Pending w →
  now < w ∧ w ≤ Z.max (heartbeat_deadline s) (default 0 (send_not_before_ms s)) ∧
  (∀ now', now ≤ now' < w → poll_spec now' rtt latest s = Pending w) ∧
  ((∀ nb, send_not_before_ms s = Some nb → nb ≤ w) → ∃ p, poll_spec w rtt latest s = Send p).
Proof.
  unfold poll_spec. cbn zeta. fold (send_deadlines rtt latest s).
  assert (∃ m, min_deadline (send_deadlines rtt latest s) = Some m) as [m Hm].
  { unfold send_deadlines. destruct (state_deadline rtt s), (acknowledgement_deadline s),
      (retransmission_deadline rtt latest); simpl; eauto. }
  rewrite Hm. simpl. destruct (min_deadline_spec _ _ Hm) as [Hin Hmin].
  assert (m ≤ heartbeat_deadline s) as Hhb by (apply Hmin; unfold send_deadlines; set_solver).
  destruct (Z.eqb_spec (reasons_spec now (state_deadline rtt s) (retransmission_deadline rtt latest)
    (acknowledgement_deadline s) (heartbeat_deadline s)) 0) as [Hz|Hz].
  - intros [= <-]. pose proof (proj1 (send_reasons_zero _ _ _ _) Hz m Hin). split_and!; [done|lia|..].
    + intros now' Hn. destruct (Z.eqb_spec (reasons_spec now' (state_deadline rtt s)
        (retransmission_deadline rtt latest) (acknowledgement_deadline s) (heartbeat_deadline s)) 0) as [|Hne]; [done|].
      exfalso. apply Hne. apply send_reasons_zero. intros d Hd. specialize (Hmin d Hd). lia.
    + intros Hnb. destruct (Z.eqb_spec (reasons_spec m (state_deadline rtt s)
        (retransmission_deadline rtt latest) (acknowledgement_deadline s) (heartbeat_deadline s)) 0) as [Hzm|_].
      { pose proof (proj1 (send_reasons_zero _ _ _ _) Hzm m Hin). lia. }
      destruct (send_not_before_ms s) as [nb|]; [|eauto]. specialize (Hnb nb eq_refl).
      destruct (Z.ltb_spec m nb); [lia|eauto].
  - destruct (send_not_before_ms s) as [nb|]; [|done]. destruct (Z.ltb_spec now nb); [|done].
    intros [= <-]. simpl. split_and!; [done|lia|..].
    + intros now' Hn. apply (reasons_later now now') in Hz; [|lia].
      rewrite (proj2 (Z.eqb_neq _ _) Hz). destruct (Z.ltb_spec now' nb); [done|lia].
    + intros _. apply (reasons_later now nb) in Hz; [|lia].
      rewrite (proj2 (Z.eqb_neq _ _) Hz). rewrite Z.ltb_irrefl. eauto.
Qed.

(** C28. A poll that waits names the exact wake-up time: it lies in the future and
    no later than the heartbeat (or the transmission deferral), every poll before
    it answers the same, and at that time, unless a deferral is still running, the
    poll answers with a send. *)
Theorem scheduler_wakes_exactly now rtt latest s s' w :
  sched_wf s → rtt_wf rtt → ss_last_observed_ms s ≤ now → clock_room now → clock_room w →
  at_most now latest → poll now rtt latest s = (s', Ok (Pending w)) →
  now < w ∧ w ≤ Z.max (heartbeat_deadline s) (default 0 (send_not_before_ms s)) ∧
  (∀ now', now ≤ now' < w → (poll now' rtt latest s').2 = Ok (Pending w)) ∧
  ((∀ nb, send_not_before_ms s = Some nb → nb ≤ w) → ∃ p, (poll w rtt latest s').2 = Ok (Send p)).
Proof.
  intros Hwf Hrtt Hle Hroom Hroomw Hlatest. rewrite poll_Ok by done. intros [= <- Hp].
  destruct (poll_spec_wait _ _ _ _ _ Hp) as (Hw & Hmax & Hbefore & Hat).
  pose proof (with_time_wf now s Hwf Hle) as Hwf'. unfold clock_room, at_most in *.
  split_and!; [done|done|..].
  - intros now' Hn. rewrite poll_Ok; try done; [|simpl; lia|split; lia|
      intros x Hx; specialize (Hlatest x Hx); lia].
    simpl. f_equal. by apply Hbefore.
  - intros Hnb. destruct (Hat Hnb) as [p Hsend]. exists p.
    rewrite poll_Ok; try done; [|simpl; lia|intros x Hx; specialize (Hlatest x Hx); lia].
    simpl. f_equal. exact Hsend.
Qed.

(** A send that a poll asked for can be committed at once, it clears the
    pending change, acknowledgement and deferral, and the next poll at the same
    time waits: for at least the minimal retransmission timeout, so the driver
    does not spin. *)
Theorem scheduler_commit_settles now rtt latest s s1 p :
  sched_wf s → rtt_wf rtt → ss_last_observed_ms s ≤ now → clock_room now → at_most now latest →
  ss_generation s < U64_MAX →
  poll now rtt latest s = (s1, Ok (Send p)) →
  ∃ s2, scheduler_commit_send p s1 = (s2, Ok tt) ∧
    last_send_ms s2 = Some now ∧ local_change_at_ms s2 = None ∧ acknowledgement_at_ms s2 = None ∧
    send_not_before_ms s2 = None ∧
    ∀ latest', latest' = None ∨ latest' = Some now →
      ∃ w, (poll now rtt latest' s2).2 = Ok (Pending w) ∧ now + MIN_RETRANSMISSION_TIMEOUT_MS ≤ w.
Proof.
  intros Hwf Hrtt Hle Hroom Hlatest Hgen. rewrite poll_Ok by done. intros [= <- Hp].
  assert (wp_generation p = ss_generation s ∧ wp_planned_at_ms p = now) as [Hg Hn].
  { unfold poll_spec in Hp. cases. }
  exists (mkSendScheduler (started_at_ms s) now (Some now) None None None (ss_generation s + 1)).
  split.
  { unfold scheduler_commit_send, next_generation. unfold_m. simpl. rewrite Hg, Hn, !Z.eqb_refl.
    simpl. by rewrite checked_add_ok by lia. }
  split_and!; try done. intros latest' Hl. destruct Hwf, Hrtt, Hroom.
  rewrite poll_Ok; [|split; simpl; unfold at_most, is_u64 in *; intros; simplify_eq; lia|by split|simpl; lia
    |by split|unfold at_most; destruct Hl as [->| ->]; intros; simplify_eq; lia].
  unfold poll_spec, retransmission_deadline, heartbeat_deadline, reasons_spec, due. simpl.
  destruct Hl as [->| ->]; simpl.
  - destruct (Z.leb_spec (now + HEARTBEAT_INTERVAL_MS) now) as [Hbad|]; [exfalso; revert Hbad; llia|].
    simpl. eexists. split; [done|llia].
  - destruct (Z.leb_spec (now + retransmission_timeout_ms rtt) now) as [Hbad|]; [exfalso; revert Hbad; llia|].
    destruct (Z.leb_spec (now + HEARTBEAT_INTERVAL_MS) now) as [Hbad|]; [exfalso; revert Hbad; llia|].
    simpl. eexists. split; [done|llia].
Qed.

(** ** The scheduler's invariant *)
Lemma scheduler_observe_time_wf now s s' r :
  sched_wf s → scheduler_observe_time now s = (s', r) →
  sched_wf s' ∧ (r = Ok tt → s' = with_time now s ∧ ss_last_observed_ms s ≤ now) ∧ (r ≠ Ok tt → s' = s).
Proof.
  intros Hwf H. unfold scheduler_observe_time in H. run. cases; split_and!; try done.
  - apply with_time_wf; [done|lia].
  - intros _. split; [done|lia].
Qed.

Lemma at_most_now now : 0 ≤ now → at_most now (Some now).
Proof. intros ? x [= <-]. lia. Qed.

Lemma sched_wf_pending s local ack nb gen :
  sched_wf s → at_most (ss_last_observed_ms s) local → at_most (ss_last_observed_ms s) ack → is_u64 gen →
  sched_wf (mkSendScheduler (started_at_ms s) (ss_last_observed_ms s) (last_send_ms s) local ack nb gen).
Proof. intros []. by split. Qed.

Lemma sched_pos s : sched_wf s → 0 ≤ ss_last_observed_ms s.
Proof. intros []. lia. Qed.

Lemma next_generation_u64 s g : sched_wf s → next_generation s = Ok g → is_u64 g.
Proof.
  intros [] H. unfold next_generation in H. run. cases. checked. unfold is_u64 in *. lia.
Qed.

Lemma note_local_change_wf now s s' r : sched_wf s → note_local_change now s = (s', r) → sched_wf s'.
Proof.
  intros Hwf H. unfold note_local_change in H. run.
  destruct (scheduler_observe_time now s) as [s1 [[]| |]] eqn:Ho;
    apply scheduler_observe_time_wf in Ho as (Hwf1 & Ho & _); try done; simplify_eq; try done.
  destruct (Ho eq_refl) as [-> Hle]. simpl in *. cases.
  apply (sched_wf_pending (with_time now s)); try done; [|apply Hwf1|by eapply next_generation_u64].
  apply at_most_now, (sched_pos _ Hwf1).
Qed.

Lemma note_acknowledgement_needed_wf now s s' r :
  sched_wf s → note_acknowledgement_needed now s = (s', r) → sched_wf s'.
Proof.
  intros Hwf H. unfold note_acknowledgement_needed in H. run.
  destruct (scheduler_observe_time now s) as [s1 [[]| |]] eqn:Ho;
    apply scheduler_observe_time_wf in Ho as (Hwf1 & Ho & _); try done; simplify_eq; try done.
  destruct (Ho eq_refl) as [-> Hle]. simpl in *. cases.
  apply (sched_wf_pending (with_time now s)); try done; [apply Hwf1| |by eapply next_generation_u64].
  apply at_most_now, (sched_pos _ Hwf1).
Qed.

Lemma defer_send_wf now delay s s' r : sched_wf s → defer_send now delay s = (s', r) → sched_wf s'.
Proof.
  intros Hwf H. unfold defer_send in H. run.
  destruct (checked_deadline now delay); simplify_eq; try done.
  destruct (scheduler_observe_time now s) as [s1 [[]| |]] eqn:Ho;
    apply scheduler_observe_time_wf in Ho as (Hwf1 & Ho & _); try done; simplify_eq; try done.
  destruct (Ho eq_refl) as [-> Hle]. apply (sched_wf_pending (with_time now s)); try done; apply Hwf1.
Qed.

Lemma scheduler_commit_send_wf p s s' r : sched_wf s → scheduler_commit_send p s = (s', r) → sched_wf s'.
Proof.
  intros Hwf H. unfold scheduler_commit_send in H. run. cases.
  match goal with H : next_generation ?s = Ok _ |- _ => pose proof (next_generation_u64 s _ Hwf H) end.
  pose proof (sched_pos _ Hwf). destruct Hwf.
  split; simpl; try done. intros x [= <-]. lia.
Qed.

Lemma poll_wf now rtt latest s s' r : sched_wf s → poll now rtt latest s = (s', r) → sched_wf s'.
Proof.
  intros Hwf H. unfold poll in H. run.
  destruct (scheduler_observe_time now s) as [s1 [[]| |]] eqn:Ho;
    apply scheduler_observe_time_wf in Ho as (Hwf1 & Ho & _); try done; simplify_eq; try done.
  cases.
Qed.

Lemma scheduler_new_wf t : 0 ≤ t → sched_wf (SendScheduler_new t).
Proof. intros. split; simpl; try done; unfold is_u64; llia. Qed.

(** ** Witnesses *)
Lemma rtt_estimator_total_witness :
  MIN_RETRANSMISSION_TIMEOUT_MS ≤ retransmission_timeout_ms (observe_samples [120; 80; 70000] RttEstimator_new)
    ≤ MAX_RETRANSMISSION_TIMEOUT_MS.
Proof.
  refine (proj1 (proj2 (rtt_estimator_total [120; 80; 70000] 100 _ _))); [repeat constructor; lia|lia].
Defined.

Lemma smoothed_rtt_in_range_witness : 80 ≤ 115 ≤ 120.
Proof.
  apply (smoothed_rtt_in_range 80 120 [120; 80]); [lia|limits; lia|repeat constructor; lia|].
  vm_compute. reflexivity.
Defined.


Definition sample_scheduler : SendScheduler := mkSendScheduler 0 100 None (Some 100) None None 1.

Lemma sample_scheduler_wf : sched_wf sample_scheduler.
Proof. split; simpl; try lia; try (intros x; intros; simplify_eq; lia). unfold is_u64. llia. Qed.

Lemma scheduler_wakes_exactly_witness :
  (poll 110 RttEstimator_new None (with_time 105 sample_scheduler)).2 = Ok (Pending 115).
Proof.
  refine (proj1 (proj2 (proj2 (scheduler_wakes_exactly 105 RttEstimator_new None sample_scheduler _ 115
    sample_scheduler_wf rtt_new_wf _ _ _ _ _))) 110 _).
  - simpl. lia.
  - split; limits; lia.
  - split; limits; lia.
  - intros x Hx. discriminate.
  - vm_compute. reflexivity.
  - lia.
Defined.

Lemma scheduler_commit_settles_witness :
  ∃ s2, (scheduler_commit_send (mkWakePlan 1 120 1) (with_time 120 sample_scheduler)) = (s2, Ok tt).
Proof.
  destruct (scheduler_commit_settles 120 RttEstimator_new None sample_scheduler
    (with_time 120 sample_scheduler) (mkWakePlan 1 120 1) sample_scheduler_wf rtt_new_wf) as (s2 & H & _).
  - simpl. lia.
  - split; limits; lia.
  - intros x Hx. discriminate.
  - vm_compute. reflexivity.
  - vm_compute. reflexivity.
  - exists s2. exact H.
Defined.
