(* ===== verification/Reachability.v ===== *)
(** * Reachability warnings: [src/src/session/reachability.rs]

    The observer object around the watch channel is not modelled; the tracker
    that computes the published value is. *)

From S2P Require Import Prelude Limits.

Local Open Scope Z_scope.

Inductive SessionInterruption := NoRecentContact | NoRecentReply.

Inductive SessionReachability :=
  | AwaitingPeer
  | Responsive
  | Interrupted (reason : SessionInterruption).

#[export] Instance SessionInterruption_eq_dec : EqDecision SessionInterruption.
Proof. solve_decision. Defined.
#[export] Instance SessionReachability_eq_dec : EqDecision SessionReachability.
Proof. solve_decision. Defined.

Inductive ReachabilityError :=
  | ReachabilityTimeMovedBackwards
  | ReachabilityTimerExhausted.

#[export] Instance ReachabilityError_eq_dec : EqDecision ReachabilityError.
Proof. solve_decision. Defined.

Record ReachabilityTracker := mkReachabilityTracker {
  current : SessionReachability;
  last_contact_ms : option Z;
  last_reply_ms : Z;
}.

Definition ReachabilityTracker_new : ReachabilityTracker := mkReachabilityTracker AwaitingPeer None 0.

Definition note_contact (now_ms : Z) (t : ReachabilityTracker) : ReachabilityTracker :=
  mkReachabilityTracker (current t) (Some now_ms) (last_reply_ms t).

Definition note_reply (acknowledged_sent_at_ms : Z) (t : ReachabilityTracker) : ReachabilityTracker :=
  mkReachabilityTracker (current t) (last_contact_ms t) (Z.max (last_reply_ms t) acknowledged_sent_at_ms).

(** [calculate] *)
Definition calculate (now_ms : Z) (t : ReachabilityTracker) : Result ReachabilityError SessionReachability :=
  match last_contact_ms t with
  | None => Ok AwaitingPeer
  | Some last_contact =>
      contact_age ← ok_or ReachabilityTimeMovedBackwards (checked_sub now_ms last_contact);
      if NO_RECENT_CONTACT_MS <=? contact_age then Ok (Interrupted NoRecentContact)
      else
        reply_age ← ok_or ReachabilityTimeMovedBackwards (checked_sub now_ms (last_reply_ms t));
        if NO_RECENT_REPLY_MS <=? reply_age then Ok (Interrupted NoRecentReply)
        else Ok Responsive
  end.

(** [update] *)
Definition update (now_ms : Z) : M ReachabilityTracker ReachabilityError (option SessionReachability) :=
  t ← get;
  next ← lift (calculate now_ms t);
  if bool_decide (next = current t) then mret None
  else
    put (mkReachabilityTracker next (last_contact_ms t) (last_reply_ms t)) ;;
    mret (Some next).

Definition attachment_timed_out (now_ms : Z) (t : ReachabilityTracker) : bool :=
  match last_contact_ms t with
  | None => INITIAL_ATTACHMENT_TIMEOUT_MS <=? now_ms
  | Some _ => false
  end.

(** [contact_deadline_ms] *)
Definition contact_deadline_ms (t : ReachabilityTracker) : Result ReachabilityError Z :=
  last_contact ← ok_or ReachabilityTimeMovedBackwards (last_contact_ms t);
  ok_or ReachabilityTimerExhausted (checked_add U64_MAX last_contact NO_RECENT_CONTACT_MS).

(** [next_deadline_ms] *)
Definition reachability_next_deadline_ms (t : ReachabilityTracker) : Result ReachabilityError (option Z) :=
  match current t with
  | AwaitingPeer => Ok (Some INITIAL_ATTACHMENT_TIMEOUT_MS)
  | Responsive =>
      contact ← contact_deadline_ms t;
      reply ← ok_or ReachabilityTimerExhausted (checked_add U64_MAX (last_reply_ms t) NO_RECENT_REPLY_MS);
      Ok (Some (Z.min contact reply))
  | Interrupted NoRecentReply =>
      contact ← contact_deadline_ms t;
      Ok (Some contact)
  | Interrupted NoRecentContact => Ok None
  end.

(** ** Times the tracker has seen *)
Record reach_wf (now : Z) (t : ReachabilityTracker) : Prop := {
  re_contact c : last_contact_ms t = Some c → 0 ≤ c ≤ now;
  re_reply : 0 ≤ last_reply_ms t ≤ now;
}.

(** The value that the two ages define. *)
Definition reachability_spec (now : Z) (t : ReachabilityTracker) : SessionReachability :=
  match last_contact_ms t with
  | None => AwaitingPeer
  | Some c =>
      if NO_RECENT_CONTACT_MS <=? now - c then Interrupted NoRecentContact
      else if NO_RECENT_REPLY_MS <=? now - last_reply_ms t then Interrupted NoRecentReply
      else Responsive
  end.

Lemma checked_sub_Ok a b : b ≤ a → checked_sub a b = Some (a - b).
Proof. intros. by apply checked_sub_Some. Qed.

Lemma calculate_Ok now t : reach_wf now t → calculate now t = Ok (reachability_spec now t).
Proof.
  intros [Hc Hr]. unfold calculate, reachability_spec. destruct (last_contact_ms t) as [c|]; [|done].
  specialize (Hc c eq_refl). rewrite !checked_sub_Ok by lia. cbn.
  case_match; [done|]. by case_match.
Qed.

Lemma update_Ok now t :
  reach_wf now t →
  update now t =
    (mkReachabilityTracker (reachability_spec now t) (last_contact_ms t) (last_reply_ms t),
     Ok (if bool_decide (reachability_spec now t = current t) then None else Some (reachability_spec now t))).
Proof.
  intros Hwf. unfold update. unfold_m. rewrite calculate_Ok by done.
  case_bool_decide as H; [|done]. rewrite H. by destruct t.
Qed.

Lemma reach_wf_mono now now' t : now ≤ now' → reach_wf now t → reach_wf now' t.
Proof.
  intros Hle [Hc Hr]. split; [|lia]. intros c H. specialize (Hc c H). lia.
Qed.

Lemma reach_wf_new now : 0 ≤ now → reach_wf now ReachabilityTracker_new.
Proof. intros. split; simpl; [done|lia]. Qed.

Lemma note_contact_wf now t : 0 ≤ now → reach_wf now t → reach_wf now (note_contact now t).
Proof. intros ? [Hc Hr]. split; simpl; [intros c [= <-]; lia|done]. Qed.

Lemma note_reply_wf now sent t : sent ≤ now → reach_wf now t → reach_wf now (note_reply sent t).
Proof. intros ? [Hc Hr]. split; simpl; [done|lia]. Qed.

(** C30. After an update the published value is exactly what the two ages define,
    and the next deadline is exact: the value is the same at every earlier time
    and different at the deadline, except that while no peer has answered it is
    the attachment timeout that fires there and not before; without a deadline
    the value never changes by itself. *)
Theorem reachability_deadline_exact now t t' published :
  reach_wf now t → now + NO_RECENT_REPLY_MS ≤ U64_MAX →
  update now t = (t', Ok published) →
  current t' = reachability_spec now t ∧
  (published = Some (current t') ∨ published = None ∧ t' = t) ∧
  ∃ d, reachability_next_deadline_ms t' = Ok d ∧
    match d with
    | None => ∀ now', now ≤ now' → reachability_spec now' t' = current t'
    | Some d =>
        (∀ now', now ≤ now' < d →
           reachability_spec now' t' = current t' ∧ attachment_timed_out now' t' = false) ∧
        (if bool_decide (current t' = AwaitingPeer) then ∀ now', d ≤ now' → attachment_timed_out now' t' = true
         else reachability_spec d t' ≠ current t')
    end.
Proof.
  intros Hwf Hroom. rewrite update_Ok by done. intros [= <- <-]. split; [done|]. split.
  { case_bool_decide as H; [right|by left]. split; [done|]. rewrite H. by destruct t. }
  destruct Hwf as [Hc Hr].
  unfold reachability_next_deadline_ms, contact_deadline_ms, reachability_spec, attachment_timed_out. simpl.
  destruct (last_contact_ms t) as [c|]; simpl; cycle 1.
  { eexists. split; [done|]. split; [intros; split; [done|lia]|]. intros. lia. }
  specialize (Hc c eq_refl).
  assert (checked_add U64_MAX c NO_RECENT_CONTACT_MS = Some (c + NO_RECENT_CONTACT_MS)) as Ha
    by (apply checked_add_Some; split; [done|revert Hroom; llia]).
  assert (checked_add U64_MAX (last_reply_ms t) NO_RECENT_REPLY_MS = Some (last_reply_ms t + NO_RECENT_REPLY_MS)) as Hb
    by (apply checked_add_Some; split; [done|lia]).
  destruct (Z.leb_spec NO_RECENT_CONTACT_MS (now - c)) as [H1|H1];
    [|destruct (Z.leb_spec NO_RECENT_REPLY_MS (now - last_reply_ms t)) as [H2|H2]];
    rewrite ?Ha; cbn [mbind Result_bind ok_or]; rewrite ?Hb; cbn [mbind Result_bind ok_or];
    eexists; (split; [done|]); cbn.
  - intros now' Hn. destruct (Z.leb_spec NO_RECENT_CONTACT_MS (now' - c)); [done|lia].
  - split.
    + intros now' Hn. split; [|done]. destruct (Z.leb_spec NO_RECENT_CONTACT_MS (now' - c)); [lia|].
      destruct (Z.leb_spec NO_RECENT_REPLY_MS (now' - last_reply_ms t)); [done|lia].
    + destruct (Z.leb_spec NO_RECENT_CONTACT_MS (c + NO_RECENT_CONTACT_MS - c)); [done|lia].
  - split.
    + intros now' Hn. split; [|done]. destruct (Z.leb_spec NO_RECENT_CONTACT_MS (now' - c)); [lia|].
      destruct (Z.leb_spec NO_RECENT_REPLY_MS (now' - last_reply_ms t)); [lia|done].
    + destruct (Z.leb_spec NO_RECENT_CONTACT_MS
        (Z.min (c + NO_RECENT_CONTACT_MS) (last_reply_ms t + NO_RECENT_REPLY_MS) - c)); [done|].
      destruct (Z.leb_spec NO_RECENT_REPLY_MS
        (Z.min (c + NO_RECENT_CONTACT_MS) (last_reply_ms t + NO_RECENT_REPLY_MS) - last_reply_ms t)); [done|lia].
Qed.

Lemma reachability_deadline_exact_witness :
  let t := mkReachabilityTracker AwaitingPeer (Some 100) 50 in
  ∃ t' published, update 200 t = (t', Ok published) ∧ current t' = reachability_spec 200 t.
Proof.
  intros t.
  assert (reach_wf 200 t) as Hwf by (split; simpl; [intros c [= <-]; lia|lia]).
  do 2 eexists. split; [vm_compute; reflexivity|].
  refine (proj1 (reachability_deadline_exact 200 t _ (Some Responsive) Hwf _ _)).
  - limits. lia.
  - vm_compute. reflexivity.
Defined.
