(* ===== verification/TerminalWidth.v ===== *)
(** * Characters: [src/src/terminal_width.rs]

    The width policy that the validation of host bytes and the emulator share, over
    the tables of the [unicode-width] crate, and what both use of Rust's [char] and
    [str]: the UTF-8 encoding of a scalar value and the well-formed byte strings. *)

From S2P Require Import Prelude.

Local Open Scope Z_scope.

(** [UnicodeWidthChar::width] *)
Class UnicodeWidth := { unicode_width : Z → option Z }.

(** What the crate documents: a width is 0, 1 or 2, 1 for printable ASCII, and control
    characters have none. *)
Class UnicodeWidthLaws (UW : UnicodeWidth) : Prop := {
  unicode_width_range c w : unicode_width c = Some w → 0 ≤ w ≤ 2;
  unicode_width_ascii c : 32 ≤ c < 127 → unicode_width c = Some 1;
  unicode_width_control c : c < 32 ∨ 127 ≤ c < 160 → unicode_width c = None;
}.

(** ** Cell widths *)
Definition in_ranges (ranges : list (Z * Z)) (c : Z) : bool :=
  existsb (λ '(lo, hi), (lo <=? c) && (c <=? hi)) ranges.

Definition double_width_overrides : list (Z * Z) :=
  [(0x302e, 0x302f); (0x16ff0, 0x16ff1); (0x3248, 0x324f)].

Definition single_width_overrides : list (Z * Z) :=
  [(0x00ad, 0x00ad); (0x0605, 0x0605); (0x070f, 0x070f); (0x0890, 0x0891); (0x08e2, 0x08e2);
   (0x09be, 0x09be); (0x09d7, 0x09d7); (0x0b3e, 0x0b3e); (0x0b57, 0x0b57); (0x0bbe, 0x0bbe);
   (0x0bd7, 0x0bd7); (0x0cc0, 0x0cc0); (0x0cc2, 0x0cc2); (0x0cc7, 0x0cc8); (0x0cca, 0x0ccb);
   (0x0cd5, 0x0cd6); (0x0d3e, 0x0d3e); (0x0d4e, 0x0d4e); (0x0d57, 0x0d57); (0x0dcf, 0x0dcf);
   (0x0ddf, 0x0ddf); (0x1715, 0x1715); (0x1734, 0x1734); (0x1b35, 0x1b35); (0x1b3b, 0x1b3b);
   (0x1b3d, 0x1b3d); (0x1b43, 0x1b44); (0x1baa, 0x1baa); (0x1bf2, 0x1bf3); (0x17a4, 0x17a4);
   (0x17d8, 0x17d8); (0xa8fa, 0xa8fa); (0xa953, 0xa953); (0xa9c0, 0xa9c0); (0xff9e, 0xff9f);
   (0x111c0, 0x111c0); (0x111c2, 0x111c3); (0x11235, 0x11235); (0x1133e, 0x1133e);
   (0x1134d, 0x1134d); (0x11357, 0x11357); (0x113b8, 0x113b8); (0x113c2, 0x113c2);
   (0x113c5, 0x113c5); (0x113c7, 0x113c9); (0x113cf, 0x113cf); (0x113d1, 0x113d1);
   (0x114b0, 0x114b0); (0x114bd, 0x114bd); (0x115af, 0x115af); (0x116b6, 0x116b6);
   (0x11930, 0x11930); (0x1193d, 0x1193d); (0x1193f, 0x1193f); (0x11941, 0x11941);
   (0x11a84, 0x11a89); (0x11d46, 0x11d46); (0x11f02, 0x11f02); (0x11f41, 0x11f41);
   (0x1d165, 0x1d166); (0x1d16d, 0x1d172)].

(** [terminal_width::width] *)
Definition width `{UnicodeWidth} (character : Z) : option Z :=
  if character =? 0x2d7f then Some 0
  else if in_ranges double_width_overrides character then Some 2
  else if in_ranges single_width_overrides character then Some 1
  else unicode_width character.

(** [char::len_utf8] *)
Definition len_utf8 (c : Z) : Z :=
  if c <? 0x80 then 1 else if c <? 0x800 then 2 else if c <? 0x10000 then 3 else 4.

(** A Rust [char]. *)
Definition is_scalar (c : Z) : Prop := 0 ≤ c < 0xd800 ∨ 0xe000 ≤ c < 0x110000.

(** [char::encode_utf8] *)
Definition encode_utf8 (c : Z) : bytes :=
  if c <? 0x80 then [c]
  else if c <? 0x800 then [0xc0 + c / 64; 0x80 + c mod 64]
  else if c <? 0x10000 then [0xe0 + c / 4096; 0x80 + c / 64 mod 64; 0x80 + c mod 64]
  else [0xf0 + c / 262144; 0x80 + c / 4096 mod 64; 0x80 + c / 64 mod 64; 0x80 + c mod 64].

(** [str::chars] on a well-formed string: the first byte tells the length. *)
Fixpoint utf8_chars (l : bytes) : list Z :=
  match l with
  | b0 :: l1 =>
      if b0 <? 0x80 then b0 :: utf8_chars l1
      else
        match l1 with
        | b1 :: l2 =>
            if b0 <? 0xe0 then (b0 mod 32 * 64 + b1 mod 64) :: utf8_chars l2
            else
              match l2 with
              | b2 :: l3 =>
                  if b0 <? 0xf0 then (b0 mod 16 * 4096 + b1 mod 64 * 64 + b2 mod 64) :: utf8_chars l3
                  else
                    match l3 with
                    | b3 :: l4 =>
                        (b0 mod 8 * 262144 + b1 mod 64 * 4096 + b2 mod 64 * 64 + b3 mod 64) :: utf8_chars l4
                    | [] => []
                    end
              | [] => []
              end
        | [] => []
        end
  | [] => []
  end.

(** [core::str::from_utf8]: the well-formed byte sequences. *)
Definition continuation (b : Z) : bool := (0x80 <=? b) && (b <=? 0xbf).
Definition between (lo hi b : Z) : bool := (lo <=? b) && (b <=? hi).

Fixpoint utf8_valid (l : bytes) : bool :=
  match l with
  | [] => true
  | b0 :: l1 =>
      if between 0x00 0x7f b0 then utf8_valid l1
      else
        match l1 with
        | [] => false
        | b1 :: l2 =>
            if between 0xc2 0xdf b0 then continuation b1 && utf8_valid l2
            else
              match l2 with
              | [] => false
              | b2 :: l3 =>
                  if (b0 =? 0xe0) && between 0xa0 0xbf b1
                     || between 0xe1 0xec b0 && continuation b1
                     || (b0 =? 0xed) && between 0x80 0x9f b1
                     || between 0xee 0xef b0 && continuation b1
                  then continuation b2 && utf8_valid l3
                  else
                    match l3 with
                    | [] => false
                    | b3 :: l4 =>
                        ((b0 =? 0xf0) && between 0x90 0xbf b1
                         || between 0xf1 0xf3 b0 && continuation b1
                         || (b0 =? 0xf4) && between 0x80 0x8f b1)
                        && continuation b2 && continuation b3 && utf8_valid l4
                    end
              end
        end
  end.

(** ** Facts about the encoding *)
Lemma len_utf8_bounds c : 1 ≤ len_utf8 c ≤ 4.
Proof. unfold len_utf8. repeat case_match; lia. Qed.

Lemma len_encode_utf8 c : len (encode_utf8 c) = len_utf8 c.
Proof. unfold encode_utf8, len_utf8. repeat case_match; done. Qed.

Lemma width_range `{UW : UnicodeWidth} `{!UnicodeWidthLaws UW} c w : width c = Some w → 0 ≤ w ≤ 2.
Proof.
  unfold width. repeat case_match; intros; simplify_eq; try lia. by eapply unicode_width_range.
Qed.

(** No override is below 160. *)
Lemma width_below `{UW : UnicodeWidth} c : c < 160 → width c = unicode_width c.
Proof.
  intros Hc. unfold width. destruct (Z.eqb_spec c 0x2d7f); [lia|].
  assert (∀ l, Forall (λ '(lo, _), 160 ≤ lo) l → in_ranges l c = false) as Hr.
  { intros l Hl. unfold in_ranges. induction Hl as [|[lo hi] l Hlo Hl IH]; [done|].
    cbn [existsb]. rewrite IH. lia. }
  rewrite !Hr; [done|unfold single_width_overrides|unfold double_width_overrides]; repeat constructor; lia.
Qed.

Lemma width_ascii `{UW : UnicodeWidth} `{!UnicodeWidthLaws UW} c : 32 ≤ c < 127 → width c = Some 1.
Proof. intros Hc. rewrite width_below by lia. by apply unicode_width_ascii. Qed.

Lemma width_control `{UW : UnicodeWidth} `{!UnicodeWidthLaws UW} c : c < 32 ∨ 127 ≤ c < 160 → width c = None.
Proof. intros Hc. rewrite width_below by lia. by apply unicode_width_control. Qed.

(** Decide the tests of a byte by arithmetic. *)
Ltac decide_bytes :=
  repeat match goal with
  | |- context [if ?b then _ else _] =>
      first [replace b with true by lia | replace b with false by lia]
  end.

(** The digits of a scalar value in base 64. *)
Lemma base64_digits c :
  0 ≤ c → ∃ d0 d1 d2 d3, 0 ≤ d0 < 64 ∧ 0 ≤ d1 < 64 ∧ 0 ≤ d2 < 64 ∧ 0 ≤ d3 ∧
    c = d3 * 262144 + d2 * 4096 + d1 * 64 + d0 ∧
    c mod 64 = d0 ∧ c / 64 mod 64 = d1 ∧ c / 4096 mod 64 = d2 ∧ c / 262144 = d3 ∧
    c / 64 = d3 * 4096 + d2 * 64 + d1 ∧ c / 4096 = d3 * 64 + d2.
Proof.
  intros Hc. exists (c mod 64), (c / 64 mod 64), (c / 4096 mod 64), (c / 262144).
  pose proof (Z.mod_pos_bound c 64 ltac:(lia)). pose proof (Z.mod_pos_bound (c / 64) 64 ltac:(lia)).
  pose proof (Z.mod_pos_bound (c / 4096) 64 ltac:(lia)). pose proof (Z.div_pos c 262144 Hc ltac:(lia)).
  pose proof (Z.div_mod c 64 ltac:(lia)). pose proof (Z.div_mod (c / 64) 64 ltac:(lia)).
  pose proof (Z.div_mod (c / 4096) 64 ltac:(lia)).
  assert (c / 64 / 64 = c / 4096) by (by rewrite Z.div_div by lia).
  assert (c / 4096 / 64 = c / 262144) by (by rewrite Z.div_div by lia).
  split_and!; lia.
Qed.

(** The bytes of one scalar value, in front of a string. *)
Lemma encode_utf8_valid c l : is_scalar c → utf8_valid (encode_utf8 c ++ l) = utf8_valid l.
Proof.
  intros Hc. unfold is_scalar in Hc. unfold encode_utf8.
  destruct (base64_digits c) as (d0 & d1 & d2 & d3 & ? & ? & ? & ? & ? & -> & -> & -> & -> & -> & ->); [lia|].
  repeat case_match; cbn [app utf8_valid]; unfold between, continuation; decide_bytes; try done.
  all: match goal with |- ?b && _ = _ => replace b with true by lia end; done.
Qed.

Lemma encode_utf8_chars c l : is_scalar c → utf8_chars (encode_utf8 c ++ l) = c :: utf8_chars l.
Proof.
  intros Hc. unfold is_scalar in Hc. unfold encode_utf8.
  destruct (base64_digits c) as (d0 & d1 & d2 & d3 & ? & ? & ? & ? & ? & -> & -> & -> & -> & -> & ->); [lia|].
  repeat case_match; cbn [app utf8_chars]; decide_bytes; f_equal.
  - rewrite <- (Z.mod_unique (0xc0 + (d3 * 4096 + d2 * 64 + d1)) 32 6 d1),
      <- (Z.mod_unique (0x80 + d0) 64 2 d0); lia.
  - rewrite <- (Z.mod_unique (0xe0 + (d3 * 64 + d2)) 16 14 d2),
      <- (Z.mod_unique (0x80 + d1) 64 2 d1), <- (Z.mod_unique (0x80 + d0) 64 2 d0); lia.
  - rewrite <- (Z.mod_unique (0xf0 + d3) 8 30 d3), <- (Z.mod_unique (0x80 + d2) 64 2 d2),
      <- (Z.mod_unique (0x80 + d1) 64 2 d1), <- (Z.mod_unique (0x80 + d0) 64 2 d0); lia.
Qed.

(** A string of scalar values. *)
Lemma encode_all_valid l : Forall is_scalar l → utf8_valid (l ≫= encode_utf8) = true.
Proof. induction 1; [done|]. cbn [mbind list_bind]. by rewrite encode_utf8_valid. Qed.

Lemma encode_all_chars l : Forall is_scalar l → utf8_chars (l ≫= encode_utf8) = l.
Proof. induction 1; [done|]. cbn [mbind list_bind]. rewrite encode_utf8_chars by done. by f_equal. Qed.
