(* ===== verification/Emulator.v ===== *)
(** * The interface of the terminal emulator

    What [src/src/terminal/] uses of [src/src/vt100/]: an abstract screen with the
    operations below. [Vt100Parser.v] gives the instance that is translated from the
    sources. The escape-sequence parser [vte] is a crate; its events drive both the
    emulator and the validation of host bytes. *)

From S2P Require Import Prelude TerminalWidth.

Local Open Scope Z_scope.

(** [vte::Parser]: the calls of [vte::Perform] for the bytes, in order. A [vte::Params]
    is a list of parameters, each with its subparameters. *)
Inductive VteEvent :=
  | Print (c : Z)
  | Execute (byte : Z)
  | Hook
  | OscDispatch (params : list bytes)
  | CsiDispatch (params : list (list Z)) (intermediates : bytes) (action : Z)
  | EscDispatch (intermediates : bytes) (byte : Z).

Class Vte := {
  VteParser : Type;
  vte_new : VteParser;
  vte_advance : VteParser → bytes → VteParser * list VteEvent;
}.

(** The types of the events' arguments: [char] and [u16]. *)
Definition event_typed (e : VteEvent) : Prop :=
  match e with
  | Print c => is_scalar c
  | CsiDispatch params _ _ => Forall (Forall is_u16) params
  | _ => True
  end.

Class VteTyped (V : Vte) : Prop :=
  vte_advance_typed p l : Forall event_typed (vte_advance p l).2.

(** The callbacks [vt100] makes for what it does not handle. *)
Inductive Unhandled :=
  | UnhandledChar (c : Z)
  | UnhandledControl (byte : Z)
  | UnhandledEscape (intermediate_1 intermediate_2 : option Z) (byte : Z)
  | UnhandledCsi (intermediate_1 intermediate_2 : option Z) (params : list (list Z)) (character : Z)
  | UnhandledOsc (params : list bytes).

(** The emulator. [None] is a panic. [screen_process] runs a fresh parser over the
    bytes and gives the new screen with the callbacks in order; [screen_cell] is a
    cell's contents as scalar values, if there is such a cell. *)
Class Vt100 := {
  Screen : Type;
  screen_new : Z → Z → option Screen;
  screen_size : Screen → Z * Z;
  screen_set_size : Z → Z → Screen → option Screen;
  screen_cell : Screen → Z → Z → option (option (list Z));
  screen_process : Screen → bytes → option (Screen * list Unhandled);
  state_formatted : Screen → option bytes;
  state_diff : Screen → Screen → option bytes;
}.
