(* ===== verification/Terminal.v ===== *)
(** * Terminal states: [src/src/terminal/]

    The validation of host bytes, the size checks, the application of a server
    difference and the painter. The emulator is used through its interface, the
    class [Vt100]; the Protocol Buffers decoder is an interface too. *)

From S2P Require Import Prelude Limits TerminalWidth Emulator.

Local Open Scope Z_scope.

Inductive TerminalError :=
  | DifferenceTooLarge
  | TooManyOperations
  | TerminalInvalidMessage
  | InvalidOperation
  | TerminalInvalidTerminalSize
  | InvalidUtf8
  | IncompleteSequence
  | UnsupportedCharacter
  | UnsupportedControl
  | UnsupportedEscape
  | UnsupportedCsi (intermediate : option Z) (parameter : option Z) (final_character : Z)
  | UnsupportedOsc
  | TooManyScalarsInCell
  | CellEncodingTooLarge.

#[export] Instance TerminalError_eq_dec : EqDecision TerminalError.
Proof. solve_decision. Defined.

Inductive PaintError := OutputTooLarge.

Inductive TerminalOperation :=
  | HostBytes (host_bytes : bytes)
  | TerminalResize (columns rows : Z)
  | EchoAcknowledgement (number : Z).

Record TerminalDifference := mkTerminalDifference { operations : list TerminalOperation }.

Record WireHostOperation := mkWireHostOperation {
  wire_host_bytes : option bytes;
  wire_size : option (Z * Z);
  wire_echo_acknowledgement : option Z;
}.

(** [prost] decoding of a server difference. *)
Class ProstHost := { host_difference_decode : bytes → option (list WireHostOperation) }.

(** ** Decoding a server difference *)
Definition decode_operation (operation : WireHostOperation) : Result TerminalError TerminalOperation :=
  let present {A} (o : option A) : Z := match o with Some _ => 1 | None => 0 end in
  let known_fields := present (wire_host_bytes operation) + present (wire_size operation)
                      + present (wire_echo_acknowledgement operation) in
  if negb (known_fields =? 1) then Err InvalidOperation
  else
    match wire_host_bytes operation, wire_size operation, wire_echo_acknowledgement operation with
    | Some b, _, _ => Ok (HostBytes b)
    | None, Some (columns, rows), _ => Ok (TerminalResize columns rows)
    | None, None, Some number => Ok (EchoAcknowledgement number)
    | None, None, None => Err InvalidOperation
    end.

Fixpoint decode_operations (l : list WireHostOperation) : Result TerminalError (list TerminalOperation) :=
  match l with
  | [] => Ok []
  | operation :: rest =>
      op ← decode_operation operation;
      ops ← decode_operations rest;
      Ok (op :: ops)
  end.

(** [TerminalDifference::decode] *)
Definition TerminalDifference_decode `{ProstHost} (l : bytes) : Result TerminalError TerminalDifference :=
  if MAX_STATE_DIFFERENCE_BYTES <? len l then Err DifferenceTooLarge
  else
    match host_difference_decode l with
    | None => Err TerminalInvalidMessage
    | Some wire =>
        if MAX_TERMINAL_OPERATIONS_PER_DIFFERENCE <? len wire then Err TooManyOperations
        else
          ops ← decode_operations wire;
          Ok (mkTerminalDifference ops)
    end.

(** [latest_echo_acknowledgement]: the last acknowledgement of the difference. *)
Definition latest_echo_acknowledgement (d : TerminalDifference) : option Z :=
  head (omap (λ op, match op with EchoAcknowledgement n => Some n | _ => None end) (rev (operations d))).

(** ** Sizes *)

(** [checked_size]: rows first in the result, as in the source. *)
Definition checked_size (columns rows : Z) : Result TerminalError (Z * Z) :=
  let cells := columns * rows in
  if (columns =? 0) || (MAX_TERMINAL_COLUMNS <? columns) || (rows =? 0)
     || (MAX_TERMINAL_ROWS <? rows) || (MAX_TERMINAL_VISIBLE_CELLS <? cells)
  then Err TerminalInvalidTerminalSize
  else
    rows ← ok_or TerminalInvalidTerminalSize (try_from U16_MAX rows);
    columns ← ok_or TerminalInvalidTerminalSize (try_from U16_MAX columns);
    Ok (rows, columns).

Definition is_valid_size (columns rows : Z) : bool := is_ok (checked_size columns rows).

(** ** The scalar budget of a cell *)
Definition VT100_CELL_CONTENT_BYTES : Z := 22.
Definition MAX_BYTES_BEFORE_COMBINING_APPEND : Z := VT100_CELL_CONTENT_BYTES - 4.

Record ScalarBudget := mkScalarBudget {
  scalars : Z;
  utf8_bytes : Z;
  prints : Z;
  last_printed : option Z;
  budget_error : option TerminalError;
}.

Definition ScalarBudget_default : ScalarBudget := mkScalarBudget 0 0 0 None None.

Definition reset_cluster (b : ScalarBudget) : ScalarBudget :=
  mkScalarBudget 0 0 (prints b) (last_printed b) (budget_error b).

(** [ScalarBudget::print] *)
Definition budget_print `{UnicodeWidth} (character : Z) (b : ScalarBudget) : ScalarBudget :=
  let b := mkScalarBudget (scalars b) (utf8_bytes b) (prints b + 1) (Some character) (budget_error b) in
  let fail e := mkScalarBudget (scalars b) (utf8_bytes b) (prints b) (last_printed b) (Some e) in
  match width character with
  | None => fail UnsupportedControl
  | Some w =>
      if w =? 0 then
        if scalars b =? 0 then fail TooManyScalarsInCell
        else if scalars b =? MAX_UNICODE_SCALARS_PER_CELL then fail TooManyScalarsInCell
        else if MAX_BYTES_BEFORE_COMBINING_APPEND <=? utf8_bytes b then fail CellEncodingTooLarge
        else mkScalarBudget (scalars b + 1) (utf8_bytes b + len_utf8 character) (prints b)
               (last_printed b) (budget_error b)
      else mkScalarBudget 1 (len_utf8 character) (prints b) (last_printed b) (budget_error b)
  end.

(** The [vte::Perform] implementation of [ScalarBudget]. *)
Definition budget_event `{UnicodeWidth} (b : ScalarBudget) (e : VteEvent) : ScalarBudget :=
  match e with
  | Print c => budget_print c b
  | Execute _ | Hook | OscDispatch _ | EscDispatch _ _ => reset_cluster b
  | CsiDispatch _ _ action => if action =? 109 then b else reset_cluster b
  end.

Definition run_budget `{UnicodeWidth} (b : ScalarBudget) (events : list VteEvent) : ScalarBudget :=
  fold_left budget_event events b.

(** [validate_host_bytes]; ['X'] is 88. *)
Definition validate_host_bytes `{UnicodeWidth} `{Vte} (l : bytes) : Result TerminalError unit :=
  if negb (utf8_valid l) then Err InvalidUtf8
  else
    let '(parser, events) := vte_advance vte_new l in
    let budget := run_budget ScalarBudget_default events in
    let prints_before_sentinel := prints budget in
    let '(parser, events) := vte_advance parser [88] in
    let budget := run_budget budget events in
    match budget_error budget with
    | Some error => Err error
    | None =>
        if negb (prints budget =? prints_before_sentinel + 1)
           || negb (bool_decide (last_printed budget = Some 88))
        then Err IncompleteSequence
        else Ok tt
    end.

(** ** Unsupported sequences *)

(** [is_suppressed_external_policy_sequence]: ['?'] is 63, ['l'] 108, ['h'] 104. *)
Definition is_suppressed_external_policy_sequence (intermediate : option Z) (params : list (list Z))
    (final_character : Z) : bool :=
  bool_decide (intermediate = Some 63) &&
  match params with
  | [[p]] =>
      ((p =? 1001) || (p =? 1004) || (p =? 1015)) && (final_character =? 108)
      || (p =? 1004) && (final_character =? 104)
  | _ => false
  end.

(** [impl vt100::Callbacks for TerminalCallbacks] *)
Definition on_unhandled (unsupported_sequence : option TerminalError) (u : Unhandled) : option TerminalError :=
  match u with
  | UnhandledChar _ => Some UnsupportedCharacter
  | UnhandledControl _ => Some UnsupportedControl
  | UnhandledEscape _ _ _ => Some UnsupportedEscape
  | UnhandledCsi i1 _ params c =>
      if is_suppressed_external_policy_sequence i1 params c then unsupported_sequence
      else Some (UnsupportedCsi i1 (p ← head params; head p) c)
  | UnhandledOsc _ => Some UnsupportedOsc
  end.

(** ** Terminal states *)
Section terminal.
Context `{VT : Vt100} `{VTE : Vte} `{UW : UnicodeWidth} `{PH : ProstHost}.

Record TerminalState := mkTerminalState {
  screen : Screen;
  echo_acknowledgement : option Z;
}.

(** [TerminalState::new] *)
Definition TerminalState_new (columns rows : Z) : Result TerminalError TerminalState :=
  '(rows, columns) ← checked_size columns rows;
  s ← expect (screen_new rows columns);
  Ok (mkTerminalState s None).

(** A [for] loop whose body can return early with an error. *)
Fixpoint for_all {A E} (f : A → Result E unit) (l : list A) : Result E unit :=
  match l with
  | [] => Ok tt
  | x :: rest => f x ≫= λ _, for_all f rest
  end.

(** The body of the loops of [validate_screen]. *)
Definition validate_cell (s : Screen) (row column : Z) : Result TerminalError unit :=
  cell ← expect (screen_cell s row column);
  match cell with
  | None => Ok tt
  | Some contents => if MAX_UNICODE_SCALARS_PER_CELL <? len contents then Err TooManyScalarsInCell else Ok tt
  end.

(** [validate_screen] *)
Definition validate_screen (s : Screen) : Result TerminalError unit :=
  let '(rows, columns) := screen_size s in
  for_all (λ row, for_all (validate_cell s row) (seqZ 0 columns)) (seqZ 0 rows).

(** [apply_host_bytes] *)
Definition apply_host_bytes (l : bytes) : M TerminalState TerminalError unit :=
  lift (validate_host_bytes l) ;;
  t ← get;
  '(screen', unhandled) ← lift (expect (screen_process (screen t) l));
  match fold_left on_unhandled unhandled None with
  | Some error => throw error
  | None =>
      lift (validate_screen screen') ;;
      put (mkTerminalState screen' (echo_acknowledgement t))
  end.

(** One iteration of the loop of [apply]. *)
Definition apply_operation (operation : TerminalOperation) : M TerminalState TerminalError unit :=
  match operation with
  | HostBytes l => apply_host_bytes l
  | TerminalResize columns rows =>
      '(rows, columns) ← lift (checked_size columns rows);
      t ← get;
      s ← lift (expect (screen_set_size rows columns (screen t)));
      put (mkTerminalState s (echo_acknowledgement t))
  | EchoAcknowledgement number =>
      t ← get;
      fail_if (is_some_and (echo_acknowledgement t) (λ current, number <? current)) InvalidOperation ;;
      put (mkTerminalState (screen t) (Some number))
  end.

Fixpoint apply_operations (ops : list TerminalOperation) : M TerminalState TerminalError unit :=
  match ops with
  | [] => mret tt
  | op :: rest => apply_operation op ;; apply_operations rest
  end.

(** [TerminalState::apply]: on a clone, so [self] is untouched. *)
Definition terminal_apply (t : TerminalState) (difference : TerminalDifference) :
    Result TerminalError TerminalState :=
  match apply_operations (operations difference) t with
  | (next, Ok _) => Ok next
  | (_, Err e) => Err e
  | (_, Panic) => Panic
  end.

(** [u8::is_ascii_graphic] or a space. *)
Definition is_predictable (byte : Z) : bool :=
  (33 <=? byte) && (byte <=? 126) || (byte =? 32).

(** [with_predicted_ascii]; the [debug_assert] is the first [Panic]. *)
Definition with_predicted_ascii (byte : Z) (t : TerminalState) : Result TerminalError TerminalState :=
  if negb (is_predictable byte) then Panic
  else
    match apply_host_bytes [byte] t with
    | (predicted, Ok _) => Ok predicted
    | (_, Err e) => Err e
    | (_, Panic) => Panic
    end.

(** [display_equivalent] *)
Definition display_equivalent (a b : TerminalState) : Result TerminalError bool :=
  fa ← expect (state_formatted (screen a));
  fb ← expect (state_formatted (screen b));
  Ok (bytes_eqb fa fb).

(** ** The painter *)
Definition INITIAL_PROFILE_POLICY_RESET : bytes :=
  [27; 91; 63; 49; 48; 48; 49; 108; 27; 91; 63; 49; 48; 48; 52; 108; 27; 91; 63; 49; 48; 49; 53; 108].

Definition bounded (output : bytes) : Result PaintError bytes :=
  if MAX_OUTPUT_CHUNK_BYTES <? len output then Err OutputTooLarge else Ok output.

Definition painter_full (t : TerminalState) : Result PaintError bytes :=
  f ← expect (state_formatted (screen t));
  bounded (INITIAL_PROFILE_POLICY_RESET ++ f).

Definition painter_incremental (previous current : TerminalState) : Result PaintError bytes :=
  if negb (bool_decide (screen_size (screen previous) = screen_size (screen current)))
  then painter_full current
  else d ← expect (state_diff (screen current) (screen previous)); bounded d.

(** ** Sets of screens

    What the clients of the emulator rely on: a set of screens that processing bytes
    does not leave. [emulator_panic] is what follows from a panic of the emulator on
    one of these screens. *)
Definition size_ok (rows columns : Z) : Prop :=
  1 ≤ rows ≤ MAX_TERMINAL_ROWS ∧ 1 ≤ columns ≤ MAX_TERMINAL_COLUMNS.

Class ScreenSet := {
  in_set : Screen → Prop;
  emulator_panic : Prop;
  set_process l s :
    in_set s → utf8_valid l = true →
    match screen_process s l with Some (s', _) => in_set s' | None => emulator_panic end;
  set_cell row column s : in_set s → screen_cell s row column = None → emulator_panic;
  set_formatted s : in_set s → state_formatted s = None → emulator_panic;
  set_diff s s' : in_set s → in_set s' → state_diff s s' = None → emulator_panic;
}.

(** A terminal state with such a screen. *)
Definition within `{ScreenSet} (t : TerminalState) : Prop := in_set (screen t).

(** The operations [ops] on [t], as far as they succeed, only resize to screens of the
    set. *)
Definition resize_stays `{ScreenSet} (op : TerminalOperation) (t : TerminalState) : Prop :=
  match op with
  | TerminalResize columns rows =>
      size_ok rows columns →
      match screen_set_size rows columns (screen t) with Some s => in_set s | None => emulator_panic end
  | _ => True
  end.

Fixpoint operations_stay `{ScreenSet} (ops : list TerminalOperation) (t : TerminalState) : Prop :=
  match ops with
  | [] => True
  | op :: rest =>
      resize_stays op t ∧
      match apply_operation op t with (t', Ok _) => operations_stay rest t' | _ => True end
  end.

(** All the screens that the operations can make: here a panic is one of the emulator
    on a screen that it can reach. *)
Inductive screen_reachable : Screen → Prop :=
  | reach_new rows columns s : size_ok rows columns → screen_new rows columns = Some s → screen_reachable s
  | reach_set_size rows columns s s' :
      screen_reachable s → size_ok rows columns → screen_set_size rows columns s = Some s' → screen_reachable s'
  | reach_process l s s' u :
      screen_reachable s → utf8_valid l = true → screen_process s l = Some (s', u) → screen_reachable s'.

Inductive reachable_panic : Prop :=
  | panic_new rows columns : size_ok rows columns → screen_new rows columns = None → reachable_panic
  | panic_set_size rows columns s :
      screen_reachable s → size_ok rows columns → screen_set_size rows columns s = None → reachable_panic
  | panic_process l s :
      screen_reachable s → utf8_valid l = true → screen_process s l = None → reachable_panic
  | panic_cell row column s : screen_reachable s → screen_cell s row column = None → reachable_panic
  | panic_formatted s : screen_reachable s → state_formatted s = None → reachable_panic
  | panic_diff s s' : screen_reachable s → screen_reachable s' → state_diff s s' = None → reachable_panic.

#[refine] Definition reachable_screens : ScreenSet := {|
  in_set := screen_reachable;
  emulator_panic := reachable_panic;
|}.
Proof.
  - intros l s Hs Hl. destruct (screen_process s l) as [[s' u]|] eqn:E; [by eapply reach_process|by eapply panic_process].
  - apply panic_cell.
  - apply panic_formatted.
  - apply panic_diff.
Defined.
End terminal.

(** ** Size checks *)
Lemma checked_size_spec columns rows :
  is_u32 columns → is_u32 rows →
  checked_size columns rows =
    if bool_decide (1 ≤ columns ≤ MAX_TERMINAL_COLUMNS ∧ 1 ≤ rows ≤ MAX_TERMINAL_ROWS)
    then Ok (rows, columns) else Err TerminalInvalidTerminalSize.
Proof.
  unfold is_u32. intros Hc Hr. unfold checked_size, try_from. cbn zeta.
  case_bool_decide as H.
  - assert (columns * rows ≤ MAX_TERMINAL_VISIBLE_CELLS) by (revert H; limits; intros; nia).
    destruct (_ || _) eqn:Hb; [lia|].
    replace ((0 <=? rows) && (rows <=? U16_MAX)) with true by (symmetry; revert H; llia).
    replace ((0 <=? columns) && (columns <=? U16_MAX)) with true by (symmetry; revert H; llia).
    done.
  - destruct (_ || _) eqn:Hb; [done|]. exfalso. apply H. lia.
Qed.

(** ** The scalar budget *)
Definition budget_ok (b : ScalarBudget) : Prop :=
  0 ≤ scalars b ≤ MAX_UNICODE_SCALARS_PER_CELL ∧ 0 ≤ utf8_bytes b < VT100_CELL_CONTENT_BYTES.

Lemma budget_event_ok `{UnicodeWidth} b e : budget_ok b → budget_ok (budget_event b e).
Proof.
  unfold budget_ok. intros (Hs & Hu).
  destruct e; simpl; try (cbn; llia); [|case_match; cbn; llia].
  unfold budget_print. pose proof (len_utf8_bounds c).
  unfold MAX_BYTES_BEFORE_COMBINING_APPEND, VT100_CELL_CONTENT_BYTES in *.
  repeat case_match; simpl in *; split_and!; llia.
Qed.

(** The clusters of printed scalars: a base character with the zero-width scalars
    that follow it before anything else moves the cursor. *)
Lemma run_budget_ok `{UnicodeWidth} events b : budget_ok b → budget_ok (run_budget b events).
Proof.
  unfold run_budget. revert b. induction events as [|e events IH]; intros b Hb; [done|].
  simpl. by apply IH, budget_event_ok.
Qed.

(** An error, once found, stays. *)
Lemma budget_error_stays `{UnicodeWidth} events b :
  budget_error b ≠ None → budget_error (run_budget b events) ≠ None.
Proof.
  unfold run_budget. revert b. induction events as [|e events IH]; intros b Hb; [done|].
  simpl. apply IH. destruct e; simpl; try done; [|by case_match].
  unfold budget_print. repeat case_match; done.
Qed.

(** ** Application of differences *)
Section apply.
Context `{VT : Vt100} `{VTE : Vte} `{UW : UnicodeWidth}.

Lemma apply_operations_app a b :
  ∀ t, apply_operations (a ++ b) t =
    match apply_operations a t with
    | (t', Ok _) => apply_operations b t'
    | (t', Err e) => (t', Err e)
    | (t', Panic) => (t', Panic)
    end.
Proof.
  induction a as [|op a IH]; intros t; [done|]. simpl. cbv [mbind M_bind].
  destruct (apply_operation op t) as [t1 [[]|e|]]; [|done|done]. apply IH.
Qed.

Lemma apply_host_bytes_Ok l t t' :
  apply_host_bytes l t = (t', Ok tt) →
  utf8_valid l = true ∧ validate_screen (screen t') = Ok tt ∧
  echo_acknowledgement t' = echo_acknowledgement t ∧
  ∃ unhandled, screen_process (screen t) l = Some (screen t', unhandled) ∧
    fold_left on_unhandled unhandled None = None.
Proof.
  intros H. unfold apply_host_bytes in H. run.
  destruct (validate_host_bytes l) as [[]| |] eqn:Hv; simplify_eq.
  assert (utf8_valid l = true) by (unfold validate_host_bytes in Hv; by destruct (utf8_valid l)).
  destruct (screen_process (screen t) l) as [[s' u]|] eqn:Hp; simplify_eq.
  destruct (fold_left on_unhandled u None) eqn:Hu; simplify_eq.
  destruct (validate_screen s') as [[]| |] eqn:Hs; simplify_eq. simpl. eauto 10.
Qed.

Lemma for_all_Ok {A E} (f : A → Result E unit) l : for_all f l = Ok tt → ∀ x, x ∈ l → f x = Ok tt.
Proof.
  induction l as [|y l IH]; simpl; intros H x Hx; [by apply elem_of_nil in Hx|].
  unfold mbind, Result_bind in H. destruct (f y) as [[]| |] eqn:Hf; try done.
  apply elem_of_cons in Hx as [->|Hx]; [done|by apply IH].
Qed.

Lemma for_all_panic {A E} (f : A → Result E unit) l : for_all f l = Panic → ∃ x, x ∈ l ∧ f x = Panic.
Proof.
  induction l as [|y l IH]; simpl; [done|]. unfold mbind, Result_bind.
  destruct (f y) as [[]| |] eqn:Hf; intros H; try done.
  - destruct (IH H) as (x & Hx & Hp). exists x. split; [by right|done].
  - exists y. split; [by left|done].
Qed.

Lemma validate_screen_cells s rows columns row column contents :
  validate_screen s = Ok tt → screen_size s = (rows, columns) → 0 ≤ row < rows → 0 ≤ column < columns →
  screen_cell s row column = Some (Some contents) → len contents ≤ MAX_UNICODE_SCALARS_PER_CELL.
Proof.
  intros Hv Hsz Hr Hc Hcell. unfold validate_screen in Hv. rewrite Hsz in Hv.
  pose proof (for_all_Ok _ _ Hv row ltac:(apply elem_of_seqZ; lia)) as Hrow.
  pose proof (for_all_Ok _ _ Hrow column ltac:(apply elem_of_seqZ; lia)) as Hcol.
  unfold validate_cell in Hcol. rewrite Hcell in Hcol. cbn in Hcol.
  destruct (Z.ltb_spec MAX_UNICODE_SCALARS_PER_CELL (len contents)); [done|lia].
Qed.

Definition echo_le (a b : option Z) : Prop :=
  match a, b with
  | None, _ => True
  | Some x, Some y => x ≤ y
  | Some _, None => False
  end.

Lemma echo_le_refl a : echo_le a a.
Proof. destruct a; simpl; lia || done. Qed.

Lemma echo_le_trans a b c : echo_le a b → echo_le b c → echo_le a c.
Proof. destruct a, b, c; simpl; lia || done. Qed.

Lemma apply_operation_echo op t t' :
  apply_operation op t = (t', Ok tt) →
  echo_le (echo_acknowledgement t) (echo_acknowledgement t') ∧
  echo_acknowledgement t' =
    match op with EchoAcknowledgement n => Some n | _ => echo_acknowledgement t end.
Proof.
  destruct op as [l|columns rows|n]; simpl; intros H.
  - apply apply_host_bytes_Ok in H as (_ & _ & -> & _). split; [apply echo_le_refl|done].
  - run. destruct (checked_size columns rows) as [[r c]| |]; simplify_eq/=.
    destruct (screen_set_size r c (screen t)); simplify_eq/=. split; [apply echo_le_refl|done].
  - run. destruct (is_some_and _ _) eqn:Hs; simplify_eq/=. split; [|done].
    destruct (echo_acknowledgement t); simpl in *; [lia|done].
Qed.

Lemma apply_operations_echo ops t t' :
  apply_operations ops t = (t', Ok tt) →
  echo_le (echo_acknowledgement t) (echo_acknowledgement t') ∧
  echo_acknowledgement t' =
    match latest_echo_acknowledgement (mkTerminalDifference ops) with
    | Some n => Some n | None => echo_acknowledgement t end.
Proof.
  revert t'. induction ops as [|op ops IH] using rev_ind; intros t' H.
  { simpl in H. injection H as <-. split; [apply echo_le_refl|done]. }
  rewrite apply_operations_app in H. destruct (apply_operations ops t) as [t1 [[]| |]]; try done.
  destruct (IH t1 eq_refl) as [Hle Heq]. simpl in H. cbv [mbind M_bind mret M_ret] in H.
  destruct (apply_operation op t1) as [t2 [[]| |]] eqn:Ho; simplify_eq.
  destruct (apply_operation_echo _ _ _ Ho) as [Hle' Heq'].
  split; [by eapply echo_le_trans|]. rewrite Heq'.
  unfold latest_echo_acknowledgement in *. simpl. rewrite rev_app_distr. simpl.
  destruct op; simpl; done.
Qed.
End apply.

(** ** The operations stay within the set and panic only where the emulator does *)
Section screen_set.
Context `{VT : Vt100} `{VTE : Vte} `{UW : UnicodeWidth} `{SS : !ScreenSet}.

(** What a call on a screen of the set may do. *)
Definition outcome_ok (r : Result TerminalError TerminalState) : Prop :=
  match r with Ok t => within t | Err _ => True | Panic => emulator_panic end.

Lemma checked_size_Ok columns rows r c :
  checked_size columns rows = Ok (r, c) → size_ok r c ∧ r = rows ∧ c = columns.
Proof.
  unfold checked_size, size_ok, try_from. cbn zeta. destruct (_ || _) eqn:Hb; [done|].
  destruct ((0 <=? rows) && _) eqn:Hr; [|done]. cbn. destruct ((0 <=? columns) && _) eqn:Hc; [|done].
  intros [= <- <-]. split; [lia|done].
Qed.

Lemma checked_size_no_panic columns rows : checked_size columns rows ≠ Panic.
Proof. unfold checked_size, try_from. cbn zeta. repeat case_match; done. Qed.

Lemma TerminalState_new_within columns rows :
  (size_ok rows columns → match screen_new rows columns with Some s => in_set s | None => emulator_panic end) →
  outcome_ok (TerminalState_new columns rows).
Proof.
  intros Hnew. unfold TerminalState_new. pose proof (checked_size_no_panic columns rows) as Hp.
  destruct (checked_size columns rows) as [[r c]| |] eqn:Hc; [|done|done].
  destruct (checked_size_Ok _ _ _ _ Hc) as (Hs & -> & ->). cbn. specialize (Hnew Hs).
  by destruct (screen_new rows columns).
Qed.

Lemma validate_host_bytes_utf8 l : validate_host_bytes l = Ok tt → utf8_valid l = true.
Proof. unfold validate_host_bytes. by destruct (utf8_valid l). Qed.

Lemma validate_host_bytes_no_panic l : validate_host_bytes l ≠ Panic.
Proof.
  unfold validate_host_bytes. destruct (negb (utf8_valid l)); [done|].
  destruct (vte_advance vte_new l) as [p e]. destruct (vte_advance p [88]) as [p' e'].
  repeat case_match; done.
Qed.

Lemma validate_screen_panic s : in_set s → validate_screen s = Panic → emulator_panic.
Proof.
  unfold validate_screen. destruct (screen_size s) as [rows columns]. intros Hs H.
  apply for_all_panic in H as (row & _ & H). apply for_all_panic in H as (column & _ & H).
  unfold validate_cell in H. destruct (screen_cell s row column) as [[c|]|] eqn:Hc; cbn in H; try done.
  - by destruct (_ <? _).
  - by eapply set_cell.
Qed.

Lemma apply_host_bytes_within l t :
  within t →
  match apply_host_bytes l t with
  | (t', Ok _) => within t'
  | (_, Err _) => True
  | (_, Panic) => emulator_panic
  end.
Proof.
  intros Ht. unfold apply_host_bytes. cbv [mbind M_bind lift get put throw expect].
  pose proof (validate_host_bytes_no_panic l). destruct (validate_host_bytes l) as [[]| |] eqn:Hv; try done.
  apply validate_host_bytes_utf8 in Hv.
  pose proof (set_process l _ Ht Hv) as Hp.
  destruct (screen_process (screen t) l) as [[s' u]|]; [|done].
  destruct (fold_left on_unhandled u None); [done|].
  destruct (validate_screen s') as [[]| |] eqn:Hs; [done|done|by eapply validate_screen_panic].
Qed.

Lemma apply_operation_within op t :
  within t → resize_stays op t →
  match apply_operation op t with
  | (t', Ok _) => within t'
  | (_, Err _) => True
  | (_, Panic) => emulator_panic
  end.
Proof.
  intros Ht Hop. destruct op as [l|columns rows|n]; [by apply apply_host_bytes_within| |]; cbn [apply_operation].
  - cbv [mbind M_bind lift get put expect]. pose proof (checked_size_no_panic columns rows).
    destruct (checked_size columns rows) as [[r c]| |] eqn:Hc; try done.
    apply checked_size_Ok in Hc as (Hs & -> & ->). specialize (Hop Hs).
    by destruct (screen_set_size rows columns (screen t)).
  - cbv [mbind M_bind get put fail_if throw mret M_ret]. by destruct (is_some_and _ _).
Qed.

Lemma apply_operations_within ops t :
  within t → operations_stay ops t →
  match apply_operations ops t with
  | (t', Ok _) => within t'
  | (_, Err _) => True
  | (_, Panic) => emulator_panic
  end.
Proof.
  revert t. induction ops as [|op ops IH]; intros t Ht; [done|]. intros [Hop Hops]. cbn [apply_operations].
  cbv [mbind M_bind]. pose proof (apply_operation_within op t Ht Hop) as Ho.
  destruct (apply_operation op t) as [t1 [[]| |]]; [by apply IH|done|done].
Qed.

Lemma terminal_apply_within t d : within t → operations_stay (operations d) t → outcome_ok (terminal_apply t d).
Proof.
  intros Ht Hd. unfold terminal_apply. pose proof (apply_operations_within (operations d) t Ht Hd) as H.
  by destruct (apply_operations (operations d) t) as [t1 [[]| |]].
Qed.

Lemma with_predicted_ascii_within byte t :
  is_predictable byte = true → within t → outcome_ok (with_predicted_ascii byte t).
Proof.
  intros Hb Ht. unfold with_predicted_ascii. rewrite Hb. cbn [negb].
  pose proof (apply_host_bytes_within [byte] t Ht) as H.
  by destruct (apply_host_bytes [byte] t) as [t1 [[]| |]].
Qed.

Lemma display_equivalent_panic a b :
  within a → within b → display_equivalent a b = Panic → emulator_panic.
Proof.
  unfold within, display_equivalent. intros Ha Hb.
  destruct (state_formatted (screen a)) eqn:Hfa; [|by intros; eapply (set_formatted (screen a))].
  destruct (state_formatted (screen b)) eqn:Hfb; [done|by intros; eapply (set_formatted (screen b))].
Qed.

(** The same of an optional state. *)
Definition opt_within (o : option TerminalState) : Prop :=
  match o with Some t => within t | None => True end.

Lemma painter_full_panic t : within t → painter_full t = Panic → emulator_panic.
Proof.
  unfold within, painter_full, bounded. intros Ht.
  destruct (state_formatted (screen t)) eqn:Hf; [cbn; by case_match|by intros; eapply set_formatted].
Qed.

Lemma painter_incremental_panic previous t :
  within previous → within t → painter_incremental previous t = Panic → emulator_panic.
Proof.
  intros Hp Ht. unfold painter_incremental. destruct (negb _); [by apply painter_full_panic|].
  destruct (state_diff (screen t) (screen previous)) eqn:Hf; [cbn; unfold bounded; by case_match|].
  intros _. by eapply (set_diff (screen t) (screen previous)).
Qed.
End screen_set.

(** Every operation stays on the reachable screens. *)
Section reachable.
Context `{VT : Vt100} `{VTE : Vte} `{UW : UnicodeWidth}.
#[local] Existing Instance reachable_screens.

Lemma TerminalState_new_reachable columns rows : outcome_ok (TerminalState_new columns rows).
Proof.
  apply TerminalState_new_within. intros Hs.
  destruct (screen_new rows columns) eqn:E; [by eapply reach_new|by eapply panic_new].
Qed.

Lemma reachable_operations_stay ops t : within t → operations_stay ops t.
Proof.
  revert t. induction ops as [|op ops IH]; intros t Ht; [done|].
  assert (resize_stays op t) as Hop.
  { destruct op as [|columns rows|]; [done| |done]. intros Hs.
    destruct (screen_set_size rows columns (screen t)) eqn:E; [by eapply reach_set_size|by eapply panic_set_size]. }
  split; [done|]. pose proof (apply_operation_within op t Ht Hop) as Ho.
  destruct (apply_operation op t) as [t' [[]| |]]; [by apply IH|done|done].
Qed.
End reachable.

(** ** Claims *)

(** A terminal size is accepted exactly when it has between 1 and 500 columns
    and between 1 and 200 rows: the visible-cell limit follows from these two, and
    the 16-bit conversions never fail. *)
Theorem terminal_size_accepted columns rows :
  is_u32 columns → is_u32 rows →
  (is_valid_size columns rows = true ↔ 1 ≤ columns ≤ MAX_TERMINAL_COLUMNS ∧ 1 ≤ rows ≤ MAX_TERMINAL_ROWS) ∧
  (is_valid_size columns rows = true → checked_size columns rows = Ok (rows, columns)).
Proof.
  intros Hc Hr. unfold is_valid_size. rewrite checked_size_spec by done.
  case_bool_decide as H; simpl; split; try done; split; intros; done.
Qed.

(** While host bytes are validated, no cluster ever holds more than 8 scalars
    or 21 bytes of UTF-8, so that it fits the emulator's 22-byte cell; and a byte
    string whose events ever break a limit is refused. *)
Theorem cell_budget_bounded `{UW : UnicodeWidth} (before after : list VteEvent) :
  let b := run_budget ScalarBudget_default before in
  (scalars b ≤ MAX_UNICODE_SCALARS_PER_CELL ∧ utf8_bytes b < VT100_CELL_CONTENT_BYTES) ∧
  (budget_error b ≠ None → budget_error (run_budget ScalarBudget_default (before ++ after)) ≠ None).
Proof.
  intros b. split.
  - assert (budget_ok b) as (Hs & Hu); [|lia]. apply run_budget_ok.
    unfold budget_ok, VT100_CELL_CONTENT_BYTES. simpl. llia.
  - intros Hb. unfold run_budget in *. rewrite fold_left_app. by apply budget_error_stays.
Qed.

Section claims.
Context `{VT : Vt100} `{VTE : Vte} `{UW : UnicodeWidth} `{PH : ProstHost}.

(** Applying a difference moves the echo acknowledgement to the difference's
    last one, if it has any, and never backwards. *)
Theorem apply_echo_monotone t d t' :
  terminal_apply t d = Ok t' →
  echo_le (echo_acknowledgement t) (echo_acknowledgement t') ∧
  echo_acknowledgement t' =
    match latest_echo_acknowledgement d with Some n => Some n | None => echo_acknowledgement t end.
Proof.
  unfold terminal_apply. destruct (apply_operations (operations d) t) as [t1 [[]| |]] eqn:H; intros; simplify_eq.
  destruct d. by apply apply_operations_echo.
Qed.

(** Applying two differences in turn is applying their concatenation, errors
    included: what a state is does not depend on how the server cut its updates. *)
Theorem apply_compositional t a b :
  terminal_apply t (mkTerminalDifference (a ++ b)) =
    (t' ← terminal_apply t (mkTerminalDifference a); terminal_apply t' (mkTerminalDifference b)).
Proof.
  unfold terminal_apply. simpl. rewrite apply_operations_app.
  by destruct (apply_operations a t) as [t1 [[]| |]].
Qed.

(** Host bytes that a state accepts are well-formed UTF-8, made no unsupported
    request, and leave at most 8 scalars in every visible cell. *)
Theorem host_bytes_validated l t t' rows columns row column contents :
  apply_host_bytes l t = (t', Ok tt) → screen_size (screen t') = (rows, columns) →
  0 ≤ row < rows → 0 ≤ column < columns → screen_cell (screen t') row column = Some (Some contents) →
  utf8_valid l = true ∧ len contents ≤ MAX_UNICODE_SCALARS_PER_CELL ∧
  ∃ unhandled, screen_process (screen t) l = Some (screen t', unhandled) ∧
    fold_left on_unhandled unhandled None = None.
Proof.
  intros H Hsz Hr Hc Hcell. apply apply_host_bytes_Ok in H as (Hu & Hv & _ & Hp).
  split; [done|]. split; [|done]. by eapply validate_screen_cells.
Qed.

Lemma decode_operations_spec wire ops :
  decode_operations wire = Ok ops → length ops = length wire.
Proof.
  revert ops. induction wire as [|w wire IH]; simpl; intros ops H; [by simplify_eq|].
  run. cases. f_equal. by apply IH.
Qed.

(** A decoded difference comes from at most 2 MiB and has at most 4096
    operations, one per wire operation, each of which set exactly one field. *)
Theorem difference_decode_bounded l d :
  TerminalDifference_decode l = Ok d →
  len l ≤ MAX_STATE_DIFFERENCE_BYTES ∧
  len (operations d) ≤ MAX_TERMINAL_OPERATIONS_PER_DIFFERENCE ∧
  ∃ wire, host_difference_decode l = Some wire ∧ decode_operations wire = Ok (operations d) ∧
    len (operations d) = len wire.
Proof.
  unfold TerminalDifference_decode. destruct (Z.ltb_spec MAX_STATE_DIFFERENCE_BYTES (len l)); [done|].
  destruct (host_difference_decode l) as [wire|]; [|done].
  destruct (Z.ltb_spec MAX_TERMINAL_OPERATIONS_PER_DIFFERENCE (len wire)); [done|].
  destruct (decode_operations wire) as [ops| |] eqn:Hd; intros [= <-]. simpl.
  pose proof (decode_operations_spec _ _ Hd) as Hl. unfold len in *. rewrite Hl. eauto 10 with lia.
Qed.

Lemma bounded_Ok l out : bounded l = Ok out → len out ≤ MAX_OUTPUT_CHUNK_BYTES ∧ out = l.
Proof.
  unfold bounded. destruct (Z.ltb_spec MAX_OUTPUT_CHUNK_BYTES (len l)); [done|]. by intros [= <-].
Qed.

(** A painted chunk is at most 2 MiB, a resized screen is repainted in full,
    and a full repaint starts with the fixed reset of the unsupported modes. *)
Theorem painter_bounded previous t out :
  painter_incremental previous t = Ok out →
  len out ≤ MAX_OUTPUT_CHUNK_BYTES ∧
  (screen_size (screen previous) ≠ screen_size (screen t) →
     painter_full t = Ok out ∧ ∃ f, state_formatted (screen t) = Some f ∧ out = INITIAL_PROFILE_POLICY_RESET ++ f).
Proof.
  unfold painter_incremental. case_bool_decide as Hsz; cbn [negb].
  - destruct (state_diff _ _) as [d|]; [|done]. intros Hb%bounded_Ok. split; [apply Hb|done].
  - unfold painter_full. destruct (state_formatted _) as [f|]; [|done]. cbn. intros Hb.
    pose proof (bounded_Ok _ _ Hb) as [Ho ->]. eauto.
Qed.
End claims.

(** ** A concrete emulator for the witnesses: a one-line screen that appends
    printable characters. *)
#[local] Instance line_vt100 : Vt100 := {|
  Screen := Z * Z * list Z;
  screen_new rows columns := Some (rows, columns, []);
  screen_size s := s.1;
  screen_set_size rows columns s := Some (rows, columns, s.2);
  screen_cell s row column :=
    Some (if row =? 0 then option_map (λ c, [c]) (s.2 !! Z.to_nat column) else None);
  screen_process s l := Some ((s.1, s.2 ++ l), []);
  state_formatted s := Some s.2;
  state_diff s p := Some (drop (length p.2) s.2);
|}.

#[local] Instance print_vte : Vte := {|
  VteParser := unit;
  vte_new := tt;
  vte_advance _ l := (tt, Print <$> l);
|}.

#[local] Instance narrow_width : UnicodeWidth := {| unicode_width _ := Some 1 |}.

#[local] Instance host_prost : ProstHost := {|
  host_difference_decode l := Some [mkWireHostOperation (Some l) None None];
|}.

Definition line_screen (rows columns : Z) (l : bytes) : Screen (Vt100:=line_vt100) := (rows, columns, l).

Definition sample_terminal : TerminalState := mkTerminalState (line_screen 24 80 []) (Some 3).

Lemma terminal_size_accepted_witness : is_valid_size 80 24 = true.
Proof. apply (terminal_size_accepted 80 24); unfold is_u32; llia. Defined.

Lemma apply_echo_monotone_witness :
  echo_le (Some 3) (Some 9) ∧ Some 9 = Some 9.
Proof.
  refine (apply_echo_monotone sample_terminal (mkTerminalDifference [HostBytes [65]; EchoAcknowledgement 9])
            (mkTerminalState (line_screen 24 80 [65]) (Some 9)) _).
  vm_compute. reflexivity.
Defined.

Lemma host_bytes_validated_witness : utf8_valid [65] = true ∧ len [65] ≤ MAX_UNICODE_SCALARS_PER_CELL.
Proof.
  destruct (host_bytes_validated [65] sample_terminal (mkTerminalState (line_screen 24 80 [65]) (Some 3))
              24 80 0 0 [65]) as (H1 & H2 & _).
  - vm_compute. reflexivity.
  - reflexivity.
  - lia.
  - lia.
  - reflexivity.
  - exact (conj H1 H2).
Defined.

Lemma difference_decode_bounded_witness :
  len [72; 105] ≤ MAX_STATE_DIFFERENCE_BYTES.
Proof.
  refine (proj1 (difference_decode_bounded [72; 105] (mkTerminalDifference [HostBytes [72; 105]]) _)).
  vm_compute. reflexivity.
Defined.

Lemma painter_bounded_witness :
  len (INITIAL_PROFILE_POLICY_RESET ++ [65]) ≤ MAX_OUTPUT_CHUNK_BYTES.
Proof.
  refine (proj1 (painter_bounded (mkTerminalState (line_screen 24 81 []) None)
                   (mkTerminalState (line_screen 24 80 [65]) None) _ _)).
  vm_compute. reflexivity.
Defined.
