(* ===== verification/Prediction.v ===== *)
(** * Local echo prediction: [src/src/prediction.rs] *)

From S2P Require Import Prelude Limits TerminalWidth Emulator Terminal.

Local Open Scope Z_scope.

Inductive PredictionMode := Adaptive | Always | Never.

#[export] Instance PredictionMode_eq_dec : EqDecision PredictionMode.
Proof. solve_decision. Defined.

Record PendingPrediction := mkPendingPrediction {
  pp_client_state : Z;
  pp_created_at_ms : Z;
  pp_byte : Z;
}.

Inductive EpochConfidence := Tentative | Confirmed.

#[export] Instance EpochConfidence_eq_dec : EqDecision EpochConfidence.
Proof. solve_decision. Defined.

#[export] Instance PendingPrediction_eq_dec : EqDecision PendingPrediction.
Proof. solve_decision. Defined.

Section prediction.
Context `{VT : Vt100} `{VTE : Vte} `{UW : UnicodeWidth} `{SS : !ScreenSet}.

Record LocalPrediction := mkLocalPrediction {
  mode : PredictionMode;
  confidence : EpochConfidence;
  adaptive_slow_link : bool;
  adaptive_glitch : bool;
  pending : list PendingPrediction;
  base : option TerminalState;
  projected : option TerminalState;
}.

Definition LocalPrediction_new (mode : PredictionMode) : LocalPrediction :=
  mkLocalPrediction mode Tentative false false [] None None.

Abbreviation PredM := (M LocalPrediction TerminalError).

(** [predictable_byte] *)
Definition predictable_byte (l : bytes) : option Z :=
  match l with
  | [byte] => if is_predictable byte then Some byte else None
  | _ => None
  end.

(** [displaying_prediction] *)
Definition displaying_prediction (p : LocalPrediction) : bool :=
  bool_decide (confidence p = Confirmed)
  && negb (bool_decide (pending p = []))
  && match mode p with
     | Adaptive => adaptive_slow_link p || adaptive_glitch p
     | Always => true
     | Never => false
     end.

(** [clear]: the state it leaves; the boolean it returns is [displaying_prediction]
    of the state before. *)
Definition cleared (p : LocalPrediction) : LocalPrediction :=
  mkLocalPrediction (mode p) Tentative (adaptive_slow_link p) false [] None None.

Definition clear_prediction {E} : M LocalPrediction E bool :=
  p ← get;
  put (cleared p) ;;
  mret (displaying_prediction p).

(** [reset] *)
Definition reset_prediction {E} : M LocalPrediction E bool := clear_prediction.

Definition set_base (b : option TerminalState) (p : LocalPrediction) : LocalPrediction :=
  mkLocalPrediction (mode p) (confidence p) (adaptive_slow_link p) (adaptive_glitch p) (pending p) b (projected p).
Definition set_projected (b : option TerminalState) (p : LocalPrediction) : LocalPrediction :=
  mkLocalPrediction (mode p) (confidence p) (adaptive_slow_link p) (adaptive_glitch p) (pending p) (base p) b.
Definition set_pending (l : list PendingPrediction) (p : LocalPrediction) : LocalPrediction :=
  mkLocalPrediction (mode p) (confidence p) (adaptive_slow_link p) (adaptive_glitch p) l (base p) (projected p).
Definition set_confidence (c : EpochConfidence) (p : LocalPrediction) : LocalPrediction :=
  mkLocalPrediction (mode p) c (adaptive_slow_link p) (adaptive_glitch p) (pending p) (base p) (projected p).
Definition set_glitch (b : bool) (p : LocalPrediction) : LocalPrediction :=
  mkLocalPrediction (mode p) (confidence p) (adaptive_slow_link p) b (pending p) (base p) (projected p).
Definition set_slow_link (b : bool) (p : LocalPrediction) : LocalPrediction :=
  mkLocalPrediction (mode p) (confidence p) b (adaptive_glitch p) (pending p) (base p) (projected p).

(** [observe_input] *)
Definition observe_input (client_state : Z) (l : bytes) (authoritative : TerminalState) (now_ms : Z) : PredM bool :=
  p ← get;
  if bool_decide (mode p = Never) then mret false
  else
    match predictable_byte l with
    | None => clear_prediction
    | Some byte =>
        if (len (pending p) =? MAX_PENDING_PREDICTION_SCALARS)
           || (len (pending p) =? MAX_PENDING_PREDICTION_BYTES)
        then clear_prediction
        else
          (if bool_decide (pending p = []) then
             modify (set_base (Some authoritative)) ;;
             next ← lift (with_predicted_ascii byte authoritative);
             modify (set_projected (Some next))
           else
             previous ← lift (expect (projected p));
             next ← lift (with_predicted_ascii byte previous);
             modify (set_projected (Some next))) ;;
          modify (λ p, set_pending (pending p ++ [mkPendingPrediction client_state now_ms byte]) p) ;;
          gets displaying_prediction
    end.

(** The loop of [longest_matching_prefix], [index] counting from the start. *)
Fixpoint match_prefix (authoritative expected : TerminalState) (index : nat) (matched : option nat)
    (l : list PendingPrediction) : Result TerminalError (option nat) :=
  match l with
  | [] => Ok matched
  | prediction :: rest =>
      expected ← with_predicted_ascii (pp_byte prediction) expected;
      same ← display_equivalent expected authoritative;
      let matched := if same : bool then Some (S index) else matched in
      match_prefix authoritative expected (S index) matched rest
  end.

(** [longest_matching_prefix] *)
Definition longest_matching_prefix (authoritative : TerminalState) (p : LocalPrediction) :
    Result TerminalError (option nat) :=
  expected ← expect (base p);
  same ← display_equivalent expected authoritative;
  let matched := if same : bool then Some 0%nat else None in
  match_prefix authoritative expected 0 matched (pending p).

(** [take_while(|p| p.client_state <= number).count()] *)
Fixpoint acknowledged_count (n : Z) (l : list PendingPrediction) : nat :=
  match l with
  | [] => 0
  | prediction :: rest => if pp_client_state prediction <=? n then S (acknowledged_count n rest) else 0
  end.

(** Project bytes onto a state, one [with_predicted_ascii] at a time. *)
Fixpoint project (l : list Z) (t : TerminalState) : Result TerminalError TerminalState :=
  match l with
  | [] => Ok t
  | byte :: rest => next ← with_predicted_ascii byte t; project rest next
  end.

(** [observe_authoritative] *)
Definition observe_authoritative (authoritative : TerminalState) : PredM unit :=
  p ← get;
  if bool_decide (mode p = Never) || bool_decide (pending p = []) then mret tt
  else
    prefix ← lift (longest_matching_prefix authoritative p);
    match prefix with
    | None => clear_prediction ;; mret tt
    | Some matched_prefix =>
        let acknowledged_prefix :=
          match echo_acknowledgement authoritative with
          | None => 0%nat
          | Some n => acknowledged_count n (pending p)
          end in
        if (matched_prefix <? acknowledged_prefix)%nat then clear_prediction ;; mret tt
        else if (acknowledged_prefix =? 0)%nat then mret tt
        else
          modify (set_confidence Confirmed) ;;
          (if (length (pending p) <? matched_prefix)%nat then lift Panic else mret tt) ;;
          modify (λ p, set_pending (drop matched_prefix (pending p)) p) ;;
          p ← get;
          if bool_decide (pending p = []) then
            modify (set_base None) ;; modify (set_projected None) ;; modify (set_glitch false)
          else
            next ← lift (project (pp_byte <$> pending p) authoritative);
            modify (set_base (Some authoritative)) ;;
            modify (set_projected (Some next))
    end.

(** [display] *)
Definition display (authoritative : TerminalState) (p : LocalPrediction) : TerminalState :=
  if displaying_prediction p then default authoritative (projected p) else authoritative.

(** [expiration_deadline_ms] *)
Definition expiration_deadline_ms (p : LocalPrediction) : option Z :=
  if bool_decide (mode p = Never) then None
  else (λ x, saturating_add U64_MAX (pp_created_at_ms x) MAX_PREDICTION_AGE_MS) <$> head (pending p).

(** [next_deadline_ms] *)
Definition prediction_next_deadline_ms (p : LocalPrediction) : option Z :=
  let glitch :=
    if bool_decide (mode p = Adaptive) && bool_decide (confidence p = Confirmed)
       && negb (adaptive_slow_link p) && negb (adaptive_glitch p)
    then (λ x, saturating_add U64_MAX (pp_created_at_ms x) ADAPTIVE_PREDICTION_GLITCH_MS) <$> head (pending p)
    else None in
  match expiration_deadline_ms p, glitch with
  | Some expiry, Some glitch => Some (Z.min expiry glitch)
  | Some deadline, None | None, Some deadline => Some deadline
  | None, None => None
  end.

(** [LocalPrediction::expire] *)
Definition prediction_expire {E} (now_ms : Z) : M LocalPrediction E bool :=
  p ← get;
  if is_some_and (expiration_deadline_ms p) (λ deadline, deadline <=? now_ms)
  then clear_prediction else mret false.

(** [update_policy] *)
Definition update_policy {E} (now_ms : Z) (frame_interval : option Z) : M LocalPrediction E bool :=
  p ← get;
  let was_displayed := displaying_prediction p in
  if negb (bool_decide (mode p = Adaptive)) then mret false
  else
    match frame_interval with
    | Some frame =>
        if ADAPTIVE_PREDICTION_ENABLE_FRAME_MS <? frame then modify (set_slow_link true)
        else if (frame <=? ADAPTIVE_PREDICTION_DISABLE_FRAME_MS) && negb was_displayed
             then modify (set_slow_link false) else mret tt
    | None => mret tt
    end ;;
    (if bool_decide (pending p = []) then modify (set_glitch false)
     else if bool_decide (confidence p = Confirmed)
             && is_some_and (head (pending p)) (λ x,
                  saturating_add U64_MAX (pp_created_at_ms x) ADAPTIVE_PREDICTION_GLITCH_MS <=? now_ms)
          then modify (set_glitch true) else mret tt) ;;
    p' ← get;
    mret (negb (eqb was_displayed (displaying_prediction p'))).

(** ** Projection *)
Abbreviation pending_bytes p := (pp_byte <$> pending p).

Lemma project_app a b t :
  project (a ++ b) t = (t' ← project a t; project b t').
Proof.
  revert t. induction a as [|x a IH]; intros t; [done|]. simpl. cbv [mbind Result_bind].
  destruct (with_predicted_ascii x t); [|done|done]. apply IH.
Qed.

(** A projection of states within the set. *)
Lemma project_within l t :
  Forall (λ b, is_predictable b = true) l → within t → outcome_ok (project l t).
Proof.
  intros Hl. revert t. induction Hl as [|x l Hx _ IH]; intros t Ht; simpl; [done|].
  cbv [mbind Result_bind]. pose proof (with_predicted_ascii_within x t Hx Ht) as Hw.
  destruct (with_predicted_ascii x t); [by apply IH|done|done].
Qed.

(** [matches auth b l i]: after the first [i] bytes the display agrees. *)
Definition matches (authoritative b : TerminalState) (l : list Z) (i : nat) : Prop :=
  ∃ t, project (take i l) b = Ok t ∧ display_equivalent t authoritative = Ok true.

Lemma match_prefix_spec authoritative b done todo expected matched r :
  project (pp_byte <$> done) b = Ok expected →
  match_prefix authoritative expected (length done) matched todo = Ok r →
  match matched with
  | Some i => (i ≤ length done)%nat ∧ matches authoritative b (pp_byte <$> (done ++ todo)) i ∧
              ∀ j, (i < j ≤ length done)%nat → ¬ matches authoritative b (pp_byte <$> (done ++ todo)) j
  | None => ∀ j, (j ≤ length done)%nat → ¬ matches authoritative b (pp_byte <$> (done ++ todo)) j
  end →
  match r with
  | Some i => (i ≤ length (done ++ todo))%nat ∧ matches authoritative b (pp_byte <$> (done ++ todo)) i ∧
              ∀ j, (i < j ≤ length (done ++ todo))%nat → ¬ matches authoritative b (pp_byte <$> (done ++ todo)) j
  | None => ∀ j, (j ≤ length (done ++ todo))%nat → ¬ matches authoritative b (pp_byte <$> (done ++ todo)) j
  end.
Proof.
  revert done expected matched. induction todo as [|x todo IH]; intros done expected matched Hproj Hm Hinv.
  { simpl in Hm. simplify_eq. by rewrite app_nil_r in *. }
  simpl in Hm. destruct (with_predicted_ascii (pp_byte x) expected) as [next| |] eqn:Hw; try done.
  cbn in Hm. destruct (display_equivalent next authoritative) as [same| |] eqn:Hsame; try done. cbn in Hm.
  assert (project (pp_byte <$> (done ++ [x])) b = Ok next) as Hproj'.
  { rewrite fmap_app, project_app, Hproj. cbn. by rewrite Hw. }
  assert (done ++ x :: todo = (done ++ [x]) ++ todo) as Happ by (by rewrite <- app_assoc).
  assert (matches authoritative b (pp_byte <$> (done ++ x :: todo)) (S (length done)) ↔
          same = true) as Hnext.
  { unfold matches. rewrite Happ, fmap_app. rewrite take_app_le by (rewrite length_fmap, length_app; simpl; lia).
    rewrite take_ge by (rewrite length_fmap, length_app; simpl; lia). rewrite Hproj'.
    split; [intros (t & [= <-] & Ht); congruence|intros ->; eauto]. }
  replace (S (length done)) with (length (done ++ [x])) in * by (rewrite length_app; simpl; lia).
  rewrite Happ in *. eapply IH; [exact Hproj'|exact Hm|].
  rewrite length_app in *. simpl in *.
  destruct same.
  - split_and!; [lia|by apply Hnext|lia].
  - destruct matched as [i|].
    + destruct Hinv as (Hi & Hmi & Hmax). split_and!; [lia|done|]. intros j Hj.
      destruct (decide (j = length done + 1)%nat) as [->|]; [|apply Hmax; lia].
      intros H%Hnext. done.
    + intros j Hj. destruct (decide (j = length done + 1)%nat) as [->|]; [|apply Hinv; lia].
      intros H%Hnext. done.
Qed.

(** [longest_matching_prefix] finds the longest prefix of the pending bytes after
    which the projection displays like the authoritative state. *)
Lemma longest_matching_prefix_spec authoritative b p r :
  base p = Some b → longest_matching_prefix authoritative p = Ok r →
  match r with
  | Some i => (i ≤ length (pending p))%nat ∧ matches authoritative b (pending_bytes p) i ∧
              ∀ j, (i < j ≤ length (pending p))%nat → ¬ matches authoritative b (pending_bytes p) j
  | None => ∀ j, (j ≤ length (pending p))%nat → ¬ matches authoritative b (pending_bytes p) j
  end.
Proof.
  intros Hb. unfold longest_matching_prefix. rewrite Hb. cbn. destruct (display_equivalent b authoritative) as [same| |] eqn:Hd; try done. cbn. intros H.
  apply (match_prefix_spec authoritative b [] (pending p) b _ r eq_refl) in H; [done|].
  simpl. destruct same.
  - split_and!; [lia|exists b; done|lia].
  - intros j Hj (t & Ht & Hd'). replace j with 0%nat in Ht by lia. simpl in Ht. simplify_eq. congruence.
Qed.

Lemma match_prefix_panics authoritative expected i matched l :
  Forall (λ x, is_predictable (pp_byte x) = true) l → within authoritative → within expected →
  match_prefix authoritative expected i matched l = Panic → emulator_panic.
Proof.
  intros Hl Ha. revert expected i matched.
  induction Hl as [|x l Hx _ IH]; intros expected i matched He; simpl; [done|].
  pose proof (with_predicted_ascii_within (pp_byte x) expected Hx He) as Hw.
  destruct (with_predicted_ascii (pp_byte x) expected) as [next| |]; cbn; [|done|done].
  destruct (display_equivalent next authoritative) as [same| |] eqn:Hd; cbn; [by apply IH|done|].
  intros _. by apply (display_equivalent_panic next authoritative).
Qed.

Lemma longest_matching_prefix_panics authoritative b p :
  Forall (λ x, is_predictable (pp_byte x) = true) (pending p) → within authoritative →
  base p = Some b → within b → longest_matching_prefix authoritative p = Panic → emulator_panic.
Proof.
  intros Hl Ha Hb Hr. unfold longest_matching_prefix. rewrite Hb. cbn.
  destruct (display_equivalent b authoritative) as [same| |] eqn:Hd; cbn; [by apply match_prefix_panics|done|].
  intros _. by apply (display_equivalent_panic b authoritative).
Qed.

(** The component's only errors are those of the emulator on a predicted byte. *)
Definition prediction_error (e : TerminalError) : Prop :=
  ∃ byte t, is_predictable byte = true ∧ within t ∧ with_predicted_ascii byte t = Err e.

Lemma project_error l t e :
  Forall (λ b, is_predictable b = true) l → within t → project l t = Err e → prediction_error e.
Proof.
  intros Hl. revert t. induction Hl as [|x l Hx _ IH]; intros t Ht; simpl; [done|].
  cbv [mbind Result_bind]. pose proof (with_predicted_ascii_within x t Hx Ht) as Hw.
  destruct (with_predicted_ascii x t) eqn:He; [by apply IH| |done]. intros [= <-]. by exists x, t.
Qed.

Lemma match_prefix_error authoritative expected i matched l e :
  Forall (λ x, is_predictable (pp_byte x) = true) l → within expected →
  match_prefix authoritative expected i matched l = Err e → prediction_error e.
Proof.
  intros Hl. revert expected i matched. induction Hl as [|x l Hx _ IH]; intros expected i matched He; simpl; [done|].
  pose proof (with_predicted_ascii_within (pp_byte x) expected Hx He) as Hw.
  destruct (with_predicted_ascii (pp_byte x) expected) as [next| |] eqn:Hp; cbn; [| |done].
  - destruct (display_equivalent next authoritative) as [same|e'|] eqn:Hd; cbn; [by apply IH| |done].
    unfold display_equivalent in Hd. by destruct (state_formatted (screen next)), (state_formatted (screen authoritative)).
  - intros [= <-]. by exists (pp_byte x), expected.
Qed.

Lemma longest_matching_prefix_error authoritative b p e :
  Forall (λ x, is_predictable (pp_byte x) = true) (pending p) → base p = Some b → within b →
  longest_matching_prefix authoritative p = Err e → prediction_error e.
Proof.
  intros Hl Hb Hr. unfold longest_matching_prefix. rewrite Hb. cbn.
  destruct (display_equivalent b authoritative) as [same|e'|] eqn:Hd; cbn; [by apply match_prefix_error| |done].
  unfold display_equivalent in Hd. by destruct (state_formatted (screen b)), (state_formatted (screen authoritative)).
Qed.

(** ** Invariants *)

(** What makes the two [expect]s and the [drain] safe; kept on every outcome. *)
Record pred_shape (p : LocalPrediction) : Prop := {
  ps_len : len (pending p) ≤ MAX_PENDING_PREDICTION_SCALARS;
  ps_bytes : Forall (λ x, is_predictable (pp_byte x) = true) (pending p);
  ps_owned : pending p ≠ [] → is_Some (base p) ∧ is_Some (projected p);
  ps_never : mode p = Never → pending p = [];
  ps_base : opt_within (base p);
  ps_projected : opt_within (projected p);
}.

(** What the projection means; kept by every operation that succeeds. The times
    are those of the pending predictions, oldest first, up to [now]. *)
Record pred_wf (now : Z) (p : LocalPrediction) : Prop := {
  pw_shape : pred_shape p;
  pw_projection : pending p ≠ [] →
    ∃ b t, base p = Some b ∧ projected p = Some t ∧ project (pending_bytes p) b = Ok t;
  pw_times : StronglySorted Z.le (pp_created_at_ms <$> pending p);
  pw_now : Forall (λ x, 0 ≤ pp_created_at_ms x ≤ now) (pending p);
}.

Lemma cleared_shape p : pred_shape (cleared p).
Proof. split; simpl; done || llia. Qed.

Lemma cleared_wf now p : pred_wf now (cleared p).
Proof. split; simpl; [apply cleared_shape|done|constructor|done]. Qed.

Lemma new_wf now m : pred_wf now (LocalPrediction_new m).
Proof. split; simpl; [split; simpl; done || llia|done|constructor|done]. Qed.

Lemma pred_wf_later now now' p : now ≤ now' → pred_wf now p → pred_wf now' p.
Proof.
  intros Hle []. split; [done|done|done|]. eapply Forall_impl; [done|]. simpl. lia.
Qed.

Lemma clear_prediction_run {E} p : clear_prediction (E:=E) p = (cleared p, Ok (displaying_prediction p)).
Proof. done. Qed.

Lemma cleared_spec {A} now p (a : A) :
  pred_shape (cleared p) ∧ (Ok (E:=TerminalError) a = Panic → emulator_panic) ∧
  (∀ d, Ok (E:=TerminalError) a = Ok d → pred_wf now (cleared p)).
Proof. split; [apply cleared_shape|]. split; [done|]. intros. apply cleared_wf. Qed.

(** Equal fields give equal invariants. *)
Lemma pred_shape_fields p p' :
  mode p' = mode p → pending p' = pending p → base p' = base p → projected p' = projected p →
  pred_shape p → pred_shape p'.
Proof. intros Hm Hp Hb Hj []. split; rewrite ?Hp, ?Hm, ?Hb, ?Hj; done. Qed.

Lemma pred_wf_fields now p p' :
  mode p' = mode p → pending p' = pending p → base p' = base p → projected p' = projected p →
  pred_wf now p → pred_wf now p'.
Proof.
  intros Hm Hp Hb Hj []. split; rewrite ?Hp, ?Hb, ?Hj; try done. by eapply pred_shape_fields.
Qed.

Lemma predictable_byte_Some l b : predictable_byte l = Some b → is_predictable b = true.
Proof.
  unfold predictable_byte. destruct l as [|x [|y l]]; try done.
  destruct (is_predictable x) eqn:Hx; [|done]. by intros [= <-].
Qed.

(** Appending one prediction whose projection is known. *)
Lemma pred_wf_push now p b prev t client_state byte :
  pred_shape p → mode p ≠ Never →
  StronglySorted Z.le (pp_created_at_ms <$> pending p) →
  Forall (λ x, 0 ≤ pp_created_at_ms x ≤ now) (pending p) → 0 ≤ now →
  len (pending p) < MAX_PENDING_PREDICTION_SCALARS → is_predictable byte = true →
  base p = Some b → project (pending_bytes p) b = Ok prev → with_predicted_ascii byte prev = Ok t →
  projected p = Some t →
  pred_wf now (set_pending (pending p ++ [mkPendingPrediction client_state now byte]) p).
Proof.
  intros [] Hm Ht Hn H0 Hlen Hby Hb Hpr Hw Hj. split; simpl.
  - split; simpl; [rewrite len_app; change (len [_]) with 1; lia| |by rewrite Hb, Hj; eauto|done|done|done].
    apply Forall_app. by repeat constructor.
  - intros _. exists b, t. split_and!; [done|done|]. rewrite fmap_app, project_app, Hpr. simpl.
    cbv [mbind Result_bind]. by rewrite Hw.
  - rewrite fmap_app. simpl. clear -Ht Hn. induction (pending p) as [|x l IH]; csimpl; [by repeat constructor|].
    inversion Ht; subst. apply Forall_cons in Hn as [Hx Hl]. constructor; [by apply IH|].
    apply Forall_app. split; [done|]. repeat constructor. simpl. lia.
  - apply Forall_app. split; [done|]. repeat constructor; simpl; lia.
Qed.

Lemma nonempty_len {A} (l : list A) : l ≠ [] → 0 < len l.
Proof. destruct l; [done|]. unfold len. simpl. lia. Qed.

(** The two branches of [observe_input] that add a prediction. *)
Definition push_prediction (client_state now byte : Z) : PredM bool :=
  modify (λ p, set_pending (pending p ++ [mkPendingPrediction client_state now byte]) p) ;;
  gets displaying_prediction.

Lemma observe_first_spec client_state byte authoritative now p p' r :
  pred_wf now p → within authoritative → 0 ≤ now → mode p ≠ Never → is_predictable byte = true → pending p = [] →
  ((modify (set_base (Some authoritative)) ;;
    next ← lift (with_predicted_ascii byte authoritative);
    modify (set_projected (Some next))) ;; push_prediction client_state now byte) p = (p', r) →
  pred_shape p' ∧ (r = Panic → emulator_panic) ∧ (∀ d, r = Ok d → pred_wf now p').
Proof.
  intros [Hsh _ Ht Hn] Ha H0 Hm Hb Hp H. unfold push_prediction in H. cbv [mbind M_bind lift modify gets] in H.
  assert (∀ o o', opt_within o → opt_within o' → pred_shape (set_projected o (set_base o' p))) as Hs
    by (intros; destruct Hsh; split; simpl; rewrite ?Hp; done).
  pose proof (with_predicted_ascii_within byte authoritative Hb Ha) as Hra.
  destruct (with_predicted_ascii byte authoritative) as [t| |] eqn:Hw; injection H as <- <-.
  - assert (pred_wf now (set_pending (pending p ++ [mkPendingPrediction client_state now byte])
      (set_projected (Some t) (set_base (Some authoritative) p)))) as Hw';
      [|split; [apply (pw_shape now), Hw'|]; split; [done|]; intros; exact Hw'].
    apply (pred_wf_push now (set_projected (Some t) (set_base (Some authoritative) p))
      authoritative authoritative t); simpl; try done; rewrite ?Hp; [by apply Hs|done|done].
  - split; [by apply (Hs (projected p)); [apply Hsh|]|done].
  - split; [by apply (Hs (projected p)); [apply Hsh|]|]. split; [|done]. intros _. exact Hra.
Qed.

Lemma observe_next_spec client_state byte now p p' r :
  pred_wf now p → 0 ≤ now → mode p ≠ Never → is_predictable byte = true → pending p ≠ [] →
  len (pending p) < MAX_PENDING_PREDICTION_SCALARS →
  ((previous ← lift (expect (projected p));
    next ← lift (with_predicted_ascii byte previous);
    modify (set_projected (Some next))) ;; push_prediction client_state now byte) p = (p', r) →
  pred_shape p' ∧ (r = Panic → emulator_panic) ∧ (∀ d, r = Ok d → pred_wf now p').
Proof.
  intros [Hsh Hpr Ht Hn] H0 Hm Hb Hp Hlen H. destruct (Hpr Hp) as (b & prev & Hbase & Hproj & Hprev).
  assert (within prev) as Hrp by (pose proof (ps_projected _ Hsh) as Hr; by rewrite Hproj in Hr).
  pose proof (with_predicted_ascii_within byte prev Hb Hrp) as Hrt.
  rewrite Hproj in H. unfold push_prediction in H. cbv [mbind M_bind lift modify gets expect] in H.
  destruct (with_predicted_ascii byte prev) as [t| |] eqn:Hw; injection H as <- <-.
  - assert (pred_wf now (set_pending (pending p ++ [mkPendingPrediction client_state now byte])
      (set_projected (Some t) p))) as Hw';
      [|split; [apply (pw_shape now), Hw'|]; split; [done|]; intros; exact Hw'].
    apply (pred_wf_push now (set_projected (Some t) p) b prev t); simpl; try done.
    destruct Hsh. by split.
  - done.
  - split; [done|]. split; [|done]. intros _. exact Hrt.
Qed.

Lemma observe_input_spec client_state l authoritative now p p' r :
  pred_wf now p → within authoritative → 0 ≤ now → observe_input client_state l authoritative now p = (p', r) →
  pred_shape p' ∧ (r = Panic → emulator_panic) ∧ (∀ d, r = Ok d → pred_wf now p').
Proof.
  intros Hwf Ha H0 H. pose proof (pw_shape _ _ Hwf) as Hsh. unfold observe_input in H.
  cbv [mbind M_bind get] in H. case_bool_decide as Hm; [injection H as <- <-; split; [done|]; split; [done|]; intros; exact Hwf|].
  destruct (predictable_byte l) as [byte|] eqn:Hb; cycle 1.
  { rewrite clear_prediction_run in H. injection H as <- <-. apply (cleared_spec now p). }
  apply predictable_byte_Some in Hb.
  destruct (_ || _) eqn:Hfull.
  { rewrite clear_prediction_run in H. injection H as <- <-. apply (cleared_spec now p). }
  assert (len (pending p) < MAX_PENDING_PREDICTION_SCALARS) as Hlen by (destruct Hsh; lia).
  case_bool_decide as Hp.
  - eapply observe_first_spec; [exact Hwf|done|done|done|exact Hb|exact Hp|exact H].
  - eapply observe_next_spec; [exact Hwf|done|done|exact Hb|exact Hp|done|exact H].
Qed.

(** The echo acknowledgement covers exactly the first [k] of the predictions [l]. *)
Definition echo_covers (echo : option Z) (l : list PendingPrediction) (k : nat) : Prop :=
  (k ≤ length l)%nat ∧
  (∀ i x, (i < k)%nat → l !! i = Some x → ∃ n, echo = Some n ∧ pp_client_state x ≤ n) ∧
  (∀ x n, l !! k = Some x → echo = Some n → n < pp_client_state x).

(** The first [m] predictions are confirmed; the others are projected onto the update. *)
Inductive confirms (authoritative : TerminalState) (m : nat) (p : LocalPrediction) : LocalPrediction → Prop :=
  | confirms_all :
      m = length (pending p) →
      confirms authoritative m p (mkLocalPrediction (mode p) Confirmed (adaptive_slow_link p) false [] None None)
  | confirms_some t :
      (m < length (pending p))%nat → project (pp_byte <$> drop m (pending p)) authoritative = Ok t →
      confirms authoritative m p (mkLocalPrediction (mode p) Confirmed (adaptive_slow_link p) (adaptive_glitch p)
        (drop m (pending p)) (Some authoritative) (Some t)).

(** The result of [observe_authoritative] when it succeeds. The cases exclude each other: with
    [k] predictions covered by the echo acknowledgement, the update contradicts the
    predictions if it displays none of their prefixes from the [k]-th on; else it says
    nothing if [k] is 0, and confirms the longest prefix it displays if not. *)
Inductive authoritative_outcome (authoritative : TerminalState) (p : LocalPrediction) : LocalPrediction → Prop :=
  | outcome_idle : mode p = Never ∨ pending p = [] → authoritative_outcome authoritative p p
  | outcome_contradicted b k :
      mode p ≠ Never → pending p ≠ [] → base p = Some b →
      echo_covers (echo_acknowledgement authoritative) (pending p) k →
      (∀ i, (k ≤ i ≤ length (pending p))%nat → ¬ matches authoritative b (pending_bytes p) i) →
      authoritative_outcome authoritative p (cleared p)
  | outcome_unacknowledged b m :
      mode p ≠ Never → pending p ≠ [] → base p = Some b →
      echo_covers (echo_acknowledgement authoritative) (pending p) 0 →
      (m ≤ length (pending p))%nat → matches authoritative b (pending_bytes p) m →
      authoritative_outcome authoritative p p
  | outcome_confirmed b k m :
      mode p ≠ Never → pending p ≠ [] → base p = Some b →
      echo_covers (echo_acknowledgement authoritative) (pending p) k →
      (0 < k ≤ m)%nat → (m ≤ length (pending p))%nat → matches authoritative b (pending_bytes p) m →
      (∀ i, (m < i ≤ length (pending p))%nat → ¬ matches authoritative b (pending_bytes p) i) →
      ∀ p', confirms authoritative m p p' → authoritative_outcome authoritative p p'.

Lemma acknowledged_count_covers n l : echo_covers (Some n) l (acknowledged_count n l).
Proof.
  unfold echo_covers. induction l as [|y l IH]; simpl; [done|].
  destruct (Z.leb_spec (pp_client_state y) n) as [Hy|Hy]; simpl; [|split_and!; [lia|intros; lia|naive_solver]].
  destruct IH as (Hl & Hc & Hn). split_and!; [lia| |done].
  intros [|i] x Hi Hx; simplify_eq/=; [eauto|]. apply (Hc i); [lia|done].
Qed.

Lemma echo_covers_none l : echo_covers None l 0.
Proof. split_and!; [lia|lia|done]. Qed.

Lemma confirm_shape p m b o o' g :
  pred_shape p → (drop m (pending p) ≠ [] → is_Some o ∧ is_Some o') → opt_within o → opt_within o' →
  pred_shape (mkLocalPrediction (mode p) Confirmed b g (drop m (pending p)) o o').
Proof.
  intros [] Ho Hr Hr'. split; simpl; try done.
  - rewrite len_drop. pose proof (len_nonneg (pending p)). lia.
  - by apply Forall_drop.
  - intros Hm. rewrite ps_never0 by done. by rewrite drop_nil.
Qed.

Lemma sorted_drop (l : list Z) m : StronglySorted Z.le l → StronglySorted Z.le (drop m l).
Proof.
  intros Hl. revert m. induction Hl as [|x l Hl IH Hx]; intros [|m]; simpl; try constructor; try done.
Qed.

(** The last branch of [observe_authoritative]. *)
Definition confirm_prefix (matched_prefix : nat) (authoritative : TerminalState) : PredM unit :=
  p ← get;
  modify (set_confidence Confirmed) ;;
  (if (length (pending p) <? matched_prefix)%nat then lift Panic else mret tt) ;;
  modify (λ p, set_pending (drop matched_prefix (pending p)) p) ;;
  p ← get;
  if bool_decide (pending p = []) then
    modify (set_base None) ;; modify (set_projected None) ;; modify (set_glitch false)
  else
    next ← lift (project (pending_bytes p) authoritative);
    modify (set_base (Some authoritative)) ;;
    modify (set_projected (Some next)).

Lemma confirm_spec authoritative now m p p' r :
  pred_wf now p → within authoritative → (m ≤ length (pending p))%nat →
  confirm_prefix m authoritative p = (p', r) →
  pred_shape p' ∧ (r = Panic → emulator_panic) ∧ (∀ e, r = Err e → prediction_error e) ∧
  (r = Ok tt → pred_wf now p' ∧ confirms authoritative m p p').
Proof.
  intros [Hsh Hpr Ht Hn] Ha Hm H. unfold confirm_prefix in H.
  cbv [mbind M_bind get lift modify mret M_ret] in H.
  rewrite (proj2 (Nat.ltb_ge (length (pending p)) m)) in H by done. cbn in H.
  assert (StronglySorted Z.le (pp_created_at_ms <$> drop m (pending p))) as Ht'
    by (rewrite fmap_drop; by apply sorted_drop).
  assert (Forall (λ x, 0 ≤ pp_created_at_ms x ≤ now) (drop m (pending p))) as Hn' by (by apply Forall_drop).
  assert (drop m (pending p) ≠ [] → pred_shape (mkLocalPrediction (mode p) Confirmed (adaptive_slow_link p)
    (adaptive_glitch p) (drop m (pending p)) (base p) (projected p))) as Hstale.
  { intros Hd. apply confirm_shape; [done| |apply Hsh|apply Hsh]. intros _. apply Hsh. intros Hp. rewrite Hp, drop_nil in Hd. done. }
  case_bool_decide as Hd.
  { injection H as <- <-.
    assert (∀ s g, pred_shape (mkLocalPrediction (mode p) Confirmed s g (drop m (pending p)) None None)) as Hs
      by (intros; apply confirm_shape; done).
    split; [apply Hs|]. split; [done|]. split; [done|]. intros _.
    split; [split; simpl; done || apply Hs|]. unfold set_glitch, set_projected, set_base, set_pending, set_confidence. simpl.
    rewrite Hd. apply confirms_all. apply (f_equal length) in Hd. rewrite length_drop in Hd. simpl in Hd. lia. }
  specialize (Hstale Hd).
  assert (m < length (pending p))%nat as Hlt.
  { destruct (decide (m = length (pending p))) as [->|]; [|lia]. by rewrite drop_all in Hd. }
  assert (Forall (λ b, is_predictable b = true) (pp_byte <$> drop m (pending p))) as Hby
    by (apply Forall_fmap, Forall_drop, Hsh).
  pose proof (project_within (pp_byte <$> drop m (pending p)) authoritative Hby Ha) as Hrt.
  destruct (project (pp_byte <$> drop m (pending p)) authoritative) as [t|e|] eqn:Hproj; injection H as <- <-.
  - assert (∀ s g, pred_shape (mkLocalPrediction (mode p) Confirmed s g (drop m (pending p))
      (Some authoritative) (Some t))) as Hs by (intros; apply confirm_shape; done || eauto).
    split; [apply Hs|]. split; [done|]. split; [done|]. intros _.
    split; [split; simpl; try done; [apply Hs|eauto]|]. unfold set_projected, set_base, set_pending, set_confidence. simpl. by apply confirms_some.
  - split; [exact Hstale|]. split; [done|]. split; [|done]. intros e' [= <-]. by eapply project_error.
  - split; [exact Hstale|]. split; [|done]. intros _. exact Hrt.
Qed.

Lemma observe_authoritative_spec authoritative now p p' r :
  pred_wf now p → within authoritative → observe_authoritative authoritative p = (p', r) →
  pred_shape p' ∧ (r = Panic → emulator_panic) ∧ (∀ e, r = Err e → prediction_error e) ∧
  (r = Ok tt → pred_wf now p' ∧ authoritative_outcome authoritative p p').
Proof.
  intros Hwf Ha H. pose proof (pw_shape _ _ Hwf) as Hsh. unfold observe_authoritative in H.
  cbv [mbind M_bind get lift] in H.
  destruct (bool_decide (mode p = Never) || bool_decide (pending p = [])) eqn:Hidle.
  { injection H as <- <-. split_and!; try done. intros _. split; [done|]. apply outcome_idle.
    apply orb_true_iff in Hidle as [?%bool_decide_eq_true|?%bool_decide_eq_true]; auto. }
  apply orb_false_iff in Hidle as [Hm%bool_decide_eq_false Hne%bool_decide_eq_false].
  destruct (pw_projection _ _ Hwf Hne) as (b & t & Hb & Hj & Hpr).
  assert (within b) as Hrb by (pose proof (ps_base _ Hsh) as Hr; by rewrite Hb in Hr).
  set (k := match echo_acknowledgement authoritative with None => 0%nat | Some n => acknowledged_count n (pending p) end) in H.
  assert (echo_covers (echo_acknowledgement authoritative) (pending p) k) as Hk
    by (subst k; destruct (echo_acknowledgement authoritative); [apply acknowledged_count_covers|apply echo_covers_none]).
  assert (∀ r', (∀ i, (k ≤ i ≤ length (pending p))%nat → ¬ matches authoritative b (pending_bytes p) i) →
    (cleared p, Ok (E:=TerminalError) tt) = (p', r') →
    pred_shape p' ∧ (r' = Panic → emulator_panic) ∧ (∀ e, r' = Err e → prediction_error e) ∧
    (r' = Ok tt → pred_wf now p' ∧ authoritative_outcome authoritative p p')) as Hclear.
  { intros r' Hno [= <- <-]. split_and!; [apply cleared_shape|done|done|]. intros _. split; [apply cleared_wf|].
    by eapply outcome_contradicted. }
  destruct (longest_matching_prefix authoritative p) as [[m|]|e|] eqn:Hl; cycle 1.
  { apply Hclear; [|exact H]. intros i [_ Hi]. by apply (longest_matching_prefix_spec _ _ _ _ Hb Hl). }
  { injection H as <- <-. split_and!; try done. intros e' [= <-].
    eapply longest_matching_prefix_error; [apply Hsh|exact Hb|exact Hrb|exact Hl]. }
  { injection H as <- <-. split_and!; try done. intros _.
    eapply longest_matching_prefix_panics; [apply Hsh|exact Ha|exact Hb|exact Hrb|exact Hl]. }
  destruct (longest_matching_prefix_spec _ _ _ _ Hb Hl) as (Hmle & Hmatch & Hmax).
  destruct (m <? k)%nat eqn:Hlt.
  { apply Nat.ltb_lt in Hlt. apply Hclear; [|exact H]. intros i Hi. apply Hmax. lia. }
  apply Nat.ltb_ge in Hlt. destruct (k =? 0)%nat eqn:Hz.
  { apply Nat.eqb_eq in Hz. rewrite Hz in Hk. injection H as <- <-. split_and!; try done. intros _. split; [done|].
    by eapply outcome_unacknowledged. }
  apply Nat.eqb_neq in Hz.
  destruct (confirm_spec authoritative now m p p' r Hwf Ha Hmle H) as (? & ? & ? & Hok).
  split_and!; try done. intros Hr. destruct (Hok Hr) as [? ?]. split; [done|].
  eapply outcome_confirmed; eauto. lia.
Qed.

(** ** Expiry and policy *)
Lemma prediction_expire_spec {E} now p :
  prediction_expire (E:=E) now p = (cleared p, Ok (displaying_prediction p)) ∧
    (∃ d, expiration_deadline_ms p = Some d ∧ d ≤ now) ∨
  prediction_expire (E:=E) now p = (p, Ok false) ∧ (∀ d, expiration_deadline_ms p = Some d → now < d).
Proof.
  unfold prediction_expire. cbv [mbind M_bind get]. destruct (expiration_deadline_ms p) as [d|]; simpl.
  - destruct (Z.leb_spec d now); [left|right]; split; eauto. intros ? [= <-]. lia.
  - right. split; done.
Qed.

Lemma prediction_expire_wf {E} now p :
  pred_wf now p → pred_wf now (prediction_expire (E:=E) now p).1.
Proof.
  intros Hwf. destruct (prediction_expire_spec (E:=E) now p) as [[-> _]|[-> _]]; [apply cleared_wf|done].
Qed.

Lemma update_policy_wf {E} now now' frame p :
  pred_wf now p → pred_wf now (update_policy (E:=E) now' frame p).1.
Proof.
  intros Hwf. unfold update_policy. cbv [mbind M_bind get modify mret M_ret].
  destruct frame; repeat (split_if; cbn [fst snd]); eapply pred_wf_fields; try exact Hwf; done.
Qed.

Lemma update_policy_total {E} now frame p : no_panic (update_policy (E:=E) now frame p).2.
Proof.
  unfold update_policy, no_panic. cbv [mbind M_bind get modify mret M_ret].
  destruct frame; repeat (split_if; cbn [fst snd]); done.
Qed.

(** ** The component as a transition system, with its clock *)
Inductive pred_step : Z * LocalPrediction → Z * LocalPrediction → Prop :=
  | step_input now now' p p' client_state l authoritative displayed :
      now ≤ now' → within authoritative →
      observe_input client_state l authoritative now' p = (p', Ok displayed) →
      pred_step (now, p) (now', p')
  | step_authoritative now p p' authoritative :
      within authoritative → observe_authoritative authoritative p = (p', Ok tt) → pred_step (now, p) (now, p')
  | step_expire now now' p :
      now ≤ now' → pred_step (now, p) (now', (prediction_expire (E:=TerminalError) now' p).1)
  | step_policy now now' p frame :
      now ≤ now' → pred_step (now, p) (now', (update_policy (E:=TerminalError) now' frame p).1)
  | step_reset now p :
      pred_step (now, p) (now, (reset_prediction (E:=TerminalError) p).1).

Lemma pred_step_wf c c' :
  pred_step c c' → 0 ≤ c.1 → pred_wf c.1 c.2 → 0 ≤ c'.1 ∧ pred_wf c'.1 c'.2.
Proof.
  intros Hs H0 Hwf. destruct Hs; simpl in *.
  - split; [lia|]. eapply observe_input_spec; [by eapply pred_wf_later|done|lia|done|done].
  - split; [done|]. eapply observe_authoritative_spec; done.
  - split; [lia|]. by eapply prediction_expire_wf, pred_wf_later.
  - split; [lia|]. by eapply update_policy_wf, pred_wf_later.
  - split; [done|]. apply cleared_wf.
Qed.

Lemma pred_reachable now p m :
  rtc pred_step (0, LocalPrediction_new m) (now, p) → 0 ≤ now ∧ pred_wf now p.
Proof.
  intros H. enough (∀ c c', rtc pred_step c c' → 0 ≤ c.1 → pred_wf c.1 c.2 → 0 ≤ c'.1 ∧ pred_wf c'.1 c'.2) as Hr.
  { apply (Hr _ _ H); [done|apply new_wf]. }
  induction 1 as [|c c1 c' Hs _ IH]; [done|]. intros H0 Hw.
  destruct (pred_step_wf _ _ Hs H0 Hw). by apply IH.
Qed.

(** ** Claims *)

(** C13. In every reachable state at most 32 printable bytes are pending, the
    projection is the base state with exactly the pending bytes applied in order,
    and none of the component's own [expect]s, nor its [drain], can fail: a panic
    of the next input or authoritative update is a panic of the emulator on a
    screen that a session can reach. *)
Theorem prediction_invariant now p m :
  rtc pred_step (0, LocalPrediction_new m) (now, p) →
  len (pending p) ≤ MAX_PENDING_PREDICTION_SCALARS ∧
  (pending p ≠ [] → ∃ b t, base p = Some b ∧ projected p = Some t ∧ project (pending_bytes p) b = Ok t) ∧
  (∀ client_state l authoritative now', now ≤ now' → within authoritative →
     (observe_input client_state l authoritative now' p).2 = Panic → emulator_panic) ∧
  (∀ authoritative, within authoritative → (observe_authoritative authoritative p).2 = Panic → emulator_panic).
Proof.
  intros [H0 Hwf]%pred_reachable. split; [apply Hwf|]. split; [apply Hwf|]. split.
  - intros cs l auth now' Hle Ha Hp. destruct (observe_input cs l auth now' p) as [p' r] eqn:Ho.
    eapply observe_input_spec; [by eapply pred_wf_later|exact Ha| |exact Ho|exact Hp]. lia.
  - intros auth Ha Hp. destruct (observe_authoritative auth p) as [p' r] eqn:Ho.
    eapply observe_authoritative_spec; [done|exact Ha|exact Ho|exact Hp].
Qed.

(** What is shown is the authenticated state, or, only in a confirmed epoch of
    a mode that predicts, that epoch's base with the pending bytes applied; in mode
    [Never] it is always the authenticated state. *)
Theorem prediction_display now p m authoritative :
  rtc pred_step (0, LocalPrediction_new m) (now, p) →
  display authoritative p = authoritative ∨
  mode p ≠ Never ∧ confidence p = Confirmed ∧
    ∃ b, base p = Some b ∧ project (pending_bytes p) b = Ok (display authoritative p).
Proof.
  intros [H0 Hwf]%pred_reachable. unfold display.
  destruct (displaying_prediction p) eqn:Hd; [|by left]. right. unfold displaying_prediction in Hd.
  apply andb_true_iff in Hd as [[Hc%bool_decide_eq_true Hp]%andb_true_iff Hm].
  assert (pending p ≠ []) as Hne by (by apply negb_true_iff, bool_decide_eq_false in Hp).
  destruct (pw_projection _ _ Hwf Hne) as (b & t & Hb & Hj & Hpr). rewrite Hj. simpl.
  split_and!; [by destruct (mode p)|done|eauto].
Qed.

(** C12. With [k] of the pending bytes covered by the server's echo acknowledgement, an
    authenticated update that displays no prefix of the pending bytes from the [k]-th on
    discards them all; one that does leaves them alone if [k] is 0, and else confirms
    exactly the longest prefix that it displays and projects the rest onto itself. The
    operation fails only with an error, and panics only with a panic, of the emulator. *)
Theorem prediction_confirmation now p m authoritative p' r :
  rtc pred_step (0, LocalPrediction_new m) (now, p) → within authoritative →
  observe_authoritative authoritative p = (p', r) →
  match r with
  | Ok _ => authoritative_outcome authoritative p p'
  | Err e => prediction_error e
  | Panic => emulator_panic
  end.
Proof.
  intros [H0 Hwf]%pred_reachable Ha H.
  destruct (observe_authoritative_spec _ _ _ _ _ Hwf Ha H) as (_ & Hp & He & Hok). destruct r as [[]|e|]; [by apply Hok|by apply He|by apply Hp].
Qed.

(** After expiry no pending prediction is 10 s old or older, and expiry only
    discards predictions when the oldest is. *)
Theorem prediction_expires now p m now' :
  rtc pred_step (0, LocalPrediction_new m) (now, p) →
  now ≤ now' → now' + MAX_PREDICTION_AGE_MS ≤ U64_MAX →
  let p' := (prediction_expire (E:=TerminalError) now' p).1 in
  Forall (λ x, now' < pp_created_at_ms x + MAX_PREDICTION_AGE_MS) (pending p') ∧
  (p' = p ∨ p' = cleared p ∧ ∃ x, head (pending p) = Some x ∧
     pp_created_at_ms x + MAX_PREDICTION_AGE_MS ≤ now').
Proof.
  intros [H0 Hwf]%pred_reachable Hle Hroom p'. subst p'. destruct Hwf as [[] _ Ht Hn].
  destruct (prediction_expire_spec (E:=TerminalError) now' p) as [[-> (d & Hd & Hdn)]|[-> Hd]]; simpl.
  - split; [done|]. right. split; [done|]. unfold expiration_deadline_ms in Hd. case_bool_decide; [done|].
    destruct (pending p) as [|x l]; simplify_eq/=. exists x. split; [done|].
    apply Forall_cons in Hn as [Hx _]. unfold saturating_add in Hdn. revert Hdn Hroom. llia.
  - split; [|by left]. unfold expiration_deadline_ms in Hd. case_bool_decide; [by rewrite ps_never0|].
    destruct (pending p) as [|x l]; [done|]. specialize (Hd _ eq_refl). unfold saturating_add in Hd.
    inversion Ht as [|?? _ Hl]; subst. constructor; [lia|].
    apply Forall_forall. intros y Hy. eapply Forall_forall in Hl; [|by apply list_elem_of_fmap_2]. lia.
Qed.
End prediction.

(** ** Witnesses *)
#[local] Existing Instance line_vt100.
#[local] Existing Instance print_vte.
#[local] Existing Instance narrow_width.
#[local] Existing Instance reachable_screens.

Definition shown (l : bytes) (echo : option Z) : TerminalState := mkTerminalState (line_screen 24 80 l) echo.

Definition typed_a : LocalPrediction :=
  mkLocalPrediction Always Tentative false false [mkPendingPrediction 5 100 65]
    (Some (shown [] None)) (Some (shown [65] None)).

Definition typed_ab : LocalPrediction :=
  mkLocalPrediction Always Tentative false false [mkPendingPrediction 5 100 65; mkPendingPrediction 6 120 66]
    (Some (shown [] None)) (Some (shown [65; 66] None)).

Lemma shown_reachable l echo : utf8_valid l = true → within (shown l echo).
Proof.
  intros Hl. eapply (reach_process l (line_screen 24 80 []) (line_screen 24 80 l) []); [|done|done].
  eapply (reach_new 24 80); [|done]. unfold size_ok. llia.
Qed.

Lemma typed_ab_trace : rtc pred_step (0, LocalPrediction_new Always) (120, typed_ab).
Proof.
  eapply rtc_l; [apply (step_input 0 100 _ typed_a 5 [65] (shown [] None) false); [lia|by apply shown_reachable|vm_compute; reflexivity]|].
  eapply rtc_l; [apply (step_input 100 120 _ typed_ab 6 [66] (shown [] None) false); [lia|by apply shown_reachable|vm_compute; reflexivity]|].
  apply rtc_refl.
Qed.

Lemma prediction_invariant_witness : len (pending typed_ab) ≤ MAX_PENDING_PREDICTION_SCALARS.
Proof. exact (proj1 (prediction_invariant 120 typed_ab Always typed_ab_trace)). Defined.

Lemma prediction_display_witness :
  display (shown [] None) typed_ab = shown [] None ∨
  mode typed_ab ≠ Never ∧ confidence typed_ab = Confirmed ∧
    ∃ b, base typed_ab = Some b ∧ project (pp_byte <$> pending typed_ab) b = Ok (display (shown [] None) typed_ab).
Proof. exact (prediction_display 120 typed_ab Always (shown [] None) typed_ab_trace). Defined.

Definition confirmed_b : LocalPrediction :=
  mkLocalPrediction Always Confirmed false false [mkPendingPrediction 6 120 66]
    (Some (shown [65] (Some 5))) (Some (shown [65; 66] (Some 5))).

Lemma prediction_confirmation_witness :
  authoritative_outcome (shown [65] (Some 5)) typed_ab confirmed_b.
Proof.
  apply (prediction_confirmation 120 typed_ab Always (shown [65] (Some 5)) confirmed_b (Ok tt) typed_ab_trace).
  - by apply shown_reachable.
  - vm_compute. reflexivity.
Defined.

Lemma prediction_expires_witness :
  Forall (λ x, 20000 < pp_created_at_ms x + MAX_PREDICTION_AGE_MS)
    (pending (prediction_expire (E:=TerminalError) 20000 typed_ab).1).
Proof.
  refine (proj1 (prediction_expires 120 typed_ab Always 20000 typed_ab_trace _ _)); [lia|limits; lia].
Defined.
