(* ===== verification/Errors.v ===== *)
(** * Session outcomes: the error types of [src/src/session.rs] and
    [src/src/session/driver.rs], and the conversion between them. *)

From S2P Require Import Prelude Limits.
From S2P Require Import Packet Fragment Instruction Synchronization Timing Reachability TerminalWidth Emulator Terminal.

Local Open Scope Z_scope.

(** [std::io::ErrorKind]: the kinds the source names, and any other one. *)
Inductive ErrorKind :=
  | NetworkDown
  | NetworkUnreachable
  | HostUnreachable
  | AddrNotAvailable
  | PermissionDenied
  | WriteZero
  | OtherKind (code : Z).

#[export] Instance ErrorKind_eq_dec : EqDecision ErrorKind.
Proof. solve_decision. Defined.

(** [is_recoverable_established_io_error] *)
Definition is_recoverable_established_io_error (kind : ErrorKind) : bool :=
  match kind with
  | NetworkDown | NetworkUnreachable | HostUnreachable | AddrNotAvailable | PermissionDenied => true
  | WriteZero | OtherKind _ => false
  end.

Inductive SessionState := Connecting | Active | Closed.

#[export] Instance SessionState_eq_dec : EqDecision SessionState.
Proof. solve_decision. Defined.

Inductive SessionExit := LocalClosed | RemoteClosed | Cancelled | OwnerDropped.

#[export] Instance SessionExit_eq_dec : EqDecision SessionExit.
Proof. solve_decision. Defined.

Inductive SessionError :=
  | Io (kind : ErrorKind)
  | InvalidTerminalSize
  | ConnectionTimeout
  | Protocol
  | ResourceLimit
  | StateExhausted
  | InternalState.

#[export] Instance SessionError_eq_dec : EqDecision SessionError.
Proof. solve_decision. Defined.

Inductive DriverError :=
  | DriverIo (kind : ErrorKind)
  | DriverPacket (e : Packet.PacketError)
  | DriverFragment (e : Fragment.FragmentError)
  | DriverReassembly (e : Fragment.ReassemblyError)
  | DriverInstruction (e : Instruction.InstructionError)
  | DriverSynchronization (e : Synchronization.SynchronizationError)
  | DriverTiming (e : Timing.TimingError)
  | DriverReachability (e : Reachability.ReachabilityError)
  | DriverTerminal (e : Terminal.TerminalError)
  | DriverPaint (e : Terminal.PaintError)
  | MissingClientState
  | MissingTerminalState
  | OperationIndexExhausted
  | FragmentIdentifierExhausted
  | ClockExhausted
  | DriverConnectionTimeout
  | IncompleteDatagramSend.

#[export] Instance PaintError_eq_dec : EqDecision Terminal.PaintError.
Proof. intros [] []. by left. Defined.
#[export] Instance DriverError_eq_dec : EqDecision DriverError.
Proof. solve_decision. Defined.

(** [impl From<DriverError> for SessionError] *)
Definition SessionError_from (error : DriverError) : SessionError :=
  match error with
  | DriverIo kind => Io kind
  | DriverConnectionTimeout => ConnectionTimeout
  | DriverTerminal Terminal.TerminalInvalidTerminalSize => InvalidTerminalSize
  | DriverInstruction
      (Instruction.DecodedTooLarge | Instruction.CompressedTooLarge | Instruction.InputTooLarge
       | Instruction.TooManyClientOperations | Instruction.StateDifferenceTooLarge)
  | DriverPaint _
  | DriverReassembly (Fragment.InstructionTooLarge | Fragment.TooManyIncompleteInstructions) =>
      ResourceLimit
  | IncompleteDatagramSend => Io WriteZero
  | MissingClientState | MissingTerminalState => InternalState
  | OperationIndexExhausted
  | FragmentIdentifierExhausted
  | ClockExhausted
  | DriverReachability
      (Reachability.ReachabilityTimeMovedBackwards | Reachability.ReachabilityTimerExhausted)
  | DriverPacket Packet.SequenceExhausted
  | DriverReassembly Fragment.ReassemblyTimerExhausted
  | DriverSynchronization (Synchronization.StateNumberExhausted | Synchronization.GenerationExhausted)
  | DriverTiming (Timing.TimerExhausted | Timing.TimingGenerationExhausted) => StateExhausted
  | DriverPacket _
  | DriverFragment _
  | DriverReassembly _
  | DriverInstruction _
  | DriverSynchronization _
  | DriverTiming _
  | DriverTerminal _ => Protocol
  end.

(** The two errors that mean a broken invariant. *)
Lemma internal_state_only e :
  SessionError_from e = InternalState → e = MissingClientState ∨ e = MissingTerminalState.
Proof. destruct e as [| | []|[]|[]|[]|[]|[]|[]| | | | | | | |]; simpl; try done; auto. destruct e; done. Qed.
