(* ===== verification/ClientHistory.v ===== *)
(** * The client's operation history: [src/src/session/client_history.rs]

    Operations since the last acknowledged state, with a checkpoint per client
    state. A difference between two checkpoints is the encoding of the
    operations in between. *)

From S2P Require Import Prelude Limits BTreeMap Instruction Errors.

Local Open Scope Z_scope.

Record ClientHistory := mkClientHistory {
  operation_offset : Z;
  next_operation : Z;
  operations : list ClientOperation;
  checkpoints : gmap Z Z;
}.

Definition ClientHistory_new : ClientHistory := mkClientHistory 0 0 [] {[ 0 := 0 ]}.

Section history.
Context `{PR : Prost}.

Abbreviation HistM := (M ClientHistory DriverError).

(** [append] *)
Definition append (operation : ClientOperation) : HistM unit :=
  h ← get;
  fail_if (len (operations h) =? MAX_CLIENT_OPERATIONS_AFTER_ACK)
    (DriverInstruction TooManyClientOperations) ;;
  next ← lift (ok_or OperationIndexExhausted (checked_add U64_MAX (next_operation h) 1));
  let pushed := operations h ++ [operation] in
  match encode_client_difference pushed with
  | Ok _ => put (mkClientHistory (operation_offset h) next pushed (checkpoints h))
  | Err error => throw (DriverInstruction error)
  | Panic => lift Panic
  end.

(** [checkpoint] *)
Definition checkpoint (state : Z) : HistM unit :=
  modify (λ h, mkClientHistory (operation_offset h) (next_operation h) (operations h)
                 (<[state := next_operation h]> (checkpoints h))).


(** [operations.get(start..end)] *)
Definition get_range {A} (start stop : Z) (l : list A) : option (list A) :=
  if (start <=? stop) && (stop <=? len l)
  then Some (take (Z.to_nat (stop - start)) (drop (Z.to_nat start) l)) else None.

(** [difference] *)
Definition difference (base target : Z) (h : ClientHistory) : Result DriverError bytes :=
  start ← ok_or MissingClientState (checkpoints h !! base);
  stop ← ok_or MissingClientState (checkpoints h !! target);
  start ← ok_or MissingClientState (index ← checked_sub start (operation_offset h); try_from USIZE_MAX index);
  stop ← ok_or MissingClientState (index ← checked_sub stop (operation_offset h); try_from USIZE_MAX index);
  range ← ok_or MissingClientState (get_range start stop (operations h));
  map_err DriverInstruction (encode_client_difference range).

(** [acknowledge]; [drain(..discard)] panics past the end. *)
Definition acknowledge (state : Z) : HistM unit :=
  h ← get;
  acknowledged ← lift (ok_or MissingClientState (checkpoints h !! state));
  discard ← lift (ok_or MissingClientState
    (count ← checked_sub acknowledged (operation_offset h); try_from USIZE_MAX count));
  if len (operations h) <? discard then lift Panic
  else put (mkClientHistory acknowledged (next_operation h) (drop (Z.to_nat discard) (operations h))
              (filter (λ '(n, _), state ≤ n) (checkpoints h))).

(** [remove_checkpoint] *)
Definition remove_checkpoint (state : Z) : HistM unit :=
  modify (λ h, mkClientHistory (operation_offset h) (next_operation h) (operations h)
                 (delete state (checkpoints h))).

(** ** The history refines a log that is never truncated *)
Context `{PL : !ProstLaws PR}.

(** [a..b] of the log, by operation index. *)
Definition log_slice (log : list ClientOperation) (a b : Z) : list ClientOperation :=
  take (Z.to_nat (b - a)) (drop (Z.to_nat a) log).

Record hist_rel (log : list ClientOperation) (marks : gmap Z Z) (h : ClientHistory) : Prop := {
  hr_offset : 0 ≤ operation_offset h ≤ len log;
  hr_operations : operations h = drop (Z.to_nat (operation_offset h)) log;
  hr_next : next_operation h = len log;
  hr_u64 : len log ≤ U64_MAX;
  hr_marks s c : checkpoints h !! s = Some c → marks !! s = Some c ∧ operation_offset h ≤ c;
  hr_marks_log s c : marks !! s = Some c → c ≤ len log;
  hr_ordered s s' c c' : marks !! s = Some c → marks !! s' = Some c' → s ≤ s' → c ≤ c';
  hr_valid : Forall operation_valid (operations h);
  hr_len : len (operations h) ≤ MAX_CLIENT_OPERATIONS_AFTER_ACK;
  hr_bytes : len (difference_bytes (operations h)) ≤ MAX_STATE_DIFFERENCE_BYTES;
}.

Lemma difference_bytes_nil : difference_bytes [] = [].
Proof.
  pose proof (difference_bytes_app [] []) as H. simpl in H.
  apply (f_equal length) in H. rewrite length_app in H. destruct (difference_bytes []); simpl in *; [done|lia].
Qed.

Lemma hist_new : hist_rel [] {[ 0 := 0 ]} ClientHistory_new.
Proof.
  split; simpl; try done; try (rewrite difference_bytes_nil); try (unfold len; simpl; llia).
  - intros s c Hs. split; [done|]. apply lookup_singleton_Some in Hs as [_ <-]. done.
  - intros s c Hs. apply lookup_singleton_Some in Hs as [_ <-]. done.
  - intros s s' c c' Hs Hs' _. apply lookup_singleton_Some in Hs as [_ <-], Hs' as [_ <-]. done.
Qed.

Lemma append_Ok op log marks h h' :
  hist_rel log marks h → append op h = (h', Ok tt) →
  hist_rel (log ++ [op]) marks h' ∧ checkpoints h' = checkpoints h ∧ operation_offset h' = operation_offset h.
Proof.
  intros [] H. unfold append in H. run.
  destruct (Z.eqb_spec (len (operations h)) MAX_CLIENT_OPERATIONS_AFTER_ACK); [done|]. cbn in H.
  destruct (checked_add U64_MAX (next_operation h) 1) as [next|] eqn:Hn; cbn in H; [|done]. checked.
  destruct (encode_client_difference (operations h ++ [op])) as [b| |] eqn:He; try done. injection H as <-.
  apply encode_client_difference_inv in He as (Hl & Hv & Hb & _).
  split; [|done]. split; simpl; try done; rewrite ?len_app; change (len [op]) with 1; try lia.
  - rewrite hr_operations0, drop_app_le; [done|]. unfold len in *. lia.
  - intros s c Hs. apply hr_marks_log0 in Hs. lia.
Qed.

Lemma append_err op h h' e : append op h = (h', Err e) → h' = h.
Proof. intros H. unfold append in H. run. cases. Qed.

Lemma checkpoint_Ok state log marks h h' :
  hist_rel log marks h → (∀ s, is_Some (marks !! s) → s < state) →
  checkpoint state h = (h', Ok tt) →
  hist_rel log (<[state := len log]> marks) h' ∧
  checkpoints h' = <[state := next_operation h]> (checkpoints h).
Proof.
  intros [] Hmax H. unfold checkpoint, modify in H. injection H as <-. split; [|done].
  split; simpl; try done.
  - intros s c Hs. rewrite hr_next0 in Hs. destruct (decide (s = state)) as [->|Hne].
    + rewrite lookup_insert_eq in *. simplify_eq. split; [done|lia].
    + rewrite lookup_insert_ne in * by done. by apply hr_marks0.
  - intros s c. rewrite lookup_insert_Some. intros [[_ <-]|[_ Hs]]; [lia|by apply hr_marks_log0 in Hs].
  - intros s s' c c'. rewrite !lookup_insert_Some. intros [[<- <-]|[Hn Hs]] [[<- <-]|[Hn' Hs']] Hle; try lia.
    + assert (s' < state) by eauto. lia.
    + by apply hr_marks_log0 in Hs.
    + by eapply hr_ordered0.
Qed.

Lemma remove_Ok state log marks h h' :
  hist_rel log marks h → remove_checkpoint state h = (h', Ok tt) →
  hist_rel log marks h' ∧ checkpoints h' = delete state (checkpoints h).
Proof.
  intros [] H. unfold remove_checkpoint, modify in H. injection H as <-. split; [|done].
  split; simpl; try done. intros s c [_ Hs]%lookup_delete_Some. by apply hr_marks0.
Qed.

Lemma checked_index c off :
  0 ≤ off ≤ c → c ≤ U64_MAX →
  (index ← checked_sub c off; try_from USIZE_MAX index) = Some (c - off).
Proof.
  intros H Hc. rewrite (proj2 (checked_sub_Some c off _) (conj eq_refl (proj2 H))). simpl.
  unfold try_from, USIZE_MAX. replace ((0 <=? c - off) && (c - off <=? U64_MAX)) with true; [done|lia].
Qed.

Lemma acknowledge_Ok state c log marks h :
  hist_rel log marks h → checkpoints h !! state = Some c →
  ∃ h', acknowledge state h = (h', Ok tt) ∧ hist_rel log marks h' ∧
    checkpoints h' = filter (λ '(n, _), state ≤ n) (checkpoints h) ∧
    marks !! state = Some c ∧ operation_offset h ≤ c ∧ operation_offset h' = c.
Proof.
  intros [] Hc. destruct (hr_marks0 _ _ Hc) as [Hm Hoff]. pose proof (hr_marks_log0 _ _ Hm) as Hlog.
  unfold acknowledge. unfold_m. rewrite Hc. cbn. rewrite checked_index by lia. cbn.
  assert (c - operation_offset h ≤ len (operations h)) as Hd
    by (rewrite hr_operations0, len_drop; lia).
  destruct (Z.ltb_spec (len (operations h)) (c - operation_offset h)); [lia|].
  eexists. split; [done|]. split; [|done].
  split; simpl; try done; try lia.
  - rewrite hr_operations0, drop_drop. f_equal. lia.
  - intros s c' [Hs Hle]%map_lookup_filter_Some. destruct (hr_marks0 _ _ Hs) as [Hm' _].
    split; [done|]. by eapply hr_ordered0.
  - by apply Forall_drop.
  - rewrite len_drop. pose proof (len_nonneg (operations h)). lia.
  - rewrite <- (take_drop (Z.to_nat (c - operation_offset h)) (operations h)), difference_bytes_app, len_app in hr_bytes0.
    pose proof (len_nonneg (difference_bytes (take (Z.to_nat (c - operation_offset h)) (operations h)))). lia.
Qed.

Lemma difference_Ok base target a b log marks h :
  hist_rel log marks h → base ≤ target →
  checkpoints h !! base = Some a → checkpoints h !! target = Some b →
  difference base target h = Ok (difference_bytes (log_slice log a b)).
Proof.
  intros [] Hle Ha Hb. destruct (hr_marks0 _ _ Ha) as [Hma Hoa], (hr_marks0 _ _ Hb) as [Hmb Hob].
  pose proof (hr_marks_log0 _ _ Hma). pose proof (hr_marks_log0 _ _ Hmb). pose proof (hr_ordered0 _ _ _ _ Hma Hmb Hle).
  unfold difference. rewrite Ha, Hb. cbn. rewrite !checked_index by lia. cbn. unfold get_range.
  assert (len (operations h) = len log - operation_offset h) as Hl by (rewrite hr_operations0, len_drop; lia).
  replace ((a - operation_offset h <=? b - operation_offset h) && (b - operation_offset h <=? len (operations h)))
    with true by lia.
  cbn. replace (b - operation_offset h - (a - operation_offset h)) with (b - a) by lia.
  set (slice := take (Z.to_nat (b - a)) (drop (Z.to_nat (a - operation_offset h)) (operations h))).
  assert (slice = log_slice log a b) as <-.
  { unfold slice, log_slice. rewrite hr_operations0, drop_drop. do 2 f_equal. lia. }
  assert (operations h = take (Z.to_nat (a - operation_offset h)) (operations h) ++ slice ++
    drop (Z.to_nat (b - a)) (drop (Z.to_nat (a - operation_offset h)) (operations h))) as Hsplit
    by (unfold slice; by rewrite !take_drop).
  rewrite encode_client_difference_Ok; [done|..].
  - unfold slice. rewrite len_take, len_drop. pose proof (len_nonneg (operations h)). lia.
  - by apply Forall_take, Forall_drop.
  - rewrite Hsplit, !difference_bytes_app, !len_app in hr_bytes0.
    pose proof (len_nonneg (difference_bytes (take (Z.to_nat (a - operation_offset h)) (operations h)))).
    pose proof (len_nonneg (difference_bytes (drop (Z.to_nat (b - a)) (drop (Z.to_nat (a - operation_offset h)) (operations h))))).
    lia.
Qed.

(** ** The component as a transition system

    The abstract side keeps the whole log, [marks] with the position of every checkpoint ever
    taken, and [acked], the furthest position of a state that was acknowledged. A new
    checkpoint is for a state above all earlier ones, as state numbers only grow. *)
Definition Histories : Type := list ClientOperation * gmap Z Z * Z * ClientHistory.

Inductive hist_step : Histories → Histories → Prop :=
  | step_append op log marks acked h h' :
      append op h = (h', Ok tt) →
      hist_step (log, marks, acked, h) (log ++ [op], marks, acked, h')
  | step_append_refused op log marks acked h h' e :
      append op h = (h', Err e) → hist_step (log, marks, acked, h) (log, marks, acked, h')
  | step_checkpoint state log marks acked h h' :
      (∀ s, is_Some (marks !! s) → s < state) → checkpoint state h = (h', Ok tt) →
      hist_step (log, marks, acked, h) (log, <[state := len log]> marks, acked, h')
  | step_acknowledge state position log marks acked h h' r :
      is_Some (checkpoints h !! state) → marks !! state = Some position → acknowledge state h = (h', r) →
      hist_step (log, marks, acked, h) (log, marks, Z.max acked position, h')
  | step_acknowledge_unknown state log marks acked h h' r :
      checkpoints h !! state = None → acknowledge state h = (h', r) →
      hist_step (log, marks, acked, h) (log, marks, acked, h')
  | step_remove state log marks acked h h' :
      remove_checkpoint state h = (h', Ok tt) → hist_step (log, marks, acked, h) (log, marks, acked, h').

Definition hist_init : Histories := ([], {[ 0 := 0 ]}, 0, ClientHistory_new).

Definition hist_inv (w : Histories) : Prop :=
  let '(log, marks, acked, h) := w in hist_rel log marks h ∧ operation_offset h = acked.

Lemma hist_step_inv w w' : hist_step w w' → hist_inv w → hist_inv w'.
Proof.
  intros Hs. destruct Hs as [op log marks acked h h' H|op log marks acked h h' e H|state log marks acked h h' Hm H
    |state position log marks acked h h' r [c Hc] Hm H|state log marks acked h h' r Hc H|state log marks acked h h' H]; intros [Hr <-].
  - destruct (append_Ok _ _ _ _ _ Hr H) as (? & _ & ?). done.
  - apply append_err in H. by subst.
  - split; [by eapply checkpoint_Ok|]. unfold checkpoint, modify in H. by injection H as <-.
  - destruct (acknowledge_Ok state c log marks h Hr Hc) as (h1 & Ha & Hr' & _ & Hm' & Hle & Hoff).
    rewrite Ha in H. injection H as <- <-. split; [done|]. rewrite Hm in Hm'. injection Hm' as ->. lia.
  - unfold acknowledge in H. cbv [mbind M_bind get lift] in H. rewrite Hc in H. by injection H as <- <-.
  - split; [by eapply remove_Ok|]. unfold remove_checkpoint, modify in H. by injection H as <-.
Qed.

Lemma hist_reachable w : rtc hist_step hist_init w → hist_inv w.
Proof.
  apply (rtc_ind_r hist_inv hist_init); [split; [apply hist_new|done]|]. intros w1 w2 _. apply hist_step_inv.
Qed.

(** C8. However operations were appended, acknowledged and dropped, the history holds exactly the
    operations of the full log past the furthest acknowledged position, at most 4096 of
    them; the difference between two client states that still have checkpoints is exactly the
    encoding of the operations of the full log between the positions where those states were
    taken; and acknowledging such a state succeeds and leaves exactly the operations after its
    position and the checkpoints from it on. *)
Theorem history_refines_log log marks acked h :
  rtc hist_step hist_init (log, marks, acked, h) →
  operations h = drop (Z.to_nat acked) log ∧
  len (operations h) ≤ MAX_CLIENT_OPERATIONS_AFTER_ACK ∧
  ∀ base target, base ≤ target → is_Some (checkpoints h !! base) → is_Some (checkpoints h !! target) →
  ∃ a b, marks !! base = Some a ∧ marks !! target = Some b ∧ acked ≤ a ≤ b ∧
    difference base target h = Ok (difference_bytes (log_slice log a b)) ∧
    ∃ h', acknowledge base h = (h', Ok tt) ∧ operations h' = drop (Z.to_nat a) log ∧
      ∀ s, checkpoints h' !! s = if bool_decide (base ≤ s) then checkpoints h !! s else None.
Proof.
  intros [Hr <-]%hist_reachable. split; [apply Hr|]. split; [apply Hr|]. intros base target Hle [a Ha] [b Hb]. exists a, b.
  destruct (acknowledge_Ok base a log marks h Hr Ha) as (h' & Hack & Hr' & Hcp & Hma & Hoa & Hoff).
  destruct (hr_marks _ _ _ Hr _ _ Hb) as [Hmb _].
  split_and!; [done|done|done|by eapply hr_ordered|by eapply difference_Ok|].
  exists h'. split; [done|]. split; [by rewrite <- Hoff; apply Hr'|]. intros s. apply option_eq. intros c.
  rewrite Hcp, map_lookup_filter_Some. case_bool_decide; naive_solver.
Qed.
End history.

(** ** Witness *)
#[local] Existing Instance plain_prost.
#[local] Existing Instance plain_prost_laws.

(** A resize is checkpointed as state 1, which is acknowledged; an input follows as state 2. *)
Definition sample_log : list ClientOperation := [Resize 80 24; Input [104]].
Definition sample_history : ClientHistory := mkClientHistory 1 2 [Input [104]] (<[2 := 2]> {[ 1 := 1 ]}).

Lemma sample_history_trace : rtc hist_step hist_init (sample_log, <[2 := 2]> (<[1 := 1]> {[ 0 := 0 ]}), 1, sample_history).
Proof.
  eapply rtc_l; [eapply (step_append (Resize 80 24)); vm_compute; reflexivity|].
  eapply rtc_l; [eapply (step_checkpoint 1)|].
  { intros s [c [<- _]%lookup_singleton_Some]. lia. }
  { reflexivity. }
  eapply rtc_l; [eapply (step_acknowledge 1 1); [by eexists|done|vm_compute; reflexivity]|].
  eapply rtc_l; [eapply (step_append (Input [104])); vm_compute; reflexivity|].
  eapply rtc_l; [eapply (step_checkpoint 2)|].
  { intros s [c [[<- _]|[_ [<- _]%lookup_singleton_Some]]%lookup_insert_Some]; lia. }
  { reflexivity. }
  apply rtc_refl.
Qed.

Lemma history_refines_log_witness :
  operations sample_history = drop (Z.to_nat 1) sample_log ∧
  ∃ h', acknowledge 1 sample_history = (h', Ok tt).
Proof.
  destruct (history_refines_log _ _ _ sample_history sample_history_trace) as (Hops & _ & Hall).
  split; [exact Hops|]. destruct (Hall 1 2) as (a & b & _ & _ & _ & _ & h' & Hack & _).
  - lia.
  - exists 1. reflexivity.
  - exists 2. reflexivity.
  - by exists h'.
Defined.
