(* ===== verification/Bootstrap.v ===== *)
(** * Bootstrap parsing: [src/src/bootstrap.rs], [src/src/error.rs]

    The parser of the untrusted output of [mosh-server]. Base64 decoding comes
    from the [base64] crate and is an interface. *)

From S2P Require Import Prelude Limits Packet.

Local Open Scope Z_scope.

Inductive BootstrapError :=
  | OutputTooLarge
  | TooManyLines
  | MissingConnectRecord
  | AmbiguousConnectRecord
  | MalformedConnectRecord
  | InvalidPort
  | InvalidKey.

#[export] Instance BootstrapError_eq_dec : EqDecision BootstrapError.
Proof. solve_decision. Defined.

(** [STANDARD_NO_PAD.decode_slice]: the bytes written to the front of a buffer of
    the given capacity, or an error. *)
Class Base64 := { decode_slice : bytes → Z → option bytes }.

Definition MOSH : bytes := [77; 79; 83; 72].
Definition CONNECT : bytes := [67; 79; 78; 78; 69; 67; 84].

Record Bootstrap := mkBootstrap {
  bootstrap_server_addr : SocketAddrV4;
  bootstrap_session_key : SessionKey;
}.

Definition NEWLINE : Z := 10.
Definition CARRIAGE_RETURN : Z := 13.
Definition SPACE : Z := 32.

(** [u8::is_ascii_whitespace] *)
Definition is_ascii_whitespace (b : Z) : bool :=
  (b =? 9) || (b =? 10) || (b =? 12) || (b =? 13) || (b =? 32).

(** [u8::is_ascii_digit] *)
Definition is_ascii_digit (b : Z) : bool := (48 <=? b) && (b <=? 57).

(** [slice.split(pred)]: the separators are dropped, empty pieces are kept. *)
Fixpoint split_on (p : Z → bool) (l : bytes) : list bytes :=
  match l with
  | [] => [[]]
  | b :: rest =>
      if p b then [] :: split_on p rest
      else match split_on p rest with
           | [] => [[b]]
           | piece :: pieces => (b :: piece) :: pieces
           end
  end.

(** [slice.split_inclusive(pred)]: each piece ends with its separator. *)
Fixpoint split_inclusive (p : Z → bool) (l : bytes) : list bytes :=
  match l with
  | [] => []
  | b :: rest =>
      if p b then [b] :: split_inclusive p rest
      else match split_inclusive p rest with
           | [] => [[b]]
           | piece :: pieces => (b :: piece) :: pieces
           end
  end.

(** [slice.strip_suffix] of one byte. *)
Definition strip_suffix (b : Z) (l : bytes) : option bytes :=
  if bool_decide (last l = Some b) then Some (take (length l - 1) l) else None.

(** [physical_line_count] *)
Definition physical_line_count (output : bytes) : Z :=
  if bool_decide (output = []) then 0
  else
    len (filter (λ b, b = NEWLINE) output)
    + (if bool_decide (last output = Some NEWLINE) then 0 else 1).

(** [looks_like_connect_record] *)
Definition looks_like_connect_record (line : bytes) : bool :=
  let words := filter (λ w, w ≠ []) (split_on is_ascii_whitespace line) in
  bool_decide (head words = Some MOSH) && bool_decide (head (tail words) = Some CONNECT).

(** [parse_port] *)
Definition parse_port (l : bytes) : Result BootstrapError Z :=
  if (5 <? len l) || negb (forallb is_ascii_digit l) then Err InvalidPort
  else
    let port := fold_left (λ port b, port * 10 + (b - 48)) l 0 in
    ok_or InvalidPort
      (port ← try_from U16_MAX port; if negb (port =? 0) then Some port else None).

Section bootstrap.
Context `{B64 : Base64}.

(** [parse_connect_record] *)
Definition parse_connect_record (record : bytes) : Result BootstrapError (Z * SessionKey) :=
  if existsb (λ b, is_ascii_whitespace b && negb (b =? SPACE)) record then Err MalformedConnectRecord
  else
    let fields := split_on (λ b, b =? SPACE) record in
    if negb (bool_decide (fields !! 0%nat = Some MOSH)) || negb (bool_decide (fields !! 1%nat = Some CONNECT))
    then Err MalformedConnectRecord
    else
      port ← ok_or MalformedConnectRecord (fields !! 2%nat);
      encoded_key ← ok_or MalformedConnectRecord (fields !! 3%nat);
      if bool_decide (is_Some (fields !! 4%nat)) || bool_decide (port = []) || bool_decide (encoded_key = [])
      then Err MalformedConnectRecord
      else
        port ← parse_port port;
        if negb (len encoded_key =? ENCODED_KEY_BYTES) then Err InvalidKey
        else
          decoded ← ok_or InvalidKey (decode_slice encoded_key DECODED_KEY_BYTES);
          let decoded_key := decoded ++ replicate (Z.to_nat (DECODED_KEY_BYTES - len decoded)) 0 in
          if negb (len decoded =? DECODED_KEY_BYTES) then Err InvalidKey
          else Ok (port, mkSessionKey decoded_key).

(** The line terminator handling of [parse]. *)
Definition strip_line (raw_line : bytes) : bytes :=
  match strip_suffix NEWLINE raw_line with
  | Some line => default line (strip_suffix CARRIAGE_RETURN line)
  | None => raw_line
  end.

(** The loop of [parse] over the lines. *)
Fixpoint find_candidate (candidate : option bytes) (raw_lines : list bytes) :
    Result BootstrapError (option bytes) :=
  match raw_lines with
  | [] => Ok candidate
  | raw_line :: rest =>
      let line := strip_line raw_line in
      if looks_like_connect_record line then
        match candidate with
        | Some _ => Err AmbiguousConnectRecord
        | None => find_candidate (Some line) rest
        end
      else find_candidate candidate rest
  end.

(** [Bootstrap::parse] *)
Definition Bootstrap_parse (server_address : Z) (output : bytes) : Result BootstrapError Bootstrap :=
  if MAX_BOOTSTRAP_BYTES <? len output then Err OutputTooLarge
  else if MAX_BOOTSTRAP_LINES <? physical_line_count output then Err TooManyLines
  else
    candidate ← find_candidate None (split_inclusive (λ b, b =? NEWLINE) output);
    record ← ok_or MissingConnectRecord candidate;
    '(port, session_key) ← parse_connect_record record;
    Ok (mkBootstrap (mkSocketAddrV4 server_address port) session_key).
End bootstrap.

(** ** Splitting *)
Fixpoint join (sep : Z) (pieces : list bytes) : bytes :=
  match pieces with
  | [] => []
  | [p] => p
  | p :: rest => p ++ sep :: join sep rest
  end.

Lemma split_on_nonempty p l : split_on p l ≠ [].
Proof. destruct l as [|b l]; simpl; [done|]. destruct (p b); [done|]. by destruct (split_on p l). Qed.

Lemma split_join sep l : join sep (split_on (λ b, b =? sep) l) = l.
Proof.
  induction l as [|b l IH]; [done|]. simpl. pose proof (split_on_nonempty (λ b, b =? sep) l) as Hne.
  destruct (Z.eqb_spec b sep) as [->|].
  - simpl. destruct (split_on _ l); [done|]. by rewrite IH.
  - destruct (split_on _ l) as [|p ps]; [done|]. destruct ps; simpl in *; congruence.
Qed.

Lemma split_on_single p a : forallb (λ b, negb (p b)) a = true → split_on p a = [a].
Proof.
  induction a as [|b a IH]; [done|]. simpl. intros [Hb Ha]%andb_true_iff.
  destruct (p b); [done|]. by rewrite IH.
Qed.

Lemma split_on_cons p a sep rest :
  forallb (λ b, negb (p b)) a = true → p sep = true → split_on p (a ++ sep :: rest) = a :: split_on p rest.
Proof.
  intros Ha Hs. induction a as [|b a IH]; simpl; [by rewrite Hs|].
  simpl in Ha. apply andb_true_iff in Ha as [Hb Ha]. destruct (p b); [done|]. by rewrite IH.
Qed.

(** The decimal value of a digit string. *)
Definition decimal (l : bytes) : Z := fold_left (λ port b, port * 10 + (b - 48)) l 0.

Lemma decimal_snoc l b : decimal (l ++ [b]) = decimal l * 10 + (b - 48).
Proof. unfold decimal. by rewrite fold_left_app. Qed.

Lemma decimal_bounds l : forallb is_ascii_digit l = true → 0 ≤ decimal l < 10 ^ len l.
Proof.
  induction l as [|b l IH] using rev_ind; intros Hl; [by vm_compute|].
  rewrite forallb_app in Hl. simpl in Hl. apply andb_true_iff in Hl as [Hl Hb].
  rewrite decimal_snoc, len_app. change (len [b]) with 1.
  rewrite Z.pow_add_r by (pose proof (len_nonneg l); lia). specialize (IH Hl).
  unfold is_ascii_digit in Hb. lia.
Qed.

Lemma parse_port_Ok l v :
  parse_port l = Ok v ↔ len l ≤ 5 ∧ forallb is_ascii_digit l = true ∧ v = decimal l ∧ 1 ≤ v ≤ U16_MAX.
Proof.
  unfold parse_port. fold (decimal l). destruct ((5 <? len l) || negb (forallb is_ascii_digit l)) eqn:Hb.
  { split; [done|]. intros (? & Hd & _). rewrite Hd in Hb. simpl in Hb. lia. }
  apply orb_false_iff in Hb as [Hl%Z.ltb_ge Hd%negb_false_iff].
  pose proof (decimal_bounds l Hd) as [H0 _]. unfold try_from.
  destruct ((0 <=? decimal l) && (decimal l <=? U16_MAX)) eqn:Hr; simpl.
  - destruct (Z.eqb_spec (decimal l) 0); simpl; split; try done.
    + intros (_ & _ & -> & ?). lia.
    + intros [= <-]. split_and!; try done; lia.
    + intros (_ & _ & -> & _). done.
  - split; [done|]. intros (_ & _ & -> & ?). lia.
Qed.

Lemma split_on_pieces p l : Forall (λ piece, forallb (λ b, negb (p b)) piece = true) (split_on p l).
Proof.
  induction l as [|b l IH]; simpl; [by repeat constructor|].
  destruct (p b) eqn:Hb; [by constructor|].
  destruct (split_on p l) as [|piece pieces]; [repeat constructor; simpl; by rewrite Hb|].
  apply Forall_cons in IH as [H1 H2]. constructor; [|done]. simpl. by rewrite Hb.
Qed.

(** ** The accepted outputs *)
Definition lines (output : bytes) : list bytes :=
  strip_line <$> split_inclusive (λ b, b =? NEWLINE) output.

(** The exact form [MOSH CONNECT <port> <key>]. *)
Definition connect_record (port key : bytes) : bytes := join SPACE [MOSH; CONNECT; port; key].

Definition no_whitespace (l : bytes) : Prop := existsb is_ascii_whitespace l = false.

Lemma find_candidate_spec c raws r :
  find_candidate c raws = Ok r ↔
  (match c with
   | None => (filter (λ l, looks_like_connect_record l = true) (strip_line <$> raws) = [] ∧ r = None) ∨
             ∃ line, filter (λ l, looks_like_connect_record l = true) (strip_line <$> raws) = [line] ∧ r = Some line
   | Some line => filter (λ l, looks_like_connect_record l = true) (strip_line <$> raws) = [] ∧ r = Some line
   end).
Proof.
  revert c. induction raws as [|raw raws IH]; intros c; csimpl.
  { destruct c; split; intros H; simplify_eq/=; naive_solver. }
  rewrite filter_cons. destruct (looks_like_connect_record (strip_line raw)) eqn:Hl.
  - rewrite decide_True by done. destruct c as [line|].
    + split; [done|]. intros [H _]. done.
    + rewrite IH. split; [|naive_solver]. intros [H1 ->]. right. exists (strip_line raw). by rewrite H1.
  - rewrite decide_False by congruence. apply IH.
Qed.

Lemma whitespace_not_space b :
  is_ascii_whitespace b = true → b ≠ SPACE → is_ascii_whitespace b && negb (b =? SPACE) = true.
Proof. intros -> Hne. simpl. by destruct (Z.eqb_spec b SPACE). Qed.

Lemma no_whitespace_pieces record k :
  existsb (λ b, is_ascii_whitespace b && negb (b =? SPACE)) record = false →
  k ∈ split_on (λ b, b =? SPACE) record → (∀ b, b ∈ k → b ∈ record) → no_whitespace k.
Proof.
  intros Hr Hk Hin. apply not_true_is_false. intros (b & Hb%list_elem_of_In & Hw)%existsb_exists.
  assert (b ≠ SPACE) as Hne.
  { pose proof (proj1 (Forall_forall _ _) (split_on_pieces (λ b, b =? SPACE) record) _ Hk) as Hp. simpl in Hp.
    rewrite forallb_forall in Hp. specialize (Hp b (proj1 (list_elem_of_In _ _) Hb)). lia. }
  assert (existsb (λ b, is_ascii_whitespace b && negb (b =? SPACE)) record = true); [|congruence].
  apply existsb_exists. exists b. split; [apply list_elem_of_In; by apply Hin|by apply whitespace_not_space].
Qed.

Lemma no_whitespace_no_space k : no_whitespace k → forallb (λ b, negb (b =? SPACE)) k = true.
Proof.
  unfold no_whitespace. intros Hk. apply forallb_forall. intros b Hb.
  destruct (Z.eqb_spec b SPACE) as [->|]; [|done].
  assert (existsb is_ascii_whitespace k = true); [|congruence].
  apply existsb_exists. eauto.
Qed.

Lemma digits_no_whitespace p : forallb is_ascii_digit p = true → no_whitespace p.
Proof.
  unfold no_whitespace. intros Hp. apply not_true_is_false. intros (b & Hb & Hw)%existsb_exists.
  rewrite forallb_forall in Hp. specialize (Hp b Hb). unfold is_ascii_digit, is_ascii_whitespace in *. lia.
Qed.

Lemma split_connect_record p k :
  no_whitespace p → no_whitespace k →
  split_on (λ b, b =? SPACE) (connect_record p k) = [MOSH; CONNECT; p; k].
Proof.
  intros Hp%no_whitespace_no_space Hk%no_whitespace_no_space. unfold connect_record. cbn [join].
  rewrite !split_on_cons by done. by rewrite split_on_single.
Qed.

Lemma connect_record_clean p k :
  no_whitespace p → no_whitespace k →
  existsb (λ b, is_ascii_whitespace b && negb (b =? SPACE)) (connect_record p k) = false.
Proof.
  unfold no_whitespace. intros Hp Hk. unfold connect_record. cbn [join].
  assert (∀ l, existsb is_ascii_whitespace l = false →
    existsb (λ b, is_ascii_whitespace b && negb (b =? SPACE)) l = false) as Himp.
  { intros l Hl. apply not_true_is_false. intros (b & Hb & [Hw _]%andb_true_iff)%existsb_exists.
    assert (existsb is_ascii_whitespace l = true); [|congruence]. apply existsb_exists. eauto. }
  rewrite !existsb_app. simpl. rewrite !existsb_app. simpl. rewrite (Himp p Hp), (Himp k Hk). done.
Qed.

Section claims.
Context `{B64 : Base64}.

Lemma parse_connect_record_Ok record v key :
  parse_connect_record record = Ok (v, mkSessionKey key) ↔
  ∃ p k, record = connect_record p k ∧ no_whitespace k ∧ parse_port p = Ok v ∧
    len k = ENCODED_KEY_BYTES ∧ decode_slice k DECODED_KEY_BYTES = Some key ∧ len key = DECODED_KEY_BYTES.
Proof.
  unfold parse_connect_record. split.
  - destruct (existsb _ record) eqn:Hw; [done|].
    pose proof (split_join SPACE record) as Hj.
    assert (∀ k, k ∈ split_on (λ b, b =? SPACE) record → (∀ b, b ∈ k → b ∈ record) → no_whitespace k) as Hpieces
      by (intros; by eapply no_whitespace_pieces).
    revert Hj Hpieces. generalize (split_on (λ b, b =? SPACE) record) as fields.
    intros fields Hj Hpieces. destruct fields as [|m [|c [|p [|k [|x rest]]]]]; simpl; intros H;
      repeat case_bool_decide; simplify_eq/=; try done; try (exfalso; eauto; fail).
    destruct (parse_port p) as [v'| |] eqn:Hp; cbn in H; try done.
    destruct (Z.eqb_spec (len k) ENCODED_KEY_BYTES); cbn in H; [|done].
    destruct (decode_slice k DECODED_KEY_BYTES) as [d|] eqn:Hd; cbn in H; [|done].
    destruct (Z.eqb_spec (len d) DECODED_KEY_BYTES) as [Hl|]; cbn in H; [|done].
    rewrite Hl, Z.sub_diag in H. simpl in H. rewrite app_nil_r in H. simplify_eq.
    exists p, k. split_and!; try done.
    apply Hpieces; [set_solver|]. intros b Hb. set_solver.
  - intros (p & k & -> & Hk & Hp & Hlen & Hd & Hl).
    apply parse_port_Ok in Hp as Hp'. destruct Hp' as (_ & Hdig & -> & Hv).
    pose proof (digits_no_whitespace p Hdig) as Hpw.
    rewrite connect_record_clean, split_connect_record by done. simpl.
    destruct (decide (p = [])) as [->|Hne]; [by vm_compute in Hv|].
    destruct (decide (k = [])) as [->|Hnk]; [by vm_compute in Hlen|].
    rewrite (bool_decide_eq_false_2 (p = [])), (bool_decide_eq_false_2 (k = [])) by done.
    cbn. rewrite Hp. cbn.
    rewrite Hlen, Z.eqb_refl. cbn. rewrite Hd. cbn. rewrite Hl, Z.eqb_refl. cbn. by rewrite app_nil_r.
Qed.

(** C27. The parser accepts exactly the outputs of at most 4096 bytes and 64 lines
    in which one line, and only one, looks like a connect record and that line has
    the exact form [MOSH CONNECT <port> <key>] with single spaces, a decimal port
    between 1 and 65535 in at most 5 digits, and a 22-byte key that decodes to 16
    bytes; the result is that port and that key. *)
Theorem bootstrap_parse_exact address output b :
  Bootstrap_parse address output = Ok b ↔
  len output ≤ MAX_BOOTSTRAP_BYTES ∧ physical_line_count output ≤ MAX_BOOTSTRAP_LINES ∧
  ∃ p k key,
    filter (λ l, looks_like_connect_record l = true) (lines output) = [connect_record p k] ∧
    len p ≤ 5 ∧ forallb is_ascii_digit p = true ∧ 1 ≤ decimal p ≤ U16_MAX ∧
    no_whitespace k ∧ len k = ENCODED_KEY_BYTES ∧
    decode_slice k DECODED_KEY_BYTES = Some key ∧ len key = DECODED_KEY_BYTES ∧
    b = mkBootstrap (mkSocketAddrV4 address (decimal p)) (mkSessionKey key).
Proof.
  unfold Bootstrap_parse, lines.
  destruct (Z.ltb_spec MAX_BOOTSTRAP_BYTES (len output)); [split; [done|lia]|].
  destruct (Z.ltb_spec MAX_BOOTSTRAP_LINES (physical_line_count output)); [split; [done|lia]|].
  split.
  - intros Hr. split; [done|]. split; [done|].
    destruct (find_candidate None _) as [[record|]| |] eqn:Hf; cbn in Hr; try done.
    apply find_candidate_spec in Hf as [[_ ?]|(line & Hl & [= ->])]; [done|].
    destruct (parse_connect_record line) as [[v [key]]| |] eqn:Hp; cbn in Hr; try done. injection Hr as <-.
    apply parse_connect_record_Ok in Hp as (p & k & -> & Hk & Hport & Hlen & Hd & Hkey).
    apply parse_port_Ok in Hport as (H5 & Hdig & -> & Hv). exists p, k, key. done.
  - intros (_ & _ & p & k & key & Hl & H5 & Hdig & Hv & Hk & Hlen & Hd & Hkey & ->).
    assert (find_candidate None (split_inclusive (λ b, b =? NEWLINE) output) = Ok (Some (connect_record p k))) as ->
      by (apply find_candidate_spec; eauto).
    cbv [mbind Result_bind ok_or]. assert (parse_connect_record (connect_record p k) = Ok (decimal p, mkSessionKey key)) as ->; [|done].
    apply parse_connect_record_Ok. exists p, k. split_and!; try done. by apply parse_port_Ok.
Qed.

End claims.

(** ** Examples *)
#[local] Instance copy_base64 : Base64 := {|
  decode_slice encoded capacity := if capacity <? 16 then None else Some (take 16 encoded);
|}.

Definition sample_output : bytes :=
  [104; 105; 10] ++ connect_record [54; 48; 48; 48; 49] (replicate 22 65) ++ [13; 10].

Example sample_output_parses :
  Bootstrap_parse 0 sample_output = Ok (mkBootstrap (mkSocketAddrV4 0 60001) (mkSessionKey (replicate 16 65))).
Proof. vm_compute. reflexivity. Qed.

Example two_records_refused : Bootstrap_parse 0 (sample_output ++ sample_output) = Err AmbiguousConnectRecord.
Proof. vm_compute. reflexivity. Qed.
