(* ===== verification/Driver.v ===== *)
(** * The session driver: [src/src/session/driver.rs]

    The driver owns every component and moves them on commands, datagrams, timers
    and output permits. What it reads from outside (the clock, the cancellation
    flag, the results of socket calls, the readiness of its channels) is a script
    in [Env] that each read consumes; what it does to the outside (datagrams sent,
    output emitted) is appended to it. A theorem about every [Env] is a theorem
    about every behaviour of the outside. *)

From S2P Require Import Prelude Limits BTreeMap Packet Fragment Instruction Synchronization Timing.
From S2P Require Import Reachability TerminalWidth Emulator Terminal Prediction Errors ClientHistory Bootstrap.

Local Open Scope Z_scope.

Definition INITIAL_CHAFF : bytes := [0].

Inductive SessionCommand :=
  | CommandInput (input : bytes)
  | CommandResize (columns rows : Z)
  | CommandRepaint.

Inductive DatagramOutcome := Continue | RemoteShutdown.

#[export] Instance DatagramOutcome_eq_dec : EqDecision DatagramOutcome.
Proof. solve_decision. Defined.

(** What one turn of a loop ends with: another turn, the end of the script, or the
    session's end. *)
Inductive Turn := Again | OutOfScript | Exited (exit : SessionExit).

Inductive TransportSendOutcome := Sent | SendCancelled | Deferred.

(** [InstructionIdentifier]: the next fragment identifier, [None] once exhausted. *)
Definition InstructionIdentifier : Type := option Z.
Definition InstructionIdentifier_new : InstructionIdentifier := Some 0.

Definition InstructionIdentifier_take : M InstructionIdentifier DriverError Z :=
  s ← get;
  id ← lift (ok_or FragmentIdentifierExhausted s);
  put (checked_add U64_MAX id 1) ;;
  mret id.

(** What [wait_next] can find ready in one poll. [ready_cancellation] is [Some true]
    when the flag changed and [Some false] when its sender is gone; a command is
    [Some None] when the queue is closed; an output permit is [Some false] when its
    receiver is gone. *)
Record Ready := mkReady {
  ready_cancellation : option bool;
  ready_command : option (option SessionCommand);
  ready_graceful_close : bool;
  ready_timer : bool;
  ready_output : option bool;
  ready_datagram : option ((bytes * SocketAddr) + ErrorKind);
}.

Inductive Wake :=
  | WakeCommand (command : SessionCommand)
  | WakeDatagram (result : (bytes * SocketAddr) + ErrorKind)
  | WakeOutput
  | WakeOwnerDropped
  | WakeCancelled
  | WakeGracefulClose
  | WakeTimer.

(** The script of the outside world. *)
Record Env := mkEnv {
  clock : list Z;
  last_clock : Z;
  cancels : list bool;
  sends : list (Z + ErrorKind);
  readies : list Ready;
  instant_limit_ms : Z;
  sent_datagrams : list bytes;
  emitted : list bytes;
}.

(** One poll of [wait_next], in the order of its tests. *)
Definition wait_poll (r : Ready) (graceful needs_output receive_enabled : bool) : option Wake :=
  if bool_decide (ready_cancellation r = Some true) then Some WakeCancelled
  else
    match ready_command r with
    | Some (Some command) => Some (WakeCommand command)
    | Some None => Some WakeOwnerDropped
    | None =>
        if graceful && ready_graceful_close r then Some WakeGracefulClose
        else if ready_timer r then Some WakeTimer
        else
          match ready_output r with
          | Some granted =>
              if needs_output then Some (if granted then WakeOutput else WakeOwnerDropped)
              else if receive_enabled then WakeDatagram <$> ready_datagram r else None
          | None => if receive_enabled then WakeDatagram <$> ready_datagram r else None
          end
    end.

Section driver.
Context `{AE : Aead} `{PR : Prost} `{ZL : Zlib} `{VT : Vt100} `{VTE : Vte} `{UW : UnicodeWidth} `{PH : ProstHost}.

Record SessionDriver := mkSessionDriver {
  server_addr : SocketAddrV4;
  packet_codec : PacketCodec;
  packet_receiver : PacketReceiver;
  send_sequence : SendSequence;
  fragment_identifier : InstructionIdentifier;
  reassembler : FragmentReassembler;
  synchronization : SynchronizationState;
  scheduler : SendScheduler;
  datagram_timing : DatagramTiming;
  client_history : ClientHistory;
  terminal_states : gmap Z TerminalState;
  prediction : LocalPrediction;
  painted_state : option TerminalState;
  output_requested : bool;
  force_full_repaint : bool;
  receive_not_before_ms : Z;
  state_tx : SessionState;
  reachability : ReachabilityTracker;
  reachability_tx : SessionReachability;
  final_terminal : option TerminalState;
  env : Env;
}.

(** Assignments to one field. *)
Definition set_packet_receiver (v : PacketReceiver) (d : SessionDriver) : SessionDriver :=
  mkSessionDriver (server_addr d) (packet_codec d) v (send_sequence d) (fragment_identifier d)
    (reassembler d) (synchronization d) (scheduler d) (datagram_timing d) (client_history d)
    (terminal_states d) (prediction d) (painted_state d) (output_requested d) (force_full_repaint d)
    (receive_not_before_ms d) (state_tx d) (reachability d) (reachability_tx d) (final_terminal d)
    (env d).
Definition set_send_sequence (v : SendSequence) (d : SessionDriver) : SessionDriver :=
  mkSessionDriver (server_addr d) (packet_codec d) (packet_receiver d) v (fragment_identifier d)
    (reassembler d) (synchronization d) (scheduler d) (datagram_timing d) (client_history d)
    (terminal_states d) (prediction d) (painted_state d) (output_requested d) (force_full_repaint d)
    (receive_not_before_ms d) (state_tx d) (reachability d) (reachability_tx d) (final_terminal d)
    (env d).
Definition set_fragment_identifier (v : InstructionIdentifier) (d : SessionDriver) : SessionDriver :=
  mkSessionDriver (server_addr d) (packet_codec d) (packet_receiver d) (send_sequence d) v
    (reassembler d) (synchronization d) (scheduler d) (datagram_timing d) (client_history d)
    (terminal_states d) (prediction d) (painted_state d) (output_requested d) (force_full_repaint d)
    (receive_not_before_ms d) (state_tx d) (reachability d) (reachability_tx d) (final_terminal d)
    (env d).
Definition set_reassembler (v : FragmentReassembler) (d : SessionDriver) : SessionDriver :=
  mkSessionDriver (server_addr d) (packet_codec d) (packet_receiver d) (send_sequence d)
    (fragment_identifier d) v (synchronization d) (scheduler d) (datagram_timing d)
    (client_history d) (terminal_states d) (prediction d) (painted_state d) (output_requested d)
    (force_full_repaint d) (receive_not_before_ms d) (state_tx d) (reachability d)
    (reachability_tx d) (final_terminal d) (env d).
Definition set_synchronization (v : SynchronizationState) (d : SessionDriver) : SessionDriver :=
  mkSessionDriver (server_addr d) (packet_codec d) (packet_receiver d) (send_sequence d)
    (fragment_identifier d) (reassembler d) v (scheduler d) (datagram_timing d) (client_history d)
    (terminal_states d) (prediction d) (painted_state d) (output_requested d) (force_full_repaint d)
    (receive_not_before_ms d) (state_tx d) (reachability d) (reachability_tx d) (final_terminal d)
    (env d).
Definition set_scheduler (v : SendScheduler) (d : SessionDriver) : SessionDriver :=
  mkSessionDriver (server_addr d) (packet_codec d) (packet_receiver d) (send_sequence d)
    (fragment_identifier d) (reassembler d) (synchronization d) v (datagram_timing d)
    (client_history d) (terminal_states d) (prediction d) (painted_state d) (output_requested d)
    (force_full_repaint d) (receive_not_before_ms d) (state_tx d) (reachability d)
    (reachability_tx d) (final_terminal d) (env d).
Definition set_datagram_timing (v : DatagramTiming) (d : SessionDriver) : SessionDriver :=
  mkSessionDriver (server_addr d) (packet_codec d) (packet_receiver d) (send_sequence d)
    (fragment_identifier d) (reassembler d) (synchronization d) (scheduler d) v (client_history d)
    (terminal_states d) (prediction d) (painted_state d) (output_requested d) (force_full_repaint d)
    (receive_not_before_ms d) (state_tx d) (reachability d) (reachability_tx d) (final_terminal d)
    (env d).
Definition set_client_history (v : ClientHistory) (d : SessionDriver) : SessionDriver :=
  mkSessionDriver (server_addr d) (packet_codec d) (packet_receiver d) (send_sequence d)
    (fragment_identifier d) (reassembler d) (synchronization d) (scheduler d) (datagram_timing d) v
    (terminal_states d) (prediction d) (painted_state d) (output_requested d) (force_full_repaint d)
    (receive_not_before_ms d) (state_tx d) (reachability d) (reachability_tx d) (final_terminal d)
    (env d).
Definition set_terminal_states (v : gmap Z TerminalState) (d : SessionDriver) : SessionDriver :=
  mkSessionDriver (server_addr d) (packet_codec d) (packet_receiver d) (send_sequence d)
    (fragment_identifier d) (reassembler d) (synchronization d) (scheduler d) (datagram_timing d)
    (client_history d) v (prediction d) (painted_state d) (output_requested d)
    (force_full_repaint d) (receive_not_before_ms d) (state_tx d) (reachability d)
    (reachability_tx d) (final_terminal d) (env d).
Definition set_prediction (v : LocalPrediction) (d : SessionDriver) : SessionDriver :=
  mkSessionDriver (server_addr d) (packet_codec d) (packet_receiver d) (send_sequence d)
    (fragment_identifier d) (reassembler d) (synchronization d) (scheduler d) (datagram_timing d)
    (client_history d) (terminal_states d) v (painted_state d) (output_requested d)
    (force_full_repaint d) (receive_not_before_ms d) (state_tx d) (reachability d)
    (reachability_tx d) (final_terminal d) (env d).
Definition set_painted_state (v : option TerminalState) (d : SessionDriver) : SessionDriver :=
  mkSessionDriver (server_addr d) (packet_codec d) (packet_receiver d) (send_sequence d)
    (fragment_identifier d) (reassembler d) (synchronization d) (scheduler d) (datagram_timing d)
    (client_history d) (terminal_states d) (prediction d) v (output_requested d)
    (force_full_repaint d) (receive_not_before_ms d) (state_tx d) (reachability d)
    (reachability_tx d) (final_terminal d) (env d).
Definition set_output_requested (v : bool) (d : SessionDriver) : SessionDriver :=
  mkSessionDriver (server_addr d) (packet_codec d) (packet_receiver d) (send_sequence d)
    (fragment_identifier d) (reassembler d) (synchronization d) (scheduler d) (datagram_timing d)
    (client_history d) (terminal_states d) (prediction d) (painted_state d) v (force_full_repaint d)
    (receive_not_before_ms d) (state_tx d) (reachability d) (reachability_tx d) (final_terminal d)
    (env d).
Definition set_force_full_repaint (v : bool) (d : SessionDriver) : SessionDriver :=
  mkSessionDriver (server_addr d) (packet_codec d) (packet_receiver d) (send_sequence d)
    (fragment_identifier d) (reassembler d) (synchronization d) (scheduler d) (datagram_timing d)
    (client_history d) (terminal_states d) (prediction d) (painted_state d) (output_requested d) v
    (receive_not_before_ms d) (state_tx d) (reachability d) (reachability_tx d) (final_terminal d)
    (env d).
Definition set_receive_not_before_ms (v : Z) (d : SessionDriver) : SessionDriver :=
  mkSessionDriver (server_addr d) (packet_codec d) (packet_receiver d) (send_sequence d)
    (fragment_identifier d) (reassembler d) (synchronization d) (scheduler d) (datagram_timing d)
    (client_history d) (terminal_states d) (prediction d) (painted_state d) (output_requested d)
    (force_full_repaint d) v (state_tx d) (reachability d) (reachability_tx d) (final_terminal d)
    (env d).
Definition set_state_tx (v : SessionState) (d : SessionDriver) : SessionDriver :=
  mkSessionDriver (server_addr d) (packet_codec d) (packet_receiver d) (send_sequence d)
    (fragment_identifier d) (reassembler d) (synchronization d) (scheduler d) (datagram_timing d)
    (client_history d) (terminal_states d) (prediction d) (painted_state d) (output_requested d)
    (force_full_repaint d) (receive_not_before_ms d) v (reachability d) (reachability_tx d)
    (final_terminal d) (env d).
Definition set_reachability (v : ReachabilityTracker) (d : SessionDriver) : SessionDriver :=
  mkSessionDriver (server_addr d) (packet_codec d) (packet_receiver d) (send_sequence d)
    (fragment_identifier d) (reassembler d) (synchronization d) (scheduler d) (datagram_timing d)
    (client_history d) (terminal_states d) (prediction d) (painted_state d) (output_requested d)
    (force_full_repaint d) (receive_not_before_ms d) (state_tx d) v (reachability_tx d)
    (final_terminal d) (env d).
Definition set_reachability_tx (v : SessionReachability) (d : SessionDriver) : SessionDriver :=
  mkSessionDriver (server_addr d) (packet_codec d) (packet_receiver d) (send_sequence d)
    (fragment_identifier d) (reassembler d) (synchronization d) (scheduler d) (datagram_timing d)
    (client_history d) (terminal_states d) (prediction d) (painted_state d) (output_requested d)
    (force_full_repaint d) (receive_not_before_ms d) (state_tx d) (reachability d) v
    (final_terminal d) (env d).
Definition set_final_terminal (v : option TerminalState) (d : SessionDriver) : SessionDriver :=
  mkSessionDriver (server_addr d) (packet_codec d) (packet_receiver d) (send_sequence d)
    (fragment_identifier d) (reassembler d) (synchronization d) (scheduler d) (datagram_timing d)
    (client_history d) (terminal_states d) (prediction d) (painted_state d) (output_requested d)
    (force_full_repaint d) (receive_not_before_ms d) (state_tx d) (reachability d)
    (reachability_tx d) v (env d).
Definition set_env (v : Env) (d : SessionDriver) : SessionDriver :=
  mkSessionDriver (server_addr d) (packet_codec d) (packet_receiver d) (send_sequence d)
    (fragment_identifier d) (reassembler d) (synchronization d) (scheduler d) (datagram_timing d)
    (client_history d) (terminal_states d) (prediction d) (painted_state d) (output_requested d)
    (force_full_repaint d) (receive_not_before_ms d) (state_tx d) (reachability d)
    (reachability_tx d) (final_terminal d) v.

Abbreviation DrvM := (M SessionDriver DriverError).

(** ** Reading the outside *)
Definition with_env {A} (f : Env → Env * A) : DrvM A :=
  λ d, let '(e, a) := f (env d) in (set_env e d, Ok a).

(** One reading of the clock, in milliseconds since [started_at]. *)
Definition read_clock (e : Env) : Env * Z :=
  match clock e with
  | [] => (e, last_clock e)
  | t :: rest =>
      (mkEnv rest t (cancels e) (sends e) (readies e) (instant_limit_ms e) (sent_datagrams e) (emitted e), t)
  end.

(** [now_ms] *)
Definition now_ms : DrvM Z :=
  t ← with_env read_clock;
  lift (ok_or ClockExhausted (try_from U64_MAX t)).

(** [*self.cancellation_rx.borrow()] *)
Definition cancellation_requested : DrvM bool :=
  with_env (λ e, match cancels e with
    | [] => (e, false)
    | b :: rest =>
        (mkEnv (clock e) (last_clock e) rest (sends e) (readies e) (instant_limit_ms e)
           (sent_datagrams e) (emitted e), b)
    end).

(** [send_datagram]: the result of [send_to]; a datagram handed to the socket is
    logged whatever the result. *)
Definition send_datagram (datagram : bytes) : DrvM (Z + ErrorKind) :=
  with_env (λ e,
    let log := sent_datagrams e ++ [datagram] in
    match sends e with
    | [] => (mkEnv (clock e) (last_clock e) (cancels e) [] (readies e) (instant_limit_ms e) log (emitted e),
             inl (len datagram))
    | r :: rest => (mkEnv (clock e) (last_clock e) (cancels e) rest (readies e) (instant_limit_ms e) log (emitted e), r)
    end).

(** [permit.send(output)] *)
Definition permit_send (output : bytes) : DrvM unit :=
  with_env (λ e, (mkEnv (clock e) (last_clock e) (cancels e) (sends e) (readies e) (instant_limit_ms e)
                    (sent_datagrams e) (emitted e ++ [output]), tt)).

(** [wait_next]: poll until something is ready; [None] when the script ends first. *)
Fixpoint wait_ready (l : list Ready) (graceful needs_output receive_enabled : bool) : list Ready * option Wake :=
  match l with
  | [] => ([], None)
  | r :: rest =>
      match wait_poll r graceful needs_output receive_enabled with
      | Some w => (rest, Some w)
      | None => wait_ready rest graceful needs_output receive_enabled
      end
  end.

Definition wait_next (graceful needs_output receive_enabled : bool) : DrvM (option Wake) :=
  with_env (λ e,
    let '(rest, w) := wait_ready (readies e) graceful needs_output receive_enabled in
    (mkEnv (clock e) (last_clock e) (cancels e) (sends e) rest (instant_limit_ms e)
       (sent_datagrams e) (emitted e), w)).

(** [started_at.checked_add(..)] *)
Definition instant_at (wake_at_ms : Z) : DrvM unit :=
  d ← get;
  fail_if (instant_limit_ms (env d) <? wake_at_ms) ClockExhausted.

(** ** Connecting *)

(** Run a method on a local component and keep its new state. *)
Definition run_local {S E A} (f : E → DriverError) (m : M S E A) (s : S) : Result DriverError (S * A) :=
  match m s with
  | (s', Ok a) => Ok (s', a)
  | (_, Err e) => Err (f e)
  | (_, Panic) => Panic
  end.

(** [SessionDriver::connect]; [bound] is the result of binding the socket. *)
Definition connect (bootstrap : Bootstrap) (columns rows : Z) (prediction_mode : PredictionMode)
    (bound : option ErrorKind) (e : Env) : Result DriverError SessionDriver :=
  initial_terminal ← map_err DriverTerminal (TerminalState_new columns rows);
  match bound with
  | Some kind => Err (DriverIo kind)
  | None => Ok tt
  end ;;
  let server_addr := bootstrap_server_addr bootstrap in
  let key := bootstrap_session_key bootstrap in
  '(history, _) ← run_local (λ e, e) (append (Resize columns rows)) ClientHistory_new;
  '(sync, initial_state) ← run_local DriverSynchronization advance_local SynchronizationState_new;
  '(history, _) ← run_local (λ e, e) (checkpoint initial_state) history;
  '(sched, _) ← run_local DriverTiming (note_local_change 0) (SendScheduler_new 0);
  Ok (mkSessionDriver server_addr (PacketCodec_new key) (PacketReceiver_new key ServerToClient)
        SendSequence_new InstructionIdentifier_new (FragmentReassembler_new 0) sync sched
        (DatagramTiming_new 0) history {[ 0 := initial_terminal ]} (LocalPrediction_new prediction_mode)
        None false false 0 Connecting ReachabilityTracker_new AwaitingPeer None e).

(** ** Shared steps *)
Definition on_synchronization {A} (m : M SynchronizationState SynchronizationError A) : DrvM A :=
  zoom synchronization set_synchronization DriverSynchronization m.
Definition on_scheduler {A} (m : M SendScheduler TimingError A) : DrvM A :=
  zoom scheduler set_scheduler DriverTiming m.
Definition on_datagram_timing {A} (m : M DatagramTiming TimingError A) : DrvM A :=
  zoom datagram_timing set_datagram_timing DriverTiming m.
Definition on_client_history {A} (m : M ClientHistory DriverError A) : DrvM A :=
  zoom client_history set_client_history (λ e, e) m.
Definition on_prediction {A} (m : M LocalPrediction TerminalError A) : DrvM A :=
  zoom prediction set_prediction DriverTerminal m.
Definition on_reachability {A} (m : M ReachabilityTracker ReachabilityError A) : DrvM A :=
  zoom reachability set_reachability DriverReachability m.
Definition on_reassembler {A} (m : M FragmentReassembler ReassemblyError A) : DrvM A :=
  zoom reassembler set_reassembler DriverReassembly m.

Definition retransmission_timeout (d : SessionDriver) : Z :=
  retransmission_timeout_ms (estimator (datagram_timing d)).

(** [io_retry_ms] *)
Definition io_retry_ms (d : SessionDriver) : Z :=
  Z.max (retransmission_timeout d) INITIAL_RETRANSMISSION_TIMEOUT_MS.

Definition terminal_state (n : Z) : DrvM TerminalState :=
  d ← get;
  lift (ok_or MissingTerminalState (terminal_states d !! n)).

(** [publish_reachability] *)
Definition publish_reachability (now : Z) : DrvM unit :=
  changed ← on_reachability (update now);
  match changed with
  | Some r => modify (set_reachability_tx r)
  | None => mret tt
  end.

(** [defer_temporary_send] *)
Definition defer_temporary_send (now : Z) : DrvM unit :=
  d ← get;
  on_scheduler (defer_send now (io_retry_ms d)).

(** [defer_receive] *)
Definition defer_receive (now : Z) : DrvM unit :=
  d ← get;
  t ← lift (ok_or ClockExhausted (checked_add U64_MAX now (io_retry_ms d)));
  modify (set_receive_not_before_ms t).

(** [discard_terminal_states] *)
Definition discard_terminal_states (floor : Z) (capacity_evicted : option Z) : DrvM unit :=
  modify (λ d, set_terminal_states (filter (λ '(n, _), floor ≤ n) (terminal_states d)) d) ;;
  match capacity_evicted with
  | Some evicted => modify (λ d, set_terminal_states (delete evicted (terminal_states d)) d)
  | None => mret tt
  end.

(** [latest_terminal_state] *)
Definition latest_terminal_state : DrvM TerminalState :=
  d ← get;
  match final_terminal d with
  | Some t => mret t
  | None => terminal_state (remote_latest (synchronization d))
  end.

(** ** Commands *)

(** [advance_client] *)
Definition advance_client (operation : ClientOperation) (now : Z) : DrvM Z :=
  on_client_history (append operation) ;;
  state ← on_synchronization advance_local;
  on_client_history (checkpoint state) ;;
  on_scheduler (note_local_change now) ;;
  mret state.

(** The prediction step of [handle_command]. *)
Definition predict_input (state : Z) (input : bytes) (now : Z) : DrvM unit :=
  d ← get;
  authoritative ← terminal_state (remote_latest (synchronization d));
  displayed ← on_prediction (observe_input state input authoritative now);
  if displayed : bool then modify (set_output_requested true) else mret tt.

(** [handle_command] *)
Definition handle_command (command : SessionCommand) : DrvM unit :=
  now ← now_ms;
  match command with
  | CommandInput input =>
      if bool_decide (input = []) then mret tt
      else
        state ← advance_client (Input input) now;
        predict_input state input now
  | CommandResize columns rows =>
      advance_client (Resize columns rows) now ;;
      d ← get;
      predict_input (local_latest (synchronization d)) [] now
  | CommandRepaint =>
      on_prediction reset_prediction ;;
      modify (set_output_requested true) ;;
      modify (set_force_full_repaint true)
  end.

(** ** Sending *)

(** The loop of [send_transport_instruction]; [plaintext] and [datagram] are its two
    buffers. *)
Fixpoint send_fragments (timestamps : OutgoingTimestamps) (id fragment_count number : Z)
    (bodies : list bytes) (plaintext datagram : bytes) : DrvM TransportSendOutcome :=
  match bodies with
  | [] => mret Sent
  | body :: rest =>
      cancelled ← cancellation_requested;
      if cancelled : bool then mret SendCancelled
      else
        number ← lift (ok_or FragmentIdentifierExhausted (try_from U16_MAX number));
        let '(plaintext', encoded) :=
          encode (Timing.timestamp timestamps) (Timing.timestamp_reply timestamps) id number
            (number + 1 =? fragment_count) body plaintext in
        plaintext_len ← lift (map_err DriverFragment encoded);
        seq ← zoom send_sequence set_send_sequence DriverPacket SendSequence_take;
        d ← get;
        view ← lift (slice 0 plaintext_len plaintext');
        let '(datagram', sealed) := PacketCodec_seal (packet_codec d) ClientToServer seq view datagram in
        datagram_len ← lift (map_err DriverPacket sealed);
        out ← lift (slice 0 datagram_len datagram');
        result ← send_datagram out;
        match result with
        | inr kind =>
            d ← get;
            if bool_decide (state_tx d = Active) && is_recoverable_established_io_error kind
            then mret Deferred else throw (DriverIo kind)
        | inl sent =>
            fail_if (negb (sent =? datagram_len)) IncompleteDatagramSend ;;
            send_fragments timestamps id fragment_count (number + 1) rest plaintext' datagram'
        end
  end.

(** [send_transport_instruction] *)
Definition send_transport_instruction (instruction : TransportInstruction) (now : Z) : DrvM TransportSendOutcome :=
  compressed ← lift (map_err DriverInstruction (encode_zlib instruction));
  timestamps ← on_datagram_timing (outgoing now);
  id ← zoom fragment_identifier set_fragment_identifier (λ e, e) InstructionIdentifier_take;
  let fragment_count := div_ceil (len compressed) MAX_FRAGMENT_BODY_BYTES in
  send_fragments timestamps id fragment_count 0 (chunks (Z.to_nat MAX_FRAGMENT_BODY_BYTES) compressed)
    (replicate (Z.to_nat MAX_DATAGRAM_BYTES) 0) (replicate (Z.to_nat MAX_DATAGRAM_BYTES) 0).

(** Record a sent plan: [commit_send] and the checkpoint it evicts. *)
Definition commit_plan (p : SendPlan) : DrvM unit :=
  commit ← on_synchronization (commit_send p);
  match sc_capacity_evicted_state commit with
  | Some evicted => on_client_history (remove_checkpoint evicted)
  | None => mret tt
  end.

(** [plan_send] at the current timeout. *)
Definition plan_at (now : Z) : DrvM SendPlan :=
  d ← get;
  lift (map_err DriverSynchronization (plan_send now (retransmission_timeout d) (synchronization d))).

(** The plan of [send_instruction]: an empty state is made when there is none new. *)
Definition plan_or_advance (now : Z) : DrvM SendPlan :=
  d ← get;
  match plan_send now (retransmission_timeout d) (synchronization d) with
  | Ok plan => mret plan
  | Err NoNewState =>
      state ← on_synchronization advance_local;
      on_client_history (checkpoint state) ;;
      plan_at now
  | Err error => throw (DriverSynchronization error)
  | Panic => lift Panic
  end.

(** [send_instruction] *)
Definition send_instruction (wake_plan : WakePlan) (now : Z) : DrvM unit :=
  plan ← plan_or_advance now;
  d ← get;
  diff ← lift (difference (sp_base_state plan) (sp_target_state plan) (client_history d));
  outcome ← send_transport_instruction (SendPlan_instruction plan diff INITIAL_CHAFF) now;
  match outcome with
  | Sent =>
      commit_plan plan ;;
      on_scheduler (scheduler_commit_send wake_plan)
  | SendCancelled => mret tt
  | Deferred =>
      failed_at ← now_ms;
      defer_temporary_send failed_at
  end.

Definition with_acknowledged (ack : Z) (i : TransportInstruction) : TransportInstruction :=
  mkTransportInstruction (protocol_version i) (base_state i) (new_state i) ack
    (discard_before_state i) (state_difference i) (chaff i).

(** [send_shutdown_acknowledgement] *)
Definition send_shutdown_acknowledgement (now : Z) : DrvM bool :=
  state ← on_synchronization advance_local;
  on_client_history (checkpoint state) ;;
  plan ← plan_at now;
  d ← get;
  diff ← lift (difference (sp_base_state plan) (sp_target_state plan) (client_history d));
  outcome ← send_transport_instruction
    (with_acknowledged SHUTDOWN_STATE (SendPlan_instruction plan diff INITIAL_CHAFF)) now;
  match outcome with
  | Sent => commit_plan plan ;; mret true
  | SendCancelled => mret false
  | Deferred => mret true
  end.

(** [send_shutdown_request] *)
Definition send_shutdown_request (now : Z) : DrvM TransportSendOutcome :=
  d ← get;
  let base := known_receiver_state (synchronization d) in
  let current := local_latest (synchronization d) in
  diff ← lift (difference base current (client_history d));
  send_transport_instruction
    (mkTransportInstruction PROTOCOL_VERSION base SHUTDOWN_STATE (remote_latest (synchronization d)) base
       diff INITIAL_CHAFF) now.

(** ** Receiving *)

(** [classify_receive] *)
Definition classify_receive (result : (bytes * SocketAddr) + ErrorKind) : DrvM (option (bytes * SocketAddr)) :=
  match result with
  | inl received => modify (set_receive_not_before_ms 0) ;; mret (Some received)
  | inr kind =>
      d ← get;
      if bool_decide (state_tx d = Active) && is_recoverable_established_io_error kind then
        failed_at ← now_ms;
        defer_receive failed_at ;;
        mret None
      else throw (DriverIo kind)
  end.

(** The packet errors that [decode_datagram] drops silently. *)
Definition is_dropped (e : PacketError) : bool :=
  match e with
  | DatagramTooShort | DatagramTooLarge | WrongDirection | AuthenticationFailed | Replay | TooOld
  | UnexpectedSource => true
  | PlaintextTooLarge | OutputTooSmall | InvalidSequence | SequenceExhausted => false
  end.

(** Open a datagram with the driver's receiver. *)
Definition open_datagram (datagram : bytes) (source : SocketAddr) : M SessionDriver PacketError OpenedPacket :=
  λ d,
    let '((receiver, _), r) := PacketReceiver_open_from (server_addr d) source (packet_receiver d, datagram) in
    (set_packet_receiver receiver d, r).

(** [decode_datagram] *)
Definition decode_datagram (datagram : bytes) (source : SocketAddr) : DrvM (option TransportInstruction) :=
  now ← now_ms;
  handle (open_datagram datagram source) (λ r,
    match r with
    | Panic => lift Panic
    | Err e => if is_dropped e then mret None else throw (DriverPacket e)
    | Ok opened =>
        decoded ← lift (map_err DriverFragment (decode (plaintext opened)));
        on_datagram_timing (observe_received (sequence opened) (Fragment.timestamp decoded)
          (Fragment.timestamp_reply decoded) now) ;;
        outcome ← on_reassembler (push now decoded);
        match outcome with
        | Complete compressed =>
            instruction ← lift (map_err DriverInstruction (decode_zlib compressed));
            mret (Some instruction)
        | Fragment.Pending | Duplicate => mret None
        end
    end).

(** The accepted-state part of [handle_normal_instruction]. *)
Definition apply_remote_state (plan : ApplyPlan) (now : Z) : DrvM unit :=
  base ← terminal_state (ap_base_state plan);
  diff ← lift (map_err DriverTerminal (TerminalDifference_decode (ap_difference plan)));
  next ← lift (map_err DriverTerminal (terminal_apply base diff));
  commit ← on_synchronization (commit_receive plan);
  modify (λ d, set_terminal_states (<[ap_target_state plan := next]> (terminal_states d)) d) ;;
  discard_terminal_states (rc_discard_before_state commit) (rc_capacity_evicted_state commit) ;;
  d ← get;
  if ap_target_state plan =? remote_latest (synchronization d) then
    modify (λ d, set_reachability (note_contact now (reachability d)) d) ;;
    authoritative ← terminal_state (ap_target_state plan);
    on_prediction (observe_authoritative authoritative) ;;
    modify (λ d, if bool_decide (state_tx d = Connecting) then set_state_tx Active d else d) ;;
    modify (set_output_requested true)
  else mret tt.

(** [handle_normal_instruction] *)
Definition handle_normal_instruction (i : TransportInstruction) : DrvM unit :=
  now ← now_ms;
  d ← get;
  let acknowledged_sent_at := sent_state_sent_at_ms (synchronization d) (acknowledged_state i) in
  transition ← on_synchronization (begin_receive i);
  match acknowledgement transition, acknowledged_sent_at with
  | Advanced _ _, Some sent_at => modify (λ d, set_reachability (note_reply sent_at (reachability d)) d)
  | _, _ => mret tt
  end ;;
  d ← get;
  on_client_history (acknowledge (known_receiver_state (synchronization d))) ;;
  on_scheduler (note_acknowledgement_needed now) ;;
  match remote_state transition with
  | Apply plan => apply_remote_state plan now
  | _ => mret tt
  end ;;
  publish_reachability now.

(** [handle_remote_shutdown] *)
Definition handle_remote_shutdown (i : TransportInstruction) : DrvM unit :=
  d ← get;
  let shutdown := if acknowledged_state i =? SHUTDOWN_STATE
                  then with_acknowledged (known_receiver_state (synchronization d)) i else i in
  transition ← on_synchronization (begin_shutdown_receive shutdown);
  d ← get;
  on_client_history (acknowledge (known_receiver_state (synchronization d))) ;;
  base ← terminal_state (st_base_state transition);
  diff ← lift (map_err DriverTerminal (TerminalDifference_decode (st_difference transition)));
  final ← lift (map_err DriverTerminal (terminal_apply base diff));
  modify (set_final_terminal (Some final)) ;;
  on_prediction reset_prediction ;;
  modify (set_output_requested true).

(** [handle_datagram] *)
Definition handle_datagram (datagram : bytes) (source : SocketAddr) : DrvM DatagramOutcome :=
  decoded ← decode_datagram datagram source;
  match decoded with
  | None => mret Continue
  | Some i =>
      if is_shutdown i then handle_remote_shutdown i ;; mret RemoteShutdown
      else handle_normal_instruction i ;; mret Continue
  end.

(** ** Output *)

(** [emit_output] *)
Definition emit_output : DrvM unit :=
  authoritative ← latest_terminal_state;
  d ← get;
  let current := display authoritative (prediction d) in
  output ← lift (map_err DriverPaint
    (if force_full_repaint d then painter_full current
     else match painted_state d with
          | Some previous => painter_incremental previous current
          | None => painter_full current
          end));
  permit_send output ;;
  modify (set_painted_state (Some current)) ;;
  modify (set_output_requested false) ;;
  modify (set_force_full_repaint false).

(** The permit of [finish_graceful_close]: the first poll that decides, if any. *)
Fixpoint wait_permit (l : list Ready) : list Ready * option (unit + SessionExit) :=
  match l with
  | [] => ([], None)
  | r :: rest =>
      match ready_cancellation r with
      | Some changed => (rest, Some (inr (if changed then Cancelled else OwnerDropped)))
      | None =>
          match ready_output r with
          | Some granted => (rest, Some (if granted then inl tt else inr OwnerDropped))
          | None => wait_permit rest
          end
      end
  end.

(** [finish_graceful_close]; [None] while it is still waiting. *)
Definition finish_graceful_close (exit : SessionExit) : DrvM (option SessionExit) :=
  d ← get;
  if negb (output_requested d) then mret (Some exit)
  else
    cancelled ← cancellation_requested;
    if cancelled : bool then mret (Some Cancelled)
    else
      permit ← with_env (λ e,
        let '(rest, p) := wait_permit (readies e) in
        (mkEnv (clock e) (last_clock e) (cancels e) (sends e) rest (instant_limit_ms e)
           (sent_datagrams e) (emitted e), p));
      match permit with
      | None => mret None
      | Some (inl _) => emit_output ;; mret (Some exit)
      | Some (inr exit) => mret (Some exit)
      end.

(** Continue after [finish_graceful_close]. *)
Definition finished (exit : option SessionExit) : Turn :=
  match exit with Some e => Exited e | None => OutOfScript end.

(** ** Local shutdown *)

(** The send of one turn of [run_local_shutdown]: the new [next_send_ms], or an exit. *)
Definition shutdown_send (now next_send : Z) : DrvM (Z + SessionExit) :=
  if next_send <=? now then
    outcome ← send_shutdown_request now;
    match outcome with
    | Sent =>
        d ← get;
        t ← lift (ok_or ClockExhausted (checked_add U64_MAX now (retransmission_timeout d)));
        mret (inl t)
    | SendCancelled => mret (inr Cancelled)
    | Deferred =>
        failed_at ← now_ms;
        d ← get;
        t ← lift (ok_or ClockExhausted (checked_add U64_MAX failed_at (io_retry_ms d)));
        mret (inl t)
    end
  else mret (inl next_send).

(** The datagram branch of [run_local_shutdown]. *)
Definition shutdown_datagram (result : (bytes * SocketAddr) + ErrorKind) : DrvM Turn :=
  received ← classify_receive result;
  match received with
  | None => mret Again
  | Some (datagram, source) =>
      decoded ← decode_datagram datagram source;
      match decoded with
      | None => mret Again
      | Some i =>
          let acknowledged := acknowledged_state i =? SHUTDOWN_STATE in
          continue ←
            (if is_shutdown i then
               handle_remote_shutdown i ;;
               now ← now_ms;
               send_shutdown_acknowledgement now
             else
               d ← get;
               handle_normal_instruction
                 (if acknowledged then with_acknowledged (known_receiver_state (synchronization d)) i else i) ;;
               mret true);
          if negb continue then mret (Exited Cancelled)
          else
            d ← get;
            if acknowledged || bool_decide (is_Some (final_terminal d)) then
              exit ← finish_graceful_close LocalClosed;
              mret (finished exit)
            else mret Again
      end
  end.

(** A turn of [run_local_shutdown] before the deadline: send if it is time to, then
    wait and handle what is ready; the state next to the driver is [next_send_ms]. *)
Definition shutdown_wait (deadline now next_send : Z) : DrvM (Z * Turn) :=
  sent ← shutdown_send now next_send;
  match sent with
  | inr exit => mret (next_send, Exited exit)
  | inl next_send =>
      d ← get;
      let receive_enabled := receive_not_before_ms d <=? now in
      let wake := Z.min next_send deadline in
      let wake := if negb receive_enabled then Z.min wake (receive_not_before_ms d) else wake in
      instant_at wake ;;
      woken ← wait_next false (output_requested d) receive_enabled;
      turn ←
        match woken with
        | None => mret OutOfScript
        | Some (WakeCommand command) => handle_command command ;; mret Again
        | Some (WakeDatagram result) => shutdown_datagram result
        | Some WakeOutput => emit_output ;; mret Again
        | Some WakeOwnerDropped => mret (Exited OwnerDropped)
        | Some WakeCancelled => mret (Exited Cancelled)
        | Some WakeGracefulClose | Some WakeTimer => mret Again
        end;
      mret (next_send, turn)
  end.

(** One turn of the loop of [run_local_shutdown]. *)
Definition local_shutdown_turn (deadline next_send : Z) : DrvM (Z * Turn) :=
  cancelled ← cancellation_requested;
  if cancelled : bool then mret (next_send, Exited Cancelled)
  else
    now ← now_ms;
    if deadline <=? now then mret (next_send, Exited LocalClosed)
    else shutdown_wait deadline now next_send.

(** The loop, for at most [fuel] turns. *)
Fixpoint local_shutdown_loop (fuel : nat) (deadline next_send : Z) : DrvM (option SessionExit) :=
  match fuel with
  | O => mret None
  | S fuel' =>
      '(next_send, turn) ← local_shutdown_turn deadline next_send;
      match turn with
      | Exited exit => mret (Some exit)
      | OutOfScript => mret None
      | Again => local_shutdown_loop fuel' deadline next_send
      end
  end.

(** [run_local_shutdown] *)
Definition run_local_shutdown (fuel : nat) : DrvM (option SessionExit) :=
  started ← now_ms;
  deadline ← lift (ok_or ClockExhausted (checked_add U64_MAX started GRACEFUL_CLOSE_ACK_TIMEOUT_MS));
  local_shutdown_loop fuel deadline started.

(** ** The main loop *)

(** The bookkeeping at the top of a turn of [run], up to the scheduler's answer. *)
Definition run_prologue (now : Z) : DrvM SchedulerPoll :=
  publish_reachability now ;;
  d ← get;
  fail_if (attachment_timed_out now (reachability d)) DriverConnectionTimeout ;;
  on_reassembler (expire now) ;;
  expired ← on_prediction (prediction_expire now);
  (if expired : bool then modify (set_output_requested true) else mret tt) ;;
  d ← get;
  let estimator := estimator (datagram_timing d) in
  let frame_interval := (λ _, frame_interval_ms estimator) <$> smoothed_rtt_ms estimator in
  changed ← on_prediction (update_policy now frame_interval);
  (if changed : bool then modify (set_output_requested true) else mret tt) ;;
  d ← get;
  on_scheduler (poll now (Timing.estimator (datagram_timing d))
                  (latest_unacknowledged_sent_at_ms (synchronization d))).

(** The wake-up time of a waiting turn and whether datagrams may be received. *)
Definition run_wake (now wake_at : Z) : DrvM bool :=
  d ← get;
  let wake_at := match prediction_next_deadline_ms (prediction d) with
                 | Some p => Z.min wake_at p | None => wake_at end in
  next ← lift (map_err DriverReachability (reachability_next_deadline_ms (reachability d)));
  let wake_at := match next with Some r => Z.min wake_at r | None => wake_at end in
  let receive_enabled := receive_not_before_ms d <=? now in
  let wake_at := if negb receive_enabled then Z.min wake_at (receive_not_before_ms d) else wake_at in
  instant_at wake_at ;;
  mret receive_enabled.

(** The datagram branch of [run]. *)
Definition run_datagram (result : (bytes * SocketAddr) + ErrorKind) : DrvM Turn :=
  received ← classify_receive result;
  match received with
  | None => mret Again
  | Some (datagram, source) =>
      outcome ← handle_datagram datagram source;
      if bool_decide (outcome = RemoteShutdown) then
        now ← now_ms;
        acknowledged ← send_shutdown_acknowledgement now;
        if negb acknowledged then mret (Exited Cancelled)
        else
          exit ← finish_graceful_close RemoteClosed;
          mret (finished exit)
      else mret Again
  end.

(** One turn of the loop of [run]. *)
Definition run_turn (shutdown_fuel : nat) : DrvM Turn :=
  cancelled ← cancellation_requested;
  if cancelled : bool then mret (Exited Cancelled)
  else
    now ← now_ms;
    polled ← run_prologue now;
    match polled with
    | Send plan =>
        send_instruction plan now ;;
        cancelled ← cancellation_requested;
        mret (if cancelled : bool then Exited Cancelled else Again)
    | Timing.Pending wake_at =>
        receive_enabled ← run_wake now wake_at;
        d ← get;
        woken ← wait_next true (output_requested d) receive_enabled;
        match woken with
        | None => mret OutOfScript
        | Some (WakeCommand command) => handle_command command ;; mret Again
        | Some (WakeDatagram result) => run_datagram result
        | Some WakeOutput => emit_output ;; mret Again
        | Some WakeOwnerDropped => mret (Exited OwnerDropped)
        | Some WakeCancelled => mret (Exited Cancelled)
        | Some WakeGracefulClose =>
            exit ← run_local_shutdown shutdown_fuel;
            mret (finished exit)
        | Some WakeTimer => mret Again
        end
    end.

(** [run], for at most [fuel] turns of each loop; [None] if it has not ended. *)
Fixpoint run_turns (shutdown_fuel fuel : nat) : DrvM (option SessionExit) :=
  match fuel with
  | O => mret None
  | S fuel' =>
      turn ← run_turn shutdown_fuel;
      match turn with
      | Exited exit => mret (Some exit)
      | OutOfScript => mret None
      | Again => run_turns shutdown_fuel fuel'
      end
  end.

(** [SessionTask::run]: the final state is [Closed] and the error is converted. *)
Definition session_run (shutdown_fuel fuel : nat) (d : SessionDriver) :
    SessionDriver * Result SessionError (option SessionExit) :=
  match run_turns shutdown_fuel fuel d with
  | (d', Ok None) => (d', Ok None)
  | (d', r) => (set_state_tx Closed d', map_err SessionError_from r)
  end.
End driver.
