(* ===== verification/DriverInput.v ===== *)
(** * What reaches the driver, and what leaves it

    The fragments that the datagrams of a script authenticate to, and the
    instructions that can be put together from them. Every instruction that the
    driver acts on is one of these: this file shows it for the reassembler. And the
    output of the driver as a log of paintings. *)

From S2P Require Import Prelude Limits BTreeMap Packet Fragment Instruction Synchronization Timing.
From S2P Require Import Reachability TerminalWidth Emulator Terminal Prediction Errors ClientHistory Bootstrap Driver.

Local Open Scope Z_scope.

(** ** Where the reassembler's fragments come from *)

(** The fragments [0], [1], ... of one instruction, all from [pool], joined. *)
Definition assembled (pool : list Fragment) (compressed : bytes) : Prop :=
  ∃ id fs, Forall (λ f, f ∈ pool ∧ identifier f = id) fs ∧
    Fragment.number <$> fs = seqZ 0 (len fs) ∧ compressed = concat (body <$> fs).

(** What is stored of an incomplete instruction is from [pool]. *)
Definition stored_from (pool : list Fragment) (i : IncompleteInstruction) : Prop :=
  Forall (λ '(k, s), ∃ f, (f ∈ pool ∧ identifier f = inc_identifier i) ∧ Fragment.number f = k ∧ body f = stored_body s)
    (fragments i).

Definition held_from (pool : list Fragment) (r : FragmentReassembler) : Prop :=
  ∀ i, incomplete r = Some i → stored_from pool i.

Lemma insert_from pool f i :
  f ∈ pool → identifier f = inc_identifier i → stored_from pool i → stored_from pool (insert_fragment f i).
Proof.
  unfold stored_from. rewrite !Forall_forall. intros Hf Hid Hi p [->|Hp]%bt_insert_elem; [by exists f|by apply Hi].
Qed.

(** The stored fragments, with those they came from. *)
Lemma stored_sources pool i :
  stored_from pool i →
  ∃ fs, Forall (λ f, f ∈ pool ∧ identifier f = inc_identifier i) fs ∧
    Fragment.number <$> fs = bt_keys (fragments i) ∧ body <$> fs = stored_body <$> bt_values (fragments i).
Proof.
  unfold stored_from, bt_keys, bt_values. induction 1 as [|[k s] m (f & Hf & <- & Hb) _ (fs & Hfs & Hk & Hv)]; [by exists []|].
  exists (f :: fs). csimpl. split; [by constructor|]. rewrite Hk, Hv. by rewrite Hb.
Qed.

Lemma complete_assembled pool i : stored_from pool i → is_complete i = true → assembled pool (assemble i).
Proof.
  intros (fs & Hfs & Hk & Hv)%stored_sources Hc. unfold is_complete in Hc.
  destruct (final_number i) as [n|]; [|done]. apply andb_true_iff in Hc as [Hl Hkeys%bool_decide_eq_true].
  apply Z.eqb_eq in Hl. rewrite Hkeys in Hk.
  assert (len fs = n + 1) as Hlen.
  { unfold len. rewrite <- (length_fmap Fragment.number), Hk, <- Hkeys. unfold bt_keys. by rewrite length_fmap. }
  exists (inc_identifier i), fs. split_and!; [done|by rewrite Hlen|unfold assemble; by rewrite <- Hv].
Qed.

Lemma single_assembled pool f : f ∈ pool → Fragment.number f = 0 → assembled pool (body f).
Proof. intros Hf Hn. exists (identifier f), [f]. csimpl. rewrite Hn, app_nil_r. split_and!; [by repeat constructor|done|done]. Qed.

Lemma expire_due_from pool now r r' x : held_from pool r → expire_due now r = (r', x) → held_from pool r'.
Proof. intros Hr. unfold expire_due. run. intros H. cases. Qed.

Lemma expire_from pool now r r' x : held_from pool r → expire now r = (r', x) → held_from pool r'.
Proof.
  intros Hr. unfold expire. cbv [mbind M_bind]. destruct (reassembler_observe_time now r) as [r1 y] eqn:Ho.
  apply observe_time_inv in Ho as (Hinc & _ & _).
  assert (held_from pool r1) as Hr1 by (intros i; rewrite Hinc; apply Hr).
  destruct y as [[]|e|]; intros H; [by eapply expire_due_from|by simplify_eq..].
Qed.

(** A fragment from [pool] keeps the reassembler's contents in [pool], and what it
    completes was assembled from it. *)
Lemma push_from pool now f r :
  held_from pool r → f ∈ pool →
  wp (push now f) (λ r' x, held_from pool r' ∧ ∀ c, x = Ok (Complete c) → assembled pool c) r.
Proof.
  intros Hr Hf. apply wp_bind, wp_intro. intros r1 x1 (Hinc & _ & _)%observe_time_inv.
  assert (held_from pool r1) as Hr1 by (intros i; rewrite Hinc; apply Hr).
  destruct x1 as [[]|e|]; [|by split..]. apply wp_bind, wp_intro. intros r2 x2 He. apply (expire_due_from pool) in He; [|done].
  destruct x2 as [z|e|]; [|by split..]. clear r r1 Hr Hinc Hr1. unfold wp. run.
  destruct (MAX_FRAGMENTS_PER_INSTRUCTION <=? Fragment.number f); simpl; [done|].
  assert ((Fragment.number f =? 0) && is_final f = true → assembled pool (body f)) as Hone.
  { intros [Hn%Z.eqb_eq _]%andb_true_iff. by apply single_assembled. }
  destruct (incomplete r2) as [i|] eqn:Hinc.
  - destruct (Z.eqb_spec (inc_identifier i) (identifier f)) as [Hid|].
    2: { destruct (_ && _); cases; split; try done. intros c [= <-]. by apply Hone. }
    assert (stored_from pool (insert_fragment f i)) as Hs by (apply insert_from; [done..|by apply He]).
    destruct (classify i f) as [[]|e|]; simpl; try done.
    destruct (checked_add _ _ _); simpl; [|done]. destruct (_ <? _); simpl; [done|].
    destruct (is_complete (insert_fragment f i)) eqn:Hic; simpl; (split; [|try done]).
    + done.
    + intros c [= <-]. by apply complete_assembled.
    + intros ? [= <-]. done.
  - destruct (_ && _); simpl.
    + destruct (_ <=? _); (split; [done|]); intros c [= <-]. by apply Hone.
    + destruct (_ <? _); simpl; split; try done. intros ? [= <-]. apply insert_from; [done|done|]. constructor.
Qed.

(** ** What the script's datagrams carry *)
Section input.
Context `{AE : Aead} `{PR : Prost} `{ZL : Zlib} `{VT : Vt100} `{VTE : Vte} `{UW : UnicodeWidth} `{PH : ProstHost}.

(** The fragment of a datagram that comes from the server and is authentic. *)
Definition datagram_fragment (server : SocketAddrV4) (codec : PacketCodec) (datagram : bytes) (source : SocketAddr) :
    option Fragment :=
  if bool_decide (source = V4 server) then
    match (PacketCodec_open codec ServerToClient datagram).2 with
    | Ok packet => match decode (plaintext packet) with Ok f => Some f | _ => None end
    | _ => None
    end
  else None.

Definition poll_fragment (server : SocketAddrV4) (codec : PacketCodec) (r : Ready) : option Fragment :=
  match ready_datagram r with
  | Some (inl (datagram, source)) => datagram_fragment server codec datagram source
  | _ => None
  end.

Definition authentic_fragments (server : SocketAddrV4) (codec : PacketCodec) (polls : list Ready) : list Fragment :=
  omap (poll_fragment server codec) polls.

(** ** What the server's states are

    [origin n t] says that [t] can be the server's state [n]. Applying an
    instruction to such a state gives such a state again, or fails. *)
Definition difference_stays `{!ScreenSet} (origin : Z → TerminalState → Prop) (base target : Z) (l : bytes) : Prop :=
  ∀ d t, TerminalDifference_decode l = Ok d → origin base t →
    match terminal_apply t d with
    | Ok t' => origin target t'
    | Err _ => True
    | Panic => emulator_panic
    end.

Definition peer_stays `{!ScreenSet} (origin : Z → TerminalState → Prop) (pool : list Fragment) : Prop :=
  ∀ compressed i, assembled pool compressed → decode_zlib compressed = Ok i →
  difference_stays origin (base_state i) (new_state i) (state_difference i).

(** ** What leaves the driver

    The chunks of output, in order, are the paintings of a list of states, newest first
    and each with whether it was painted in full; the others are differences to the
    state painted before. *)
Inductive painted_log : list bytes → list (bool * TerminalState) → Prop :=
  | log_empty : painted_log [] []
  | log_full chunks log t b :
      painted_log chunks log → painter_full t = Ok b → painted_log (chunks ++ [b]) ((true, t) :: log)
  | log_incremental chunks full p log t b :
      painted_log chunks ((full, p) :: log) → painter_incremental p t = Ok b →
      painted_log (chunks ++ [b]) ((false, t) :: (full, p) :: log).

Definition newest (log : list (bool * TerminalState)) : option TerminalState := snd <$> head log.
End input.
