(* ===== verification/DriverInv.v ===== *)
(** * The driver's invariant

    The components' states stay consistent with each other: every client state
    that can still be a base or a target of a difference has a checkpoint, and
    the terminal states kept are exactly the reference states. So the driver
    never meets a missing state or a stale plan, and panics only where the
    terminal emulator does. *)

From S2P Require Import Prelude Limits BTreeMap Packet Fragment Instruction Synchronization Timing.
From S2P Require Import Reachability TerminalWidth Emulator Terminal Prediction Errors ClientHistory Bootstrap Driver.

Local Open Scope Z_scope.

(** The errors that would mean a broken invariant of the client itself. *)
Definition internal_error (e : DriverError) : bool :=
  match e with
  | MissingClientState | MissingTerminalState
  | DriverSynchronization (StalePlan | InvalidRetransmissionTimeout | TimeMovedBackwards | NoNewState)
  | DriverTiming (TimingStalePlan | TimingTimeMovedBackwards | InvalidRttSample)
  | DriverReachability ReachabilityTimeMovedBackwards
  | DriverReassembly ReassemblyTimeMovedBackwards
  | DriverFragment (FragmentNumberOutOfRange | FragmentOutputTooSmall)
  | DriverPacket (PlaintextTooLarge | OutputTooSmall | InvalidSequence) => true
  | _ => false
  end.

(** ** Histories and the sender's state *)
Section history.
Context `{PR : Prost} `{PL : !ProstLaws PR}.

Record hist_ok (s : SynchronizationState) (h : ClientHistory) : Prop := {
  ho_rel : ∃ log marks, hist_rel log marks h ∧ ∀ n, is_Some (marks !! n) → n ≤ local_latest s;
  ho_known : is_Some (checkpoints h !! known_receiver_state s);
  ho_latest : is_Some (checkpoints h !! local_latest s);
  ho_sent x : x ∈ sent_states s → is_Some (checkpoints h !! number x);
}.

Lemma hist_ok_append op s h h' :
  hist_ok s h → append op h = (h', Ok tt) → hist_ok s h'.
Proof.
  intros [(log & marks & Hrel & Hmax) Hk Hl Hs] Ha. destruct (append_Ok _ _ _ _ _ Hrel Ha) as (Hrel' & Hc & _).
  split; rewrite ?Hc; try done; eauto.
Qed.

Lemma hist_ok_advance s s' n h h' :
  hist_ok s h → advance_local s = (s', Ok n) → checkpoint n h = (h', Ok tt) → hist_ok s' h'.
Proof.
  intros [(log & marks & Hrel & Hmax) Hk Hl Hs] Ha Hc.
  assert (n = local_latest s + 1 ∧ local_latest s' = n ∧ known_receiver_state s' = known_receiver_state s ∧
    sent_states s' = sent_states s) as (-> & Hl' & Hk' & Hs').
  { unfold advance_local in Ha. run. cases; checked; done. }
  destruct (checkpoint_Ok (local_latest s + 1) log marks h h' Hrel) as [Hrel' Hcp]; [|done|].
  { intros m Hm. apply Hmax in Hm. lia. }
  split; rewrite ?Hl', ?Hk', ?Hs', ?Hcp.
  - exists log, (<[local_latest s + 1 := len log]> marks). split; [done|].
    intros m. rewrite lookup_insert_is_Some. intros [<-|[_ Hm%Hmax]]; lia.
  - apply lookup_insert_is_Some'. by right.
  - apply lookup_insert_is_Some'. by left.
  - intros x Hx. apply lookup_insert_is_Some'. right. by apply Hs.
Qed.

(** The sender's half after an acknowledgement. *)
Lemma hist_ok_observe ack s s' r h :
  hist_ok s h → observe_acknowledgement ack s = (s', r) → hist_ok s' h.
Proof.
  intros [Hrel Hk Hl Hs] H. unfold observe_acknowledgement in H. run. cases.
  match goal with H : negb (existsb _ _) = false |- _ =>
    apply negb_false_iff, existsb_exists in H as (x & Hx%list_elem_of_In & Hn%Z.eqb_eq) end.
  split; simpl; try done; [rewrite <- Hn; by apply Hs|].
  intros y [_ Hy]%list_elem_of_filter. by apply Hs.
Qed.

Lemma hist_ok_acknowledge s h h' r :
  sync_wf s → hist_ok s h → acknowledge (known_receiver_state s) h = (h', r) → r = Ok tt ∧ hist_ok s h'.
Proof.
  intros Hwf [(log & marks & Hrel & Hmax) [c Hk] [cl Hl] Hs] Ha.
  destruct (acknowledge_Ok _ _ _ _ _ Hrel Hk) as (h1 & Ha' & Hrel' & Hcp & _). rewrite Ha in Ha'. injection Ha' as -> ->.
  split; [done|]. destruct Hwf. split; rewrite ?Hcp.
  - eauto.
  - exists c. apply map_lookup_filter_Some. split; [done|]. lia.
  - exists cl. apply map_lookup_filter_Some. split; [done|]. lia.
  - intros x Hx. destruct (Hs x Hx) as [cx Hcx]. exists cx. apply map_lookup_filter_Some. split; [done|].
    eapply Forall_forall in wf_sent_range; [|exact Hx]. simpl in *. lia.
Qed.

(** The sent states after a commit: the old ones without the evicted one, and the
    newest. *)
Lemma record_sent_numbers p s :
  sync_wf s → sp_target_state p = local_latest s →
  let '(sent, evicted) := record_sent p (known_receiver_state s) (sent_states s) in
  (∀ x, x ∈ sent → number x = local_latest s ∨ number x ∈ number <$> sent_states s) ∧
  (∀ n, evicted = Some n → known_receiver_state s < n < local_latest s ∧ ∀ x, x ∈ sent → number x ≠ n).
Proof.
  intros [] Ht. unfold record_sent. rewrite Ht.
  destruct (Z.ltb_spec (known_receiver_state s) (local_latest s)); cycle 1.
  { split; [|done]. intros x Hx. right. by apply list_elem_of_fmap_2. }
  destruct (find_sent (local_latest s) (sent_states s)) eqn:Hf.
  { split; [|done]. intros x Hx. right. rewrite <- (update_sent_numbers (local_latest s) (sp_planned_at_ms p)).
    by apply list_elem_of_fmap_2. }
  apply find_sent_None in Hf.
  destruct (Z.eqb_spec (len (sent_states s)) MAX_SENT_STATES_AFTER_ACK) as [He|]; cycle 1.
  { split; [|done]. intros x [Hx|Hx]%elem_of_app; [right; by apply list_elem_of_fmap_2|].
    apply list_elem_of_singleton in Hx as ->. by left. }
  destruct (sent_states s) as [|y l]; [by vm_compute in He|]. csimpl in *.
  apply Forall_cons in wf_sent_range as [Hy _]. simpl in Hy. apply not_elem_of_cons in Hf as [Hne Hf].
  inversion wf_sent_sorted as [|?? _ Hyl]; subst. split.
  - intros x [Hx|Hx]%elem_of_app; [right; right; by apply list_elem_of_fmap_2|].
    apply list_elem_of_singleton in Hx as ->. by left.
  - intros n [= <-]. split; [lia|]. intros x [Hx|Hx]%elem_of_app.
    + eapply Forall_forall in Hyl; [|by apply list_elem_of_fmap_2]. lia.
    + apply list_elem_of_singleton in Hx as ->. simpl. lia.
Qed.

Lemma hist_ok_commit p s s' c h h' :
  sync_wf s → hist_ok s h → commit_send p s = (s', Ok c) →
  match sc_capacity_evicted_state c with
  | Some evicted => remove_checkpoint evicted h = (h', Ok tt)
  | None => h' = h
  end → hist_ok s' h'.
Proof.
  intros Hwf [(log & marks & Hrel & Hmax) Hk Hl Hs] Hc.
  unfold commit_send in Hc. run.
  destruct (_ || _) eqn:Hguard; [done|]. cbn in Hc.
  destruct (checked_add _ _ _) eqn:Hgen; [|done]. cbn in Hc. checked.
  destruct (record_sent p _ _) as [sent evicted0] eqn:Hrec. injection Hc as <- <-. simpl. intros Hr.
  assert (sp_target_state p = local_latest s) as Ht by lia.
  pose proof (record_sent_numbers p s Hwf Ht) as Hn.
  rewrite Hrec in Hn. destruct Hn as [Hin Hev].
  assert (∀ n, n = known_receiver_state s ∨ n = local_latest s ∨ (∃ x, x ∈ sent ∧ n = number x) →
    is_Some (checkpoints h !! n)) as Hcp.
  { intros n [->|[->|(x & Hx & ->)]]; [done|done|].
    destruct (Hin x Hx) as [->|(y & -> & Hy)%list_elem_of_fmap]; [done|]. by apply Hs. }
  destruct evicted0 as [evicted|].
  - destruct (Hev evicted eq_refl) as [Hrange Hne]. destruct (remove_Ok _ _ _ _ _ Hrel Hr) as [Hrel' Hcp'].
    destruct Hwf. split; simpl; rewrite ?Hcp'; eauto.
    + apply lookup_delete_is_Some. split; [lia|]. apply Hcp. auto.
    + apply lookup_delete_is_Some. split; [lia|]. apply Hcp. auto.
    + intros x Hx. apply lookup_delete_is_Some. split; [by apply not_eq_sym, Hne|]. apply Hcp. eauto.
  - subst. split; simpl; [by eauto|done|done|]. intros x Hx. apply Hcp. right. right. by exists x.
Qed.

Lemma hist_ok_difference base target s h :
  hist_ok s h → base ≤ target → is_Some (checkpoints h !! base) → is_Some (checkpoints h !! target) →
  ∃ b, difference base target h = Ok b.
Proof.
  intros [(log & marks & Hrel & _) _ _ _] Hle [a Ha] [b Hb]. eexists. by eapply difference_Ok.
Qed.
End history.

(** ** Terminal states and the receiver's state *)
Lemma sorted_NoDup (l : list Z) : StronglySorted Z.lt l → NoDup l.
Proof.
  induction 1 as [|x l Hl IH Hx]; constructor; [|done]. intros Hin.
  eapply Forall_forall in Hx; [|exact Hin]. lia.
Qed.

Lemma delete_elem (l : list Z) k x n :
  NoDup l → l !! k = Some x → n ∈ delete k l ↔ n ∈ l ∧ n ≠ x.
Proof.
  intros Hnd Hk. rewrite delete_take_drop. rewrite <- (take_drop_middle l k x Hk) at 3.
  rewrite <- (take_drop_middle l k x Hk) in Hnd. apply NoDup_app in Hnd as (_ & Hd & Hnd2).
  apply NoDup_cons in Hnd2 as [Hx _]. rewrite !elem_of_app, elem_of_cons. split.
  - intros [Hn|Hn]; (split; [tauto|]); intros ->; [|done]. apply (Hd x Hn). set_solver.
  - intros [[Hn|[->|Hn]] Hne]; tauto.
Qed.

Lemma evict_received_elem floor l n :
  StronglySorted Z.lt l →
  n ∈ (evict_received floor l).1 ↔ n ∈ l ∧ (evict_received floor l).2 ≠ Some n.
Proof.
  intros Hs. unfold evict_received, vecdeque_remove. case_match; [|simpl; naive_solver].
  destruct (l !! usize_from (bool_decide (head l = Some floor))) as [x|] eqn:Hx; simpl; [|naive_solver].
  rewrite (delete_elem l _ x n (sorted_NoDup l Hs) Hx). naive_solver.
Qed.

Section terminals.
Context `{VT : Vt100}.

Definition terminals_ok (s : SynchronizationState) (T : gmap Z TerminalState) : Prop :=
  ∀ n, is_Some (T !! n) ↔ n ∈ received_states s.

Lemma filter_floor_is_Some (T : gmap Z TerminalState) floor n :
  is_Some (filter (λ '(k, _), floor ≤ k) T !! n) ↔ floor ≤ n ∧ is_Some (T !! n).
Proof.
  split.
  - intros [t [Ht Hle]%map_lookup_filter_Some]. eauto.
  - intros [Hle [t Ht]]. exists t. by apply map_lookup_filter_Some.
Qed.

(** The map after a commit: insertion, then the two removals. *)
Definition terminals_after (T : gmap Z TerminalState) (target floor : Z) (evicted : option Z) (next : TerminalState) :
    gmap Z TerminalState :=
  let T := filter (λ '(k, _), floor ≤ k) (<[target := next]> T) in
  match evicted with Some e => delete e T | None => T end.

Lemma terminals_ok_commit s p T next :
  sync_wf s → apply_plan_ok s p → terminals_ok s T →
  terminals_ok (received_after p s)
    (terminals_after T (ap_target_state p) (receive_floor p s)
       (evict_received (receive_floor p s) (receive_retained p s)).2 next).
Proof.
  unfold terminals_ok. intros Hwf Hp HT n. destruct (receive_retained_spec p s Hwf Hp) as (Hsub & Hrange & Hbase & Hfloor).
  pose proof (receive_retained_filter p s Hwf) as Hret.
  assert (StronglySorted Z.lt (receive_retained p s)) as Hs by (eapply sorted_sublist; [done|apply Hwf]).
  simpl. rewrite insert_before_larger_elem, evict_received_elem, Hret, list_elem_of_filter, <- HT, <- Hret by done. destruct Hp.
  assert ((evict_received (receive_floor p s) (receive_retained p s)).2 ≠ Some (ap_target_state p)) as Hne.
  { intros He. apply ap_target_new. eapply elem_of_sublist; [|exact Hsub].
    unfold evict_received, vecdeque_remove in He. repeat case_match; simplify_eq/=. by eapply list_elem_of_lookup_2. }
  unfold terminals_after. destruct (evict_received _ _).2 as [e|].
  - rewrite lookup_delete_is_Some, filter_floor_is_Some, lookup_insert_is_Some'. split.
    + intros (Hen & Hf & [->|HTn]); [by left|right]. split; [done|]. congruence.
    + intros [->|[[Hf HTn] Hen]]; (split; [congruence|]); (split; [lia|]); auto.
  - rewrite filter_floor_is_Some, lookup_insert_is_Some'. split.
    + intros (Hf & [->|HTn]); [by left|right]. done.
    + intros [->|[[Hf HTn] _]]; (split; [lia|]); auto.
Qed.
End terminals.

(** ** What each component guarantees the driver *)
Abbreviation timing_spec := (spec (λ e, internal_error (DriverTiming e)) False).
Abbreviation sync_spec := (spec (λ e, internal_error (DriverSynchronization e)) False).
Abbreviation reassembly_spec := (spec (λ e, internal_error (DriverReassembly e)) False).
Abbreviation reach_spec := (spec (λ e, internal_error (DriverReachability e)) False).
Abbreviation history_spec := (spec internal_error False).

Record dt_ok (now : Z) (d : DatagramTiming) : Prop := {
  dto_rtt : rtt_wf (estimator d);
  dto_time : dt_last_observed_ms d ≤ now;
}.

Definition timestamps_ok (ts : OutgoingTimestamps) : Prop :=
  is_u16 (Timing.timestamp ts) ∧ ∀ r, Timing.timestamp_reply ts = Some r → 0 ≤ r < U16_MAX.

Lemma outgoing_Ok now d :
  0 ≤ now → dt_ok now d → ∃ ts d', outgoing now d = (d', Ok ts) ∧ dt_ok now d' ∧ timestamps_ok ts.
Proof.
  intros Hn [Hr Ht]. destruct (outgoing_spec now d Hn Ht) as (reply & Ho & Hreply).
  do 2 eexists. split; [exact Ho|]. split; [by split|]. split; simpl.
  - unfold is_u16, U16_MAX. pose proof (Z.mod_pos_bound now 65536). lia.
  - intros r Hr'. destruct (Hreply r Hr') as (Hne & received & at_ms & _ & _ & ->).
    pose proof (Z.mod_pos_bound (received + (now - at_ms)) 65536).
    change Timing.NO_TIMESTAMP_REPLY with 65535 in Hne. unfold U16_MAX. lia.
Qed.

Lemma outgoing_safe now d :
  0 ≤ now → dt_ok now d → timing_spec (outgoing now) (λ ts d', dt_ok now d' ∧ timestamps_ok ts) d.
Proof. intros Hn Hd. destruct (outgoing_Ok now d Hn Hd) as (ts & d' & Ho & H). unfold spec. by rewrite Ho. Qed.

Lemma observe_received_Ok seq ts reply now d :
  0 ≤ now → dt_ok now d → ∃ r d', observe_received seq ts reply now d = (d', Ok r) ∧ dt_ok now d'.
Proof.
  intros Hn [Hr Ht]. unfold observe_received, datagram_observe_time.
  cbv [mbind M_bind get fail_if throw]. destruct (now <? dt_last_observed_ms d) eqn:Hlt; [lia|].
  cbv [put mret M_ret]. cbn [highest_received_sequence estimator dt_last_observed_ms].
  destruct (is_some_and _ _); [do 2 eexists; split; [done|by split]|].
  destruct reply as [reply|]; [|do 2 eexists; split; [done|by split]].
  cbv [lift zoom]. rewrite wire_milliseconds_Ok by done.
  destruct (MAX_RTT_SAMPLE_MS <? _) eqn:Hs; [do 2 eexists; split; [done|by split]|].
  destruct (observe_sample_total (wrapping_sub TIMESTAMP_MODULUS (now mod 65536) reply) (estimator d) Hr) as [Ho Hwf].
  { apply Z.mod_pos_bound. by vm_compute. }
  cbn [estimator]. rewrite Hs in Ho. rewrite Ho in *. do 2 eexists. split; [done|]. by split.
Qed.

Lemma observe_received_safe seq ts reply now d :
  0 ≤ now → dt_ok now d → timing_spec (observe_received seq ts reply now) (λ _ d', dt_ok now d') d.
Proof.
  intros Hn Hd. destruct (observe_received_Ok seq ts reply now d Hn Hd) as (r & d' & Ho & H). unfold spec. by rewrite Ho.
Qed.

Definition sched_ok (now : Z) (s : SendScheduler) : Prop := ss_last_observed_ms s ≤ now.

Definition wake_fresh (s : SendScheduler) (p : WakePlan) : Prop :=
  wp_generation p = ss_generation s ∧ wp_planned_at_ms p = ss_last_observed_ms s.

Lemma scheduler_observe_time_safe now s :
  sched_ok now s → timing_spec (scheduler_observe_time now) (λ _ s', ss_last_observed_ms s' = now) s.
Proof. intros Hs. apply spec_get_bind, spec_fail_if_bind; [unfold sched_ok in Hs; lia|]. done. Qed.

Lemma note_local_change_safe now s : sched_ok now s → timing_spec (note_local_change now) (λ _ s', sched_ok now s') s.
Proof.
  intros Hs. eapply spec_bind; [by apply scheduler_observe_time_safe|]. intros [] s1 Hs1. simpl in Hs1. apply spec_get_bind.
  unfold next_generation, sched_ok, spec. unfold_m. repeat case_match; simplify_eq/=; done || lia.
Qed.

Lemma note_acknowledgement_needed_safe now s :
  sched_ok now s → timing_spec (note_acknowledgement_needed now) (λ _ s', sched_ok now s') s.
Proof.
  intros Hs. eapply spec_bind; [by apply scheduler_observe_time_safe|]. intros [] s1 Hs1. simpl in Hs1. apply spec_get_bind.
  unfold next_generation, sched_ok, spec. unfold_m. repeat case_match; simplify_eq/=; done || lia.
Qed.

Lemma defer_send_safe now delay s : sched_ok now s → timing_spec (defer_send now delay) (λ _ s', sched_ok now s') s.
Proof.
  intros Hs. apply spec_lift_bind. unfold checked_deadline. destruct (checked_add _ _ _); [|done].
  eapply spec_bind; [by apply scheduler_observe_time_safe|]. intros [] s1 Hs1. simpl in Hs1.
  unfold sched_ok, spec. simpl. lia.
Qed.

Lemma scheduler_commit_safe p now s :
  sched_ok now s → wake_fresh s p → timing_spec (scheduler_commit_send p) (λ _ s', sched_ok now s') s.
Proof.
  intros Hs [Hg Ht]. apply spec_get_bind, spec_fail_if_bind; [rewrite Hg, Ht, !Z.eqb_refl; done|].
  intros _. apply spec_lift_bind. unfold next_generation. by destruct (checked_add _ _ _).
Qed.

(** A deadline computation fails only when the clock runs out. *)
Definition deadline_result {A} (r : Result TimingError A) : Prop := r = Err TimerExhausted ∨ is_ok r = true.

Lemma checked_deadline_result a b : deadline_result (checked_deadline a b).
Proof. unfold checked_deadline, deadline_result. destruct (checked_add _ _ _); auto. Qed.

Lemma deadline_of_result start f : (∀ t, deadline_result (f t)) → deadline_result (deadline_of start f).
Proof.
  intros Hf. unfold deadline_of, deadline_result. destruct start as [t|]; [|by right].
  destruct (Hf t) as [-> | Hok]; [by left|]. destruct (f t); [by right|done|done].
Qed.

Lemma local_change_due_result frame s : deadline_result (local_change_due frame s).
Proof.
  apply deadline_of_result. intros t.
  destruct (checked_deadline_result t STATE_CHANGE_COLLECTION_MS) as [-> | Hok]; [by left|].
  destruct (checked_deadline t _); try done. cbn.
  destruct (deadline_of_result (last_send_ms s) (λ a, checked_deadline a frame)) as [-> | Hok'];
    [intros; apply checked_deadline_result|by left|].
  destruct (deadline_of _ _); try done. by right.
Qed.

Lemma spec_deadline {A B} (r : Result TimingError A) (f : A → M SendScheduler TimingError B) Q s :
  deadline_result r → (∀ a, timing_spec (f a) Q s) → timing_spec (lift r ≫= f) Q s.
Proof. intros Hr Hf. apply spec_lift_bind. destruct Hr as [-> | Hr]; [done|]. destruct r; [apply Hf|done|done]. Qed.

Lemma poll_safe now rtt latest s :
  sched_ok now s → at_most now latest →
  timing_spec (poll now rtt latest) (λ r s', sched_ok now s' ∧ ∀ p, r = Send p → wake_fresh s' p) s.
Proof.
  intros Hs Hl. eapply spec_bind; [by apply scheduler_observe_time_safe|]. intros [] s1 Hs1. simpl in Hs1.
  apply spec_fail_if_bind.
  { destruct latest as [x|]; simpl; [|done]. specialize (Hl x eq_refl). lia. }
  intros _. apply spec_get_bind, spec_deadline; [apply local_change_due_result|]. intros state_due.
  apply spec_deadline; [apply deadline_of_result; intros; apply checked_deadline_result|]. intros ack_due.
  apply spec_deadline; [apply deadline_of_result; intros; apply checked_deadline_result|]. intros retrans_due.
  apply spec_deadline; [apply checked_deadline_result|]. intros heartbeat_due. cbn zeta.
  assert (sched_ok now s1) as Hok by (unfold sched_ok; lia).
  destruct (negb _).
  - repeat case_match; apply spec_ret; (split; [done|]); intros p [= <-]; split; simpl; lia.
  - apply spec_lift_bind. destruct (min_deadline _) as [w|] eqn:Hmin; [by split|].
    exfalso. cbn in Hmin. destruct state_due, ack_due, retrans_due; done.
Qed.

(** ** The reassembler, the tracker and the synchronization state *)
Record reassembly_ok (now : Z) (r : FragmentReassembler) : Prop := {
  rok_inv : reassembler_inv r;
  rok_time : last_observed_ms r ≤ now;
}.

Lemma expire_due_time now r r' x :
  expire_due now r = (r', x) →
  last_observed_ms r' = last_observed_ms r ∧ x ≠ Err ReassemblyTimeMovedBackwards.
Proof. intros H. unfold expire_due in H. run. cases. Qed.

Lemma expire_safe now r : reassembly_ok now r → reassembly_spec (expire now) (λ _ r', reassembly_ok now r') r.
Proof.
  intros [Hinv Ht]. apply (spec_bind _ _ _ _ (λ _ r', r' = mkFragmentReassembler (incomplete r) now)).
  { apply spec_get_bind, spec_fail_if_bind; [lia|]. done. }
  intros [] r1 ->. apply spec_intro. intros r' x Hx.
  destruct (expire_due_inv _ (mkFragmentReassembler (incomplete r) now) _ _ Hinv Hx) as (Hi & Hl & Hp).
  destruct (expire_due_time _ _ _ _ Hx) as [_ Hb].
  destruct x as [a|[]|]; try done. split; [done|]. simpl in Hl. lia.
Qed.

Lemma classify_err i f e : classify i f = Err e → e = ConflictingFragment.
Proof. unfold classify. intros H. cases. Qed.

Lemma push_time now f r :
  last_observed_ms r ≤ now →
  spec (λ e, internal_error (DriverReassembly e)) True (push now f) (λ _ r', last_observed_ms r' = now) r.
Proof.
  intros Ht. apply (spec_bind _ _ _ _ (λ _ r', last_observed_ms r' = now)).
  { apply spec_get_bind, spec_fail_if_bind; [lia|]. done. }
  intros [] r1 Hr1. apply (spec_bind _ _ _ _ (λ _ r', last_observed_ms r' = now)).
  { apply spec_intro. intros r' x Hx. destruct (expire_due_time _ _ _ _ Hx) as [Hl Hb].
    destruct x as [a|[]|]; try done. congruence. }
  intros _ r2 Hr2. apply spec_fail_if_bind; [done|]. intros _. apply spec_get_bind.
  unfold spec. destruct (incomplete r2) as [i|]; [|unfold_m; repeat split_if; done].
  destruct (inc_identifier i =? identifier f); [|unfold_m; repeat split_if; done].
  destruct (classify i f) as [[]|e|] eqn:Hc; [|done|by apply classify_err in Hc as ->|done].
  unfold_m. destruct (checked_add _ _ _); [|done]. repeat split_if; done.
Qed.

Lemma push_safe now f r :
  reassembly_ok now r → 0 ≤ Fragment.number f →
  reassembly_spec (push now f) (λ _ r', reassembly_ok now r') r.
Proof.
  intros [Hinv Ht] Hf. pose proof (push_time now f r Ht) as Hp. pose proof (push_inv now f r Hinv Hf) as Hi.
  unfold spec, wp in *. destruct (push now f r) as [r' [a|e|]]; simpl in *; [|done|by apply Hi].
  split; [apply Hi|lia].
Qed.

Record reach_ok (now : Z) (t : ReachabilityTracker) : Prop := {
  reo_wf : reach_wf now t;
  reo_contact : current t ≠ AwaitingPeer → is_Some (last_contact_ms t);
}.

Lemma update_safe now t : reach_ok now t → reach_spec (update now) (λ _ t', reach_ok now t') t.
Proof.
  intros [Hwf Hc]. unfold spec. rewrite update_Ok by done. split.
  - destruct Hwf. by split.
  - simpl. unfold reachability_spec. destruct (last_contact_ms t); [by eexists|done].
Qed.

Lemma next_deadline_safe now t :
  reach_ok now t → reachability_next_deadline_ms t ≠ Err ReachabilityTimeMovedBackwards ∧
  reachability_next_deadline_ms t ≠ Panic.
Proof.
  intros [_ Hc]. unfold reachability_next_deadline_ms, contact_deadline_ms.
  destruct (current t) as [| |[]]; try done;
    (destruct Hc as [c ->]; [done|]); cbn; destruct (checked_add _ c _); cbn; try done.
  by destruct (checked_add _ _ _).
Qed.

(** The sent states carry times the clock has shown. *)
Definition sent_times (now : Z) (s : SynchronizationState) : Prop :=
  Forall (λ x, 0 ≤ sent_at_ms x ≤ now) (sent_states s).

Lemma sent_times_subset now s s' :
  (∀ x, x ∈ sent_states s' → x ∈ sent_states s) → sent_times now s → sent_times now s'.
Proof. unfold sent_times. rewrite !Forall_forall. auto. Qed.

Lemma update_sent_time (P : SentState → Prop) n t l :
  Forall P l → P (mkSentState n t) → Forall P (update_sent n t l).
Proof. induction 1 as [|x l Hx Hl IH]; intros Hn; simpl; [done|]. case_match; constructor; auto. Qed.

Lemma record_sent_time (P : SentState → Prop) p known l :
  Forall P l → P (mkSentState (sp_target_state p) (sp_planned_at_ms p)) → Forall P (record_sent p known l).1.
Proof.
  intros Hl Hp. unfold record_sent. case_match; [|done]. case_match; [by apply update_sent_time|].
  destruct (len l =? MAX_SENT_STATES_AFTER_ACK); simpl; apply Forall_app; (split; [|by constructor]); [by destruct Hl|done].
Qed.

Record sync_ok (now : Z) (s : SynchronizationState) : Prop := {
  so_wf : sync_wf s;
  so_sent : sent_times now s;
}.

Lemma sync_ok_later now now' s : now ≤ now' → sync_ok now s → sync_ok now' s.
Proof. intros Hle [Hwf Hs]. split; [done|]. eapply Forall_impl; [exact Hs|]. simpl. lia. Qed.

Lemma advance_local_safe now s :
  sync_ok now s → sync_spec advance_local
    (λ n s', sync_ok now s' ∧ advance_local s = (s', Ok n)) s.
Proof.
  intros [Hwf Hs]. apply spec_intro. intros s' r Hr. pose proof (advance_local_wf _ _ _ Hwf Hr) as Hwf'.
  pose proof Hr as Hr'. unfold advance_local in Hr. run. cases.
Qed.

Lemma observe_acknowledgement_safe now ack s :
  sync_ok now s → sync_spec (observe_acknowledgement ack) (λ _ s', sync_ok now s') s.
Proof.
  intros [Hwf Hs]. apply spec_intro. intros s' r Hr. pose proof (observe_acknowledgement_wf _ _ _ _ Hwf Hr) as Hwf'.
  unfold observe_acknowledgement in Hr. run. cases. split; [done|]. eapply sent_times_subset; [|exact Hs].
  intros x [_ Hx]%list_elem_of_filter. done.
Qed.

Lemma begin_receive_safe now i s :
  sync_ok now s → sync_spec (begin_receive i)
    (λ t s', sync_ok now s' ∧ begin_receive i s = (s', Ok t)) s.
Proof.
  intros Hs. apply spec_intro. intros s' r Hr. pose proof Hr as Hr'. unfold begin_receive in Hr.
  pose proof (observe_acknowledgement_safe now (acknowledged_state i) s Hs) as Ho.
  cbv [mbind M_bind get gets lift mret M_ret] in Hr. unfold spec in Ho.
  destruct (validate_instruction i s) eqn:Hv; [|unfold validate_instruction in Hv; cases|unfold validate_instruction in Hv; cases].
  destruct (observe_acknowledgement _ s) as [s1 [d|e|]]; simplify_eq; done.
Qed.

Lemma begin_shutdown_receive_safe now i s :
  sync_ok now s → sync_spec (begin_shutdown_receive i)
    (λ t s', sync_ok now s' ∧ begin_shutdown_receive i s = (s', Ok t)) s.
Proof.
  intros Hs. apply spec_intro. intros s' r Hr. pose proof Hr as Hr'. unfold begin_shutdown_receive in Hr.
  pose proof (observe_acknowledgement_safe now (acknowledged_state i) s Hs) as Ho.
  cbv [mbind M_bind get fail_if throw mret M_ret] in Hr. unfold spec in Ho.
  destruct (_ || _); [by simplify_eq|]. cbn in Hr.
  destruct (observe_acknowledgement _ s) as [s1 [d|e|]]; simplify_eq; done.
Qed.

Definition rto_ok (rto : Z) : Prop := MIN_RETRANSMISSION_TIMEOUT_MS ≤ rto ≤ MAX_RETRANSMISSION_TIMEOUT_MS.

Lemma plan_send_cases now rto s :
  sync_ok now s → rto_ok rto →
  plan_send now rto s = Err NoNewState ∨ is_ok (plan_send now rto s) = true.
Proof.
  intros [Hwf Hs] Hr. unfold plan_send. unfold rto_ok in Hr. destruct (negb _) eqn:Hn; [lia|].
  destruct (plan_base_total now rto (known_receiver_state s) (rev (sent_states s))) as [b ->].
  { apply Forall_rev. eapply Forall_impl; [exact Hs|]. simpl. lia. }
  cbn. case_match; auto.
Qed.

(** After a local advance there is always something new to send. *)
Lemma plan_after_advance now rto s s' n :
  sync_ok now s → rto_ok rto → advance_local s = (s', Ok n) → is_ok (plan_send now rto s') = true.
Proof.
  intros Hs Hr Ha. pose proof (advance_local_safe now s Hs) as Hs'. unfold spec in Hs'. rewrite Ha in Hs'.
  destruct Hs' as [Hs' _]. destruct (plan_send_cases now rto s' Hs' Hr) as [He|]; [|done]. exfalso.
  assert (local_latest s' = local_latest s + 1 ∧ known_receiver_state s' = known_receiver_state s ∧
    sent_states s' = sent_states s) as (Hl & Hk & Hse).
  { clear - Ha. unfold advance_local in Ha. run. cases; checked; done. }
  unfold plan_send in He. destruct (negb _) eqn:Hn; [unfold rto_ok in Hr; lia|].
  destruct (plan_base _ _ _ _) as [b|e|] eqn:Hb; simplify_eq/=; cycle 1.
  { destruct (plan_base_total now rto (known_receiver_state s') (rev (sent_states s'))) as [b Hb'].
    - apply Forall_rev. eapply Forall_impl; [exact (so_sent _ _ Hs')|]. simpl. lia.
    - congruence. }
  destruct (Z.leb_spec (local_latest s') b); [|done]. destruct Hs as [[] _].
  apply plan_base_spec in Hb as [->|Hb]; [lia|]. apply list_elem_of_fmap in Hb as (x & -> & Hx).
  rewrite list_elem_of_In, <- in_rev, <- list_elem_of_In in Hx.
  rewrite Hse in Hx. eapply Forall_forall in wf_sent_range; [|exact Hx]. simpl in *. lia.
Qed.

Lemma commit_send_safe now rto p s :
  0 ≤ now → sync_ok now s → plan_send now rto s = Ok p →
  sync_spec (commit_send p) (λ c s', sync_ok now s' ∧ commit_send p s = (s', Ok c)) s.
Proof.
  intros Hn [Hwf Hs] Hp. destruct (plan_send_ok _ _ _ _ Hp) as (_ & _ & _ & Ht).
  apply spec_intro. intros s' r Hr. pose proof (commit_send_wf _ _ _ _ Hwf Hr) as Hwf'. pose proof Hr as Hr'.
  destruct (commit_send_fresh _ _ _ _ Hp) as [He|Hok].
  { rewrite Hr in He. simpl in He. by subst. }
  rewrite Hr in Hok. destruct r as [c|e|]; try done. split; [|done]. split; [done|].
  unfold commit_send in Hr. cbv [mbind M_bind get fail_if throw lift put mret M_ret] in Hr.
  destruct (_ || _); [done|]. cbn in Hr. destruct (checked_add _ _ _); [|done]. cbn in Hr.
  pose proof (record_sent_time (λ x, 0 ≤ sent_at_ms x ≤ now) p (known_receiver_state s) _ Hs) as Hrec.
  destruct (record_sent _ _ _) as [sent ev]. simplify_eq/=. apply Hrec. lia.
Qed.

Lemma commit_receive_safe now p s :
  sync_ok now s → apply_plan_ok s p → ap_generation p = receiver_generation s →
  sync_spec (commit_receive p) (λ c s', sync_ok now s' ∧ s' = received_after p s ∧
    c = mkReceiveCommit (receive_floor p s) (evict_received (receive_floor p s) (receive_retained p s)).2) s.
Proof.
  intros [Hwf Hs] Hp Hg. apply spec_intro. intros s' r Hr.
  pose proof (commit_receive_wf _ _ _ _ Hwf (λ _, Hp) Hr) as Hwf'.
  destruct (commit_receive_fresh p s Hp Hg) as [He|He]; rewrite Hr in He; simpl in He; [by subst|].
  injection He as -> ->. split; [by split|done].
Qed.

(** ** The client history *)
Lemma convert_operations_no_panic ops : no_panic (convert_operations ops).
Proof.
  induction ops as [|op ops IH]; [done|]. simpl. unfold wire_operation.
  destruct op; split_if; cbn; try done; by destruct (convert_operations ops).
Qed.

Lemma encode_client_difference_no_panic `{PR : Prost} ops : no_panic (encode_client_difference ops).
Proof.
  unfold encode_client_difference. split_if; [done|]. pose proof (convert_operations_no_panic ops).
  destruct (convert_operations ops); cbn; [|done|done]. by split_if.
Qed.

Lemma append_safe `{PR : Prost} `{PL : !ProstLaws PR} op s h :
  hist_ok s h → history_spec (append op) (λ _ h', hist_ok s h') h.
Proof.
  intros Hh. apply spec_intro. intros h' r Hr. pose proof Hr as Hr'. unfold append in Hr.
  cbv [mbind M_bind get fail_if throw lift put] in Hr.
  destruct (len _ =? _); [by simplify_eq/=|]. cbn in Hr. destruct (checked_add _ _ _); [|by simplify_eq/=].
  cbn in Hr. pose proof (encode_client_difference_no_panic (ClientHistory.operations h ++ [op])) as Hnp.
  destruct (encode_client_difference _); simplify_eq; [by eapply hist_ok_append|done|done].
Qed.

(** ** The terminal and the prediction *)
Section emulator.
Context `{VT : Vt100} `{VTE : Vte} `{UW : UnicodeWidth} `{PH : ProstHost} `{SS : !ScreenSet}.

Abbreviation prediction_spec := (spec (λ e, internal_error (DriverTerminal e)) emulator_panic).

Lemma TerminalDifference_decode_no_panic l : no_panic (TerminalDifference_decode l).
Proof.
  unfold TerminalDifference_decode. split_if; [done|]. destruct (host_difference_decode l) as [w|]; [|done].
  split_if; [done|]. enough (no_panic (decode_operations w)) as Hn by (destruct (decode_operations w); done).
  induction w as [|op w IH]; [done|]. simpl. unfold decode_operation. split_if; [done|].
  repeat case_match; cbn; destruct (decode_operations w); done.
Qed.

Lemma observe_input_safe client_state l authoritative now p :
  0 ≤ now → within authoritative → pred_wf now p →
  prediction_spec (observe_input client_state l authoritative now) (λ _ p', pred_wf now p') p.
Proof.
  intros Hn Ha Hwf. apply spec_intro. intros p' r Hr.
  destruct (observe_input_spec _ _ _ _ _ _ _ Hwf Ha Hn Hr) as (_ & Hp & Ho).
  destruct r; [by eapply Ho|done|by apply Hp].
Qed.

Lemma observe_authoritative_safe authoritative now p :
  within authoritative → pred_wf now p →
  prediction_spec (observe_authoritative authoritative) (λ _ p', pred_wf now p') p.
Proof.
  intros Ha Hwf. apply spec_intro. intros p' r Hr.
  destruct (observe_authoritative_spec _ _ _ _ _ Hwf Ha Hr) as (_ & Hp & _ & Ho).
  destruct r as [[]| |]; [by apply Ho|done|by apply Hp].
Qed.

Lemma display_within authoritative now p :
  within authoritative → pred_wf now p → within (display authoritative p).
Proof.
  intros Ha Hwf. unfold display. destruct (displaying_prediction p); [|done].
  pose proof (ps_projected _ (pw_shape _ _ Hwf)) as Hr. by destruct (projected p).
Qed.

Lemma prediction_expire_safe now p :
  pred_wf now p → prediction_spec (prediction_expire now) (λ _ p', pred_wf now p') p.
Proof.
  intros Hwf. unfold spec.
  destruct (prediction_expire_spec (E:=TerminalError) now p) as [[-> _]|[-> _]]; [apply cleared_wf|done].
Qed.

Lemma update_policy_safe now now' frame p :
  pred_wf now p → prediction_spec (update_policy now' frame) (λ _ p', pred_wf now p') p.
Proof.
  intros Hwf. pose proof (update_policy_wf (E:=TerminalError) now now' frame p Hwf) as Hw.
  pose proof (update_policy_total (E:=TerminalError) now' frame p) as Ht. unfold spec.
  destruct (update_policy now' frame p) as [p' [a|e|]]; done.
Qed.
End emulator.
