(* ===== verification/DriverSafety.v ===== *)
(** * The driver keeps its components consistent

    Every handler of the driver preserves the invariant below at the time the clock
    shows, never fails with an error that would mean a broken invariant, and panics
    only where the terminal emulator does. *)

From S2P Require Import Prelude Limits BTreeMap Packet Fragment Instruction Synchronization Timing.
From S2P Require Import Reachability TerminalWidth Emulator Terminal Prediction Errors ClientHistory Bootstrap Driver DriverInput DriverInv.

Local Open Scope Z_scope.

Section safety.
Context `{AE : Aead} `{AEL : !AeadLaws AE} `{PR : Prost} `{PL : !ProstLaws PR} `{ZL : Zlib} `{ZB : !ZlibBounds ZL}.
Context `{VT : Vt100} `{VTE : Vte} `{UW : UnicodeWidth} `{PH : ProstHost} `{SS : !ScreenSet}.

(** The server and the key of the session, the fragments that its datagrams can
    carry, and the script. *)
Context (server : SocketAddrV4) (codec : PacketCodec) (pool : list Fragment) (script : Env).
(** What the server's states can be. *)
Context (origin : Z → TerminalState → Prop) (origin_within : ∀ n t, origin n t → within t).

Abbreviation safe := (spec internal_error emulator_panic).

(** The clock of the script never goes back. *)
Definition clock_ok (now : Z) (e : Env) : Prop :=
  0 ≤ now ∧ last_clock e = now ∧ StronglySorted Z.le (now :: clock e).

Definition sequence_ok (s : SendSequence) : Prop := ∀ n, s = Some n → 0 ≤ n ≤ MAX_SEQUENCE.

(** The server's datagrams carry fragments from [pool]. *)
Definition genuine (result : (bytes * SocketAddr) + ErrorKind) : Prop :=
  match result with
  | inl (datagram, source) => ∀ f, datagram_fragment server codec datagram source = Some f → f ∈ pool
  | inr _ => True
  end.

(** The last time that the clock of a script shows. *)
Definition final_reading (e : Env) : Z := default (last_clock e) (last (clock e)).

Record input_ok (d : SessionDriver) : Prop := {
  in_clock : clock (env d) `suffix_of` clock script;
  in_final : final_reading (env d) = final_reading script;
  in_polls f : f ∈ authentic_fragments server codec (readies (env d)) → f ∈ pool;
  in_server : server_addr d = server;
  in_codec : receiver_codec (packet_receiver d) = codec;
  in_direction : receiver_direction (packet_receiver d) = ServerToClient;
  in_held : held_from pool (reassembler d);
}.

(** The output so far paints states within the set, the newest one last. *)
Definition output_ok (d : SessionDriver) : Prop :=
  ∃ log, painted_log (emitted (env d)) log ∧ painted_state d = newest log ∧ Forall (λ x, within x.2) log.

Record driver_inv (now : Z) (d : SessionDriver) : Prop := {
  di_clock : clock_ok now (env d);
  di_sync : sync_ok now (synchronization d);
  di_hist : hist_ok (synchronization d) (client_history d);
  di_terminals : terminals_ok (synchronization d) (terminal_states d);
  di_screens : map_Forall origin (terminal_states d);
  di_painted : opt_within (painted_state d);
  di_final : opt_within (final_terminal d);
  di_prediction : pred_wf now (prediction d);
  di_timing : dt_ok now (datagram_timing d);
  di_scheduler : sched_ok now (scheduler d);
  di_reachability : reach_ok now (reachability d);
  di_reassembler : reassembly_ok now (reassembler d);
  di_sequence : sequence_ok (send_sequence d);
  di_identifier n : fragment_identifier d = Some n → is_u64 n;
  di_input : input_ok d;
  di_output : output_ok d;
}.

(** What a send leaves alone. *)
Definition quiet (d d' : SessionDriver) : Prop :=
  synchronization d' = synchronization d ∧ scheduler d' = scheduler d ∧ client_history d' = client_history d.

#[local] Instance quiet_preorder : PreOrder quiet.
Proof. split; unfold quiet; [done|]. intros d1 d2 d3 (H1 & H2 & H3) (H4 & H5 & H6). split_and!; congruence. Qed.

(** Run the leading statement with its specification. *)
Tactic Notation "step" tactic3(t) := eapply spec_bind; [t|cbv beta].

(** Change one field, or several, that keep the invariant. *)
Ltac inv_set := cbv beta in *; match goal with H : driver_inv _ _ |- _ => destruct H end;
  match goal with H : input_ok _ |- _ => destruct H end;
  split; simpl; try done; try (match goal with |- input_ok _ => split; simpl; done end).

Lemma inv_pos now d : driver_inv now d → 0 ≤ now.
Proof. intros [[] ]. done. Qed.

(** ** The outside *)
Lemma authentic_suffix polls polls' f :
  polls' `suffix_of` polls → f ∈ authentic_fragments server codec polls' → f ∈ authentic_fragments server codec polls.
Proof.
  intros [k ->]. unfold authentic_fragments. rewrite !list_elem_of_omap. intros (r & Hr & Hf). exists r. set_solver.
Qed.

Lemma with_env_safe {A} (f : Env → Env * A) now d :
  (∀ e, clock (f e).1 = clock e ∧ last_clock (f e).1 = last_clock e ∧ readies (f e).1 `suffix_of` readies e ∧
     emitted (f e).1 = emitted e) →
  driver_inv now d → safe (with_env f) (λ _ d', driver_inv now d' ∧ quiet d d') d.
Proof.
  intros Hf Hinv. unfold spec, with_env. specialize (Hf (env d)). destruct (f (env d)) as [e a]. simpl in Hf.
  destruct Hf as (Hc & Hl & Hr & Ho). split; [|done].
  inv_set; [unfold clock_ok in *; simpl; by rewrite Hc, Hl| |unfold output_ok in *; simpl; by rewrite Ho].
  split; simpl; [by rewrite Hc|unfold final_reading in *; by rewrite Hc, Hl|intros fr Hfr; apply in_polls0; by eapply authentic_suffix|done..].
Qed.

Lemma cancellation_safe now d :
  driver_inv now d → safe cancellation_requested (λ _ d', driver_inv now d' ∧ quiet d d') d.
Proof. apply with_env_safe. intros e. by destruct (cancels e). Qed.

Lemma send_datagram_safe b now d :
  driver_inv now d → safe (send_datagram b) (λ _ d', driver_inv now d' ∧ quiet d d') d.
Proof. apply with_env_safe. intros e. by destruct (sends e). Qed.

Lemma wait_poll_datagram p g o r result :
  wait_poll p g o r = Some (WakeDatagram result) → ready_datagram p = Some result.
Proof. unfold wait_poll. intros H. repeat case_match; simplify_eq/=; destruct (ready_datagram p); by simplify_eq/=. Qed.

Lemma wait_ready_spec l g o r :
  (wait_ready l g o r).1 `suffix_of` l ∧
  (∀ result, (wait_ready l g o r).2 = Some (WakeDatagram result) → ∃ p, p ∈ l ∧ ready_datagram p = Some result) ∧
  ((wait_ready l g o r).2 = None → (wait_ready l g o r).1 = []).
Proof.
  induction l as [|p l (IH1 & IH2 & IH3)]; simpl; [done|]. destruct (wait_poll p g o r) as [w|] eqn:Hw.
  - split; [by apply suffix_cons_r|]. split; [|done]. intros result [= ->]. exists p. split; [by left|by eapply wait_poll_datagram].
  - split; [by apply suffix_cons_r|]. split; [|done]. intros result Hr. destruct (IH2 result Hr) as (q & Hq & Hd). exists q. by split; [right|].
Qed.

Lemma wait_permit_suffix l :
  (wait_permit l).1 `suffix_of` l ∧ ((wait_permit l).2 = None → (wait_permit l).1 = []).
Proof.
  induction l as [|p l [IH1 IH2]]; simpl; [done|]. repeat case_match; simpl; (split; [by apply suffix_cons_r|done]).
Qed.

Lemma wait_next_safe g o r now d :
  driver_inv now d →
  safe (wait_next g o r)
    (λ w d', driver_inv now d' ∧ quiet d d' ∧ (∀ result, w = Some (WakeDatagram result) → genuine result) ∧
       (w = None → readies (env d') = [])) d.
Proof.
  intros Hinv. pose proof (wait_ready_spec (readies (env d)) g o r) as (Hs & Hd & Hend).
  assert (safe (wait_next g o r) (λ _ d', driver_inv now d' ∧ quiet d d') d) as Hsafe.
  { apply with_env_safe; [|done]. intros e. pose proof (wait_ready_spec (readies e) g o r) as [He _]. destruct (wait_ready (readies e) g o r). split_and!; [done|done|exact He|done]. }
  unfold spec, wait_next, with_env in *. destruct (wait_ready (readies (env d)) g o r) as [rest w]. destruct Hsafe as [Hinv' Hq].
  split_and!; [done|done| |done]. intros result ->. destruct (Hd result eq_refl) as (p & Hp & Hr).
  destruct result as [[datagram source]|]; [|done]. intros f Hf. apply (in_polls _ (di_input _ _ Hinv)).
  apply list_elem_of_omap. exists p. split; [done|]. unfold poll_fragment. by rewrite Hr.
Qed.

Lemma final_reading_cons e e' :
  clock e = last_clock e' :: clock e' → final_reading e' = final_reading e.
Proof. intros Hc. unfold final_reading. rewrite Hc, last_cons. by destruct (last (clock e')). Qed.

Lemma inv_later now now' e d :
  now ≤ now' → clock_ok now' e → clock e `suffix_of` clock (env d) → final_reading e = final_reading (env d) →
  readies e = readies (env d) → emitted e = emitted (env d) →
  driver_inv now d → driver_inv now' (set_env e d).
Proof.
  intros Hle He Hc Hfin Hr Ho []. split; simpl; try done.
  - by eapply sync_ok_later.
  - by eapply pred_wf_later.
  - destruct di_timing0. split; [done|lia].
  - unfold sched_ok in *. lia.
  - destruct di_reachability0. split; [by eapply reach_wf_mono|done].
  - destruct di_reassembler0. split; [done|lia].
  - destruct di_input0. split; simpl; [by etrans|by rewrite Hfin|by rewrite Hr|done..].
  - unfold output_ok in *. simpl. by rewrite Ho.
Qed.

Lemma now_ms_safe now d :
  driver_inv now d → safe now_ms (λ t d', driver_inv t d' ∧ quiet d d') d.
Proof.
  intros Hinv. apply (spec_bind _ _ _ _ (λ t d', driver_inv t d' ∧ quiet d d')).
  - unfold spec, with_env, read_clock. destruct (di_clock _ _ Hinv) as (H0 & Hl & Hs).
    destruct (clock (env d)) as [|t rest] eqn:Hc.
    + rewrite Hl. split; [by inv_set|done].
    + inversion Hs as [|?? Hs' Hall]; subst. apply Forall_cons in Hall as [Hle _]. split; [|done].
      eapply inv_later; [done|split; simpl; [lia|done]|rewrite Hc; by apply suffix_cons_r|by apply final_reading_cons|done|done|exact Hinv].
  - intros t d' H. unfold spec, lift, try_from. destruct (_ && _); done.
Qed.

(** Run a component's method and keep the rest. *)
Lemma on_scheduler_safe {A} (m : M SendScheduler TimingError A) (Q : A → SendScheduler → Prop) now d :
  driver_inv now d → spec (λ e, internal_error (DriverTiming e)) False m (λ a s, sched_ok now s ∧ Q a s) (scheduler d) →
  safe (on_scheduler m) (λ a d', driver_inv now d' ∧ synchronization d' = synchronization d ∧ Q a (scheduler d')) d.
Proof.
  intros Hinv Hm. apply spec_zoom, spec_no_panic. eapply spec_mono; [exact Hm|]. intros a s [Hs Hq].
  split; [by inv_set|done].
Qed.

Lemma on_timing_safe {A} (m : M DatagramTiming TimingError A) (Q : A → DatagramTiming → Prop) now d :
  driver_inv now d → spec (λ e, internal_error (DriverTiming e)) False m (λ a t, dt_ok now t ∧ Q a t) (datagram_timing d) →
  safe (on_datagram_timing m) (λ a d', driver_inv now d' ∧ quiet d d' ∧ Q a (datagram_timing d')) d.
Proof.
  intros Hinv Hm. apply spec_zoom, spec_no_panic. eapply spec_mono; [exact Hm|]. intros a s [Hs Hq].
  split; [by inv_set|done].
Qed.

Lemma on_prediction_safe {A} (m : M LocalPrediction TerminalError A) now d :
  driver_inv now d → spec (λ e, internal_error (DriverTerminal e)) emulator_panic m (λ _ p, pred_wf now p) (prediction d) →
  safe (on_prediction m) (λ _ d', driver_inv now d') d.
Proof. intros Hinv Hm. apply spec_zoom. eapply spec_mono; [exact Hm|]. intros a p Hp. by inv_set. Qed.

(** ** Shared steps *)
Lemma publish_reachability_safe now d :
  driver_inv now d → safe (publish_reachability now) (λ _ d', driver_inv now d' ∧ quiet d d') d.
Proof.
  intros Hinv. apply (spec_bind _ _ _ _ (λ _ d', driver_inv now d' ∧ quiet d d')).
  { apply spec_zoom, spec_no_panic. eapply spec_mono; [apply update_safe, Hinv|]. intros a t Ht. split; [by inv_set|done]. }
  intros [r|] d' [Hinv' Hq]; split; try done. by inv_set.
Qed.

Lemma retransmission_timeout_ok now d : driver_inv now d → rto_ok (retransmission_timeout d).
Proof. intros []. destruct di_timing0 as [[] _]. done. Qed.

Lemma defer_receive_safe now d : driver_inv now d → safe (defer_receive now) (λ _ d', driver_inv now d') d.
Proof.
  intros Hinv. apply spec_get_bind, spec_lift_bind. destruct (checked_add _ _ _); [|done].
  apply spec_modify. by inv_set.
Qed.

Lemma terminal_state_bind {B} n (f : TerminalState → M SessionDriver DriverError B) Q now d :
  driver_inv now d → n ∈ received_states (synchronization d) → (∀ t, origin n t → safe (f t) Q d) →
  safe (terminal_state n ≫= f) Q d.
Proof.
  intros Hinv Hn Hf. destruct (proj2 (di_terminals _ _ Hinv n) Hn) as [t Ht].
  unfold terminal_state. unfold spec, mbind, M_bind, get, lift. rewrite Ht. apply Hf.
  by apply (di_screens _ _ Hinv n).
Qed.

Lemma latest_received now d : driver_inv now d → remote_latest (synchronization d) ∈ received_states (synchronization d).
Proof. intros []. destruct di_sync0 as [[] _]. done. Qed.

(** A new local state and its checkpoint: between the two the invariant is broken. *)
Lemma advance_checkpoint {B} (k : Z → M SessionDriver DriverError B) Q now d :
  driver_inv now d →
  (∀ n d', driver_inv now d' → scheduler d' = scheduler d →
     advance_local (synchronization d) = (synchronization d', Ok n) → safe (k n) Q d') →
  safe (state ← on_synchronization advance_local; on_client_history (checkpoint state) ;; k state) Q d.
Proof.
  intros Hinv Hk. pose proof (advance_local_safe now _ (di_sync _ _ Hinv)) as Ha.
  unfold spec, on_synchronization, on_client_history, zoom, mbind, M_bind in *.
  destruct (advance_local (synchronization d)) as [s' [n|e|]] eqn:Hadv; simpl; [|done|done].
  destruct Ha as [Hs _]. apply (Hk n); [|done|done].
  assert (hist_ok s' (checkpoint n (client_history d)).1) as Hh by (eapply hist_ok_advance; [apply Hinv|done|done]).
  pose proof (advance_local_moves _ _ _ Hadv) as [_ Hr]. injection Hr as _ _ Hr _. inv_set.
  intros m. rewrite Hr. apply di_terminals0.
Qed.

(** ** Commands *)
Lemma advance_client_safe op now d : driver_inv now d → safe (advance_client op now) (λ _ d', driver_inv now d') d.
Proof.
  intros Hinv. apply (spec_bind _ _ _ _ (λ _ d', driver_inv now d')).
  { apply spec_zoom, spec_no_panic. eapply spec_mono; [by apply append_safe, Hinv|]. intros a h Hh. by inv_set. }
  clear d Hinv. intros [] d Hinv. eapply advance_checkpoint; [done|]. intros n d' Hinv' _ _.
  eapply spec_bind.
  - apply (on_scheduler_safe _ (λ _ _, True) now); [done|].
    eapply spec_mono; [apply note_local_change_safe, Hinv'|]. done.
  - intros a d2 [Hinv2 _]. done.
Qed.

Lemma predict_input_safe state input now d :
  driver_inv now d → safe (predict_input state input now) (λ _ d', driver_inv now d') d.
Proof.
  intros Hinv. apply spec_get_bind. eapply terminal_state_bind; [done|by eapply latest_received|]. intros t Ht%origin_within.
  eapply spec_bind.
  - apply on_prediction_safe; [done|]. apply observe_input_safe; [by eapply inv_pos|done|apply Hinv].
  - intros [] d' Hinv'; [|done]. apply spec_modify. by inv_set.
Qed.

(** An operation that moves the clock forward and keeps the invariant. *)
Definition keeps (d : SessionDriver) : Prop := ∃ now, driver_inv now d.

Lemma handle_command_safe command now d : driver_inv now d → safe (handle_command command) (λ _ d', keeps d') d.
Proof.
  intros Hinv. step (by eapply now_ms_safe). clear Hinv. intros t d1 [Hinv _].
  destruct command as [input|columns rows|].
  - case_bool_decide; [by exists t|]. step (by apply advance_client_safe).
    intros n d2 Hinv2. eapply spec_mono; [by apply predict_input_safe|]. intros ? d3 Hinv3. by exists t.
  - step (by apply advance_client_safe). intros n d2 Hinv2. apply spec_get_bind.
    eapply spec_mono; [by apply predict_input_safe|]. intros ? d3 Hinv3. by exists t.
  - eapply spec_bind; [apply (on_prediction_safe _ t); [done|apply cleared_wf]|]. clear Hinv. intros b d2 Hinv.
    exists t. by inv_set.
Qed.

(** ** Sending *)
Lemma take_sequence_safe now d :
  driver_inv now d →
  safe (zoom send_sequence set_send_sequence DriverPacket SendSequence_take)
    (λ seq d', driver_inv now d' ∧ quiet d d' ∧ 0 ≤ seq ≤ MAX_SEQUENCE) d.
Proof.
  intros Hinv. apply spec_zoom. unfold spec, SendSequence_take. destruct (send_sequence d) as [seq|] eqn:Hs; [|done].
  pose proof (di_sequence _ _ Hinv seq Hs) as Hr. split; [|done]. inv_set. intros n.
  destruct (checked_add _ _ _) eqn:Hc; [|done]. checked. destruct (Z.leb_spec (seq + 1) MAX_SEQUENCE); [|done].
  intros [= <-]. lia.
Qed.

(** The two buffers of a send keep their size. *)
Definition buffer_ok (b : bytes) : Prop := len b = MAX_DATAGRAM_BYTES.

Lemma len_replicate_max : buffer_ok (replicate (Z.to_nat MAX_DATAGRAM_BYTES) 0).
Proof. unfold buffer_ok, len. rewrite length_replicate. llia. Qed.

Lemma len_overwrite {A} n (a b : list A) : len a = n → n ≤ len b → len (a ++ drop (Z.to_nat n) b) = len b.
Proof. intros <- Hb. rewrite len_app, len_drop. pose proof (len_nonneg a). lia. Qed.

(** One fragment is encoded and sealed within the buffers. *)
Lemma encode_buffer ts reply id num fin body buf :
  num ≤ MAX_FRAGMENT_NUMBER → len body ≤ MAX_FRAGMENT_BODY_BYTES → buffer_ok buf →
  ∃ buf', encode ts reply id num fin body buf = (buf', Ok (14 + len body)) ∧ buffer_ok buf' ∧
    slice (E:=DriverError) 0 (14 + len body) buf' = Ok (envelope ts reply id num fin body).
Proof.
  intros Hn Hb Hbuf. unfold buffer_ok in *. pose proof (len_nonneg body).
  rewrite encode_Ok by (done || (change FRAGMENT_HEADER_BYTES with 14; llia)).
  eexists. split; [done|]. split.
  - rewrite len_overwrite; [done|apply len_envelope|llia].
  - apply (slice_mid 0 (14 + len body) [] _ _); [done|]. rewrite len_envelope. done.
Qed.

Lemma seal_buffer c dir seq pt buf :
  0 ≤ seq ≤ MAX_SEQUENCE → len pt ≤ MAX_PLAINTEXT_BYTES → buffer_ok buf →
  ∃ buf' datagram, PacketCodec_seal c dir seq pt buf = (buf', Ok (OVERHEAD_BYTES + len pt)) ∧ buffer_ok buf' ∧
    slice (E:=DriverError) 0 (OVERHEAD_BYTES + len pt) buf' = Ok datagram ∧ len datagram = OVERHEAD_BYTES + len pt.
Proof.
  intros Hs Hp Hbuf. unfold buffer_ok in *. pose proof (len_nonneg pt).
  destruct (PacketCodec_seal_Ok c dir seq pt buf) as (ct & tag & _ & Hct & Htag & ->);
    [done|done|unfold MAX_PLAINTEXT_BYTES in Hp; lia|].
  assert (len (to_be_bytes 8 (Z.lor (header_bit dir) seq) ++ ct ++ tag) = OVERHEAD_BYTES + len pt) as Hl.
  { rewrite !len_app, len_to_be_bytes, Hct, Htag. unfold OVERHEAD_BYTES, HEADER_BYTES. lia. }
  do 2 eexists. split; [done|]. split; [|split].
  - rewrite len_overwrite; [done|done|]. unfold MAX_PLAINTEXT_BYTES in Hp. lia.
  - apply (slice_mid 0 _ [] _ _); [done|]. rewrite Hl. done.
  - done.
Qed.

Lemma send_fragments_safe ts id count bodies now :
  ∀ number pbuf dbuf d,
  driver_inv now d → 0 ≤ number → number + len bodies ≤ MAX_FRAGMENTS_PER_INSTRUCTION →
  Forall (λ b, len b ≤ MAX_FRAGMENT_BODY_BYTES) bodies → buffer_ok pbuf → buffer_ok dbuf →
  safe (send_fragments ts id count number bodies pbuf dbuf) (λ _ d', driver_inv now d' ∧ quiet d d') d.
Proof.
  induction bodies as [|body rest IH]; intros num pbuf dbuf d Hinv Hnum Hlen Hb Hpb Hdb; [by split|].
  rewrite len_cons in Hlen. pose proof (len_nonneg rest). apply Forall_cons in Hb as [Hbody Hrest].
  pose proof (len_nonneg body).
  step (by apply cancellation_safe). intros [] d1 [Hinv1 Hq1]; [by split|].
  apply spec_lift_bind. unfold try_from. replace ((0 <=? num) && (num <=? U16_MAX)) with true by llia. simpl.
  destruct (encode_buffer (Timing.timestamp ts) (Timing.timestamp_reply ts) id num (num + 1 =? count) body pbuf)
    as (pbuf' & -> & Hpb' & Hview); [change MAX_FRAGMENT_NUMBER with 32767; llia|done|done|].
  apply spec_lift_bind. simpl. step (by apply take_sequence_safe).
  intros seq d2 (Hinv2 & Hq2 & Hseq). apply spec_get_bind, spec_lift_bind. rewrite Hview.
  destruct (seal_buffer (packet_codec d2) ClientToServer seq
    (envelope (Timing.timestamp ts) (Timing.timestamp_reply ts) id num (num + 1 =? count) body) dbuf)
    as (dbuf' & datagram & -> & Hdb' & Hout & Hdl);
    [done|rewrite len_envelope; unfold MAX_PLAINTEXT_BYTES, OVERHEAD_BYTES, HEADER_BYTES, TAG_BYTES; llia|done|].
  apply spec_lift_bind. simpl. apply spec_lift_bind. rewrite Hout.
  step (by apply send_datagram_safe). intros [sent|kind] d3 [Hinv3 Hq3].
  - apply spec_fail_if_bind; [done|]. intros _.
    eapply spec_mono; [apply IH; done || lia|]. intros a d4 [Hinv4 Hq4]. split; [done|].
    etrans; [done|]. etrans; [done|]. by etrans.
  - apply spec_get_bind. split_if; [|done]. split; [done|]. etrans; [done|]. by etrans.
Qed.

Lemma fragment_count_ok (compressed : bytes) :
  len compressed ≤ MAX_COMPRESSED_INSTRUCTION_BYTES →
  len (chunks (Z.to_nat MAX_FRAGMENT_BODY_BYTES) compressed) ≤ MAX_FRAGMENTS_PER_INSTRUCTION ∧
  Forall (λ b, len b ≤ MAX_FRAGMENT_BODY_BYTES) (chunks (Z.to_nat MAX_FRAGMENT_BODY_BYTES) compressed).
Proof.
  intros Hl. split.
  - rewrite chunks_length by (vm_compute; lia).
    etrans; [apply div_ceil_mono; [by vm_compute|exact Hl]|]. by vm_compute.
  - eapply Forall_impl; [apply chunks_bound; vm_compute; lia|]. intros b [_ Hb]. unfold len. cbv beta in *. llia.
Qed.

Lemma encode_zlib_cases i :
  (∃ c, encode_zlib i = Ok c ∧ len c ≤ MAX_COMPRESSED_INSTRUCTION_BYTES) ∨
  encode_zlib i = Err DecodedTooLarge ∨ encode_zlib i = Err CompressedTooLarge.
Proof.
  unfold encode_zlib. split_if; [auto|]. cbn zeta.
  destruct (Z.ltb_spec MAX_COMPRESSED_INSTRUCTION_BYTES (len (compress_to_vec_zlib (instruction_to_vec i) ZLIB_LEVEL)));
    [auto|left; eauto].
Qed.

Lemma send_transport_safe i now d :
  driver_inv now d → safe (send_transport_instruction i now) (λ _ d', driver_inv now d' ∧ quiet d d') d.
Proof.
  intros Hinv. apply spec_lift_bind.
  destruct (encode_zlib_cases i) as [(c & -> & Hc)|[-> | ->]]; [|done|done]. simpl.
  eapply spec_bind; [apply (on_timing_safe _ (λ _ _, True) now _ Hinv)|].
  { eapply spec_mono; [apply outgoing_safe; [by eapply inv_pos|apply Hinv]|]. intros a t (Ht & _). done. }
  intros ts d1 (Hinv1 & Hq1 & _).
  apply (spec_bind _ _ _ _ (λ _ d', driver_inv now d' ∧ quiet d d')).
  { apply spec_zoom. unfold InstructionIdentifier_take, spec. cbv [mbind M_bind get lift put mret M_ret ok_or].
    destruct (fragment_identifier d1) as [id|] eqn:Hid; [|done]. split; [|done].
    pose proof (di_identifier _ _ Hinv1 id Hid). clear Hinv. inv_set. intros n Hn. checked. unfold is_u64 in *. lia. }
  intros id d2 [Hinv2 Hq2]. destruct (fragment_count_ok c Hc) as [Hcount Hbodies].
  eapply spec_mono; [apply send_fragments_safe; try done|]; [apply len_replicate_max..|].
  intros a d3 [Hinv3 Hq3]. split; [done|]. by etrans.
Qed.

(** What a plan needs to be committed. *)
Definition plan_fresh (now : Z) (d : SessionDriver) (p : SendPlan) : Prop :=
  ∃ rto, plan_send now rto (synchronization d) = Ok p.

Lemma plan_fresh_quiet now d d' p : quiet d d' → plan_fresh now d p → plan_fresh now d' p.
Proof. intros (Hs & _) [rto Hp]. exists rto. by rewrite Hs. Qed.

Lemma plan_at_bind {B} n s0 (k : SendPlan → M SessionDriver DriverError B) Q now d :
  driver_inv now d → sync_ok now s0 → advance_local s0 = (synchronization d, Ok n) →
  (∀ p, plan_fresh now d p → safe (k p) Q d) → safe (plan_at now ≫= k) Q d.
Proof.
  intros Hinv Hs0 Ha Hk.
  pose proof (plan_after_advance now (retransmission_timeout d) _ _ _ Hs0 (retransmission_timeout_ok _ _ Hinv) Ha) as Hp.
  unfold plan_at, spec, mbind, M_bind, get, lift.
  destruct (plan_send now _ (synchronization d)) as [p|e|] eqn:He; try done. apply Hk. by eexists.
Qed.

Lemma plan_difference_bind {B} p (k : bytes → M SessionDriver DriverError B) Q now d :
  driver_inv now d → plan_fresh now d p → (∀ b, safe (k b) Q d) →
  safe (lift (difference (sp_base_state p) (sp_target_state p) (client_history d)) ≫= k) Q d.
Proof.
  intros Hinv [rto Hp] Hk. destruct (plan_send_ok _ _ _ _ Hp) as ([] & _).
  destruct (di_hist _ _ Hinv) as [Hrel Hkn Hl Hs].
  destruct (hist_ok_difference (sp_base_state p) (sp_target_state p) (synchronization d) (client_history d)) as [b Hb].
  - apply Hinv.
  - lia.
  - destruct sp_base_known as [-> | (x & -> & Hx)%list_elem_of_fmap]; [done|by apply Hs].
  - by rewrite sp_target_latest.
  - apply spec_lift_bind. rewrite Hb. apply Hk.
Qed.

Lemma commit_plan_safe p now d :
  driver_inv now d → plan_fresh now d p →
  safe (commit_plan p) (λ _ d', driver_inv now d' ∧ scheduler d' = scheduler d) d.
Proof.
  intros Hinv [rto Hp]. pose proof (commit_send_safe now rto p _ (inv_pos _ _ Hinv) (di_sync _ _ Hinv) Hp) as Hc.
  unfold commit_plan. unfold spec, on_synchronization, on_client_history, zoom, mbind, M_bind in *.
  destruct (commit_send p (synchronization d)) as [s' [c|e|]] eqn:Hcs; simpl; [|done|done].
  destruct Hc as [Hs _]. destruct (commit_send_moves _ _ _ _ Hcs) as [_ Hr]. injection Hr as _ _ Hr _.
  pose proof (λ h', hist_ok_commit p (synchronization d) s' c (client_history d) h') as Hh.
  destruct (sc_capacity_evicted_state c) as [ev|]; simpl.
  - specialize (Hh _ (so_wf _ _ (di_sync _ _ Hinv)) (di_hist _ _ Hinv) Hcs eq_refl).
    split; [|done]. inv_set. intros m. rewrite Hr. apply di_terminals0.
  - specialize (Hh _ (so_wf _ _ (di_sync _ _ Hinv)) (di_hist _ _ Hinv) Hcs eq_refl).
    split; [|done]. inv_set. intros m. rewrite Hr. apply di_terminals0.
Qed.

Lemma plan_or_advance_safe now d :
  driver_inv now d →
  safe (plan_or_advance now) (λ p d', driver_inv now d' ∧ plan_fresh now d' p ∧ scheduler d' = scheduler d) d.
Proof.
  intros Hinv. apply spec_get_bind.
  destruct (plan_send_cases now (retransmission_timeout d) (synchronization d) (di_sync _ _ Hinv)
    (retransmission_timeout_ok _ _ Hinv)) as [-> | Hok].
  - eapply advance_checkpoint; [done|]. intros n d' Hinv' Hsch Ha.
    unfold plan_at, spec, get, lift, mbind, M_bind.
    pose proof (plan_after_advance now (retransmission_timeout d') _ _ _ (di_sync _ _ Hinv)
      (retransmission_timeout_ok _ _ Hinv') Ha) as Hp.
    destruct (plan_send now _ (synchronization d')) as [p|e|] eqn:He; try done. split; [done|]. split; [by eexists|done].
  - destruct (plan_send _ _ _) as [p|e|] eqn:He; try done. split; [done|]. split; [by eexists|done].
Qed.

Lemma send_instruction_safe wake now d :
  driver_inv now d → wake_fresh (scheduler d) wake → safe (send_instruction wake now) (λ _ d', keeps d') d.
Proof.
  intros Hinv Hw. step (by apply plan_or_advance_safe).
  intros p d1 (Hinv1 & Hp1 & Hsch1). apply spec_get_bind. eapply plan_difference_bind; [done|done|]. intros diff.
  step (by apply send_transport_safe). intros outcome d2 [Hinv2 Hq2].
  pose proof (plan_fresh_quiet _ _ _ _ Hq2 Hp1) as Hp2. destruct Hq2 as (_ & Hsch2 & _).
  destruct outcome.
  - step (by eapply commit_plan_safe). intros [] d3 [Hinv3 Hsch3].
    eapply spec_mono; [apply (on_scheduler_safe _ (λ _ _, True) now); [done|]|].
    + eapply spec_mono; [apply (scheduler_commit_safe _ now); [apply Hinv3|]|done].
      by rewrite Hsch3, Hsch2, Hsch1.
    + intros a d4 [Hinv4 _]. by exists now.
  - by exists now.
  - step (by eapply now_ms_safe). intros t d3 [Hinv3 _]. apply spec_get_bind.
    eapply spec_mono; [apply (on_scheduler_safe _ (λ _ _, True) t); [done|]|].
    + eapply spec_mono; [apply defer_send_safe, Hinv3|done].
    + intros a d4 [Hinv4 _]. by exists t.
Qed.

Lemma send_shutdown_acknowledgement_safe now d :
  driver_inv now d → safe (send_shutdown_acknowledgement now) (λ _ d', driver_inv now d') d.
Proof.
  intros Hinv. eapply advance_checkpoint; [done|]. intros n d1 Hinv1 _ Ha.
  eapply plan_at_bind; [done|apply Hinv|exact Ha|]. intros p Hp. apply spec_get_bind.
  eapply plan_difference_bind; [done|done|]. intros diff.
  step (by apply send_transport_safe). intros outcome d2 [Hinv2 Hq2].
  destruct outcome; [|done|done].
  eapply spec_bind; [eapply commit_plan_safe; [done|by eapply plan_fresh_quiet]|]. intros [] d3 [Hinv3 _]. done.
Qed.

Lemma send_shutdown_request_safe now d :
  driver_inv now d → safe (send_shutdown_request now) (λ _ d', driver_inv now d') d.
Proof.
  intros Hinv. apply spec_get_bind. destruct (di_hist _ _ Hinv) as [Hrel Hk Hl Hs].
  destruct (hist_ok_difference (known_receiver_state (synchronization d)) (local_latest (synchronization d))
    (synchronization d) (client_history d)) as [b Hb]; [apply Hinv| |done|done|].
  { destruct (di_sync _ _ Hinv) as [[] _]. lia. }
  apply spec_lift_bind. rewrite Hb. eapply spec_mono; [by apply send_transport_safe|]. intros a d' [H _]. done.
Qed.

(** ** Receiving *)
Lemma classify_receive_safe result now d :
  driver_inv now d → safe (classify_receive result) (λ r d', keeps d' ∧ ∀ x, r = Some x → result = inl x) d.
Proof.
  intros Hinv. destruct result as [received|kind].
  - split; [exists now; by inv_set|by intros x [= ->]].
  - apply spec_get_bind. split_if; [|done].
    step (by eapply now_ms_safe). intros t d1 [Hinv1 _].
    step (by apply defer_receive_safe). intros [] d2 Hinv2. split; [by exists t|done].
Qed.

Lemma decode_zlib_safe c : no_panic (decode_zlib c) ∧ ∀ i, decode_zlib c = Ok i → instruction_wf i.
Proof.
  unfold decode_zlib. split_if; [done|]. destruct (decompress_returns c) as (r & -> & Hr & _).
  destruct r as [out|e|]; [|done|done]. destruct (instruction_decode out) as [i|] eqn:Hd; [|done].
  split_if; [|done]. split; [done|]. intros i' [= <-]. by eapply instruction_decode_wf.
Qed.

(** A datagram that opens gives a fragment from the pool, and changes only the window. *)
Lemma PacketReceiver_open_opened receiver datagram receiver' datagram' r :
  PacketReceiver_open (receiver, datagram) = ((receiver', datagram'), r) →
  receiver_codec receiver' = receiver_codec receiver ∧ receiver_direction receiver' = receiver_direction receiver ∧
  ∀ opened, r = Ok opened → (PacketCodec_open (receiver_codec receiver) (receiver_direction receiver) datagram).2 = Ok opened.
Proof.
  unfold PacketReceiver_open. destruct (PacketCodec_open _ _ datagram) as [b [packet|e|]]; [|intros; by simplify_eq..].
  destruct (ReplayWindow_accept _ _) as [w [[]|e|]]; [intros; simplify_eq; split_and!; [done..|by intros ? [= <-]]| |intros; by simplify_eq].
  destruct (on_slice _ _ _ _ _) as [b' ?]. intros. by simplify_eq.
Qed.

Lemma open_datagram_input datagram source d d' r :
  input_ok d → genuine (inl (datagram, source)) → open_datagram datagram source d = (d', r) →
  input_ok d' ∧ ∀ opened f, r = Ok opened → decode (plaintext opened) = Ok f → f ∈ pool.
Proof.
  intros [Hc Hfin Hp Hs Hcod Hdir Hheld] Hg. unfold open_datagram, PacketReceiver_open_from. rewrite Hs. case_bool_decide as Hsrc.
  - destruct (PacketReceiver_open _) as [[receiver buf] x] eqn:Ho. intros [= <- <-].
    apply PacketReceiver_open_opened in Ho as (Hcod' & Hdir' & Hopen). split; [split; simpl; done || congruence|].
    intros opened f -> Hf. apply Hg. unfold datagram_fragment. rewrite bool_decide_eq_true_2 by done.
    specialize (Hopen opened eq_refl). rewrite Hcod, Hdir in Hopen. by rewrite Hopen, Hf.
  - intros [= <- <-]. by split.
Qed.

Lemma push_input_safe t f d :
  driver_inv t d → f ∈ pool → 0 ≤ Fragment.number f →
  safe (on_reassembler (push t f))
    (λ outcome d', driver_inv t d' ∧ ∀ c, outcome = Complete c → assembled pool c) d.
Proof.
  intros Hinv Hf Hnum. apply spec_zoom. pose proof (push_safe t f _ (di_reassembler _ _ Hinv) Hnum) as Hs.
  pose proof (push_from pool t f _ (in_held _ (di_input _ _ Hinv)) Hf) as Hp. unfold spec, wp in *.
  destruct (push t f (reassembler d)) as [r' [outcome|e|]]; simpl in *; [|done|done]. destruct Hp as [Hheld Hc].
  split; [by inv_set|]. intros c ->. by apply Hc.
Qed.

(** From here on the peer's instructions lead from states of the server to states of
    the server. *)
Context (Hpeer : peer_stays origin pool).

Definition instruction_ok (i : TransportInstruction) : Prop := instruction_wf i ∧ difference_stays origin (base_state i) (new_state i) (state_difference i).

Lemma decode_datagram_safe datagram source now d :
  driver_inv now d → genuine (inl (datagram, source)) →
  safe (decode_datagram datagram source) (λ r d', keeps d' ∧ ∀ i, r = Some i → instruction_ok i) d.
Proof using All.
  intros Hinv Hg. step (by eapply now_ms_safe). clear Hinv. intros t d1 [Hinv _].
  apply spec_handle. intros d2 r Hr.
  destruct (open_datagram_input _ _ _ _ _ (di_input _ _ Hinv) Hg Hr) as [Hin Hpool].
  assert (driver_inv t d2 ∧ match r with Ok _ => True | Err e => is_dropped e = true | Panic => False end) as [Hinv2 Hnp].
  { unfold open_datagram, PacketReceiver_open_from in Hr. case_bool_decide.
    - pose proof (PacketReceiver_open_cases (packet_receiver d1) datagram) as Hn.
      destruct (PacketReceiver_open _) as [[receiver buf] x]. injection Hr as <- <-.
      split; [destruct Hinv; by split|]. destruct x as [|[]|]; done.
    - injection Hr as <- <-. split; [destruct Hinv; by split|done]. }
  clear Hr Hin Hinv d1. destruct r as [opened|e|]; [|rewrite Hnp; split; [by exists t|done]|done].
  specialize (λ f, Hpool opened f eq_refl). apply spec_lift_bind. pose proof (decode_cases (plaintext opened)) as Hdec.
  destruct (decode (plaintext opened)) as [f|[]|]; try done. simpl. destruct Hdec as (_ & _ & _ & Hnum).
  eapply spec_bind; [apply (on_timing_safe _ (λ _ _, True) t _ Hinv2)|].
  { eapply spec_mono; [apply observe_received_safe; [by eapply inv_pos|apply Hinv2]|]. done. }
  intros _ d3 (Hinv3 & _ & _). step (apply push_input_safe; [done|by apply Hpool|lia]).
  intros outcome d4 [Hinv4 Hasm]. destruct outcome as [| |compressed]; try (split; [by exists t|done]).
  apply spec_lift_bind. destruct (decode_zlib_safe compressed) as [Hn Hi].
  destruct (decode_zlib compressed) as [i|e|] eqn:Hz; [|done|done]. split; [by exists t|]. intros i' [= <-].
  split; [by apply Hi|]. by eapply Hpeer; [apply Hasm|].
Qed.

Lemma hist_ok_half s s' h : sender_half s' = sender_half s → hist_ok s h → hist_ok s' h.
Proof.
  unfold sender_half. intros H [Hrel Hk Hl Hs]. injection H as Hl' Hk' Hs' _.
  split; rewrite ?Hl', ?Hk', ?Hs'; done.
Qed.

Lemma terminals_ok_half s s' T : receiver_half s' = receiver_half s → terminals_ok s T → terminals_ok s' T.
Proof. unfold receiver_half. intros H HT n. injection H as _ _ Hr _. rewrite Hr. apply HT. Qed.

Lemma map_Forall_filter_origin (P : Z → Prop) `{∀ n, Decision (P n)} (T : gmap Z TerminalState) :
  map_Forall origin T → map_Forall origin (filter (λ '(n, _), P n) T).
Proof. intros HT n t [Ht _]%map_lookup_filter_Some. by apply (HT n). Qed.

(** The accepted state: the commit and the update of the terminal states. *)
Lemma commit_terminals {B} p next (k : M SessionDriver DriverError B) Q now d :
  driver_inv now d → origin (ap_target_state p) next →
  apply_plan_ok (synchronization d) p → ap_generation p = receiver_generation (synchronization d) →
  (∀ d', driver_inv now d' → ap_target_state p ∈ received_states (synchronization d') → safe k Q d') →
  safe (commit ← on_synchronization (commit_receive p);
        modify (λ d, set_terminal_states (<[ap_target_state p := next]> (terminal_states d)) d) ;;
        discard_terminal_states (rc_discard_before_state commit) (rc_capacity_evicted_state commit) ;; k) Q d.
Proof.
  intros Hinv Hnext Hp Hg Hk. set (s := synchronization d) in *.
  pose proof (commit_receive_safe now p s (di_sync _ _ Hinv) Hp Hg) as Hc.
  pose proof (terminals_ok_commit s p (terminal_states d) next (so_wf _ _ (di_sync _ _ Hinv)) Hp (di_terminals _ _ Hinv)) as HT.
  assert (hist_ok (received_after p s) (client_history d)) as Hh by (eapply hist_ok_half; [|apply Hinv]; done).
  unfold on_synchronization, discard_terminal_states, modify.
  unfold spec, zoom, mbind, M_bind in *. fold s. destruct (commit_receive p s) as [s' [c|e|]]; simpl; [|done|done].
  destruct Hc as (Hs & -> & ->). unfold terminals_after in HT.
  destruct (evict_received _ _).2 as [ev|]; simpl; apply Hk; simpl;
    try (apply insert_before_larger_elem; by left); inv_set.
  - apply map_Forall_delete, map_Forall_filter_origin, map_Forall_insert_2; done.
  - apply map_Forall_filter_origin, map_Forall_insert_2; done.
Qed.

Lemma apply_remote_state_safe plan now d :
  driver_inv now d → apply_plan_ok (synchronization d) plan → ap_generation plan = receiver_generation (synchronization d) →
  difference_stays origin (ap_base_state plan) (ap_target_state plan) (ap_difference plan) →
  safe (apply_remote_state plan now) (λ _ d', driver_inv now d') d.
Proof.
  intros Hinv Hp Hg Had. eapply terminal_state_bind; [done|apply Hp|]. intros base Hbase.
  apply spec_lift_bind. pose proof (TerminalDifference_decode_no_panic (ap_difference plan)) as Hd.
  destruct (TerminalDifference_decode (ap_difference plan)) as [diff|e|] eqn:Hdec; [|done|done]. simpl.
  apply spec_lift_bind. pose proof (Had _ _ Hdec Hbase) as Ha.
  destruct (terminal_apply base diff) as [next|e|]; [|done|done]. simpl.
  eapply commit_terminals; [done|done|done|done|]. clear Hinv Hp Hg. intros d1 Hinv Ht.
  apply spec_get_bind. split_if; [|done]. apply spec_modify_bind.
  eapply (terminal_state_bind _ _ _ now).
  { pose proof (inv_pos _ _ Hinv). inv_set. destruct di_reachability0. split; [by apply note_contact_wf|]. by eexists. }
  { done. }
  intros authoritative Hra%origin_within. eapply spec_bind; [apply (on_prediction_safe _ now)|].
  { pose proof (inv_pos _ _ Hinv). inv_set. destruct di_reachability0. split; [by apply note_contact_wf|]. by eexists. }
  { apply observe_authoritative_safe; [done|apply Hinv]. }
  clear Hinv Ht. intros [] d2 Hinv. apply spec_modify_bind, spec_modify. simpl. case_bool_decide; by inv_set.
Qed.

Lemma begin_receive_sender i s s' r :
  begin_receive i s = (s', r) → s' = s ∨ ∃ r', observe_acknowledgement (acknowledged_state i) s = (s', r').
Proof.
  intros H. unfold begin_receive in H. cbv [mbind M_bind get lift gets mret M_ret] in H.
  destruct (validate_instruction i s); [|simplify_eq; by left|simplify_eq; by left].
  right. destruct (observe_acknowledgement _ s) as [s1 [d|e|]]; simplify_eq; eauto.
Qed.

Lemma begin_shutdown_receive_sender i s s' r :
  begin_shutdown_receive i s = (s', r) → s' = s ∨ ∃ r', observe_acknowledgement (acknowledged_state i) s = (s', r').
Proof.
  intros H. unfold begin_shutdown_receive in H. cbv [mbind M_bind get fail_if throw mret M_ret] in H.
  destruct (_ || _); [simplify_eq; by left|]. right.
  destruct (observe_acknowledgement _ s) as [s1 [d|e|]]; simplify_eq; eauto.
Qed.

(** The state after a sender update that comes from an acknowledgement. *)
Lemma inv_acknowledged s' ack now d :
  driver_inv now d → sync_ok now s' → receiver_half s' = receiver_half (synchronization d) →
  (s' = synchronization d ∨ ∃ r', observe_acknowledgement ack (synchronization d) = (s', r')) →
  driver_inv now (set_synchronization s' d).
Proof.
  intros Hinv Hs Hr Ho.
  assert (hist_ok s' (client_history d)) as Hh.
  { destruct Ho as [-> | [r' Ho]]; [apply Hinv|]. eapply hist_ok_observe; [apply Hinv|done]. }
  inv_set. by eapply terminals_ok_half.
Qed.

Lemma acknowledge_safe now d :
  driver_inv now d →
  safe (on_client_history (acknowledge (known_receiver_state (synchronization d))))
    (λ _ d', driver_inv now d' ∧ synchronization d' = synchronization d) d.
Proof.
  intros Hinv. apply spec_zoom. apply spec_intro. intros h r Hr.
  destruct (hist_ok_acknowledge (synchronization d) (client_history d) h r) as [-> Hh];
    [apply Hinv|apply Hinv|done|]. split; [by inv_set|done].
Qed.

Lemma sent_state_time now s n t : sync_ok now s → sent_state_sent_at_ms s n = Some t → 0 ≤ t ≤ now.
Proof.
  intros [_ Hs] H. unfold sent_state_sent_at_ms in H. destruct (find_sent n (sent_states s)) as [x|] eqn:Hf; [|done].
  injection H as <-. apply find_some in Hf as [Hx%list_elem_of_In _].
  eapply Forall_forall in Hs; [|exact Hx]. done.
Qed.

Lemma note_reply_inv now sent d :
  0 ≤ sent ≤ now → driver_inv now d → driver_inv now (set_reachability (note_reply sent (reachability d)) d).
Proof. intros Ht Hinv. inv_set. destruct di_reachability0. split; [apply note_reply_wf; [lia|done]|done]. Qed.

Lemma handle_normal_safe i now d :
  instruction_ok i → driver_inv now d → safe (handle_normal_instruction i) (λ _ d', keeps d') d.
Proof.
  intros [Hi Had] Hinv. step (by eapply now_ms_safe). intros t0 d0 [Hinv0 _].
  clear now d Hinv. rename t0 into now, d0 into d, Hinv0 into Hinv.
  apply spec_get_bind.
  apply (spec_bind _ _ _ _ (λ t d', driver_inv now d' ∧ begin_receive i (synchronization d) = (synchronization d', Ok t))).
  { apply spec_zoom, spec_no_panic. eapply spec_mono; [apply begin_receive_safe, Hinv|]. intros t s' [Hs Hb].
    split; [|done]. destruct (begin_receive_moves _ _ _ _ Hb) as [_ Hr].
    eapply inv_acknowledged; [done|done|done|by eapply begin_receive_sender]. }
  intros transition d1 [Hinv1 Hb].
  apply (spec_bind _ _ _ _ (λ _ d', driver_inv now d' ∧ synchronization d' = synchronization d1)).
  { destruct (acknowledgement transition), (sent_state_sent_at_ms (synchronization d) (acknowledged_state i)) as [t|] eqn:Hsent; try by split.
    split; [|done]. apply note_reply_inv; [|done]. eapply sent_state_time; [apply Hinv|done]. }
  intros ? d2 [Hinv2 Hs2]. apply spec_get_bind. step (by apply acknowledge_safe).
  intros ? d3 [Hinv3 Hs3].
  eapply spec_bind; [apply (on_scheduler_safe _ (λ _ _, True) now); [done|]|].
  { eapply spec_mono; [apply note_acknowledgement_needed_safe, Hinv3|done]. }
  intros ? d4 (Hinv4 & Hs4 & _).
  assert (synchronization d4 = synchronization d1) as Hs by congruence. clear Hinv1 Hinv2 Hinv3 Hs2 Hs3 Hs4.
  apply (spec_bind _ _ _ _ (λ _ d', driver_inv now d')).
  { destruct (remote_state transition) as [plan| | | |] eqn:Hrs; try done.
    destruct (begin_receive_plan _ _ _ _ _ Hi (so_wf _ _ (di_sync _ _ Hinv)) Hb Hrs) as (Hp & Hg & Hdiff & Hbase & Htarget).
    rewrite <- Hs in Hp, Hg. apply apply_remote_state_safe; [done..|]. by rewrite Hdiff, Hbase, Htarget. }
  intros ? d5 Hinv5. eapply spec_mono; [by apply publish_reachability_safe|]. intros [] d6 [H6 _]. by exists now.
Qed.

Lemma handle_remote_shutdown_safe i now d :
  instruction_ok i → driver_inv now d → safe (handle_remote_shutdown i) (λ _ d', driver_inv now d') d.
Proof.
  intros [_ Had] Hinv. apply spec_get_bind. cbn zeta.
  apply (spec_bind _ _ _ _ (λ t d', driver_inv now d' ∧ st_base_state t ∈ received_states (synchronization d') ∧
    st_base_state t = base_state i ∧ st_difference t = state_difference i)).
  { apply spec_zoom, spec_no_panic. eapply spec_mono; [apply begin_shutdown_receive_safe, Hinv|]. intros t s' [Hs Hb].
    destruct (begin_shutdown_receive_moves _ _ _ _ Hb) as [_ Hr]. split.
    - eapply inv_acknowledged; [done|done|done|by eapply begin_shutdown_receive_sender].
    - injection Hr as _ _ Hr _. simpl. rewrite Hr. clear - Hb. unfold begin_shutdown_receive in Hb.
      cbv [mbind M_bind get fail_if throw mret M_ret] in Hb.
      destruct (_ || _) eqn:Hg; [done|]. destruct (observe_acknowledgement _ _) as [s1 [a|e|]]; simplify_eq/=.
      apply orb_false_iff in Hg as [_ Hg]. apply negb_false_iff, contains_spec in Hg. split_and!; [done|by case_match..]. }
  clear Hinv. intros t d1 (Hinv & Hbase & Hbs & Hdiff). apply spec_get_bind.
  step (by apply acknowledge_safe). intros ? d2 [Hinv2 Hs2].
  eapply terminal_state_bind; [done|by rewrite Hs2|]. intros base Hbase2.
  apply spec_lift_bind. pose proof (TerminalDifference_decode_no_panic (st_difference t)) as Hd.
  destruct (TerminalDifference_decode (st_difference t)) as [diff|e|] eqn:Hdec; [|done|done]. simpl. rewrite Hdiff in Hdec. rewrite Hbs in Hbase2.
  apply spec_lift_bind. pose proof (Had _ _ Hdec Hbase2) as Ha.
  destruct (terminal_apply base diff) as [final|e|]; [apply origin_within in Ha|done|done]. simpl.
  apply spec_modify_bind. clear Hinv. eapply spec_bind; [apply (on_prediction_safe _ now); [by inv_set|apply cleared_wf]|].
  clear Hinv2. intros b d3 Hinv. apply spec_modify. by inv_set.
Qed.

Lemma handle_datagram_safe datagram source now d :
  driver_inv now d → genuine (inl (datagram, source)) → safe (handle_datagram datagram source) (λ _ d', keeps d') d.
Proof using All.
  intros Hinv Hg. step (by eapply decode_datagram_safe). intros [i|] d1 [[t Hinv1] Hi]; [|by exists t].
  specialize (Hi i eq_refl).
  split_if.
  - step (by eapply handle_remote_shutdown_safe). intros ? d2 Hinv2. by exists t.
  - eapply spec_bind; [by eapply handle_normal_safe|]. intros ? d2 Hk. done.
Qed.

(** ** Output and closing *)
Lemma painter_panic force painted current :
  opt_within painted → within current →
  (if force : bool then painter_full current
   else match painted with Some previous => painter_incremental previous current | None => painter_full current end)
    = Panic → emulator_panic.
Proof.
  intros Hp Hc. destruct force, painted; by (apply painter_full_panic || apply painter_incremental_panic).
Qed.

(** A chunk extends the log of paintings. *)
Lemma output_paints (force : bool) current output (d d' : SessionDriver) :
  output_ok d → within current →
  (if force then painter_full current
   else match painted_state d with Some previous => painter_incremental previous current | None => painter_full current end)
    = Ok output →
  emitted (env d') = emitted (env d) ++ [output] → painted_state d' = Some current → output_ok d'.
Proof.
  intros (log & Hlog & Hp & Hw) Hc Hpaint He Hp'. rewrite Hp in Hpaint. unfold output_ok. rewrite He, Hp'.
  assert (painter_full current = Ok output →
    ∃ log', painted_log (emitted (env d) ++ [output]) log' ∧ Some current = newest log' ∧ Forall (λ x, within x.2) log') as Hfull.
  { intros Hf. exists ((true, current) :: log). split; [by apply log_full|]. by split; [|constructor]. }
  destruct force; [by apply Hfull|]. destruct log as [|[full p] log]; [by apply Hfull|]. simpl in Hpaint.
  exists ((false, current) :: (full, p) :: log). split; [by apply log_incremental|]. by split; [|constructor].
Qed.

Lemma emit_output_safe now d : driver_inv now d → safe emit_output (λ _ d', driver_inv now d') d.
Proof.
  intros Hinv. apply (spec_bind _ _ _ _ (λ t d', d' = d ∧ within t)).
  { apply spec_get_bind. pose proof (di_final _ _ Hinv) as Hf. destruct (final_terminal d); [done|]. unfold terminal_state.
    destruct (proj2 (di_terminals _ _ Hinv _) (latest_received _ _ Hinv)) as [t Ht].
    pose proof (origin_within _ _ (di_screens _ _ Hinv _ _ Ht)). unfold spec, mbind, M_bind, get, lift. by rewrite Ht. }
  intros authoritative d1 [-> Ha]. apply spec_get_bind, spec_lift_bind.
  pose proof (display_within _ _ _ Ha (di_prediction _ _ Hinv)) as Hr.
  pose proof (painter_panic (force_full_repaint d) _ _ (di_painted _ _ Hinv) Hr) as Hp.
  destruct (if force_full_repaint d then _ else _) as [output|e|] eqn:Hpaint; [|done|by apply Hp]. simpl.
  set (current := display authoritative (prediction d)) in *. unfold spec, permit_send, with_env, modify. unfold_m. simpl.
  pose proof (di_output _ _ Hinv) as Hout. inv_set. by eapply output_paints.
Qed.

Lemma finish_graceful_close_safe exit now d :
  driver_inv now d →
  safe (finish_graceful_close exit) (λ r d', keeps d' ∧ (r = None → readies (env d') = [])) d.
Proof.
  intros Hinv. apply spec_get_bind. split_if; [split; [by exists now|done]|].
  step (by apply cancellation_safe). intros [] d1 [Hinv1 _]; [split; [by exists now|done]|].
  apply (spec_bind _ _ _ _ (λ p d', driver_inv now d' ∧ (p = None → readies (env d') = []))).
  { pose proof (wait_permit_suffix (readies (env d1))) as [_ Hend]. eapply spec_mono; [apply spec_and; [eapply (with_env_safe _ now); [|done]|]|].
    - intros e. pose proof (wait_permit_suffix (readies e)) as [He _]. destruct (wait_permit (readies e)). by split_and!.
    - instantiate (1 := λ p d', p = None → readies (env d') = []). unfold spec, with_env.
      destruct (wait_permit (readies (env d1))). exact Hend.
    - intros p d' [[H _] H']. done. }
  intros [[[]|exit']|] d2 [Hinv2 Hend]; [|split; [by exists now|done]|split; [by exists now|intros _; by apply Hend]].
  step (by apply emit_output_safe). intros ? d3 Hinv3. split; [by exists now|done].
Qed.

(** ** The two loops *)
Lemma shutdown_send_safe now next d : driver_inv now d → safe (shutdown_send now next) (λ _ d', keeps d') d.
Proof.
  intros Hinv. unfold shutdown_send. split_if; [|by exists now].
  step (by apply send_shutdown_request_safe). intros [] d1 Hinv1.
  - apply spec_get_bind, spec_lift_bind. destruct (checked_add _ _ _); [by exists now|done].
  - by exists now.
  - step (by eapply now_ms_safe). intros t d2 [Hinv2 _].
    apply spec_get_bind, spec_lift_bind. destruct (checked_add _ _ _); [by exists t|done].
Qed.

Lemma with_acknowledged_ok ack i : is_u64 ack → instruction_ok i → instruction_ok (with_acknowledged ack i).
Proof. unfold instruction_ok, instruction_wf. simpl. intuition. Qed.

Lemma known_u64 now d : driver_inv now d → is_u64 (known_receiver_state (synchronization d)).
Proof. intros []. destruct di_sync0 as [[] _]. unfold is_u64 in *. lia. Qed.

(** What ends without an exit waits for something that the script does not have. *)
Definition waits (turn : Turn) (d : SessionDriver) : Prop := turn = OutOfScript → readies (env d) = [].

Lemma shutdown_datagram_safe result now d :
  driver_inv now d → genuine result → safe (shutdown_datagram result) (λ turn d', keeps d' ∧ waits turn d') d.
Proof using All.
  intros Hinv Hg. step (by eapply classify_receive_safe).
  intros [[datagram source]|] d1 [[t1 Hinv1] Hr]; [|split; [by exists t1|done]]. rewrite (Hr _ eq_refl) in Hg.
  step (by eapply decode_datagram_safe). intros [i|] d2 [[t2 Hinv2] Hi]; [|split; [by exists t2|done]].
  specialize (Hi i eq_refl). cbn zeta.
  apply (spec_bind _ _ _ _ (λ _ d', keeps d')).
  { split_if.
    - step (by eapply handle_remote_shutdown_safe). intros ? d3 Hinv3. cbv beta in Hinv3.
      step (by eapply now_ms_safe). intros t4 d4 [Hinv4 _].
      eapply spec_mono; [by apply send_shutdown_acknowledgement_safe|]. intros ? d5 Hinv5. by exists t4.
    - apply spec_get_bind. eapply spec_bind; [eapply handle_normal_safe; [|done]|]; [|by intros ? d3 Hk].
      split_if; [|done]. apply with_acknowledged_ok; [by eapply known_u64|done]. }
  intros continue d3 [t3 Hinv3]. destruct (negb continue); [split; [by exists t3|done]|]. apply spec_get_bind.
  split_if; [|split; [by exists t3|done]]. step (by eapply finish_graceful_close_safe).
  intros r d4 [Hk Hend]. split; [done|]. unfold waits. destruct r; [done|]. intros _. by apply Hend.
Qed.

Lemma instant_at_safe w now d : driver_inv now d → safe (instant_at w) (λ _ d', driver_inv now d') d.
Proof. intros Hinv. apply spec_get_bind. unfold fail_if. by destruct (_ <? _). Qed.

Lemma shutdown_wait_safe deadline next now d :
  driver_inv now d → safe (shutdown_wait deadline now next) (λ r d', keeps d' ∧ waits r.2 d') d.
Proof using All.
  intros Hinv. step (by apply shutdown_send_safe). intros [next'|exit] d3 [t3 Hinv3]; [|split; [by exists t3|done]].
  apply spec_get_bind. cbn zeta. step (by eapply instant_at_safe). intros ? d4 Hinv4.
  step (by apply wait_next_safe). intros woken d5 (Hinv5 & _ & Hg & Hend).
  apply (spec_bind _ _ _ _ (λ turn d', keeps d' ∧ waits turn d')).
  { destruct woken as [[command|result| | | | |]|]; try (by split; [exists t3|]).
    - step (by eapply handle_command_safe). by split.
    - eapply shutdown_datagram_safe; [done|by apply Hg].
    - step (by apply emit_output_safe). intros ? d6 Hinv6. split; [by exists t3|done].
    - split; [by exists t3|]. intros _. by apply Hend. }
  done.
Qed.

Lemma local_shutdown_turn_safe deadline next now d :
  driver_inv now d → safe (local_shutdown_turn deadline next) (λ _ d', keeps d') d.
Proof using All.
  intros Hinv. step (by apply cancellation_safe). intros [] d1 [Hinv1 _]; [by exists now|].
  step (by eapply now_ms_safe). intros t2 d2 [Hinv2 _]. split_if; [by exists t2|].
  eapply spec_mono; [by apply shutdown_wait_safe|]. by intros r d3 [].
Qed.

Lemma local_shutdown_loop_safe fuel deadline :
  ∀ next d, keeps d → safe (local_shutdown_loop fuel deadline next) (λ _ d', keeps d') d.
Proof.
  induction fuel as [|fuel IH]; intros next d [now Hinv]; [by exists now|].
  step (by eapply local_shutdown_turn_safe). intros [next' turn] d1 Hk.
  destruct turn; [by apply IH|done|done].
Qed.

Lemma run_local_shutdown_safe fuel now d : driver_inv now d → safe (run_local_shutdown fuel) (λ _ d', keeps d') d.
Proof.
  intros Hinv. step (by eapply now_ms_safe). intros t d1 [Hinv1 _]. apply spec_lift_bind.
  destruct (checked_add _ _ _); [|done]. apply local_shutdown_loop_safe. by exists t.
Qed.

Lemma latest_unacknowledged_time now s : sync_ok now s → at_most now (latest_unacknowledged_sent_at_ms s).
Proof.
  intros [_ Hs] t Ht. unfold latest_unacknowledged_sent_at_ms in Ht. destruct (last (sent_states s)) as [x|] eqn:Hl; [|done].
  injection Ht as <-. apply last_Some_elem_of in Hl. eapply Forall_forall in Hs; [|exact Hl]. done.
Qed.

Lemma request_output_safe (b : bool) now d :
  driver_inv now d → safe (if b then modify (set_output_requested true) else mret tt) (λ _ d', driver_inv now d') d.
Proof. intros Hinv. destruct b; [|done]. apply spec_modify. by inv_set. Qed.

Lemma expire_input_safe now d :
  driver_inv now d → safe (on_reassembler (expire now)) (λ _ d', driver_inv now d') d.
Proof.
  intros Hinv. apply spec_zoom. pose proof (expire_safe now _ (di_reassembler _ _ Hinv)) as Hs.
  pose proof (expire_from pool now (reassembler d)) as Hf. unfold spec in *.
  destruct (expire now (reassembler d)) as [r [a|e|]]; simpl in *; [|done|done].
  specialize (Hf _ _ (in_held _ (di_input _ _ Hinv)) eq_refl). by inv_set.
Qed.

Lemma run_prologue_safe now d :
  driver_inv now d →
  safe (run_prologue now) (λ r d', driver_inv now d' ∧ ∀ p, r = Send p → wake_fresh (scheduler d') p) d.
Proof.
  intros Hinv. step (by apply publish_reachability_safe). clear Hinv. intros [] d1 [Hinv _].
  apply spec_get_bind, spec_fail_if_bind; [done|]. intros _.
  apply (spec_bind _ _ _ _ (λ _ d', driver_inv now d')).
  { by apply expire_input_safe. }
  clear d1 Hinv. intros _ d1 Hinv.
  step (apply (on_prediction_safe _ now); [done|apply prediction_expire_safe, Hinv]). clear d1 Hinv. intros expired d1 Hinv.
  step (by apply request_output_safe). clear d1 Hinv. intros _ d1 Hinv. apply spec_get_bind. cbn zeta.
  step (apply (on_prediction_safe _ now); [done|apply update_policy_safe, Hinv]). clear d1 Hinv. intros changed d1 Hinv.
  step (by apply request_output_safe). clear d1 Hinv. intros _ d1 Hinv. apply spec_get_bind.
  eapply spec_mono.
  - apply (on_scheduler_safe _ (λ r s, ∀ p, r = Send p → wake_fresh s p) now); [done|].
    apply poll_safe; [apply Hinv|apply latest_unacknowledged_time, Hinv].
  - intros r d2 (Hinv2 & _ & Hf). done.
Qed.

Lemma run_wake_safe now wake d : driver_inv now d → safe (run_wake now wake) (λ _ d', driver_inv now d') d.
Proof.
  intros Hinv. apply spec_get_bind. cbn zeta. apply spec_lift_bind.
  destruct (next_deadline_safe now _ (di_reachability _ _ Hinv)) as [He Hp].
  destruct (reachability_next_deadline_ms (reachability d)) as [next|[]|]; try done. simpl.
  step (by apply instant_at_safe). intros _ d1 Hinv1. done.
Qed.

Lemma run_datagram_safe result now d :
  driver_inv now d → genuine result → safe (run_datagram result) (λ _ d', keeps d') d.
Proof using All.
  intros Hinv Hg. step (by eapply classify_receive_safe).
  intros [[datagram source]|] d1 [[t1 Hinv1] Hr]; [|by exists t1]. rewrite (Hr _ eq_refl) in Hg.
  step (by eapply handle_datagram_safe). intros outcome d2 [t2 Hinv2]. split_if; [|by exists t2].
  step (by eapply now_ms_safe). intros t3 d3 [Hinv3 _].
  step (by apply send_shutdown_acknowledgement_safe). intros acknowledged d4 Hinv4.
  destruct (negb acknowledged); [by exists t3|]. step (by eapply finish_graceful_close_safe). by intros ? d5 [].
Qed.

Lemma run_turn_safe fuel now d : driver_inv now d → safe (run_turn fuel) (λ _ d', keeps d') d.
Proof.
  intros Hinv. step (by apply cancellation_safe). intros [] d1 [Hinv1 _]; [by exists now|].
  step (by eapply now_ms_safe). intros t2 d2 [Hinv2 _].
  step (by apply run_prologue_safe). intros polled d3 [Hinv3 Hf]. destruct polled as [wake|plan].
  - step (by apply run_wake_safe). intros receive_enabled d4 Hinv4. apply spec_get_bind.
    step (by apply wait_next_safe). intros woken d5 (Hinv5 & _ & Hg).
    destruct woken as [[command|result| | | | |]|]; try by exists t2.
    + step (by eapply handle_command_safe). done.
    + eapply run_datagram_safe; [done|by apply Hg].
    + step (by apply emit_output_safe). intros _ d6 Hinv6. by exists t2.
    + step (by eapply run_local_shutdown_safe). done.
  - step (by apply send_instruction_safe; [|apply Hf]). intros _ d4 [t4 Hinv4].
    step (by apply cancellation_safe). intros cancelled d5 [Hinv5 _]. by exists t4.
Qed.

Lemma run_turns_safe shutdown_fuel fuel :
  ∀ d, keeps d → safe (run_turns shutdown_fuel fuel) (λ _ d', keeps d') d.
Proof.
  induction fuel as [|fuel IH]; intros d [now Hinv]; [by exists now|].
  step (by eapply run_turn_safe). intros turn d1 Hk. destruct turn; [by apply IH|done|done].
Qed.

(** ** A connected driver *)

(** A script whose clock starts at zero and never goes back, with no output yet. *)
Definition script_ok (e : Env) : Prop := clock_ok 0 e ∧ emitted e = [].

Lemma connect_inv bootstrap columns rows mode bound e d :
  script_ok e → (∀ t, TerminalState_new columns rows = Ok t → origin 0 t) → connect bootstrap columns rows mode bound e = Ok d →
  bootstrap_server_addr bootstrap = server → PacketCodec_new (bootstrap_session_key bootstrap) = codec →
  clock e `suffix_of` clock script → final_reading e = final_reading script → (∀ f, f ∈ authentic_fragments server codec (readies e) → f ∈ pool) →
  driver_inv 0 d.
Proof.
  intros [He Hemit] Had H Hserver Hcodec Hclock Hfinal Hpool. unfold connect in H. cbv [mbind Result_bind] in H.
  destruct (TerminalState_new columns rows) as [t| |]; [|done|done]. specialize (Had t eq_refl). cbn [map_err] in *.
  destruct bound; [done|]. unfold run_local in H.
  assert (hist_ok SynchronizationState_new ClientHistory_new) as Hh.
  { split; [exists [], {[0 := 0]}; split; [apply hist_new|]|..]; simpl.
    - intros n [x [<- _]%lookup_singleton_Some]. done.
    - by eexists.
    - by eexists.
    - intros x Hx. by apply not_elem_of_nil in Hx. }
  destruct (append (Resize columns rows) ClientHistory_new) as [h1 [[]|err|]] eqn:Happ; [|done|done].
  pose proof (hist_ok_append _ _ _ _ Hh Happ) as Hh1.
  destruct (advance_local SynchronizationState_new) as [s1 [n|err|]] eqn:Hadv; [|done|done].
  destruct (checkpoint n h1) as [h2 [[]|err|]] eqn:Hcp; [|done|done].
  pose proof (hist_ok_advance _ _ _ _ _ Hh1 Hadv Hcp) as Hh2.
  destruct (note_local_change 0 (SendScheduler_new 0)) as [sch [[]|err|]] eqn:Hsch; [|done|done].
  injection H as <-.
  assert (sync_ok 0 SynchronizationState_new) as Hs0 by (split; [apply sync_new_wf|constructor]).
  pose proof (advance_local_safe 0 _ Hs0) as Hs1. unfold spec in Hs1. rewrite Hadv in Hs1. destruct Hs1 as [Hs1 _].
  pose proof (note_local_change_safe 0 (SendScheduler_new 0)) as Hsch1. unfold spec in Hsch1. rewrite Hsch in Hsch1.
  split; simpl; try done.
  - intros k. destruct (advance_local_moves _ _ _ Hadv) as [_ Hr]. injection Hr as _ _ Hr _. rewrite Hr.
    rewrite list_elem_of_singleton. split; [intros [x [<- _]%lookup_singleton_Some]; done|].
    intros ->. rewrite lookup_singleton_eq. by eexists.
  - intros k x [<- <-]%lookup_singleton_Some. done.
  - apply new_wf.
  - apply Hsch1. done.
  - intros k [= <-]. split; [done|]. by vm_compute.
  - intros k [= <-]. split; [done|]. by vm_compute.
  - exists []. simpl. rewrite Hemit. by repeat constructor.
Qed.

(** C14. A datagram that the packet layer rejects (from another address, too short or
    too long, of the wrong direction, not authentic, replayed or too old) has no
    effect: handling it reads the clock once, changes nothing else, sends nothing
    and lets the session continue. *)
Theorem rejected_datagram_ignored datagram source d e :
  is_u64 (read_clock (env d)).2 → (open_datagram datagram source d).2 = Err e →
  handle_datagram datagram source d = (set_env (read_clock (env d)).1 d, Ok Continue).
Proof.
  intros Hclock He. set (d1 := set_env (read_clock (env d)).1 d).
  assert (open_datagram datagram source d1 = (d1, Err e) ∧ is_dropped e = true) as [Hopen Hdrop].
  { unfold open_datagram, PacketReceiver_open_from in *. unfold d1 in *. simpl in *. case_bool_decide.
    - pose proof (PacketReceiver_open_cases (packet_receiver d) datagram) as Hc.
      destruct (PacketReceiver_open (packet_receiver d, datagram)) as [[r' b'] x] eqn:Hx. simpl in *. subst x.
      apply PacketReceiver_open_rejected in Hx as ->. split; [by destruct d|by destruct e].
    - simpl in He. injection He as <-. split; [by destruct d|done]. }
  assert (decode_datagram datagram source d = (d1, Ok None)) as Hdec.
  { unfold decode_datagram. erewrite (bind_step now_ms); cycle 1.
    - unfold now_ms. mstep; [unfold with_env; rewrite (surjective_pairing (read_clock (env d))); done|].
      unfold lift, try_from. replace (_ && _) with true; [done|]. symmetry. unfold is_u64 in Hclock. lia.
    - fold d1. rewrite (handle_step _ _ _ _ _ Hopen). cbn beta iota. by rewrite Hdrop. }
  unfold handle_datagram. erewrite bind_step; [|exact Hdec]. done.
Qed.
End safety.

(** ** A session *)
Section session.
Context `{AE : Aead} `{AEL : !AeadLaws AE} `{PR : Prost} `{PL : !ProstLaws PR} `{ZL : Zlib} `{ZB : !ZlibBounds ZL}.
Context `{VT : Vt100} `{VTE : Vte} `{UW : UnicodeWidth} `{PH : ProstHost}.

Definition session_codec (bootstrap : Bootstrap) : PacketCodec := PacketCodec_new (bootstrap_session_key bootstrap).

(** The fragments that the server's datagrams of a script carry. *)
Definition session_fragments (bootstrap : Bootstrap) (e : Env) : list Fragment :=
  authentic_fragments (bootstrap_server_addr bootstrap) (session_codec bootstrap) (readies e).

(** The invariant of a session that was opened with this record and script. *)
Definition session_keeps `{!ScreenSet} (bootstrap : Bootstrap) (e : Env) (origin : Z → TerminalState → Prop) :
    SessionDriver → Prop :=
  keeps (bootstrap_server_addr bootstrap) (session_codec bootstrap) (session_fragments bootstrap e) e origin.

(** As long as the peer's instructions lead from states of the server to states of the
    server, the session fails only with errors that come from outside, and panics only
    where the emulator does on a screen of the set. *)
Lemma session_within `{!ScreenSet} (origin : Z → TerminalState → Prop) bootstrap columns rows mode bound e d
    shutdown_fuel fuel :
  (∀ n t, origin n t → within t) → (∀ t, TerminalState_new columns rows = Ok t → origin 0 t) →
  peer_stays origin (session_fragments bootstrap e) →
  script_ok e → connect bootstrap columns rows mode bound e = Ok d →
  spec internal_error emulator_panic (run_turns shutdown_fuel fuel) (λ _ d', session_keeps bootstrap e origin d') d.
Proof.
  intros Horigin Hnew Hpeer He Hc. apply run_turns_safe; [done|done|]. exists 0. by eapply connect_inv.
Qed.

(** Any reachable screen as a state of the server. *)
Definition reachable_state (_ : Z) (t : TerminalState) : Prop := within (H:=reachable_screens) t.

Lemma reachable_peer_stays pool : peer_stays (H:=reachable_screens) reachable_state pool.
Proof.
  intros compressed i _ _ d t _ Ht.
  apply (terminal_apply_within (SS:=reachable_screens)); [done|by apply reachable_operations_stay].
Qed.

Lemma reachable_state_new columns rows t : TerminalState_new columns rows = Ok t → reachable_state 0 t.
Proof. intros Ht. pose proof (TerminalState_new_reachable columns rows) as Hn. by rewrite Ht in Hn. Qed.

(** The invariant of a driver at the time [now], whatever its session. *)
Definition driver_ok (now : Z) (d : SessionDriver) : Prop :=
  ∃ server codec pool script, driver_inv (SS:=reachable_screens) server codec pool script reachable_state now d.

Lemma connect_ok bootstrap columns rows mode bound e d :
  script_ok e → connect bootstrap columns rows mode bound e = Ok d → driver_ok 0 d.
Proof.
  intros He Hc. exists (bootstrap_server_addr bootstrap), (session_codec bootstrap), (session_fragments bootstrap e), e.
  eapply (connect_inv (SS:=reachable_screens)); try done. apply reachable_state_new.
Qed.

(** C4. From a successful connection on, whatever the peer, the user, the timers and
    the sockets do, the session never ends with [InternalState], nor with any other
    error that would mean an inconsistency of the client itself (a missing state,
    a stale plan, a clock that went back, a fragment or packet that does not fit its
    buffer), for every number of turns; it panics only if the terminal emulator
    panics on a screen that it can reach within the size limits. *)
Theorem session_never_internal_error bootstrap columns rows mode bound e d shutdown_fuel fuel :
  script_ok e → connect bootstrap columns rows mode bound e = Ok d →
  match run_turns shutdown_fuel fuel d with
  | (d', Ok exit) => session_keeps (H:=reachable_screens) bootstrap e reachable_state d'
  | (_, Err error) => internal_error error = false
  | (_, Panic) => reachable_panic
  end ∧
  (session_run shutdown_fuel fuel d).2 ≠ Err InternalState.
Proof.
  intros He Hc.
  pose proof (session_within (H:=reachable_screens) reachable_state bootstrap columns rows mode bound e d shutdown_fuel fuel
    (λ _ _ H, H) (reachable_state_new columns rows) (reachable_peer_stays _) He Hc) as Hr.
  unfold spec, session_run in *.
  destruct (run_turns shutdown_fuel fuel d) as [d' [[exit|]|error|]]; simpl; try done. split; [done|].
  intros [= Hs]. apply internal_state_only in Hs as [-> | ->]; done.
Qed.
End session.


(** ** Witnesses *)
#[local] Existing Instance null_aead.
#[local] Existing Instance null_aead_laws.
#[local] Existing Instance plain_prost.
#[local] Existing Instance plain_prost_laws.
#[local] Existing Instance stored_zlib.
#[local] Existing Instance stored_zlib_bounds.
#[local] Existing Instance line_vt100.
#[local] Existing Instance print_vte.
#[local] Existing Instance narrow_width.
#[local] Existing Instance host_prost.

Definition sample_bootstrap : Bootstrap := mkBootstrap (mkSocketAddrV4 2130706433 60001) (mkSessionKey (replicate 16 7)).

Definition sample_env : Env :=
  mkEnv [] 0 [] [] [] 1000000 [] [].

Definition idle : Ready := mkReady None None false false None None.
(** A script with an input, a timer, a resize, an output permit, a datagram from
    an unknown source and a cancellation. *)
Definition busy_env : Env :=
  mkEnv [0; 10; 20; 40; 60; 90; 130; 180; 260; 400; 500] 0 [] []
    [mkReady None (Some (Some (CommandInput [104]))) false false None None; idle;
     mkReady None None false true None None;
     mkReady None (Some (Some (CommandResize 100 30))) false false None None;
     mkReady None None false false (Some true) None;
     mkReady None None false false None (Some (inl (replicate 40 0, V4 (mkSocketAddrV4 0 0))));
     mkReady (Some true) None false false None None] 1000000 [] [].

Lemma sample_script : script_ok sample_env.
Proof. split; [|done]. split_and!; [done|done|repeat constructor]. Qed.

Lemma busy_script : script_ok busy_env.
Proof. split; [|done]. split; [done|]. split; [done|]. cbn. repeat constructor; lia. Qed.

Lemma session_never_internal_error_witness :
  ∃ d, connect sample_bootstrap 80 24 Always None busy_env = Ok d ∧
    (session_run 5 12 d).2 ≠ Err InternalState.
Proof.
  eexists. split; [vm_compute; reflexivity|].
  eapply (session_never_internal_error sample_bootstrap 80 24 Always None busy_env); [apply busy_script|].
  vm_compute. reflexivity.
Defined.

Example busy_session_is_cancelled :
  match connect sample_bootstrap 80 24 Always None busy_env with
  | Ok d => (session_run 5 12 d).2 = Ok (Some Cancelled) ∧ len (sent_datagrams (env (session_run 5 12 d).1)) = 1
  | _ => False
  end.
Proof. vm_compute. split; reflexivity. Qed.

Lemma rejected_datagram_ignored_witness :
  ∃ d, connect sample_bootstrap 80 24 Always None sample_env = Ok d ∧
    handle_datagram (replicate 40 0) (V4 (mkSocketAddrV4 0 0)) d = (set_env (read_clock (env d)).1 d, Ok Continue).
Proof.
  eexists. split; [vm_compute; reflexivity|].
  apply (rejected_datagram_ignored _ _ _ UnexpectedSource); [split; vm_compute; congruence|vm_compute; reflexivity].
Defined.
