(* ===== verification/DriverShutdown.v ===== *)
(** * The local shutdown ends

    The loop of [run_local_shutdown] reads the clock once in every turn and leaves as
    soon as it shows the deadline, so the number of readings bounds the turns. *)

From S2P Require Import Prelude Limits BTreeMap Packet Fragment Instruction Synchronization Timing.
From S2P Require Import Reachability TerminalWidth Emulator Terminal Prediction Errors ClientHistory Bootstrap Driver DriverInput DriverInv DriverSafety.

Local Open Scope Z_scope.

Section shutdown.
Context `{AE : Aead} `{AEL : !AeadLaws AE} `{PR : Prost} `{PL : !ProstLaws PR} `{ZL : Zlib} `{ZB : !ZlibBounds ZL}.
Context `{VT : Vt100} `{VTE : Vte} `{UW : UnicodeWidth} `{PH : ProstHost}.
#[local] Existing Instance reachable_screens.

Context (server : SocketAddrV4) (codec : PacketCodec) (pool : list Fragment).

(** The invariant with the driver's own script as the script. *)
Abbreviation inv script := (driver_inv server codec pool script reachable_state).
Definition live_driver (d : SessionDriver) : Prop := ∃ now script, inv script now d.

Lemma reachable_within n t : reachable_state n t → within t.
Proof. done. Qed.

Lemma inv_rebase script now d : inv script now d → inv (env d) now d.
Proof. intros []. split; try done. destruct di_input. by split. Qed.

(** A reading of the clock uses one up, or there is none left. *)
Lemma now_ms_reading d d' t :
  now_ms d = (d', Ok t) →
  t = last_clock (env d') ∧ readies (env d') = readies (env d) ∧ final_reading (env d') = final_reading (env d) ∧
  (clock (env d) = [] ∧ clock (env d') = [] ∨ clock (env d) = t :: clock (env d')).
Proof.
  unfold now_ms, with_env, read_clock. cbv [mbind M_bind lift]. unfold try_from.
  destruct (clock (env d)) as [|x rest] eqn:Hc; destruct (_ && _); intros [= <- <-]; cbn [env set_env last_clock readies clock].
  { split_and!; [done..|left; by rewrite Hc]. }
  split_and!; [done|done|by apply final_reading_cons|by right].
Qed.

(** A turn that goes on has read the clock before the deadline. *)
Definition progress (d d' : SessionDriver) : Prop :=
  live_driver d' ∧ final_reading (env d') = final_reading (env d) ∧
  (length (clock (env d')) < length (clock (env d)))%nat.

Lemma local_shutdown_turn_progress deadline next d :
  live_driver d → deadline ≤ final_reading (env d) →
  spec internal_error emulator_panic (local_shutdown_turn deadline next)
    (λ '(_, turn) d', match turn with
       | Again => progress d d' | OutOfScript => readies (env d') = [] | Exited _ => True end) d.
Proof.
  intros (now & script & Hinv%inv_rebase) Hdl.
  eapply spec_bind; [by eapply cancellation_safe; [apply reachable_within|]|]. intros [] d1 [Hinv1 _]; [done|].
  apply (spec_bind _ _ _ _ (λ t d2, inv (env d) t d2 ∧ now_ms d1 = (d2, Ok t))).
  { pose proof (now_ms_safe server codec pool (env d) reachable_state now d1 Hinv1) as Hs. unfold spec in *.
    destruct (now_ms d1) as [d2 [t|e|]]; [by destruct Hs|done|done]. }
  intros t d2 [Hinv2 Hread%now_ms_reading].
  destruct Hread as (Ht & _ & Hfin & Hclock).
  assert (final_reading (env d1) = final_reading (env d) ∧ clock (env d1) `suffix_of` clock (env d)) as [Hfin1 Hsuf1].
  { destruct (di_input _ _ _ _ _ _ _ Hinv1). done. }
  destruct (Z.leb_spec deadline t); [done|]. destruct Hclock as [[Hnil Hnil']|Hcons].
  { exfalso. unfold final_reading in Hfin at 1. rewrite Hnil' in Hfin. cbn in Hfin. lia. }
  eapply spec_mono; [eapply shutdown_wait_safe; [apply reachable_within|apply reachable_peer_stays|by eapply inv_rebase]|].
  intros [next' turn] d3 [[now3 Hinv3] Hw]. destruct turn; [|by apply Hw|done].
  destruct (di_input _ _ _ _ _ _ _ Hinv3). split_and!; [by exists now3, (env d2)|congruence|].
  apply suffix_length in in_clock, Hsuf1. rewrite Hcons in Hsuf1. cbn in Hsuf1. lia.
Qed.

(** As many turns as there are readings left, and one more, are enough. *)
Lemma local_shutdown_loop_ends deadline fuel :
  ∀ next d, live_driver d → deadline ≤ final_reading (env d) → (length (clock (env d)) < fuel)%nat →
  match local_shutdown_loop fuel deadline next d with
  | (d', Ok None) => readies (env d') = []
  | _ => True
  end.
Proof.
  induction fuel as [|fuel IH]; intros next d Hd Hdl Hfuel; [lia|]. cbn [local_shutdown_loop].
  pose proof (local_shutdown_turn_progress deadline next d Hd Hdl) as Hp. unfold spec in Hp. cbv [mbind M_bind].
  destruct (local_shutdown_turn deadline next d) as [d1 [[next1 [| |exit]]|e|]]; [|done..].
  destruct Hp as (Hd1 & Hfin & Hlen). apply IH; [done|by rewrite Hfin|lia].
Qed.
End shutdown.

(** C21. A graceful close ends. In any session, as many turns of the loop as the clock has
    readings left are enough, if the clock reaches the four-second deadline: the loop
    has then returned, with an exit or an error, unless it waits for an event and none
    is left in the script. *)
Theorem local_shutdown_ends `{AE : Aead} `{AEL : !AeadLaws AE} `{PR : Prost} `{PL : !ProstLaws PR} `{ZL : Zlib} `{ZB : !ZlibBounds ZL}
    `{VT : Vt100} `{VTE : Vte} `{UW : UnicodeWidth} `{PH : ProstHost}
    bootstrap columns rows mode bound e d0 turns shutdown_turns d fuel :
  script_ok e → connect bootstrap columns rows mode bound e = Ok d0 →
  run_turns shutdown_turns turns d0 = (d, Ok None) →
  (read_clock (env d)).2 + GRACEFUL_CLOSE_ACK_TIMEOUT_MS ≤ final_reading (env d) →
  (length (clock (env d)) ≤ fuel)%nat →
  match run_local_shutdown fuel d with
  | (d', Ok None) => readies (env d') = []
  | _ => True
  end.
Proof.
  intros He Hc Hrun Hdl Hfuel.
  pose proof (session_within (H:=reachable_screens) reachable_state bootstrap columns rows mode bound e d0 shutdown_turns turns
    reachable_within (reachable_state_new columns rows) (reachable_peer_stays _) He Hc) as Hs.
  unfold spec in Hs. rewrite Hrun in Hs. destruct Hs as [now Hinv].
  pose proof (now_ms_safe _ _ _ _ _ now d Hinv) as Hn. unfold spec in Hn.
  unfold run_local_shutdown. cbv [mbind M_bind lift]. destruct (now_ms d) as [d1 [t|err|]] eqn:Hr; [|done..].
  destruct (now_ms_reading _ _ _ Hr) as (Ht & _ & Hfin & Hclock). destruct Hn as [Hinv1 _].
  assert ((read_clock (env d)).2 = t) as Hnow.
  { unfold read_clock. destruct Hclock as [[Hnil Hnil']|Hcons]; [|by rewrite Hcons].
    unfold final_reading in Hfin. rewrite Hnil, Hnil' in *. cbn in *. congruence. }
  unfold ok_or. destruct (checked_add _ _ _) as [deadline|] eqn:Hadd; [|done]. checked.
  apply (local_shutdown_loop_ends (bootstrap_server_addr bootstrap) (session_codec bootstrap) (session_fragments bootstrap e)).
  - by eexists _, e.
  - rewrite Hfin. lia.
  - destruct Hclock as [[Hnil Hnil']|Hcons]; [|rewrite Hcons in Hfuel; cbn in Hfuel; lia].
    unfold final_reading in Hdl, Hfin. rewrite Hnil' in Hfin. cbn in Hfin.
    change GRACEFUL_CLOSE_ACK_TIMEOUT_MS with 4000 in *. rewrite <- Hfin in Hdl. lia.
Qed.

(** ** Witnesses *)
#[local] Existing Instance null_aead.
#[local] Existing Instance null_aead_laws.
#[local] Existing Instance plain_prost.
#[local] Existing Instance plain_prost_laws.
#[local] Existing Instance stored_zlib.
#[local] Existing Instance stored_zlib_bounds.
#[local] Existing Instance line_vt100.
#[local] Existing Instance print_vte.
#[local] Existing Instance narrow_width.
#[local] Existing Instance host_prost.

Definition timer : Ready := mkReady None None false true None None.

(** A clock that shows the deadline in the end, and a timer that fires. *)
Definition closing_env : Env :=
  mkEnv [0; 10; 500; 1500; 2500; 3500; 4600] 0 [] [] (replicate 9 timer) 1000000 [] [].

Lemma closing_script : script_ok closing_env.
Proof. split; [|done]. split; [done|]. split; [done|]. cbn. repeat constructor; lia. Qed.

Lemma local_shutdown_ends_witness :
  ∃ d0 d, connect sample_bootstrap 80 24 Always None closing_env = Ok d0 ∧ run_turns 0 1 d0 = (d, Ok None) ∧
    clock (env d) ≠ [] ∧
    match run_local_shutdown 9 d with (d', Ok None) => readies (env d') = [] | _ => True end.
Proof.
  do 2 eexists. split; [vm_compute; reflexivity|]. split; [vm_compute; reflexivity|]. split; [vm_compute; congruence|].
  eapply (local_shutdown_ends sample_bootstrap 80 24 Always None closing_env _ 1 0); [apply closing_script|..].
  - vm_compute. reflexivity.
  - vm_compute. reflexivity.
  - vm_compute. congruence.
  - vm_compute. lia.
Defined.

(** The session closes at the deadline, after it has sent the request again and again. *)
Example closes_at_the_deadline :
  match connect sample_bootstrap 80 24 Always None closing_env with
  | Ok d0 =>
      let '(d, r) := run_local_shutdown 9 (run_turns 0 1 d0).1 in
      r = Ok (Some LocalClosed) ∧ len (sent_datagrams (env d)) = 4
  | _ => False
  end.
Proof. vm_compute. split; reflexivity. Qed.
