(* ===== verification/EndToEnd.v ===== *)
(** * Delivery from one driver to another

    What [send_transport_instruction] hands to the socket is what a peer that runs
    [decode_datagram] with the same key and the other direction gets back: the
    packet layer, the fragment layer, the reassembler and the instruction codec
    compose to the identity. *)

From S2P Require Import Prelude Limits BTreeMap Packet Fragment Instruction Synchronization Timing.
From S2P Require Import Reachability TerminalWidth Emulator Terminal Prediction Errors ClientHistory Bootstrap Driver DriverInv DriverSafety.

Local Open Scope Z_scope.

Section delivery.
Context `{AE : Aead} `{AEL : !AeadLaws AE} `{PR : Prost} `{PL : !ProstLaws PR}.
Context `{ZL : Zlib} `{ZB : !ZlibBounds ZL} `{ZLL : !ZlibLaws ZL}.
Context `{VT : Vt100} `{VTE : Vte} `{UW : UnicodeWidth} `{PH : ProstHost}.

(** ** What is sent *)

(** [datagram] is [plaintext] sealed with sequence number [seq]. *)
Definition sealed (c : PacketCodec) (seq : Z) (plaintext datagram : bytes) : Prop :=
  0 ≤ seq ≤ MAX_SEQUENCE ∧ len plaintext ≤ MAX_PLAINTEXT_BYTES ∧
  ∃ ct tag, aead_encrypt (crypto_key (codec_crypto c))
      (nonce (to_be_bytes 8 (Z.lor (header_bit ClientToServer) seq))) plaintext = Some (ct, tag) ∧
    len ct = len plaintext ∧ len tag = TAG_BYTES ∧
    datagram = to_be_bytes 8 (Z.lor (header_bit ClientToServer) seq) ++ ct ++ tag.

(** The datagrams of the fragments [number ..] with sequence numbers [seq ..]. *)
Inductive on_wire (c : PacketCodec) (ts : OutgoingTimestamps) (id count : Z) : Z → Z → list bytes → list bytes → Prop :=
  | on_wire_nil number seq : on_wire c ts id count number seq [] []
  | on_wire_cons number seq body bodies datagram datagrams :
      sealed c seq (envelope (Timing.timestamp ts) (Timing.timestamp_reply ts) id number (number + 1 =? count) body) datagram →
      on_wire c ts id count (number + 1) (seq + 1) bodies datagrams →
      on_wire c ts id count number seq (body :: bodies) (datagram :: datagrams).

Lemma seal_sealed c seq pt buf :
  0 ≤ seq ≤ MAX_SEQUENCE → len pt ≤ MAX_PLAINTEXT_BYTES → buffer_ok buf →
  ∃ buf' datagram, PacketCodec_seal c ClientToServer seq pt buf = (buf', Ok (OVERHEAD_BYTES + len pt)) ∧ buffer_ok buf' ∧
    slice (E:=DriverError) 0 (OVERHEAD_BYTES + len pt) buf' = Ok datagram ∧ sealed c seq pt datagram.
Proof.
  intros Hs Hp Hbuf. destruct (seal_buffer c ClientToServer seq pt buf Hs Hp Hbuf) as (buf' & datagram & Hseal & Hbuf' & Hsl & Hl).
  exists buf', datagram. do 3 (split; [done|]). split; [done|]. split; [done|].
  destruct (PacketCodec_seal_Ok c ClientToServer seq pt buf) as (ct & tag & He & Hct & Htag & Hseal');
    [done|done|unfold buffer_ok, MAX_PLAINTEXT_BYTES in *; lia|].
  rewrite Hseal in Hseal'. injection Hseal' as ->. exists ct, tag. do 3 (split; [done|]).
  set (sealed_bytes := to_be_bytes 8 _ ++ ct ++ tag) in *.
  assert (len sealed_bytes = OVERHEAD_BYTES + len pt) as Hsb.
  { unfold sealed_bytes. rewrite !len_app, len_to_be_bytes, Hct, Htag. unfold OVERHEAD_BYTES, HEADER_BYTES. lia. }
  pose proof (slice_mid (E:=DriverError) 0 (OVERHEAD_BYTES + len pt) [] sealed_bytes (drop (Z.to_nat (OVERHEAD_BYTES + len pt)) buf)) as Hm.
  specialize (Hm eq_refl ltac:(rewrite Hsb; done)). simpl in Hm. congruence.
Qed.

(** Reading the flag and sending leave everything but the script alone. *)
Definition sent_by (d d' : SessionDriver) (datagrams : list bytes) : Prop :=
  packet_codec d' = packet_codec d ∧ sent_datagrams (env d') = sent_datagrams (env d) ++ datagrams.

Lemma cancellation_run d : ∃ b e, cancellation_requested d = (set_env e d, Ok b) ∧
  sent_datagrams e = sent_datagrams (env d).
Proof. unfold cancellation_requested, with_env. destruct (cancels (env d)); do 2 eexists; split; done. Qed.

Lemma send_datagram_run b d : ∃ r e, send_datagram b d = (set_env e d, Ok r) ∧
  sent_datagrams e = sent_datagrams (env d) ++ [b].
Proof. unfold send_datagram, with_env. destruct (sends (env d)); do 2 eexists; split; done. Qed.

Lemma send_fragments_wire ts id count bodies :
  ∀ number pbuf dbuf d d',
  sequence_ok (send_sequence d) → 0 ≤ number → number + len bodies ≤ MAX_FRAGMENTS_PER_INSTRUCTION →
  Forall (λ b, len b ≤ MAX_FRAGMENT_BODY_BYTES) bodies → buffer_ok pbuf → buffer_ok dbuf →
  send_fragments ts id count number bodies pbuf dbuf d = (d', Ok Sent) →
  ∃ datagrams, sent_by d d' datagrams ∧
    (bodies = [] ∧ datagrams = [] ∨
     ∃ seq, send_sequence d = Some seq ∧ on_wire (packet_codec d) ts id count number seq bodies datagrams).
Proof.
  induction bodies as [|body rest IH]; intros num pbuf dbuf d d' Hseq Hnum Hlen Hb Hpb Hdb H.
  { injection H as <-. exists []. split; [split; [done|by rewrite app_nil_r]|by left]. }
  rewrite len_cons in Hlen. pose proof (len_nonneg rest). apply Forall_cons in Hb as [Hbody Hrest].
  pose proof (len_nonneg body). cbn [send_fragments] in H.
  destruct (cancellation_run d) as (c & e1 & Hc & He1). apply bind_Ok in H as (d1 & c' & Hc' & H).
  rewrite Hc in Hc'. injection Hc' as <- <-. destruct c; [done|].
  apply lift_bind_Ok in H as (num' & Hn & H). unfold try_from in Hn.
  replace ((0 <=? num) && (num <=? U16_MAX)) with true in Hn by llia. injection Hn as <-.
  destruct (encode_buffer (Timing.timestamp ts) (Timing.timestamp_reply ts) id num (num + 1 =? count) body pbuf)
    as (pbuf' & Henc & Hpb' & Hview); [change MAX_FRAGMENT_NUMBER with 32767; llia|done|done|].
  rewrite Henc in H. apply lift_bind_Ok in H as (plen & [= <-] & H).
  apply bind_Ok in H as (d3 & seq & Htake & H). unfold zoom, SendSequence_take in Htake. simpl in Htake.
  destruct (send_sequence d) as [seq0|] eqn:Hs; [|done]. injection Htake as <- <-.
  set (next := match checked_add U64_MAX seq0 1 with Some _ => _ | None => None end) in H.
  apply bind_Ok in H as (d3 & d3' & [= <- <-] & H).
  rewrite Hview in H. apply lift_bind_Ok in H as (view & [= <-] & H).
  destruct (seal_sealed (packet_codec d) seq0
    (envelope (Timing.timestamp ts) (Timing.timestamp_reply ts) id num (num + 1 =? count) body) dbuf)
    as (dbuf' & datagram & Hseal & Hdb' & Hout & Hsealed);
    [by apply Hseq|rewrite len_envelope; unfold MAX_PLAINTEXT_BYTES, OVERHEAD_BYTES, HEADER_BYTES, TAG_BYTES; llia|done|].
  change (packet_codec (set_send_sequence next (set_env e1 d))) with (packet_codec d) in H. rewrite Hseal in H.
  apply lift_bind_Ok in H as (dlen & [= <-] & H).
  rewrite Hout in H. apply lift_bind_Ok in H as (out & [= <-] & H).
  set (d2 := set_send_sequence _ _) in H. destruct (send_datagram_run datagram d2) as (r & e2 & Hsd & He2).
  apply bind_Ok in H as (d3 & r' & Hsd' & H). rewrite Hsd in Hsd'. injection Hsd' as <- <-.
  destruct r as [sent|kind]; cycle 1.
  { apply bind_Ok in H as (d3 & d3' & [= <- <-] & H). by destruct (_ && _). }
  apply bind_Ok in H as (d3 & [] & Hf & H). unfold fail_if in Hf.
  destruct (negb _); [done|]. injection Hf as <-.
  apply IH in H as (datagrams & [Hcodec Hlog] & Hw); try done; [|simpl|lia|lia].
  2: { unfold sequence_ok, next. intros n. destruct (checked_add _ _ _) eqn:Hck; [|done]. checked.
       specialize (Hseq seq0 eq_refl). destruct (Z.leb_spec (seq0 + 1) MAX_SEQUENCE); [|done]. intros [= <-]. lia. }
  exists (datagram :: datagrams). split.
  { split; [done|]. rewrite Hlog. simpl. rewrite He2. simpl. by rewrite He1, <- app_assoc. }
  right. exists seq0. split; [done|]. apply on_wire_cons; [done|].
  destruct Hw as [[-> ->]|(seq' & Hn & Hw)]; [constructor|].
  assert (seq' = seq0 + 1) as ->; [|done].
  simpl in Hn. unfold next in Hn. destruct (checked_add _ _ _) eqn:Hck; [|done]. checked.
  destruct (_ <=? _); [|done]. by injection Hn.
Qed.

Abbreviation pieces c := (chunks (Z.to_nat MAX_FRAGMENT_BODY_BYTES) c).

Lemma encode_zlib_nonempty i c : encode_zlib i = Ok c → c ≠ [].
Proof.
  unfold encode_zlib. intros H. do 2 (destruct (_ <? _); [done|]; cbn zeta in H).
  injection H as <-. apply compress_nonempty.
Qed.

Lemma send_transport_wire i now d d' :
  driver_ok now d → send_transport_instruction i now d = (d', Ok Sent) →
  ∃ c ts id seq datagrams, encode_zlib i = Ok c ∧ timestamps_ok ts ∧ is_u64 id ∧ send_sequence d = Some seq ∧
    sent_by d d' datagrams ∧ on_wire (packet_codec d) ts id (len (pieces c)) 0 seq (pieces c) datagrams.
Proof.
  intros (server & codec & pool & readings & Hinv) H. unfold send_transport_instruction in H. apply lift_bind_Ok in H as (c & Hc & H).
  destruct (encode_zlib i) as [c'|e|] eqn:He; [|done|done]. injection Hc as ->.
  assert (len c ≤ MAX_COMPRESSED_INSTRUCTION_BYTES ∧ c ≠ []) as [Hlen Hne].
  { destruct (encode_zlib_cases i) as [(? & Hi & ?)|[?|?]]; [|congruence|congruence]. rewrite He in Hi. injection Hi as <-.
    split; [done|]. by eapply encode_zlib_nonempty. }
  destruct (outgoing_Ok now (datagram_timing d) (inv_pos _ _ _ _ _ _ _ Hinv) (di_timing _ _ _ _ _ _ _ Hinv)) as (ts & dt & Ho & _ & Hts).
  apply bind_Ok in H as (d1 & ts' & Ho' & H). unfold on_datagram_timing, zoom in Ho'. rewrite Ho in Ho'. injection Ho' as <- <-.
  apply bind_Ok in H as (d2 & id & Hid & H). unfold zoom, InstructionIdentifier_take in Hid.
  cbv [mbind M_bind get lift put mret M_ret ok_or] in Hid. simpl in Hid.
  destruct (fragment_identifier d) as [id0|] eqn:Hfi; [|done]. injection Hid as <- <-.
  destruct (fragment_count_ok c Hlen) as [Hcount Hbodies].
  assert (div_ceil (len c) MAX_FRAGMENT_BODY_BYTES = len (pieces c)) as Hdc.
  { rewrite chunks_length by llia. done. }
  rewrite Hdc in H.
  apply send_fragments_wire in H as (datagrams & Hsent & Hw); try done || apply len_replicate_max; [|apply Hinv].
  destruct Hw as [[Hnil _]|(seq & Hs & Hw)].
  { destruct Hne. rewrite <- (chunks_concat (Z.to_nat MAX_FRAGMENT_BODY_BYTES) c), Hnil by llia. done. }
  exists c, ts, id0, seq, datagrams. split_and!; try done. by eapply di_identifier.
Qed.

(** ** What is received

    A peer at time [now] that expects sequence number [seq]. Its clock advances as its script
    says, never back, and every reading is before [deadline]. *)
Record peer_ok (now deadline : Z) (c : PacketCodec) (addr : SocketAddrV4) (seq : Z) (p : SessionDriver) : Prop := {
  po_codec : receiver_codec (packet_receiver p) = c;
  po_direction : receiver_direction (packet_receiver p) = ClientToServer;
  po_replay h : highest (receiver_replay (packet_receiver p)) = Some h → h < seq;
  po_addr : server_addr p = addr;
  po_clock : clock_ok now (env p);
  po_deadline : Forall (λ t, t < deadline) (now :: clock (env p));
  po_timing : dt_ok now (datagram_timing p);
}.

(** The next reading of the peer's clock. *)
Definition arrival (p : SessionDriver) : Z := (read_clock (env p)).2.

Lemma read_clock_ok now deadline e :
  clock_ok now e → Forall (λ t, t < deadline) (now :: clock e) →
  let '(e', t) := read_clock e in now ≤ t ∧ clock_ok t e' ∧ Forall (λ t, t < deadline) (t :: clock e').
Proof.
  intros (H0 & Hl & Hs) Hd. unfold read_clock, clock_ok. destruct (clock e) as [|t rest] eqn:Hc; simpl.
  - rewrite Hc, Hl. split_and!; done.
  - inversion Hs as [|?? Hs' Hle]; subst. apply Forall_cons in Hle as [Hle _], Hd as [_ Hd]. split_and!; done || lia.
Qed.

Lemma accept_newer seq w :
  (∀ h, highest w = Some h → h < seq) → ∃ w', ReplayWindow_accept seq w = (w', Ok tt) ∧ highest w' = Some seq.
Proof.
  intros Hw. unfold ReplayWindow_accept. destruct (highest w) as [h|]; [|eauto].
  specialize (Hw h eq_refl). destruct (Z.ltb_spec h seq); [eauto|lia].
Qed.

Lemma open_sealed_datagram now deadline c addr seq p pt datagram :
  peer_ok now deadline c addr seq p → sealed c seq pt datagram →
  ∃ p', peer_ok now deadline c addr (seq + 1) p' ∧ reassembler p' = reassembler p ∧
    open_datagram datagram (V4 addr) p = (p', Ok (mkOpenedPacket seq pt)).
Proof.
  intros [Hc Hd Hr Ha Hcl Hdl Ht] (Hseq & Hpl & ct & tag & He & Hct & Htag & ->).
  destruct (accept_newer seq (receiver_replay (packet_receiver p)) Hr) as (w & Hw & Hhigh).
  unfold open_datagram, PacketReceiver_open_from. rewrite Ha, bool_decide_eq_true_2 by done.
  unfold PacketReceiver_open. rewrite Hc, Hd, (PacketCodec_open_sealed c ClientToServer seq pt ct tag) by done.
  cbn [sequence]. rewrite Hw. eexists. split; [|split; [|done]]; [|done].
  split; simpl; try done. intros h Hh. rewrite Hhigh in Hh. injection Hh as <-. lia.
Qed.

Lemma decode_one now deadline c addr seq p ts id num fin body datagram ra outcome :
  peer_ok now deadline c addr seq p → deadline ≤ U64_MAX → timestamps_ok ts → is_u64 id → 0 ≤ num ≤ MAX_FRAGMENT_NUMBER →
  len body ≤ MAX_FRAGMENT_BODY_BYTES →
  sealed c seq (envelope (Timing.timestamp ts) (Timing.timestamp_reply ts) id num fin body) datagram →
  push (arrival p) (mkFragment (Timing.timestamp ts) (Timing.timestamp_reply ts) id num fin body) (reassembler p) = (ra, Ok outcome) →
  ∃ p', peer_ok (arrival p) deadline c addr (seq + 1) p' ∧ reassembler p' = ra ∧
    decode_datagram datagram (V4 addr) p =
      (p', match outcome with
           | Complete compressed => map_ok Some (map_err DriverInstruction (decode_zlib compressed))
           | _ => Ok None
           end).
Proof.
  intros [Hc Hd Hr Ha Hcl Hdl Ht] Hu64 [Hts Hreply] Hid Hnum Hbody Hsealed Hpush.
  unfold arrival in *. pose proof (read_clock_ok _ _ _ Hcl Hdl) as Hread.
  destruct (read_clock (env p)) as [e t] eqn:Hrc. destruct Hread as (Hle & Hcl' & Hdl'). cbn [fst snd] in *.
  assert (0 ≤ t < U64_MAX) as Hu by (destruct Hcl' as [? _]; apply Forall_cons in Hdl' as [? _]; lia).
  unfold decode_datagram. mstep.
  { unfold now_ms. mstep; [unfold with_env; rewrite Hrc; done|].
    unfold lift, try_from. replace ((0 <=? t) && (t <=? U64_MAX)) with true by lia. done. }
  assert (peer_ok t deadline c addr seq (set_env e p)) as Hp by (destruct Ht; split; simpl; try done; split; [done|lia]).
  destruct (open_sealed_datagram _ _ _ _ _ _ _ _ Hp Hsealed) as (p2 & Hp2 & Hra & Hopen).
  erewrite handle_step; [|exact Hopen]. cbn [plaintext sequence].
  rewrite decode_envelope by done. mstep; [done|].
  destruct (observe_received_Ok seq (Timing.timestamp ts) (Timing.timestamp_reply ts) t (datagram_timing p2))
    as (disp & dt & Hobs & Hdt); [lia|apply Hp2|].
  mstep; [unfold on_datagram_timing, zoom; cbn [Fragment.timestamp Fragment.timestamp_reply]; rewrite Hobs; done|].
  mstep; [unfold on_reassembler, zoom; simpl reassembler; rewrite Hra; simpl reassembler; rewrite Hpush; done|].
  exists (set_reassembler ra (set_datagram_timing dt p2)). split; [by destruct Hp2; split|]. split; [done|].
  destruct outcome as [| |compressed]; [done|done|]. unfold mbind, M_bind, lift.
  by destruct (decode_zlib compressed).
Qed.

(** A peer decodes a list of datagrams. *)
Fixpoint decode_all (addr : SocketAddrV4) (datagrams : list bytes) :
    M SessionDriver DriverError (list (option TransportInstruction)) :=
  match datagrams with
  | [] => mret []
  | datagram :: rest =>
      i ← decode_datagram datagram (V4 addr);
      l ← decode_all addr rest;
      mret (i :: l)
  end.

(** The reassembler at [now], after the first [k] pieces of [bs] from [t0] on. *)
Definition reassembling (r : FragmentReassembler) (id t0 now : Z) (bs : list bytes) (k : Z) : Prop :=
  last_observed_ms r ≤ now ∧
  if k =? 0 then incomplete r = None
  else ∃ ns, collecting r id t0 bs ns ∧ (∀ n, n ∈ ns ↔ 0 ≤ n < k) ∧ len ns = k.

Lemma push_next r id t0 now t bs k f :
  reassembling r id t0 now bs k → now ≤ t < t0 + INCOMPLETE_INSTRUCTION_LIFETIME_MS → (k = 0 → t = t0) →
  is_piece id bs f → Fragment.number f = k →
  len bs ≤ MAX_FRAGMENTS_PER_INSTRUCTION → len (concat bs) ≤ MAX_COMPRESSED_INSTRUCTION_BYTES →
  t0 + INCOMPLETE_INSTRUCTION_LIFETIME_MS ≤ U64_MAX →
  ∃ r', if k + 1 =? len bs then push t f r = (r', Ok (Complete (concat bs)))
        else push t f r = (r', Ok Fragment.Pending) ∧ reassembling r' id t0 t bs (k + 1).
Proof.
  intros [Hlast Hr] Hnow Hfirst Hf Hk Hn Hl Ht. pose proof (is_piece_range _ _ _ Hf) as Hrange. rewrite Hk in Hrange.
  assert (k + 1 =? 0 = false) as Hk1 by lia.
  destruct (Z.eqb_spec k 0) as [H0|H0].
  - rewrite (Hfirst H0) in *.
    destruct (push_first_piece r id bs t0 f Hr Hf ltac:(lia) Hn Hl) as (r' & Hl' & Hp). exists r'. rewrite H0 in *.
    rewrite Z.eqb_sym in Hp. change (0 + 1) with 1. destruct (1 =? len bs); [apply Hp|]. destruct Hp as [Hp Hcol].
    split; [done|]. split; [lia|]. exists [Fragment.number f]. split; [done|]. rewrite Hk. split; [|done].
    intros n. rewrite list_elem_of_singleton. lia.
  - destruct Hr as (ns & Hcol & Hns & Hlen).
    destruct (push_piece r id t0 bs ns t f) as (r' & Hl' & Hp); try done; try lia.
    { apply Forall_forall. intros n Hin%Hns. lia. }
    { rewrite Hns. lia. }
    rewrite Hlen in Hp. exists r'. destruct (k + 1 =? len bs); [apply Hp|]. destruct Hp as [Hp Hcol'].
    split; [done|]. split; [lia|]. rewrite Hk1. exists (Fragment.number f :: ns). split; [done|]. split.
    + intros n. rewrite elem_of_cons, Hns. lia.
    + rewrite len_cons. lia.
Qed.

Lemma decode_pieces t0 c addr ts id bs i number seq bodies datagrams :
  on_wire c ts id (len bs) number seq bodies datagrams →
  ∀ now p, peer_ok now (t0 + INCOMPLETE_INSTRUCTION_LIFETIME_MS) c addr seq p →
  reassembling (reassembler p) id t0 now bs number → (number = 0 → arrival p = t0) → 0 ≤ number →
  bodies = drop (Z.to_nat number) bs → bodies ≠ [] → timestamps_ok ts → is_u64 id →
  Forall (λ b, len b ≤ MAX_FRAGMENT_BODY_BYTES) bs → len bs ≤ MAX_FRAGMENTS_PER_INSTRUCTION →
  len (concat bs) ≤ MAX_COMPRESSED_INSTRUCTION_BYTES → t0 + INCOMPLETE_INSTRUCTION_LIFETIME_MS ≤ U64_MAX →
  decode_zlib (concat bs) = Ok i →
  (decode_all addr datagrams p).2 = Ok (replicate (length datagrams - 1) None ++ [Some i]).
Proof.
  induction 1 as [|number seq body bodies datagram datagrams Hsealed Hw IH];
    intros now p Hp Hr Hfirst Hnum Hdrop Hne Hts Hid Hall Hn Hl Ht Hi; [done|].
  assert (bs !! Z.to_nat number = Some body) as Hlook.
  { rewrite <- (Nat.add_0_r (Z.to_nat number)), <- lookup_drop, <- Hdrop. done. }
  pose proof (lookup_lt_Some _ _ _ Hlook) as Hlt.
  assert (len body ≤ MAX_FRAGMENT_BODY_BYTES) as Hb by (eapply Forall_lookup_1 in Hall; done).
  set (f := mkFragment (Timing.timestamp ts) (Timing.timestamp_reply ts) id number (number + 1 =? len bs) body).
  assert (is_piece id bs f) as Hf by (split_and!; simpl; try done; lia).
  assert (now ≤ arrival p < t0 + INCOMPLETE_INSTRUCTION_LIFETIME_MS) as Hnow.
  { pose proof (read_clock_ok _ _ _ (po_clock _ _ _ _ _ _ Hp) (po_deadline _ _ _ _ _ _ Hp)) as Hread. unfold arrival.
    destruct (read_clock (env p)). destruct Hread as (? & _ & [? _]%Forall_cons). done. }
  destruct (push_next _ _ _ _ _ _ _ f Hr Hnow Hfirst Hf eq_refl Hn Hl Ht) as (ra & Hpush).
  assert (bodies = drop (Z.to_nat (number + 1)) bs) as Hdrop'.
  { replace (Z.to_nat (number + 1)) with (S (Z.to_nat number)) by lia.
    apply drop_S in Hlook. rewrite Hlook in Hdrop. by injection Hdrop. }
  assert (0 ≤ number ≤ MAX_FRAGMENT_NUMBER) as Hnr by (change MAX_FRAGMENT_NUMBER with 32767; unfold len in *; llia).
  destruct (number + 1 =? len bs) eqn:Hfinal.
  - assert (bodies = []) as -> by (rewrite Hdrop'; apply drop_ge; unfold len in *; lia).
    inversion Hw; subst datagrams.
    destruct (decode_one _ _ _ _ _ _ ts id number true body datagram ra _ Hp Ht Hts Hid Hnr Hb Hsealed Hpush) as (p' & _ & _ & Hdec).
    cbn [decode_all]. unfold mbind, M_bind. rewrite Hdec, Hi. done.
  - destruct Hpush as [Hpush Hr'].
    destruct (decode_one _ _ _ _ _ _ ts id number false body datagram ra _ Hp Ht Hts Hid Hnr Hb Hsealed Hpush)
      as (p' & Hp' & Hra & Hdec).
    assert (bodies ≠ []) as Hne'.
    { intros ->. symmetry in Hdrop'. apply (f_equal length) in Hdrop'. rewrite length_drop in Hdrop'. unfold len in *. simpl in *. lia. }
    assert (datagrams ≠ []) as Hdne by (inversion Hw; congruence).
    cbn [decode_all]. unfold mbind, M_bind. rewrite Hdec.
    specialize (IH (arrival p) p'). rewrite Hra in IH.
    assert ((decode_all addr datagrams p').2 = Ok (replicate (length datagrams - 1) None ++ [Some i])) as Hrest.
    { apply IH; done || lia. }
    destruct (decode_all addr datagrams p') as [p'' r]. simpl in Hrest. subst r. simpl.
    destruct datagrams as [|x datagrams]; [done|]. simpl. by rewrite Nat.sub_0_r.
Qed.

(** C5. An instruction of the protocol's version that the driver reports as sent is received:
    the datagrams it handed to the socket, decoded in order by a peer with the same key, the
    other direction, an empty reassembler and a replay window behind the sequence numbers
    used, give nothing until the last one and then exactly the instruction, whatever its size
    and the number of fragments it takes. The peer's clock may advance between the
    datagrams, as long as it does not go back and all arrive within the ten seconds that an
    incomplete instruction lives after its first fragment. *)
Theorem sent_instruction_is_received i now d d' peer peer_now seq :
  instruction_wf i → protocol_version i = PROTOCOL_VERSION → driver_ok now d →
  send_transport_instruction i now d = (d', Ok Sent) → send_sequence d = Some seq →
  peer_ok peer_now (arrival peer + INCOMPLETE_INSTRUCTION_LIFETIME_MS) (packet_codec d) (server_addr peer) seq peer →
  incomplete (reassembler peer) = None → last_observed_ms (reassembler peer) ≤ peer_now →
  arrival peer + INCOMPLETE_INSTRUCTION_LIFETIME_MS ≤ U64_MAX →
  ∃ datagrams, sent_datagrams (env d') = sent_datagrams (env d) ++ datagrams ∧
    (decode_all (server_addr peer) datagrams peer).2 = Ok (replicate (length datagrams - 1) None ++ [Some i]).
Proof.
  intros Hi Hv Hinv Hsend Hseq Hp Hinc Hlast Ht.
  destruct (send_transport_wire _ _ _ _ Hinv Hsend) as (c & ts & id & seq' & datagrams & Hc & Hts & Hid & Hs & [_ Hlog] & Hw).
  rewrite Hseq in Hs. injection Hs as <-. exists datagrams. split; [done|].
  pose proof (decode_encode_zlib i c Hi Hv Hc) as Hdec.
  assert (concat (pieces c) = c) as Hcat by (apply chunks_concat; llia).
  destruct (encode_zlib_cases i) as [(c' & Hc' & Hlen)|[He|He]]; [|congruence|congruence].
  rewrite Hc in Hc'. injection Hc' as <-. destruct (fragment_count_ok c Hlen) as [Hcount Hall].
  eapply (decode_pieces (arrival peer) _ _ _ _ (pieces c)); [exact Hw|done|by split|done|done|done|..]; try done; rewrite ?Hcat; try done.
  intros Hnil. rewrite Hnil in Hcat. subst c. by apply encode_zlib_nonempty in Hc.
Qed.
End delivery.

(** ** Witnesses *)
#[local] Existing Instance null_aead.
#[local] Existing Instance null_aead_laws.
#[local] Existing Instance plain_prost.
#[local] Existing Instance plain_prost_laws.
#[local] Existing Instance stored_zlib.
#[local] Existing Instance stored_zlib_bounds.
#[local] Existing Instance stored_zlib_laws.
#[local] Existing Instance line_vt100.
#[local] Existing Instance print_vte.
#[local] Existing Instance narrow_width.
#[local] Existing Instance host_prost.

Definition sample_transport : TransportInstruction := mkTransportInstruction PROTOCOL_VERSION 0 1 0 0 [104; 105] [0].

(** The peer of a connected driver: the same key, receiving the other direction, with a
    clock that advances by seconds between the datagrams. *)
Definition as_peer (d : SessionDriver) : SessionDriver :=
  set_env (mkEnv [100; 4000; 9000] 0 [] [] [] 1000000 [] [])
    (set_packet_receiver (PacketReceiver_new (mkSessionKey (replicate 16 7)) ClientToServer) d).

Lemma sent_instruction_is_received_witness :
  ∃ d d', connect sample_bootstrap 80 24 Always None sample_env = Ok d ∧
    send_transport_instruction sample_transport 0 d = (d', Ok Sent) ∧
    ∃ datagrams, sent_datagrams (env d') = sent_datagrams (env d) ++ datagrams ∧
      (decode_all (server_addr (as_peer d)) datagrams (as_peer d)).2 =
        Ok (replicate (length datagrams - 1) None ++ [Some sample_transport]).
Proof.
  do 2 eexists. split; [vm_compute; reflexivity|]. split; [vm_compute; reflexivity|].
  eapply (sent_instruction_is_received sample_transport 0 _ _ _ 0 0).
  - unfold instruction_wf, is_u32, is_u64, is_u8. simpl. split_and!; try done; repeat constructor; done.
  - reflexivity.
  - eapply (connect_ok sample_bootstrap 80 24 Always None sample_env); [apply sample_script|vm_compute; reflexivity].
  - vm_compute. reflexivity.
  - reflexivity.
  - split; try done; simpl; [split_and!; [done|done|repeat constructor; lia]|repeat constructor; vm_compute; congruence].
  - reflexivity.
  - vm_compute. congruence.
  - vm_compute. congruence.
Defined.
