(* ===== verification/Session.v ===== *)
(** * The application's side of a session: [src/src/session.rs]

    The handle queues commands for the driver through a bounded channel of tokio and asks
    for a graceful close or a cancellation through flags. Its methods run in the
    application's threads, so they interleave with the driver's polls: the step
    relation below has one step per atomic action of either side, and one relation
    per assumption on how much of a poll of [wait_next] is atomic. *)

From S2P Require Import Prelude Limits BTreeMap Instruction TerminalWidth Emulator Terminal Errors ClientHistory Driver.

Local Open Scope Z_scope.

(** ** [tokio::sync::mpsc]

    A bounded channel with its two ends. [mpsc_reserve] is [None] while it waits for room and
    [Some None] for the error; a permit is sent or dropped; a poll of [recv] is [None] while
    it waits and [Some None] at the end of the stream. *)
Class Mpsc := {
  MpscChannel : Type → Type;
  mpsc_channel {A} : Z → MpscChannel A;
  mpsc_reserve {A} : MpscChannel A → option (option (MpscChannel A));
  permit_send {A} : A → MpscChannel A → MpscChannel A;
  permit_drop {A} : MpscChannel A → MpscChannel A;
  mpsc_recv {A} : MpscChannel A → option (option A) * MpscChannel A;
  drop_receiver {A} : MpscChannel A → MpscChannel A;
}.

(** The documented behaviour, while the receiver and a sender exist, of the values in the
    channel and the permits that are given out. *)
Class MpscLaws (MP : Mpsc) := {
  mpsc_values {A} : MpscChannel A → list A;
  mpsc_permits {A} : MpscChannel A → Z;
  mpsc_capacity {A} : MpscChannel A → Z;
  mpsc_channel_law {A} n :
    0 < n → mpsc_values (A:=A) (mpsc_channel n) = [] ∧ mpsc_permits (A:=A) (mpsc_channel n) = 0 ∧
    mpsc_capacity (A:=A) (mpsc_channel n) = n;
  mpsc_reserve_law {A} (c c' : MpscChannel A) :
    mpsc_reserve c = Some (Some c') →
    len (mpsc_values c) + mpsc_permits c < mpsc_capacity c ∧
    mpsc_values c' = mpsc_values c ∧ mpsc_permits c' = mpsc_permits c + 1 ∧ mpsc_capacity c' = mpsc_capacity c;
  permit_send_law {A} (v : A) c :
    1 ≤ mpsc_permits c →
    mpsc_values (permit_send v c) = mpsc_values c ++ [v] ∧ mpsc_permits (permit_send v c) = mpsc_permits c - 1 ∧
    mpsc_capacity (permit_send v c) = mpsc_capacity c;
  permit_drop_law {A} (c : MpscChannel A) :
    1 ≤ mpsc_permits c →
    mpsc_values (permit_drop c) = mpsc_values c ∧ mpsc_permits (permit_drop c) = mpsc_permits c - 1 ∧
    mpsc_capacity (permit_drop c) = mpsc_capacity c;
  mpsc_recv_law {A} (c : MpscChannel A) :
    match mpsc_recv c with
    | (Some (Some v), c') =>
        mpsc_values c = v :: mpsc_values c' ∧ mpsc_permits c' = mpsc_permits c ∧ mpsc_capacity c' = mpsc_capacity c
    | (_, c') => mpsc_values c = [] ∧ c' = c
    end;
}.

Inductive SessionCommandError := CommandClosed | CommandInputTooLarge | CommandInvalidTerminalSize.

#[export] Instance SessionCommandError_eq_dec : EqDecision SessionCommandError.
Proof. solve_decision. Defined.

Inductive PollPoint := AtCancellation | AtCommand | AtGracefulClose.

#[export] Instance PollPoint_eq_dec : EqDecision PollPoint.
Proof. solve_decision. Defined.

Section channels.
Context `{MP : Mpsc}.

(** The channels of a session, and how far the driver's wait has got. [sending] counts the
    calls of [send_command] that hold a permit; [running] holds until the driver is
    dropped; the logs hold the commands accepted by the handle and received by the
    driver. *)
Record Channels := mkChannels {
  commands : MpscChannel SessionCommand;
  sending : Z;
  close_requested : bool;
  graceful_close : bool;
  cancellation : bool;
  state : SessionState;
  point : PollPoint;
  running : bool;
  shutting_down : bool;
  accepted : list SessionCommand;
  received : list SessionCommand;
}.

Definition Channels_new : Channels :=
  mkChannels (mpsc_channel SESSION_COMMAND_QUEUE_CAPACITY) 0 false false false Connecting AtCancellation true false [] [].

Abbreviation ChanM := (M Channels SessionCommandError).

(** A change of the command channel and of the calls that hold a permit. *)
Definition set_commands (ch : MpscChannel SessionCommand) (n : Z) (log : list SessionCommand) (c : Channels) : Channels :=
  mkChannels ch n (close_requested c) (graceful_close c) (cancellation c) (state c) (point c) (running c)
    (shutting_down c) log (received c).

(** The first action of [send_command]: [Ok false] while there is no room. *)
Definition reserve : ChanM bool :=
  c ← get;
  match mpsc_reserve (commands c) with
  | None => mret false
  | Some None => throw CommandClosed
  | Some (Some ch) => put (set_commands ch (sending c + 1) (accepted c) c) ;; mret true
  end.

(** The rest of [send_command], under the lock; a refused command drops its permit. *)
Definition send_reserved (command : SessionCommand) : ChanM unit :=
  c ← get;
  if close_requested c || cancellation c || bool_decide (state c = Closed) then
    put (set_commands (permit_drop (commands c)) (sending c - 1) (accepted c) c) ;;
    throw CommandClosed
  else put (set_commands (permit_send command (commands c)) (sending c - 1) (accepted c ++ [command]) c).

(** The guards of the three public commands, and the command each queues. *)
Definition send_input (input : bytes) : Result SessionCommandError SessionCommand :=
  if MAX_INPUT_COMMAND_BYTES <? len input then Err CommandInputTooLarge else Ok (CommandInput input).

Definition resize (columns rows : Z) : Result SessionCommandError SessionCommand :=
  if negb (is_valid_size columns rows) then Err CommandInvalidTerminalSize else Ok (CommandResize columns rows).

Definition request_repaint : Result SessionCommandError SessionCommand := Ok CommandRepaint.

(** [Session::close] *)
Definition close (c : Channels) : Channels :=
  if close_requested c then c
  else mkChannels (commands c) (sending c) true true (cancellation c) (state c) (point c) (running c)
         (shutting_down c) (accepted c) (received c).

(** [Session::cancel] *)
Definition cancel (c : Channels) : Channels :=
  mkChannels (commands c) (sending c) (close_requested c) (graceful_close c) true (state c) (point c) (running c)
    (shutting_down c) (accepted c) (received c).

(** ** The driver's side: the three first tests of a poll of [wait_next] *)
Definition set_point (p : PollPoint) (c : Channels) : Channels :=
  mkChannels (commands c) (sending c) (close_requested c) (graceful_close c) (cancellation c) (state c) p (running c)
    (shutting_down c) (accepted c) (received c).

(** What one poll sees if nothing happens in the middle of it. *)
Definition snapshot (c : Channels) : Ready :=
  mkReady (if cancellation c then Some true else None) (mpsc_recv (commands c)).1 (graceful_close c) false None None.

(** What a wake-up does to the channels: a command is taken, the graceful close starts, or the
    driver returns and its end of the channel is dropped. *)
Definition woken (w : option Wake) (c : Channels) : Channels :=
  match w with
  | Some (WakeCommand command) =>
      mkChannels (mpsc_recv (commands c)).2 (sending c) (close_requested c) (graceful_close c) (cancellation c) (state c)
        AtCancellation (running c) (shutting_down c) (accepted c) (received c ++ [command])
  | Some WakeGracefulClose =>
      mkChannels (commands c) (sending c) (close_requested c) (graceful_close c) (cancellation c) (state c)
        AtCancellation (running c) true (accepted c) (received c)
  | Some WakeCancelled | Some WakeOwnerDropped =>
      mkChannels (drop_receiver (commands c)) (sending c) (close_requested c) (graceful_close c) (cancellation c) (state c)
        AtCancellation false (shutting_down c) (accepted c) (received c)
  | Some (WakeDatagram _) | Some WakeOutput | Some WakeTimer | None => set_point AtCancellation c
  end.

(** [SessionTask::run] publishes [Closed] after the driver is dropped. *)
Definition returned (c : Channels) : Channels :=
  mkChannels (commands c) (sending c) (close_requested c) (graceful_close c) (cancellation c) Closed (point c) (running c)
    (shutting_down c) (accepted c) (received c).

(** One whole poll, taken as one action. *)
Definition poll_atomic (c : Channels) : Channels :=
  woken (wait_poll (snapshot c) (negb (shutting_down c)) false false) c.

(** One test of a poll. *)
Definition poll_test (c : Channels) : Channels :=
  match point c with
  | AtCancellation => if cancellation c then woken (Some WakeCancelled) c else set_point AtCommand c
  | AtCommand =>
      match (mpsc_recv (commands c)).1 with
      | Some (Some command) => woken (Some (WakeCommand command)) c
      | Some None => woken (Some WakeOwnerDropped) c
      | None => set_point AtGracefulClose c
      end
  | AtGracefulClose =>
      if negb (shutting_down c) && graceful_close c then woken (Some WakeGracefulClose) c else woken None c
  end.

(** ** The interleavings *)
Inductive handle_step : Channels → Channels → Prop :=
  | step_reserve c c' granted : reserve c = (c', Ok granted) → handle_step c c'
  | step_send c command : 1 ≤ sending c → handle_step c (send_reserved command c).1
  | step_close c : handle_step c (close c)
  | step_cancel c : handle_step c (cancel c).

Inductive atomic_step : Channels → Channels → Prop :=
  | atomic_handle c c' : handle_step c c' → atomic_step c c'
  | atomic_poll c : running c = true → atomic_step c (poll_atomic c)
  | atomic_returned c : running c = false → atomic_step c (returned c).

Inductive fine_step : Channels → Channels → Prop :=
  | fine_handle c c' : handle_step c c' → fine_step c c'
  | fine_poll c : running c = true → fine_step c (poll_test c)
  | fine_returned c : running c = false → fine_step c (returned c).

Lemma send_reserved_run command c :
  (send_reserved command c).1 =
    if close_requested c || cancellation c || bool_decide (state c = Closed)
    then set_commands (permit_drop (commands c)) (sending c - 1) (accepted c) c
    else set_commands (permit_send command (commands c)) (sending c - 1) (accepted c ++ [command]) c.
Proof. unfold send_reserved. cbv [mbind M_bind get put throw]. by destruct (_ || _). Qed.

Lemma reserve_run c c' granted :
  reserve c = (c', Ok granted) →
  c' = c ∨ ∃ ch, mpsc_reserve (commands c) = Some (Some ch) ∧ c' = set_commands ch (sending c + 1) (accepted c) c.
Proof.
  unfold reserve. cbv [mbind M_bind get put throw mret M_ret].
  destruct (mpsc_reserve (commands c)) as [[ch|]|]; [|done|]; intros [= <- _]; eauto.
Qed.

(** Once a close is requested, no step of either side accepts a command. *)
Lemma fine_step_closed c c' :
  fine_step c c' → close_requested c = true → close_requested c' = true ∧ accepted c' = accepted c.
Proof.
  intros [c1 c2 [c3 c4 g Hr|c3 command Hp|c3|c3]|c1 Hst|c1 Hst] Hc.
  - by apply reserve_run in Hr as [->|(ch & _ & ->)].
  - by rewrite send_reserved_run, Hc.
  - unfold close. by rewrite Hc.
  - done.
  - unfold poll_test. destruct (point c1); [by destruct (cancellation c1)|by destruct (mpsc_recv (commands c1)).1 as [[]|]|by destruct (_ && _)].
  - done.
Qed.

(** ** The invariant of the atomic system *)
Context {ML : MpscLaws MP}.

Record channels_ok (c : Channels) : Prop := {
  co_fifo : running c = true → accepted c = received c ++ mpsc_values (commands c) ∧ mpsc_permits (commands c) = sending c;
  co_close : graceful_close c = true → close_requested c = true;
  co_shutdown : shutting_down c = true → close_requested c = true;
  co_ordered : shutting_down c = true → received c = accepted c;
}.

Lemma channels_new_ok : channels_ok Channels_new.
Proof.
  destruct (mpsc_channel_law (A:=SessionCommand) SESSION_COMMAND_QUEUE_CAPACITY) as (Hv & Hp & _); [by vm_compute|].
  by split.
Qed.

Lemma handle_step_ok c c' : handle_step c c' → channels_ok c → channels_ok c'.
Proof.
  intros [c1 c2 g Hr|c1 command Hp|c1|c1] [Hf Hg Hs Ho].
  - apply reserve_run in Hr as [->|(ch & Hr & ->)]; [by split|]. split; simpl; try done. intros Hrun.
    destruct (Hf Hrun) as [-> <-]. destruct (mpsc_reserve_law _ _ Hr) as (_ & -> & -> & _). done.
  - assert (running c1 = true → accepted c1 = received c1 ++ mpsc_values (permit_drop (commands c1)) ∧
      mpsc_permits (permit_drop (commands c1)) = sending c1 - 1) as Hdrop.
    { intros Hrun. destruct (Hf Hrun) as [-> Hq]. destruct (permit_drop_law (commands c1)) as (-> & -> & _); [lia|]. by rewrite Hq. }
    rewrite send_reserved_run. destruct (close_requested c1) eqn:Hc; [by split|].
    assert (shutting_down c1 = false) as Hsd by (destruct (shutting_down c1); [by specialize (Hs eq_refl)|done]).
    destruct (false || _ || _); split; simpl; rewrite ?Hsd, ?Hc; try done.
    intros Hrun. destruct (Hf Hrun) as [-> Hq]. destruct (permit_send_law command (commands c1)) as (-> & -> & _); [lia|].
    by rewrite Hq, app_assoc.
  - unfold close. destruct (close_requested c1) eqn:Hc; by split; rewrite ?Hc.
  - by split.
Qed.

Lemma poll_atomic_ok c : running c = true → channels_ok c → channels_ok (poll_atomic c).
Proof.
  intros Hrun [Hf Hg Hs Ho]. destruct (Hf Hrun) as [Hacc Hp]. pose proof (mpsc_recv_law (commands c)) as Hrecv.
  unfold poll_atomic, wait_poll, snapshot. simpl. destruct (cancellation c); [by split|].
  rewrite bool_decide_eq_false_2 by done. destruct (mpsc_recv (commands c)) as [[[v|]|] ch] eqn:Hr; simpl.
  - destruct Hrecv as (Hv & Hpe & _). split; simpl; rewrite ?Hr; try done.
    + intros _. simpl. rewrite Hacc, Hv, Hpe, <- app_assoc. done.
    + intros Hsd. specialize (Ho Hsd). rewrite Ho, Hv in Hacc. apply (f_equal length) in Hacc.
      rewrite length_app in Hacc. simpl in Hacc. lia.
  - by split.
  - destruct Hrecv as [Hv _]. rewrite Hv, app_nil_r in Hacc.
    destruct (negb (shutting_down c) && graceful_close c) eqn:Hgr; [|by split].
    apply andb_true_iff in Hgr as [_ Hgr]. split; simpl; try done. intros _. by apply Hg.
Qed.

Lemma atomic_reachable c : rtc atomic_step Channels_new c → channels_ok c.
Proof.
  apply (rtc_ind_r channels_ok Channels_new); [apply channels_new_ok|].
  intros c1 c2 _ [c3 c4 Hs|c3 Hrun|c3 Hrun] Hok; [by eapply handle_step_ok|by apply poll_atomic_ok|].
  destruct Hok. by split.
Qed.

(** ** Claims *)

(** C32. After [close] no further command is accepted, in any interleaving, even one
    whose slot was reserved before. *)
Theorem close_refuses_later_commands c c' :
  rtc fine_step (close c) c' → accepted c' = accepted c.
Proof using.
  intros Hr. assert (close_requested (close c) = true ∧ accepted (close c) = accepted c) as [Hcr Hacc].
  { unfold close. by destruct (close_requested c) eqn:?. }
  rewrite <- Hacc. clear Hacc. revert Hcr. generalize (close c), Hr. clear c Hr.
  induction 1 as [|c1 c2 c3 Hs _ IH]; intros Hcr; [done|].
  destruct (fine_step_closed _ _ Hs Hcr) as [Hcr2 Hacc2]. rewrite IH by done. done.
Qed.

(** C31. Where each poll of the driver happens as one action (a runtime with a single thread),
    the graceful close starts only after every command that the handle accepted has been
    received, in any interleaving with the handle's methods. *)
Theorem close_waits_for_commands c :
  rtc atomic_step Channels_new c → shutting_down c = true → received c = accepted c.
Proof. intros Hr. by apply atomic_reachable. Qed.
End channels.

(** ** Channels as lists *)
#[export] Instance list_mpsc : Mpsc := {|
  MpscChannel A := (list A * Z * Z * bool)%type;
  mpsc_channel A n := ([], 0, n, false);
  mpsc_reserve A '(l, permits, n, gone) :=
    if gone : bool then Some None else if n <=? len l + permits then None else Some (Some (l, permits + 1, n, gone));
  permit_send A v '(l, permits, n, gone) := (l ++ [v], permits - 1, n, gone);
  permit_drop A '(l, permits, n, gone) := (l, permits - 1, n, gone);
  mpsc_recv A '(l, permits, n, gone) :=
    match l with v :: rest => (Some (Some v), (rest, permits, n, gone)) | [] => (None, (l, permits, n, gone)) end;
  drop_receiver A '(l, permits, n, _) := ([], permits, n, true);
|}.

#[export, refine] Instance list_mpsc_laws : MpscLaws list_mpsc := {|
  mpsc_values A c := c.1.1.1;
  mpsc_permits A c := c.1.1.2;
  mpsc_capacity A c := c.1.2;
|}.
Proof.
  - done.
  - cbn. intros A [[[l permits] n] gone] c'. destruct gone; [done|]. destruct (Z.leb_spec n (len l + permits)); [done|].
    intros [= <-]. done.
  - by intros A v [[[l permits] n] gone].
  - by intros A [[[l permits] n] gone].
  - by intros A [[[[|v l] permits] n] gone].
Defined.

(** A run in which the close overtakes a command: the driver finds the queue empty,
    then the application queues a command and closes, then the driver sees the
    close in the same poll. *)
Theorem close_can_overtake_command :
  ∃ c, rtc fine_step Channels_new c ∧ shutting_down c = true ∧
    accepted c = [CommandInput [104]] ∧ received c = [].
Proof.
  eexists. split; [|split; [|split]].
  - eapply rtc_l; [apply fine_poll; done|]. eapply rtc_l; [apply fine_poll; done|].
    eapply rtc_l; [eapply fine_handle, step_reserve; vm_compute; reflexivity|].
    eapply rtc_l; [apply fine_handle, (step_send _ (CommandInput [104])); by vm_compute|].
    eapply rtc_l; [apply fine_handle, step_close|].
    eapply rtc_l; [apply fine_poll; done|]. apply rtc_refl.
  - vm_compute. reflexivity.
  - vm_compute. reflexivity.
  - vm_compute. reflexivity.
Qed.

(** The operation a command appends to the client history. *)
Definition command_operation (command : SessionCommand) : option ClientOperation :=
  match command with
  | CommandInput input => Some (Input input)
  | CommandResize columns rows => Some (Resize columns rows)
  | CommandRepaint => None
  end.

Lemma send_input_valid input command :
  send_input input = Ok command → ∃ op, command_operation command = Some op ∧ operation_valid op.
Proof.
  unfold send_input. destruct (Z.ltb_spec MAX_INPUT_COMMAND_BYTES (len input)); [done|].
  intros [= <-]. exists (Input input). split; [done|]. simpl. lia.
Qed.

Lemma resize_valid columns rows command :
  is_u32 columns → is_u32 rows → resize columns rows = Ok command →
  ∃ op, command_operation command = Some op ∧ operation_valid op.
Proof.
  intros Hc Hr. unfold resize, is_valid_size. rewrite checked_size_spec by done.
  case_bool_decide as Hv; [|done]. intros [= <-]. exists (Resize columns rows). split; [done|]. simpl. lia.
Qed.

(** What the handle accepts the driver can encode: after the guards of
    [send_input] and [resize], appending the operation to the client history fails
    only when a resource is exhausted, never because of the operation itself. *)
Theorem accepted_command_encodes `{PR : Prost} `{!ProstLaws PR} command op log marks h e :
  (∃ input, send_input input = Ok command) ∨
  (∃ columns rows, is_u32 columns ∧ is_u32 rows ∧ resize columns rows = Ok command) →
  command_operation command = Some op → hist_rel log marks h → (append op h).2 = Err e →
  e ∈ [DriverInstruction TooManyClientOperations; DriverInstruction StateDifferenceTooLarge; OperationIndexExhausted].
Proof.
  intros Hcmd Hop Hrel He.
  assert (operation_valid op) as Hv.
  { destruct Hcmd as [[input Hs]|(columns & rows & Hc & Hr & Hs)].
    - apply send_input_valid in Hs as (op' & Hop' & Hv). congruence.
    - apply resize_valid in Hs as (op' & Hop' & Hv); [congruence|done|done]. }
  unfold append in He. cbv [mbind M_bind get fail_if throw lift put] in He.
  destruct (Z.eqb_spec (len (operations h)) MAX_CLIENT_OPERATIONS_AFTER_ACK); [injection He as <-; set_solver|].
  cbn in He. destruct (checked_add _ _ _); [|injection He as <-; set_solver]. cbn in He.
  assert (Forall operation_valid (operations h ++ [op])) as Hall
    by (apply Forall_app; split; [apply Hrel|by constructor]).
  unfold encode_client_difference in He. rewrite convert_operations_valid in He by done. cbn in He.
  destruct (Z.ltb_spec MAX_CLIENT_OPERATIONS_AFTER_ACK (len (operations h ++ [op]))) as [Hl|_].
  { rewrite len_app in Hl. change (len [op]) with 1 in Hl. pose proof (hr_len _ _ _ Hrel). lia. }
  destruct (_ <? _) in He; [|done]. injection He as <-. set_solver.
Qed.

(** ** Witnesses *)
Definition sample_queue : Channels :=
  mkChannels ([CommandInput [104]], 0, SESSION_COMMAND_QUEUE_CAPACITY, false) 0 false false false Connecting
    AtCancellation true false [CommandInput [104]] [].

Lemma sample_queue_reached {step : relation Channels} :
  (∀ c c', handle_step c c' → step c c') → rtc step Channels_new sample_queue.
Proof.
  intros Hs. eapply rtc_l; [eapply Hs, step_reserve; vm_compute; reflexivity|].
  eapply rtc_l; [apply Hs, (step_send _ (CommandInput [104])); by vm_compute|]. apply rtc_refl.
Qed.

Lemma close_refuses_later_commands_witness :
  accepted (poll_test (close sample_queue)) = accepted sample_queue.
Proof. apply close_refuses_later_commands. apply rtc_once, fine_poll. done. Defined.

Lemma close_waits_for_commands_witness :
  received (poll_atomic (poll_atomic (close sample_queue))) = accepted (poll_atomic (poll_atomic (close sample_queue))).
Proof.
  apply (close_waits_for_commands (poll_atomic (poll_atomic (close sample_queue)))); [|reflexivity].
  etrans; [apply sample_queue_reached; intros; by constructor|].
  eapply rtc_l; [apply atomic_handle, step_close|]. eapply rtc_l; [apply atomic_poll; done|].
  apply rtc_once, atomic_poll. done.
Defined.

#[local] Existing Instance plain_prost.
#[local] Existing Instance plain_prost_laws.

(** A history with as many operations as it can hold. *)
Definition full_log : list ClientOperation := replicate (Z.to_nat MAX_CLIENT_OPERATIONS_AFTER_ACK) (Resize 80 24).
Definition full_history : ClientHistory := mkClientHistory 0 MAX_CLIENT_OPERATIONS_AFTER_ACK full_log {[ 0 := 0 ]}.

Lemma full_history_rel : hist_rel full_log {[ 0 := 0 ]} full_history.
Proof.
  split; simpl.
  - split; [done|apply len_nonneg].
  - done.
  - by vm_compute.
  - vm_compute. congruence.
  - intros s c H. split; [done|]. by apply lookup_singleton_Some in H as [_ <-].
  - intros s c [_ <-]%lookup_singleton_Some. apply len_nonneg.
  - intros s s' c c' [_ <-]%lookup_singleton_Some [_ <-]%lookup_singleton_Some. done.
  - apply Forall_replicate. simpl. limits. lia.
  - vm_compute. congruence.
  - vm_compute. congruence.
Qed.

Lemma accepted_command_encodes_witness :
  DriverInstruction TooManyClientOperations ∈
    [DriverInstruction TooManyClientOperations; DriverInstruction StateDifferenceTooLarge; OperationIndexExhausted].
Proof.
  apply (accepted_command_encodes (CommandInput [104]) (Input [104]) full_log {[ 0 := 0 ]} full_history).
  - left. exists [104]. vm_compute. reflexivity.
  - reflexivity.
  - apply full_history_rel.
  - vm_compute. reflexivity.
Defined.
