(* ===== verification/Observer.v ===== *)
(** * What the application observes of a session: [src/src/session.rs]

    The handle that [Session::connect] returns, next to the commands of [Session.v]:
    the lifecycle state, the reachability and the output. The first two are
    watch channels of tokio, of which a receiver sees the latest value; the last is a bounded
    channel as that of the commands. The task that sends and the application that receives run concurrently: the step
    relations below interleave their atomic actions. *)

From S2P Require Import Prelude Limits TerminalWidth Emulator Terminal Packet Fragment Instruction Synchronization Timing Reachability Prediction Errors ClientHistory Bootstrap Driver Session.

Local Open Scope Z_scope.

(** ** [tokio::sync::watch]

    A channel with its senders, and what one receiver has seen of it. [has_changed]
    is [None] for the error; [changed] is [None] while it waits and [Some None] for the
    error, and else gives the receiver for which the value is seen. *)
Class Watch := {
  WatchChannel : Type → Type;
  WatchReceiver : Type;
  watch_channel {A} : A → WatchChannel A * WatchReceiver;
  send_replace {A} : A → WatchChannel A → WatchChannel A;
  drop_senders {A} : WatchChannel A → WatchChannel A;
  borrow {A} : WatchChannel A → A;
  has_changed {A} : WatchChannel A → WatchReceiver → option bool;
  changed {A} : WatchChannel A → WatchReceiver → option (option WatchReceiver);
  borrow_and_update {A} : WatchChannel A → WatchReceiver → A * WatchReceiver;
}.

(** The documented behaviour: a receiver sees the latest value; each value that is sent is
    new to every receiver of the channel; [has_changed] fails exactly when all senders
    are dropped, and [changed] only when, besides, the latest value has been seen. *)
Class WatchLaws (W : Watch) := {
  watch_closed {A} : WatchChannel A → bool;
  watch_seen {A} : WatchChannel A → WatchReceiver → bool;
  watch_of {A} : WatchChannel A → WatchReceiver → Prop;
  watch_channel_law {A} (init : A) c r :
    watch_channel init = (c, r) → borrow c = init ∧ watch_closed c = false ∧ watch_of c r ∧ watch_seen c r = true;
  send_replace_value {A} (v : A) c :
    borrow (send_replace v c) = v ∧ watch_closed (send_replace v c) = watch_closed c;
  send_replace_receiver {A} (v : A) c r :
    watch_of c r → watch_of (send_replace v c) r ∧ watch_seen (send_replace v c) r = false;
  drop_senders_value {A} (c : WatchChannel A) :
    borrow (drop_senders c) = borrow c ∧ watch_closed (drop_senders c) = true;
  drop_senders_receiver {A} (c : WatchChannel A) r :
    watch_of c r → watch_of (drop_senders c) r ∧ watch_seen (drop_senders c) r = watch_seen c r;
  has_changed_law {A} (c : WatchChannel A) r :
    watch_of c r → has_changed c r = if watch_closed c then None else Some (negb (watch_seen c r));
  changed_law {A} (c : WatchChannel A) r :
    watch_of c r →
    if watch_seen c r then changed c r = if watch_closed c then Some None else None
    else ∃ r', changed c r = Some (Some r') ∧ watch_of c r' ∧ watch_seen c r' = true;
  borrow_and_update_law {A} (c : WatchChannel A) r :
    watch_of c r → ∃ r', borrow_and_update c r = (borrow c, r') ∧ watch_of c r' ∧ watch_seen c r' = true;
}.

(** ** The handle *)
Section session.
Context `{W : Watch}.

(** The part of [Session] that observes: the receivers of [state] and [reachability].
    The channels themselves are shared with the task. *)
Record Session := mkSession { state_rx : WatchReceiver; reachability_rx : WatchReceiver }.
Record Shared := mkShared { state_channel : WatchChannel SessionState; reachability_channel : WatchChannel SessionReachability }.

(** [Session::state] *)
Definition session_state (sh : Shared) (s : Session) : SessionState :=
  match has_changed (state_channel sh) (state_rx s) with
  | None => Closed
  | Some _ => borrow (state_channel sh)
  end.

(** [Session::state_changed]: the wait, and what is read once it is over. *)
Definition state_changed_wait (sh : Shared) (s : Session) : option (SessionState + Session) :=
  match changed (state_channel sh) (state_rx s) with
  | None => None
  | Some None => Some (inl Closed)
  | Some (Some r) => Some (inr (mkSession r (reachability_rx s)))
  end.

Definition state_changed_read (sh : Shared) (s : Session) : SessionState * Session :=
  let '(v, r) := borrow_and_update (state_channel sh) (state_rx s) in (v, mkSession r (reachability_rx s)).

(** [Session::reachability], [subscribe_reachability] *)
Definition session_reachability (sh : Shared) (s : Session) : SessionReachability :=
  borrow (reachability_channel sh).

Record SessionReachabilityWatch := mkSessionReachabilityWatch { receiver : WatchReceiver }.
Definition subscribe_reachability (s : Session) : SessionReachabilityWatch :=
  mkSessionReachabilityWatch (reachability_rx s).

(** [SessionReachabilityWatch::current] and [changed], again in two actions. *)
Definition watch_current (sh : Shared) (w : SessionReachabilityWatch) : SessionReachability :=
  borrow (reachability_channel sh).

Definition watch_changed_wait (sh : Shared) (w : SessionReachabilityWatch) :
    option (option SessionReachabilityWatch) :=
  match changed (reachability_channel sh) (receiver w) with
  | None => None
  | Some None => Some None
  | Some (Some r) => Some (Some (mkSessionReachabilityWatch r))
  end.

Definition watch_changed_read (sh : Shared) (w : SessionReachabilityWatch) :
    option SessionReachability * SessionReachabilityWatch :=
  let '(v, r) := borrow_and_update (reachability_channel sh) (receiver w) in (Some v, mkSessionReachabilityWatch r).

(** [Session::connect_with_prediction_mode] and [connect]: the driver, the command
    channels, and the observing side of the handle. *)
Section connect.
Context `{MP : Mpsc} `{AE : Aead} `{PR : Prost} `{VT : Vt100}.

Definition connect_with_prediction_mode (bootstrap : Bootstrap) (columns rows : Z) (prediction_mode : PredictionMode)
    (bound : option ErrorKind) (e : Env) :
    Result SessionError (Channels * MpscChannel bytes * Shared * Session * SessionDriver) :=
  driver ← map_err SessionError_from (Driver.connect bootstrap columns rows prediction_mode bound e);
  let '(state, state_rx) := watch_channel (state_tx driver) in
  let '(reachability, reachability_rx) := watch_channel (current (Driver.reachability driver)) in
  Ok (Channels_new, mpsc_channel PENDING_OUTPUT_CHUNKS, mkShared state reachability, mkSession state_rx reachability_rx, driver).

Definition connect (bootstrap : Bootstrap) (columns rows : Z) (bound : option ErrorKind) (e : Env) :
    Result SessionError (Channels * MpscChannel bytes * Shared * Session * SessionDriver) :=
  connect_with_prediction_mode bootstrap columns rows Adaptive bound e.

(** [Session::next_output]: a poll of the receiver. *)
Definition next_output (output : MpscChannel bytes) : option (option bytes) * MpscChannel bytes := mpsc_recv output.
End connect.
End session.

(** ** Interleavings of the task and an observer *)
Section interleavings.
Context `{W : Watch} {WL : WatchLaws W}.

(** The task publishes [Active] once, publishes [Closed] when it returns, and drops its
    senders, then or when it is itself dropped. *)
Inductive TaskPhase := Running | Returned | Gone.
#[local] Instance TaskPhase_eq_dec : EqDecision TaskPhase.
Proof. solve_decision. Defined.

(** [between] holds between the two actions of [state_changed]; [states] are the
    values it has returned. *)
Record Lifecycle := mkLifecycle {
  shared : Shared;
  session : Session;
  phase : TaskPhase;
  between : bool;
  states : list SessionState;
}.

Definition with_state_channel (f : WatchChannel SessionState → WatchChannel SessionState) (p : TaskPhase) (l : Lifecycle) : Lifecycle :=
  mkLifecycle (mkShared (f (state_channel (shared l))) (reachability_channel (shared l))) (session l) p (between l) (states l).

Inductive lifecycle_step : Lifecycle → Lifecycle → Prop :=
  | task_active l :
      phase l = Running → borrow (state_channel (shared l)) = Connecting →
      lifecycle_step l (with_state_channel (send_replace Active) Running l)
  | task_returns l : phase l = Running → lifecycle_step l (with_state_channel (send_replace Closed) Returned l)
  | task_gone l : phase l ≠ Gone → lifecycle_step l (with_state_channel drop_senders Gone l)
  | wait_over l s :
      between l = false → state_changed_wait (shared l) (session l) = Some (inr s) →
      lifecycle_step l (mkLifecycle (shared l) s (phase l) true (states l))
  | wait_closed l v :
      between l = false → state_changed_wait (shared l) (session l) = Some (inl v) →
      lifecycle_step l (mkLifecycle (shared l) (session l) (phase l) false (states l ++ [v]))
  | read_state l v s :
      between l = true → state_changed_read (shared l) (session l) = (v, s) →
      lifecycle_step l (mkLifecycle (shared l) s (phase l) false (states l ++ [v])).

Definition lifecycle_new (sh : Shared) (s : Session) : Lifecycle := mkLifecycle sh s Running false [].

(** The invariant. *)
Definition published (l : Lifecycle) : SessionState := borrow (state_channel (shared l)).
Definition up_to_date (l : Lifecycle) : bool := watch_seen (state_channel (shared l)) (state_rx (session l)).

Record lifecycle_inv (l : Lifecycle) : Prop := {
  li_of : watch_of (state_channel (shared l)) (state_rx (session l));
  li_closed : watch_closed (state_channel (shared l)) = bool_decide (phase l = Gone);
  li_running : phase l = Running → published l ≠ Closed;
  li_returned : phase l = Returned → published l = Closed;
  li_fresh : between l = true ∨ up_to_date l = false → published l ≠ Connecting;
  li_active : Active ∈ states l → published l = Closed ∨ published l = Active ∧ up_to_date l = true ∧ between l = false;
  li_ended : Closed ∈ states l → published l = Closed ∨ phase l = Gone ∧ up_to_date l = true ∧ between l = false;
  li_seen : up_to_date l = true → between l = false → published l = Connecting ∨ last (states l) = Some (published l) ∨ last (states l) = Some Closed;
  li_states : ∃ n, states l = replicate n Closed ∨ states l = Active :: replicate n Closed;
}.

Lemma states_closed l : (∃ n, l = replicate n Closed ∨ l = Active :: replicate n Closed) →
  ∃ n, l ++ [Closed] = replicate n Closed ∨ l ++ [Closed] = Active :: replicate n Closed.
Proof.
  intros [n [-> | ->]]; exists (S n); rewrite replicate_S_end; [by left|by right].
Qed.

Lemma lifecycle_step_inv l l' : lifecycle_step l l' → lifecycle_inv l → lifecycle_inv l'.
Proof.
  intros Hs [Hof Hcl Hru Hre Hfr Hac Hen Hse Hst].
  destruct Hs as [[sh s p b ss] Hp Hv|[sh s p b ss] Hp|[sh s p b ss] Hp|[sh s p b ss] s' Hb Hw|[sh s p b ss] v Hb Hw|[sh s p b ss] v s' Hb Hw];
    unfold published, up_to_date in *; cbn [shared session phase between states] in *; subst.
  - destruct (send_replace_value Active (state_channel sh)) as [Hv1 Hc1].
    destruct (send_replace_receiver Active _ _ Hof) as [Ho1 Hs1].
    split; unfold published, up_to_date; cbn; rewrite ?Hv1, ?Hc1, ?Hs1; try done.
    + intros Ha. destruct (Hac Ha) as [H|[H _]]; by rewrite H in Hv.
    + intros Ha. destruct (Hen Ha) as [H|[H _]]; [by rewrite H in Hv|done].
  - destruct (send_replace_value Closed (state_channel sh)) as [Hv1 Hc1].
    destruct (send_replace_receiver Closed _ _ Hof) as [Ho1 Hs1].
    split; unfold published, up_to_date; cbn; rewrite ?Hv1, ?Hc1, ?Hs1; try done; by left.
  - destruct (drop_senders_value (state_channel sh)) as [Hv1 Hc1].
    destruct (drop_senders_receiver _ _ Hof) as [Ho1 Hs1].
    split; unfold published, up_to_date; cbn; rewrite ?Hv1, ?Hc1, ?Hs1; try done.
    intros Ha. destruct (Hen Ha) as [H|[H _]]; [by left|done].
  - unfold state_changed_wait in Hw. pose proof (changed_law _ _ Hof) as Hc.
    destruct (watch_seen (state_channel sh) (state_rx s)) eqn:Hseen.
    { rewrite Hc in Hw. by destruct (watch_closed _). }
    destruct Hc as (r' & Hr & Ho1 & Hs1). rewrite Hr in Hw. injection Hw as <-.
    split; unfold published, up_to_date; cbn; rewrite ?Hs1; try done.
    + intros _. apply Hfr. by right.
    + intros Ha. destruct (Hac Ha) as [H|(_ & H & _)]; [by left|done].
    + intros Ha. destruct (Hen Ha) as [H|(_ & H & _)]; [by left|done].
  - unfold state_changed_wait in Hw. pose proof (changed_law _ _ Hof) as Hc.
    destruct (watch_seen (state_channel sh) (state_rx s)) eqn:Hseen; [|by destruct Hc as (r' & Hr & _); rewrite Hr in Hw].
    rewrite Hc, Hcl in Hw. case_bool_decide as Hg; [|done]. injection Hw as <-.
    split; unfold published, up_to_date; cbn; rewrite ?Hseen; try done.
    + rewrite Hcl. by rewrite bool_decide_eq_true_2.
    + intros [Ha|Ha%list_elem_of_singleton]%elem_of_app; [auto|done].
    + intros _. by right.
    + intros _ _. right. right. by rewrite last_snoc.
    + by apply states_closed.
  - unfold state_changed_read in Hw. destruct (borrow_and_update_law _ _ Hof) as (r' & Hr & Ho1 & Hs1).
    rewrite Hr in Hw. injection Hw as <- <-. specialize (Hfr (or_introl eq_refl)).
    split; unfold published, up_to_date; cbn; rewrite ?Hs1; try done.
    + intros [Ha|Ha%list_elem_of_singleton]%elem_of_app; [destruct (Hac Ha) as [|(_ & _ & ?)]; [by left|done]|].
      right. by rewrite <- Ha.
    + intros [Ha|Ha%list_elem_of_singleton]%elem_of_app; [destruct (Hen Ha) as [|(_ & _ & ?)]; [by left|done]|].
      left. by rewrite <- Ha.
    + intros _ _. right. left. by rewrite last_snoc.
    + destruct (borrow (state_channel sh)) eqn:Hv; [done| |by apply states_closed].
      exists 0%nat. right. destruct Hst as [n [-> | ->]]; [destruct n; [done|]|];
        [destruct Hen as [?|(_ & _ & ?)]; by (left || done)|destruct Hac as [?|(_ & _ & ?)]; by (left || done)].
Qed.

Lemma lifecycle_reachable c r rc s l :
  watch_channel Connecting = (c, r) → rtc lifecycle_step (lifecycle_new (mkShared c rc) (mkSession r s)) l → lifecycle_inv l.
Proof.
  intros Hw. destruct (watch_channel_law _ _ _ Hw) as (Hv & Hc & Ho & Hs). intros Hr.
  refine (rtc_ind_r lifecycle_inv _ _ _ l Hr); [|intros; by eapply lifecycle_step_inv].
  split; unfold published, up_to_date; cbn; rewrite ?Hv, ?Hs; try done; [by intros [|]|by intros ?%not_elem_of_nil|by intros ?%not_elem_of_nil|by left|].
  exists 0%nat. by left.
Qed.

(** The same for an observer of the reachability: [known] is the last value it got, at
    first the one the session starts with. *)
Record Watching := mkWatching {
  watched : Shared;
  watcher : SessionReachabilityWatch;
  mid_read : bool;
  known : SessionReachability;
}.

Inductive watching_step : Watching → Watching → Prop :=
  | task_publishes w v :
      watch_closed (reachability_channel (watched w)) = false → v ≠ borrow (reachability_channel (watched w)) →
      watching_step w (mkWatching (mkShared (state_channel (watched w)) (send_replace v (reachability_channel (watched w))))
                         (watcher w) (mid_read w) (known w))
  | task_drops w :
      watching_step w (mkWatching (mkShared (state_channel (watched w)) (drop_senders (reachability_channel (watched w))))
                         (watcher w) (mid_read w) (known w))
  | change_seen w x :
      mid_read w = false → watch_changed_wait (watched w) (watcher w) = Some (Some x) →
      watching_step w (mkWatching (watched w) x true (known w))
  | change_read w v x :
      mid_read w = true → watch_changed_read (watched w) (watcher w) = (Some v, x) →
      watching_step w (mkWatching (watched w) x false v).

Definition watching_new (sh : Shared) (s : Session) (initial : SessionReachability) : Watching :=
  mkWatching sh (subscribe_reachability s) false initial.

Record watching_inv (w : Watching) : Prop := {
  wi_of : watch_of (reachability_channel (watched w)) (receiver (watcher w));
  wi_known : mid_read w = false → watch_seen (reachability_channel (watched w)) (receiver (watcher w)) = true →
             known w = borrow (reachability_channel (watched w));
}.

Lemma watching_step_inv w w' : watching_step w w' → watching_inv w → watching_inv w'.
Proof.
  intros Hs [Hof Hkn].
  destruct Hs as [[sh x b k] v Hc Hv|[sh x b k]|[sh x b k] x' Hb Hw|[sh x b k] v x' Hb Hw]; cbn [watched watcher mid_read known] in *; subst.
  - destruct (send_replace_receiver v _ _ Hof) as [Ho1 Hs1]. split; cbn; [done|by rewrite Hs1].
  - destruct (drop_senders_receiver _ _ Hof) as [Ho1 Hs1]. destruct (drop_senders_value (reachability_channel sh)) as [Hv1 _].
    split; cbn; [done|]. by rewrite Hs1, Hv1.
  - unfold watch_changed_wait in Hw. pose proof (changed_law _ _ Hof) as Hc. destruct (watch_seen _ _).
    { rewrite Hc in Hw. by destruct (watch_closed _). }
    destruct Hc as (r' & Hr & Ho1 & Hs1). rewrite Hr in Hw. injection Hw as <-. by split.
  - unfold watch_changed_read in Hw. destruct (borrow_and_update_law _ _ Hof) as (r' & Hr & Ho1 & Hs1).
    rewrite Hr in Hw. injection Hw as <- <-. by split.
Qed.

(** ** Claims *)

(** C34. However the task and an observer interleave, [state_changed] returns [Active] at
    most once and then only [Closed], and [Closed] not while the task runs; as soon as
    the task has returned or was dropped, [state] is [Closed], and once its senders are
    gone [state_changed] no longer waits. *)
Theorem lifecycle_observed c r rc s l :
  watch_channel Connecting = (c, r) →
  rtc lifecycle_step (lifecycle_new (mkShared c rc) (mkSession r s)) l →
  (∃ n, states l = replicate n Closed ∨ states l = Active :: replicate n Closed) ∧
  (phase l = Running → Closed ∉ states l ∧ session_state (shared l) (session l) = borrow (state_channel (shared l))) ∧
  (phase l ≠ Running → session_state (shared l) (session l) = Closed) ∧
  (phase l = Gone → state_changed_wait (shared l) (session l) ≠ None).
Proof.
  intros Hw Hr. destruct (lifecycle_reachable c r rc s l Hw Hr) as [Hof Hcl Hru Hre Hfr Hac Hen Hse Hst].
  unfold session_state, state_changed_wait. rewrite has_changed_law by done. rewrite Hcl. split_and!; [done|..].
  - intros Hp. rewrite bool_decide_eq_false_2 by (by rewrite Hp). split; [|done].
    intros Ha. destruct (Hen Ha) as [Hc|[Hg _]]; [by apply (Hru Hp)|by rewrite Hp in Hg].
  - intros Hp. case_bool_decide as Hg; [done|]. destruct (phase l) eqn:E; [done|by apply Hre|done].
  - intros Hg. pose proof (changed_law _ _ Hof) as Hc. destruct (watch_seen _ _).
    + rewrite Hc, Hcl, bool_decide_eq_true_2 by done. done.
    + destruct Hc as (r' & -> & _). done.
Qed.

(** An observer of the reachability misses nothing that lasts: when
    [SessionReachabilityWatch::changed] has returned [None], the last value it gave is the
    last one the task published; and while it waits, the last value it gave is the
    current one. *)
Theorem reachability_observed initial sc c r s w :
  watch_channel initial = (c, r) →
  rtc watching_step (watching_new (mkShared sc c) (mkSession s r) initial) w → mid_read w = false →
  match watch_changed_wait (watched w) (watcher w) with
  | Some (Some _) => True
  | Some None => watch_closed (reachability_channel (watched w)) = true ∧ known w = watch_current (watched w) (watcher w)
  | None => known w = watch_current (watched w) (watcher w)
  end.
Proof.
  intros Hw Hr Hm. destruct (watch_channel_law _ _ _ Hw) as (Hv & Hc & Ho & Hs).
  assert (watching_inv w) as [Hof Hkn].
  { refine (rtc_ind_r watching_inv _ _ _ w Hr); [|intros; by eapply watching_step_inv]. split; cbn; [done|by rewrite Hv]. }
  unfold watch_changed_wait, watch_current. pose proof (changed_law _ _ Hof) as Hch.
  destruct (watch_seen (reachability_channel (watched w)) (receiver (watcher w))).
  - rewrite Hch. destruct (watch_closed (reachability_channel (watched w))); auto.
  - by destruct Hch as (r' & -> & _).
Qed.
End interleavings.

(** ** Witnesses: a channel that counts its values *)
#[local] Instance counting_watch : Watch := {|
  WatchChannel A := (A * nat * bool)%type;
  WatchReceiver := nat;
  watch_channel A v := ((v, O, false), O);
  send_replace A v c := (v, S c.1.2, c.2);
  drop_senders A c := (c.1, true);
  borrow A c := c.1.1;
  has_changed A c r := if c.2 : bool then None else Some (negb (Nat.eqb r c.1.2));
  changed A c r := if Nat.eqb r c.1.2 then if c.2 : bool then Some None else None else Some (Some c.1.2);
  borrow_and_update A c r := (c.1.1, c.1.2);
|}.

#[local, refine] Instance counting_watch_laws : WatchLaws counting_watch := {|
  watch_closed A c := c.2;
  watch_seen A c r := Nat.eqb r c.1.2;
  watch_of A c r := (r ≤ c.1.2)%nat;
|}.
Proof.
  - intros A init c r [= <- <-]. by cbn.
  - done.
  - cbn. intros A v c r Hr. split; [lia|]. by apply Nat.eqb_neq; lia.
  - done.
  - done.
  - done.
  - cbn. intros A c r Hr. destruct (r =? c.1.2)%nat; [done|]. eexists. split; [done|]. split; [lia|by apply Nat.eqb_eq].
  - cbn. intros A c r Hr. eexists. split; [done|]. split; [lia|by apply Nat.eqb_eq].
Defined.

Definition sample_shared : Shared := mkShared (watch_channel Connecting).1 (watch_channel AwaitingPeer).1.
Definition sample_session : Session := mkSession (watch_channel Connecting).2 (watch_channel AwaitingPeer).2.
Definition sample_active : Lifecycle :=
  with_state_channel (send_replace Active) Running (lifecycle_new sample_shared sample_session).
Definition sample_closed : Lifecycle := with_state_channel (send_replace Closed) Returned sample_active.

(** The task is active, returns before the observer looks, and the observer reads [Closed]. *)
Lemma lifecycle_observed_witness : session_state (shared sample_closed) (session sample_closed) = Closed.
Proof.
  refine (proj1 (proj2 (proj2 (lifecycle_observed _ _ _ _ sample_closed eq_refl _))) _); [|done].
  eapply rtc_l; [by apply task_active|]. eapply rtc_l; [by apply task_returns|]. apply rtc_refl.
Defined.

Definition sample_watching : Watching :=
  mkWatching (mkShared (watch_channel Connecting).1 (send_replace Responsive (watch_channel AwaitingPeer).1))
    (mkSessionReachabilityWatch 1%nat) false Responsive.

Lemma reachability_observed_witness : known sample_watching = watch_current (watched sample_watching) (watcher sample_watching).
Proof.
  refine (reachability_observed AwaitingPeer _ _ _ O sample_watching eq_refl _ eq_refl).
  eapply rtc_l; [by eapply (task_publishes _ Responsive)|].
  eapply rtc_l; [eapply change_seen; reflexivity|].
  eapply rtc_l; [eapply change_read; reflexivity|]. apply rtc_refl.
Defined.
