(* ===== verification/Vt100Cell.v ===== *)
(** * Escape codes, attributes and cells: [src/src/vt100/term.rs], [attrs.rs], [cell.rs]

    A function that appends to a [Vec<u8>] returns the appended bytes. The only
    failure of this code is a panic, so an operation that can panic returns an
    [option]; arithmetic that overflows its type is a panic, as in a build with
    overflow checks. *)

From Stdlib Require Import Ascii String.
From S2P Require Import Prelude TerminalWidth.

Local Open Scope Z_scope.

(** [u16] and [u8] arithmetic. *)
Definition add16 (a b : Z) : option Z := checked_add U16_MAX a b.
Definition sub16 (a b : Z) : option Z := checked_sub a b.
Definition add8 (a b : Z) : option Z := checked_add U8_MAX a b.

(** ASCII literals, and those that start with the escape character. *)
Definition lit (s : string) : bytes := (λ c, Z.of_N (N_of_ascii c)) <$> list_ascii_of_string s.
Definition esc (s : string) : bytes := 27 :: lit s.

(** ** Positions and sizes: [grid.rs] *)
Record Size := mkSize { s_rows : Z; s_cols : Z }.
Record Pos := mkPos { p_row : Z; p_col : Z }.

#[export] Instance Size_eq_dec : EqDecision Size.
Proof. solve_decision. Defined.
#[export] Instance Pos_eq_dec : EqDecision Pos.
Proof. solve_decision. Defined.

Definition Pos_default : Pos := mkPos 0 0.
Definition set_row (r : Z) (p : Pos) : Pos := mkPos r (p_col p).
Definition set_col (c : Z) (p : Pos) : Pos := mkPos (p_row p) c.

(** ** Attributes: [attrs.rs] *)
Inductive Color := DefaultColor | Idx (i : Z) | Rgb (r g b : Z).

#[export] Instance Color_eq_dec : EqDecision Color.
Proof. solve_decision. Defined.

Definition TEXT_MODE_INTENSITY : Z := 3.
Definition TEXT_MODE_BOLD : Z := 1.
Definition TEXT_MODE_DIM : Z := 2.
Definition TEXT_MODE_ITALIC : Z := 4.
Definition TEXT_MODE_UNDERLINE : Z := 8.
Definition TEXT_MODE_INVERSE : Z := 16.
Definition TEXT_MODE_BLINK : Z := 32.
Definition TEXT_MODE_HIDDEN : Z := 64.

Record Attrs := mkAttrs {
  fgcolor : Color;
  bgcolor : Color;
  text_mode : Z;
}.

#[export] Instance Attrs_eq_dec : EqDecision Attrs.
Proof. solve_decision. Defined.

Definition Attrs_default : Attrs := mkAttrs DefaultColor DefaultColor 0.

Definition set_text_mode (m : Z) (a : Attrs) : Attrs := mkAttrs (fgcolor a) (bgcolor a) m.
Definition set_fgcolor (c : Color) (a : Attrs) : Attrs := mkAttrs c (bgcolor a) (text_mode a).
Definition set_bgcolor (c : Color) (a : Attrs) : Attrs := mkAttrs (fgcolor a) c (text_mode a).

(** [mode & flag != 0], [mode |= flag] and [mode &= !flag] on a [u8]. *)
Definition has_flag (flag m : Z) : bool := negb (Z.land m flag =? 0).
Definition set_flag (on : bool) (flag m : Z) : Z :=
  if on then Z.lor m flag else Z.land m (Z.lxor U8_MAX flag).

Definition bold (a : Attrs) : bool := has_flag TEXT_MODE_BOLD (text_mode a).
Definition dim (a : Attrs) : bool := has_flag TEXT_MODE_DIM (text_mode a).
Definition intensity (a : Attrs) : Z := Z.land (text_mode a) TEXT_MODE_INTENSITY.
Definition italic (a : Attrs) : bool := has_flag TEXT_MODE_ITALIC (text_mode a).
Definition underline (a : Attrs) : bool := has_flag TEXT_MODE_UNDERLINE (text_mode a).
Definition inverse (a : Attrs) : bool := has_flag TEXT_MODE_INVERSE (text_mode a).
Definition blink (a : Attrs) : bool := has_flag TEXT_MODE_BLINK (text_mode a).
Definition hidden (a : Attrs) : bool := has_flag TEXT_MODE_HIDDEN (text_mode a).

Definition set_normal_intensity (a : Attrs) : Attrs :=
  set_text_mode (set_flag false TEXT_MODE_INTENSITY (text_mode a)) a.
Definition set_bold (a : Attrs) : Attrs :=
  set_text_mode (set_flag true TEXT_MODE_BOLD (set_flag false TEXT_MODE_INTENSITY (text_mode a))) a.
Definition set_dim (a : Attrs) : Attrs :=
  set_text_mode (set_flag true TEXT_MODE_DIM (set_flag false TEXT_MODE_INTENSITY (text_mode a))) a.
Definition set_italic (on : bool) (a : Attrs) : Attrs :=
  set_text_mode (set_flag on TEXT_MODE_ITALIC (text_mode a)) a.
Definition set_underline (on : bool) (a : Attrs) : Attrs :=
  set_text_mode (set_flag on TEXT_MODE_UNDERLINE (text_mode a)) a.
Definition set_inverse (on : bool) (a : Attrs) : Attrs :=
  set_text_mode (set_flag on TEXT_MODE_INVERSE (text_mode a)) a.
Definition set_blink (on : bool) (a : Attrs) : Attrs :=
  set_text_mode (set_flag on TEXT_MODE_BLINK (text_mode a)) a.
Definition set_hidden (on : bool) (a : Attrs) : Attrs :=
  set_text_mode (set_flag on TEXT_MODE_HIDDEN (text_mode a)) a.

(** ** Escape codes: [term.rs] *)

(** [itoa::Buffer::format]: a crate. *)
Class Itoa := { itoa : Z → bytes }.

(** A number of up to 16 bits in decimal, which is what [itoa] documents. *)
Fixpoint digits (fuel : nat) (i : Z) : bytes :=
  match fuel with
  | O => []
  | S f => if i <? 10 then [48 + i] else digits f (i / 10) ++ [48 + i mod 10]
  end.
Definition decimal (i : Z) : bytes := digits 5 i.
Class ItoaLaws (IT : Itoa) : Prop := itoa_decimal i : is_u16 i → itoa i = decimal i.

Inductive Intensity := Normal | Bold | Dim.

(** [term::Attrs] *)
Record TermAttrs := mkTermAttrs {
  t_fgcolor : option Color;
  t_bgcolor : option Color;
  t_intensity : option Intensity;
  t_italic : option bool;
  t_underline : option bool;
  t_inverse : option bool;
  t_blink : option bool;
  t_hidden : option bool;
}.

#[export] Instance Intensity_eq_dec : EqDecision Intensity.
Proof. solve_decision. Defined.
#[export] Instance TermAttrs_eq_dec : EqDecision TermAttrs.
Proof. solve_decision. Defined.

Definition TermAttrs_default : TermAttrs := mkTermAttrs None None None None None None None None.

Definition TermAttrs_is_empty (a : TermAttrs) : bool := bool_decide (a = TermAttrs_default).

(** The parameters of a color, from its base (30 or 40) and its bright base. *)
Definition color_params (base bright : Z) (c : Color) : list Z :=
  match c with
  | DefaultColor => [base + 9]
  | Idx i => if i <? 8 then [i + base] else if i <? 16 then [i + bright] else [base + 8; 5; i]
  | Rgb r g b => [base + 8; 2; r; g; b]
  end.

Definition on_off (on off : Z) (v : bool) : list Z := [if v then on else off].

Definition intensity_params (i : Intensity) : list Z :=
  [match i with Normal => 22 | Bold => 1 | Dim => 2 end].

Definition opt_params {A} (f : A → list Z) (o : option A) : list Z :=
  match o with Some v => f v | None => [] end.

(** The arguments of [write_param!], in order. *)
Definition TermAttrs_params (a : TermAttrs) : list Z :=
  opt_params (color_params 30 82) (t_fgcolor a) ++
  opt_params (color_params 40 92) (t_bgcolor a) ++
  opt_params intensity_params (t_intensity a) ++
  opt_params (on_off 3 23) (t_italic a) ++
  opt_params (on_off 4 24) (t_underline a) ++
  opt_params (on_off 7 27) (t_inverse a) ++
  opt_params (on_off 5 25) (t_blink a) ++
  opt_params (on_off 8 28) (t_hidden a).

Fixpoint separated (sep : bytes) (l : list bytes) : bytes :=
  match l with
  | [] => []
  | [x] => x
  | x :: rest => x ++ sep ++ separated sep rest
  end.

Section escape_codes.
Context `{IT : Itoa}.

Definition ClearScreen_write_buf : bytes := esc "[H" ++ esc "[J".
Definition ClearRowForward_write_buf : bytes := esc "[K".
Definition Crlf_write_buf : bytes := [13; 10].
Definition Backspace_write_buf : bytes := [8].
Definition SaveCursor_write_buf : bytes := esc "7".
Definition RestoreCursor_write_buf : bytes := esc "8".
Definition ClearAttrs_write_buf : bytes := esc "[m".

Definition MoveTo_write_buf (p : Pos) : option bytes :=
  if (p_row p =? 0) && (p_col p =? 0) then Some (esc "[H")
  else
    r ← add16 (p_row p) 1;
    c ← add16 (p_col p) 1;
    Some (esc "[" ++ itoa r ++ lit ";" ++ itoa c ++ lit "H").

(** [impl BufWrite for Attrs]: a [;] before every parameter but the first. *)
Definition TermAttrs_write_buf (a : TermAttrs) : bytes :=
  if TermAttrs_is_empty a then []
  else esc "[" ++ separated (lit ";") (itoa <$> TermAttrs_params a) ++ lit "m".

Definition MoveRight_write_buf (count : Z) : bytes :=
  if count =? 0 then [] else if count =? 1 then esc "[C" else esc "[" ++ itoa count ++ lit "C".

Definition EraseChar_write_buf (count : Z) : bytes :=
  if count =? 0 then [] else if count =? 1 then esc "[X" else esc "[" ++ itoa count ++ lit "X".

Definition HideCursor_write_buf (state : bool) : bytes := if state then esc "[?25l" else esc "[?25h".
Definition ReverseVideo_write_buf (state : bool) : bytes := if state then esc "[?5h" else esc "[?5l".
Definition ApplicationKeypad_write_buf (state : bool) : bytes := if state then esc "=" else esc ">".
Definition ApplicationCursor_write_buf (state : bool) : bytes := if state then esc "[?1h" else esc "[?1l".
Definition BracketedPaste_write_buf (state : bool) : bytes := if state then esc "[?2004h" else esc "[?2004l".

Definition MoveFromTo_write_buf (from to : Pos) : option bytes :=
  next_row ← add16 (p_row from) 1;
  if (p_row to =? next_row) && (p_col to =? 0) then Some Crlf_write_buf
  else if (p_row from =? p_row to) && (p_col from <? p_col to)
  then Some (MoveRight_write_buf (p_col to - p_col from))
  else if bool_decide (to ≠ from) then MoveTo_write_buf to
  else Some [].

(** ** [attrs.rs], [write_escape_code_diff] *)

(** [if self.x() == other.x() { attrs } else { attrs.x(self.x()) }] *)
Definition changed {A} `{EqDecision A} (new old : A) : option A :=
  if bool_decide (new = old) then None else Some new.

(** The intensity to write; [None] is the [unreachable!]. *)
Definition changed_intensity (new old : Z) : option (option Intensity) :=
  if new =? old then Some None
  else if new =? 0 then Some (Some Normal)
  else if new =? TEXT_MODE_BOLD then Some (Some Bold)
  else if new =? TEXT_MODE_DIM then Some (Some Dim)
  else None.

Definition attrs_difference (self other : Attrs) : option TermAttrs :=
  i ← changed_intensity (intensity self) (intensity other);
  Some (mkTermAttrs (changed (fgcolor self) (fgcolor other)) (changed (bgcolor self) (bgcolor other)) i
          (changed (italic self) (italic other)) (changed (underline self) (underline other))
          (changed (inverse self) (inverse other)) (changed (blink self) (blink other))
          (changed (hidden self) (hidden other))).

Definition write_escape_code_diff (self other : Attrs) : option bytes :=
  if bool_decide (self ≠ other) && bool_decide (self = Attrs_default) then Some ClearAttrs_write_buf
  else
    a ← attrs_difference self other;
    Some (TermAttrs_write_buf a).
End escape_codes.

(** ** Input modes: [term.rs] and the enums of [screen.rs] *)
Inductive MouseProtocolMode := NoMouse | Press | PressRelease | ButtonMotion | AnyMotion.
Inductive MouseProtocolEncoding := DefaultEncoding | Utf8 | Sgr.

#[export] Instance MouseProtocolMode_eq_dec : EqDecision MouseProtocolMode.
Proof. solve_decision. Defined.
#[export] Instance MouseProtocolEncoding_eq_dec : EqDecision MouseProtocolEncoding.
Proof. solve_decision. Defined.

Definition MouseProtocolMode_write_buf (m prev : MouseProtocolMode) : bytes :=
  if bool_decide (m = prev) then []
  else
    match m with
    | NoMouse =>
        match prev with
        | NoMouse => []
        | Press => esc "[?9l"
        | PressRelease => esc "[?1000l"
        | ButtonMotion => esc "[?1002l"
        | AnyMotion => esc "[?1003l"
        end
    | Press => esc "[?9h"
    | PressRelease => esc "[?1000h"
    | ButtonMotion => esc "[?1002h"
    | AnyMotion => esc "[?1003h"
    end.

Definition MouseProtocolEncoding_write_buf (e prev : MouseProtocolEncoding) : bytes :=
  if bool_decide (e = prev) then []
  else
    match e with
    | DefaultEncoding =>
        match prev with DefaultEncoding => [] | Utf8 => esc "[?1005l" | Sgr => esc "[?1006l" end
    | Utf8 => esc "[?1005h"
    | Sgr => esc "[?1006h"
    end.

(** ** Cells: [cell.rs] *)
Definition CONTENT_BYTES : Z := 22.
Definition IS_WIDE : Z := 128.
Definition IS_WIDE_CONTINUATION : Z := 64.
Definition LEN_BITS : Z := 31.

(** [cell_contents] always has 22 bytes; [cell_len] holds the length and two flags. *)
Record Cell := mkCell {
  cell_contents : bytes;
  cell_len : Z;
  cell_attrs : Attrs;
}.

Definition Cell_new : Cell := mkCell (replicate 22 0) 0 Attrs_default.

Definition contents_len (c : Cell) : Z := Z.land (cell_len c) LEN_BITS.

(** [PartialEq]: the bytes past the length do not count. *)
Definition Cell_eqb (a b : Cell) : bool :=
  (cell_len a =? cell_len b) && bool_decide (cell_attrs a = cell_attrs b) &&
  bytes_eqb (take (Z.to_nat (contents_len a)) (cell_contents a))
            (take (Z.to_nat (contents_len a)) (cell_contents b)).

Definition has_contents (c : Cell) : bool := 0 <? contents_len c.
Definition is_wide (c : Cell) : bool := has_flag IS_WIDE (cell_len c).
Definition is_wide_continuation (c : Cell) : bool := has_flag IS_WIDE_CONTINUATION (cell_len c).

Definition set_cell_len (n : Z) (c : Cell) : Cell := mkCell (cell_contents c) n (cell_attrs c).
Definition set_wide (wide : bool) (c : Cell) : Cell := set_cell_len (set_flag wide IS_WIDE (cell_len c)) c.
Definition set_wide_continuation (wide : bool) (c : Cell) : Cell :=
  set_cell_len (set_flag wide IS_WIDE_CONTINUATION (cell_len c)) c.

(** Overwrite the bytes from [start] on; [None] if they do not fit. *)
Definition write_at (start : Z) (src buf : bytes) : option bytes :=
  if (0 <=? start) && (start + len src <=? len buf)
  then Some (take (Z.to_nat start) buf ++ src ++ drop (Z.to_nat (start + len src)) buf)
  else None.

(** [append_char] *)
Definition append_char (start c : Z) (cell : Cell) : option Cell :=
  contents ← write_at start (encode_utf8 c) (cell_contents cell);
  n ← add8 (cell_len cell) (len_utf8 c);
  Some (mkCell contents n (cell_attrs cell)).

(** [Cell::clear] *)
Definition Cell_clear (a : Attrs) (cell : Cell) : Cell := mkCell (cell_contents cell) 0 a.

(** [Cell::set] *)
Definition Cell_set `{UnicodeWidth} (c : Z) (a : Attrs) (cell : Cell) : option Cell :=
  cell ← append_char 0 c (set_cell_len 0 cell);
  let cell := set_wide (1 <? default 1 (width c)) cell in
  Some (mkCell (cell_contents cell) (cell_len cell) a).

(** [Cell::append] *)
Definition Cell_append (c : Z) (cell : Cell) : option Cell :=
  let n := contents_len cell in
  if CONTENT_BYTES - 4 <=? n then Some cell
  else
    cell ←
      (if n =? 0 then
         contents ← write_at 0 [32] (cell_contents cell);
         l ← add8 (cell_len cell) 1;
         Some (mkCell contents l (cell_attrs cell))
       else Some cell);
    append_char (contents_len cell) c cell.

(** [Cell::contents] *)
Definition contents_of (cell : Cell) : option bytes :=
  let n := contents_len cell in
  if len (cell_contents cell) <? n then None
  else
    let s := take (Z.to_nat n) (cell_contents cell) in
    if utf8_valid s then Some s else None.
