(* ===== verification/Vt100Row.v ===== *)
(** * Rows: [src/src/vt100/row.rs]

    A row is a vector of cells and a flag that says whether its text goes on in the
    next row. An out-of-range index and a failed [unwrap] are [None]. *)

From S2P Require Import Prelude TerminalWidth Vt100Cell.

Local Open Scope Z_scope.

Record Row := mkRow { cells : list Cell; wrapped : bool }.

(** [vec![cell; n]], [v[i]], [v[i] = x], [v.insert(i, x)], [v.remove(i)], [v.resize(n, x)]. *)
Definition index {A} (i : Z) (l : list A) : option A := if 0 <=? i then l !! Z.to_nat i else None.

Definition update {A} (i : Z) (f : A → option A) (l : list A) : option (list A) :=
  x ← index i l;
  y ← f x;
  Some (<[Z.to_nat i := y]> l).

Definition vec_insert {A} (i : Z) (x : A) (l : list A) : option (list A) :=
  if (0 <=? i) && (i <=? len l) then Some (take (Z.to_nat i) l ++ x :: drop (Z.to_nat i) l) else None.

Definition vec_remove {A} (i : Z) (l : list A) : option (A * list A) :=
  x ← index i l;
  Some (x, take (Z.to_nat i) l ++ drop (S (Z.to_nat i)) l).

Definition vec_resize {A} (n : Z) (x : A) (l : list A) : list A :=
  take (Z.to_nat n) l ++ replicate (Z.to_nat n - length l) x.

(** A loop over the integers of a range, each iteration of which can panic. *)
Fixpoint for_each {A S} (l : list A) (body : A → S → option S) (s : S) : option S :=
  match l with
  | [] => Some s
  | x :: rest => s' ← body x s; for_each rest body s'
  end.

(** [for _ in 0..count] *)
Fixpoint repeat_n {S} (count : nat) (body : S → option S) (s : S) : option S :=
  match count with
  | O => Some s
  | S n => s' ← body s; repeat_n n body s'
  end.

(** [Row::new] *)
Definition Row_new (cols : Z) : Row := mkRow (replicate (Z.to_nat cols) Cell_new) false.

(** [Row::cols] *)
Definition Row_cols (r : Row) : option Z := try_from U16_MAX (len (cells r)).

(** [Row::clear] *)
Definition Row_clear (a : Attrs) (r : Row) : Row := mkRow (Cell_clear a <$> cells r) false.

(** [Row::get] and an update through [Row::get_mut] that is unwrapped. *)
Definition Row_get (col : Z) (r : Row) : option Cell := index col (cells r).

Definition Row_update (col : Z) (f : Cell → option Cell) (r : Row) : option Row :=
  cs ← update col f (cells r);
  Some (mkRow cs (wrapped r)).

(** [Row::wrap] *)
Definition Row_wrap (w : bool) (r : Row) : Row := mkRow (cells r) w.

(** [Row::insert] *)
Definition Row_insert (i : Z) (c : Cell) (r : Row) : option Row :=
  cs ← vec_insert i c (cells r);
  Some (mkRow cs false).

(** [other.clear( *other.attrs())] *)
Definition clear_keep (c : Cell) : Cell := Cell_clear (cell_attrs c) c.

(** [Row::clear_wide] *)
Definition clear_wide (col : Z) (r : Row) : option Row :=
  c ← Row_get col r;
  if is_wide c then
    next ← add16 col 1;
    Row_update next (λ c, Some (clear_keep c)) r
  else if is_wide_continuation c then
    previous ← sub16 col 1;
    Row_update previous (λ c, Some (clear_keep c)) r
  else Some r.

(** [Row::remove] *)
Definition Row_remove (i : Z) (r : Row) : option Row :=
  r ← clear_wide i r;
  '(_, cs) ← vec_remove i (cells r);
  Some (mkRow cs false).

(** [Row::erase] *)
Definition Row_erase (i : Z) (a : Attrs) (r : Row) : option Row :=
  c ← Row_get i r;
  let wide := is_wide c in
  r ← clear_wide i r;
  r ← Row_update i (λ c, Some (Cell_clear a c)) r;
  cols ← Row_cols r;
  last ← sub16 cols (if wide then 2 else 1);
  Some (if i =? last then Row_wrap false r else r).

(** [Row::truncate] *)
Definition Row_truncate (n : Z) (r : Row) : option Row :=
  let r := mkRow (take (Z.to_nat n) (cells r)) false in
  last ← checked_sub n 1;
  Row_update last (λ c, Some (if is_wide c then clear_keep c else c)) r.

(** [Row::resize] *)
Definition Row_resize (n : Z) (c : Cell) (r : Row) : Row := mkRow (vec_resize n c (cells r)) false.

(** ** Writing a row *)

(** [iter.enumerate().skip(start).take(width)] *)
Definition enumerated {A} (start width : Z) (l : list A) : list (Z * A) :=
  take (Z.to_nat width) (drop (Z.to_nat start) (zip (seqZ 0 (len l)) l)).

(** [Row::write_contents]: the locals of the loop are the bytes written so far,
    [prev_was_wide] and [prev_col]. *)
Definition write_contents_step (item : Z * Cell) (st : bytes * bool * Z) : option (bytes * bool * Z) :=
  let '(col, cell) := item in
  let '(out, prev_was_wide, prev_col) := st in
  if prev_was_wide : bool then Some (out, false, prev_col)
  else
    let prev_was_wide := is_wide cell in
    col ← try_from U16_MAX col;
    if has_contents cell then
      gap ← sub16 col prev_col;
      text ← contents_of cell;
      prev_col ← add16 col (if is_wide cell then 2 else 1);
      Some (out ++ replicate (Z.to_nat gap) 32 ++ text, prev_was_wide, prev_col)
    else Some (out, prev_was_wide, prev_col).

Definition Row_write_contents (start width : Z) (wrapping : bool) (r : Row) : option bytes :=
  '(out, _, prev_col) ← for_each (enumerated start width (cells r)) write_contents_step ([], false, start);
  Some (if (prev_col =? start) && wrapping then out ++ [10] else out).

(** The locals of the two loops that write escape codes. *)
Record Pen := mkPen {
  out : bytes;
  prev_was_wide : bool;
  prev_pos : Pos;
  prev_attrs : Attrs;
  erase : option (Z * Attrs);
}.

Definition write (b : bytes) (p : Pen) : Pen :=
  mkPen (out p ++ b) (prev_was_wide p) (prev_pos p) (prev_attrs p) (erase p).
Definition set_prev_was_wide (w : bool) (p : Pen) : Pen :=
  mkPen (out p) w (prev_pos p) (prev_attrs p) (erase p).
Definition set_prev_pos (q : Pos) (p : Pen) : Pen :=
  mkPen (out p) (prev_was_wide p) q (prev_attrs p) (erase p).
Definition set_prev_attrs (a : Attrs) (p : Pen) : Pen :=
  mkPen (out p) (prev_was_wide p) (prev_pos p) a (erase p).
Definition set_erase (e : option (Z * Attrs)) (p : Pen) : Pen :=
  mkPen (out p) (prev_was_wide p) (prev_pos p) (prev_attrs p) e.

Section write_row.
Context `{IT : Itoa}.

(** [if &prev_attrs != attrs { attrs.write_escape_code_diff(..); prev_attrs = *attrs; }] *)
Definition switch_attrs (a : Attrs) (p : Pen) : option Pen :=
  if bool_decide (prev_attrs p ≠ a) then
    b ← write_escape_code_diff a (prev_attrs p);
    Some (set_prev_attrs a (write b p))
  else Some p.

(** The move to the start of the cells to erase, shared by the two places that erase. *)
Definition move_to_erase (cols row : Z) (wrapping : bool) (prev_col : Z) (p : Pen) : option Pen :=
  let new_pos := mkPos row prev_col in
  next_row ← (if wrapping then add16 (p_row (prev_pos p)) 1 else Some 0);
  b ← (if wrapping && (next_row =? p_row new_pos) && (cols <=? p_col (prev_pos p)) then
         Some (if 0 <? p_col new_pos then replicate (Z.to_nat (p_col new_pos)) 32
               else [32] ++ Backspace_write_buf)
       else MoveFromTo_write_buf (prev_pos p) new_pos);
  Some (set_prev_pos new_pos (write b p)).

(** [if let Some((prev_col, attrs)) = erase] in the loop. *)
Definition flush_erase (cols row : Z) (wrapping : bool) (col : Z) (cell : Cell) (p : Pen) : option Pen :=
  match erase p with
  | Some (prev_col, a) =>
      if has_contents cell || bool_decide (cell_attrs cell ≠ a) then
        p ← move_to_erase cols row wrapping prev_col p;
        p ← switch_attrs a p;
        n ← sub16 col prev_col;
        Some (set_erase None (write (EraseChar_write_buf n) p))
      else Some p
  | None => Some p
  end.

(** [!wrapping || prev_pos.row + 1 != pos.row || prev_pos.col < cols - wide || pos.col != 0],
    with its evaluation order. *)
Definition needs_move (cols : Z) (wrapping : bool) (cell : Cell) (pos prev : Pos) : option bool :=
  if negb wrapping then Some true
  else
    next_row ← add16 (p_row prev) 1;
    if negb (next_row =? p_row pos) then Some true
    else
      limit ← sub16 cols (if is_wide cell then 1 else 0);
      Some ((p_col prev <? limit) || negb (p_col pos =? 0)).

(** The drawing of one cell whose contents differ. *)
Definition draw_cell (cols : Z) (wrapping : bool) (pos : Pos) (cell : Cell) (p : Pen) : option Pen :=
  if has_contents cell then
    p ← (if bool_decide (pos ≠ prev_pos p) then
           move ← needs_move cols wrapping cell pos (prev_pos p);
           b ← (if move : bool then MoveFromTo_write_buf (prev_pos p) pos else Some []);
           Some (set_prev_pos pos (write b p))
         else Some p);
    p ← switch_attrs (cell_attrs cell) p;
    c ← add16 (p_col (prev_pos p)) (if is_wide cell then 2 else 1);
    text ← contents_of cell;
    Some (write text (set_prev_pos (set_col c (prev_pos p)) p))
  else
    Some (match erase p with
          | None => set_erase (Some (p_col pos, cell_attrs cell)) p
          | Some _ => p
          end).

(** One iteration; [differs] is the test [cell != ..] of the two loops. *)
Definition write_step (cols row : Z) (wrapping : bool) (col : Z) (cell : Cell) (differs : bool) (p : Pen) :
    option Pen :=
  if prev_was_wide p then Some (set_prev_was_wide false p)
  else
    let p := set_prev_was_wide (is_wide cell) p in
    col ← try_from U16_MAX col;
    p ← flush_erase cols row wrapping col cell p;
    if differs then draw_cell cols wrapping (mkPos row col) cell p else Some p.

(** [if let Some((prev_col, attrs)) = erase] after the loop. *)
Definition finish_erase (cols row : Z) (wrapping : bool) (p : Pen) : option Pen :=
  match erase p with
  | Some (prev_col, a) =>
      p ← move_to_erase cols row wrapping prev_col p;
      p ← switch_attrs a p;
      Some (write ClearRowForward_write_buf p)
  | None => Some p
  end.

Definition formatted_step (cols row : Z) (wrapping : bool) (item : Z * Cell) (p : Pen) : option Pen :=
  write_step cols row wrapping item.1 item.2 (negb (Cell_eqb item.2 Cell_new)) p.

(** The prologue of [write_contents_formatted] for a row that goes on from a wrapped one. *)
Definition formatted_start (start row : Z) (wrapping : bool) (r : Row) (p : Pen) : option Pen :=
  first_cell ← index start (cells r);
  if wrapping && Cell_eqb first_cell Cell_new then
    p ← switch_attrs Attrs_default p;
    Some (set_prev_pos (mkPos row 0)
            (write ([32] ++ Backspace_write_buf ++ EraseChar_write_buf 1) p))
  else Some p.

(** [Row::write_contents_formatted] *)
Definition Row_write_contents_formatted (start width row : Z) (wrapping : bool)
    (prev_pos : option Pos) (prev_attrs : option Attrs) (r : Row) : option (bytes * Pos * Attrs) :=
  cols ← Row_cols r;
  pos ← (match prev_pos with
         | Some p => Some p
         | None => if wrapping then previous ← sub16 row 1; Some (mkPos previous cols)
                   else Some (mkPos row start)
         end);
  p ← formatted_start start row wrapping r (mkPen [] false pos (default Attrs_default prev_attrs) None);
  p ← for_each (enumerated start width (cells r)) (formatted_step cols row wrapping) p;
  p ← finish_erase cols row wrapping p;
  Some (out p, Vt100Row.prev_pos p, Vt100Row.prev_attrs p).

Definition diff_step (cols row : Z) (wrapping : bool) (item : Z * (Cell * Cell)) (p : Pen) : option Pen :=
  let '(col, (cell, prev_cell)) := item in
  write_step cols row wrapping col cell (negb (Cell_eqb cell prev_cell)) p.

(** The prologue of [write_contents_diff] for a row that newly goes on from a wrapped one. *)
Definition diff_start (cols start row : Z) (wrapping prev_wrapping : bool) (r prev : Row) (p : Pen) : option Pen :=
  first_cell ← index start (cells r);
  prev_first_cell ← index start (cells prev);
  if wrapping && negb prev_wrapping && Cell_eqb first_cell prev_first_cell then
    next_row ← add16 (p_row (prev_pos p)) 1;
    if negb (next_row =? row) then Some p
    else
      limit ← sub16 cols (if is_wide prev_first_cell then 1 else 0);
      if p_col (prev_pos p) <? limit then Some p
      else
        p ← switch_attrs (cell_attrs first_cell) p;
        text ← contents_of prev_first_cell;
        let need_erase := bool_decide (text = []) in
        Some (set_prev_pos (mkPos row 0)
                (write ((if need_erase then [32] else text) ++ Backspace_write_buf ++
                        (if is_wide prev_first_cell then Backspace_write_buf else []) ++
                        (if need_erase then EraseChar_write_buf 1 else [])) p))
  else Some p.

(** The epilogue of [write_contents_diff]: the wrapping of the row changed. *)
Definition diff_wrap (cols row : Z) (r prev : Row) (p : Pen) : option Pen :=
  if negb (wrapped r) && wrapped prev || negb (wrapped prev) && wrapped r then
    last ← sub16 cols 1;
    last_cell ← index last (cells r);
    end_col ← (if is_wide_continuation last_cell then sub16 cols 2 else Some last);
    let end_pos := mkPos row end_col in
    b ← MoveFromTo_write_buf (prev_pos p) end_pos;
    let p := set_prev_pos end_pos (write b p) in
    let p := if negb (wrapped r) then write (EraseChar_write_buf 1) p else p in
    end_cell ← index end_col (cells r);
    if has_contents end_cell then
      p ← switch_attrs (cell_attrs end_cell) p;
      text ← contents_of end_cell;
      c ← add16 (p_col (prev_pos p)) (if is_wide end_cell then 2 else 1);
      Some (set_prev_pos (set_col c (prev_pos p)) (write text p))
    else Some p
  else Some p.

(** [Row::write_contents_diff] *)
Definition Row_write_contents_diff (prev : Row) (start width row : Z) (wrapping prev_wrapping : bool)
    (prev_pos : Pos) (prev_attrs : Attrs) (r : Row) : option (bytes * Pos * Attrs) :=
  cols ← Row_cols r;
  p ← diff_start cols start row wrapping prev_wrapping r prev (mkPen [] false prev_pos prev_attrs None);
  p ← for_each (enumerated start width (zip (cells r) (cells prev))) (diff_step cols row wrapping) p;
  p ← finish_erase cols row wrapping p;
  p ← diff_wrap cols row r prev p;
  Some (out p, Vt100Row.prev_pos p, Vt100Row.prev_attrs p).
End write_row.
