(* ===== verification/Vt100RowInv.v ===== *)
(** * Well-formed cells and rows

    The invariant of a cell (valid UTF-8 in its buffer: one printed character with the
    combining characters that joined it; attributes of their types) and of a row (every
    wide character has its second half, every second half its wide character), and its
    preservation by the operations of [row.rs]: under it none of them panics. *)

From S2P Require Import Prelude TerminalWidth Vt100Cell Vt100Row.

Local Open Scope Z_scope.

(** ** Operations that do not panic *)
Definition succeeds {A} (o : option A) (P : A → Prop) : Prop := ∃ a, o = Some a ∧ P a.

Lemma succeeds_ret {A} (a : A) (P : A → Prop) : P a → succeeds (Some a) P.
Proof. intros. by exists a. Qed.

Lemma succeeds_bind {A B} (m : option A) (f : A → option B) P Q :
  succeeds m P → (∀ a, P a → succeeds (f a) Q) → succeeds (m ≫= f) Q.
Proof. intros (a & -> & Ha) Hf. by apply Hf. Qed.

Lemma succeeds_mono {A} (m : option A) (P Q : A → Prop) :
  succeeds m P → (∀ a, P a → Q a) → succeeds m Q.
Proof. intros (a & -> & Ha) HPQ. exists a. auto. Qed.

Lemma succeeds_with {A} (m : option A) (P : A → Prop) : succeeds m P → succeeds m (λ a, m = Some a ∧ P a).
Proof. intros (a & Hm & Ha). by exists a. Qed.

Lemma succeeds_eq {A} (m : option A) a : m = Some a → succeeds m (λ x, x = a).
Proof. intros. by exists a. Qed.

Lemma add16_Some a b : a + b ≤ U16_MAX → add16 a b = Some (a + b).
Proof. intros. by apply checked_add_Some. Qed.

Lemma sub16_Some a b : b ≤ a → sub16 a b = Some (a - b).
Proof. intros. by apply checked_sub_Some. Qed.

Lemma for_each_succeeds {A S} (l : list A) (body : A → S → option S) (I : S → Prop) s :
  I s → (∀ x s, x ∈ l → I s → succeeds (body x s) I) → succeeds (for_each l body s) I.
Proof.
  revert s. induction l as [|x l IH]; intros s Hs Hb; [by apply succeeds_ret|]. cbn [for_each].
  eapply succeeds_bind; [apply Hb; [by left|done]|]. intros s' Hs'. apply IH; [done|].
  intros y s'' Hy. apply Hb. by right.
Qed.

Lemma repeat_n_succeeds {S} n (body : S → option S) (I : S → Prop) s :
  I s → (∀ s, I s → succeeds (body s) I) → succeeds (repeat_n n body s) I.
Proof.
  revert s. induction n as [|n IH]; intros s Hs Hb; [by apply succeeds_ret|]. cbn [repeat_n].
  eapply succeeds_bind; [by apply Hb|]. intros s' Hs'. by apply IH.
Qed.

(** ** Vectors *)
Lemma index_Some {A} i (l : list A) : 0 ≤ i < len l → ∃ x, index i l = Some x.
Proof.
  intros Hi. unfold index. rewrite (proj2 (Z.leb_le 0 i)) by lia.
  destruct (l !! Z.to_nat i) eqn:H; [eauto|]. apply lookup_ge_None in H. unfold len in Hi. lia.
Qed.

Lemma index_app {A} (a b : list A) x i : i = len a → index i (a ++ x :: b) = Some x.
Proof.
  intros ->. unfold index. rewrite (proj2 (Z.leb_le 0 _)) by apply len_nonneg. unfold len. rewrite Nat2Z.id.
  by rewrite list_lookup_middle.
Qed.

Lemma update_app {A} (a b : list A) x y i (f : A → option A) :
  i = len a → f x = Some y → update i f (a ++ x :: b) = Some (a ++ y :: b).
Proof.
  intros -> Hf. unfold update. rewrite (index_app a b x) by done. cbn. rewrite Hf. cbn.
  unfold len. rewrite Nat2Z.id. f_equal. by rewrite insert_app_r_alt, Nat.sub_diag by lia.
Qed.

Lemma index_elem {A} i (l : list A) x : index i l = Some x → x ∈ l.
Proof. unfold index. case_match; [|done]. apply list_elem_of_lookup_2. Qed.

Lemma update_split {A} i (f : A → option A) (l l' : list A) :
  update i f l = Some l' →
  ∃ a x y b, l = a ++ x :: b ∧ l' = a ++ y :: b ∧ len a = i ∧ f x = Some y.
Proof.
  unfold update, index. destruct (Z.leb_spec 0 i); [|done]. destruct (l !! Z.to_nat i) as [x|] eqn:Hx; [|done].
  cbn. destruct (f x) as [y|] eqn:Hf; [|done]. cbn. intros [= <-].
  apply list_elem_of_split_length in Hx as (a & b & -> & Ha).
  exists a, x, y, b. split_and!; [done| |unfold len; lia|done].
  rewrite Ha. by rewrite insert_app_r_alt, Nat.sub_diag by lia.
Qed.

Lemma split_at {A} (l : list A) i : 0 ≤ i ≤ len l → ∃ a b, l = a ++ b ∧ len a = i.
Proof.
  intros Hi. exists (take (Z.to_nat i) l), (drop (Z.to_nat i) l).
  rewrite take_drop, len_take. split; [done|lia].
Qed.

Lemma vec_insert_app {A} (a b : list A) x i : i = len a → vec_insert i x (a ++ b) = Some (a ++ x :: b).
Proof.
  intros ->. unfold vec_insert. rewrite len_app. pose proof (len_nonneg a). pose proof (len_nonneg b).
  replace (_ && _) with true by lia. unfold len. rewrite Nat2Z.id.
  by rewrite take_app_length, drop_app_length.
Qed.

Lemma vec_remove_app {A} (a b : list A) x i : i = len a → vec_remove i (a ++ x :: b) = Some (x, a ++ b).
Proof.
  intros ->. unfold vec_remove. rewrite (index_app a b x) by done. cbn. unfold len. rewrite Nat2Z.id.
  rewrite take_app_length. do 3 f_equal.
  change (x :: b) with ([x] ++ b). rewrite app_assoc.
  replace (S (length a)) with (length (a ++ [x])) by (rewrite length_app; simpl; lia).
  by rewrite drop_app_length.
Qed.

Lemma len_replicate {A} n (x : A) : len (replicate n x) = Z.of_nat n.
Proof. unfold len. by rewrite length_replicate. Qed.

Lemma len_vec_resize {A} n (x : A) l : 0 ≤ n → len (vec_resize n x l) = n.
Proof. intros. unfold vec_resize. rewrite len_app, len_take, len_replicate. unfold len. lia. Qed.

Lemma len_fmap {A B} (f : A → B) l : len (f <$> l) = len l.
Proof. unfold len. by rewrite length_fmap. Qed.

Lemma vec_remove_ok {A} (P : A → Prop) i l :
  0 ≤ i < len l → Forall P l → succeeds (vec_remove i l) (λ '(x, l'), Forall P l' ∧ len l' = len l - 1).
Proof.
  intros Hi Hl. destruct (split_at l i) as (a & [|x b] & -> & Ha); [lia|rewrite app_nil_r in Hi; lia|].
  rewrite vec_remove_app by done. apply succeeds_ret. apply Forall_app in Hl as [? Hb].
  apply Forall_cons in Hb as [? ?]. rewrite !len_app, len_cons. split; [by apply Forall_app|lia].
Qed.

Lemma vec_insert_ok {A} (P : A → Prop) i x l :
  0 ≤ i ≤ len l → P x → Forall P l → succeeds (vec_insert i x l) (λ l', Forall P l' ∧ len l' = len l + 1).
Proof.
  intros Hi Hx Hl. destruct (split_at l i) as (a & b & -> & Ha); [lia|].
  rewrite vec_insert_app by done. apply succeeds_ret. apply Forall_app in Hl as [? ?].
  rewrite !len_app, len_cons. split; [apply Forall_app; by split; [|constructor]|lia].
Qed.

Lemma update_ok {A} (P : A → Prop) i (f : A → option A) l :
  0 ≤ i < len l → Forall P l → (∀ x, index i l = Some x → P x → succeeds (f x) P) →
  succeeds (update i f l) (λ l', Forall P l' ∧ len l' = len l).
Proof.
  intros Hi Hl Hf. destruct (split_at l i) as (a & [|x b] & -> & Ha); [lia|rewrite app_nil_r in Hi; lia|].
  apply Forall_app in Hl as [? Hb]. apply Forall_cons in Hb as [Hx ?]. destruct (Hf x) as (y & Hy & ?); [by apply index_app|done|].
  rewrite (update_app a b x y) by done. apply succeeds_ret.
  rewrite !len_app, !len_cons. split; [apply Forall_app; by split; [|constructor]|done].
Qed.

(** ** Attributes *)
Definition color_ok (c : Color) : Prop :=
  match c with
  | DefaultColor => True
  | Idx i => is_u8 i
  | Rgb r g b => is_u8 r ∧ is_u8 g ∧ is_u8 b
  end.

(** The mode is a byte of the seven flags, in which bold and dim are not set at once. *)
Definition mode_ok (m : Z) : Prop := is_u8 m ∧ m < 128 ∧ Z.land m TEXT_MODE_INTENSITY ≠ 3.

Definition attrs_ok (a : Attrs) : Prop := color_ok (fgcolor a) ∧ color_ok (bgcolor a) ∧ mode_ok (text_mode a).

#[export] Instance mode_ok_dec m : Decision (mode_ok m).
Proof. unfold mode_ok, is_u8. apply _. Defined.

(** A property of all bytes, by evaluation. *)
Lemma all_u8 (P : Z → Prop) `{∀ m, Decision (P m)} :
  forallb (λ m, bool_decide (P m)) (seqZ 0 256) = true → ∀ m, is_u8 m → P m.
Proof.
  rewrite forallb_forall. intros Hall m Hm. unfold is_u8, U8_MAX in Hm.
  specialize (Hall m). apply bool_decide_eq_true in Hall; [done|].
  apply list_elem_of_In, elem_of_seqZ. lia.
Qed.

Lemma mode_ok_set m :
  mode_ok m →
  mode_ok (set_flag false TEXT_MODE_INTENSITY m) ∧
  mode_ok (set_flag true TEXT_MODE_BOLD (set_flag false TEXT_MODE_INTENSITY m)) ∧
  mode_ok (set_flag true TEXT_MODE_DIM (set_flag false TEXT_MODE_INTENSITY m)) ∧
  Forall (λ flag, mode_ok (set_flag true flag m) ∧ mode_ok (set_flag false flag m))
    [TEXT_MODE_ITALIC; TEXT_MODE_UNDERLINE; TEXT_MODE_INVERSE; TEXT_MODE_BLINK; TEXT_MODE_HIDDEN].
Proof.
  intros Hm. pose proof Hm as [Hu _]. revert Hm. pattern m. refine (all_u8 _ _ m Hu).
  vm_compute. reflexivity.
Qed.

Lemma attrs_ok_default : attrs_ok Attrs_default.
Proof. split_and!; [done|done|]. by vm_compute. Qed.

Lemma attrs_ok_set_fgcolor c a : color_ok c → attrs_ok a → attrs_ok (set_fgcolor c a).
Proof. intros Hc (? & ? & ?). by split_and!. Qed.
Lemma attrs_ok_set_bgcolor c a : color_ok c → attrs_ok a → attrs_ok (set_bgcolor c a).
Proof. intros Hc (? & ? & ?). by split_and!. Qed.
Lemma attrs_ok_set_mode m a : mode_ok m → attrs_ok a → attrs_ok (set_text_mode m a).
Proof. intros Hm (? & ? & ?). by split_and!. Qed.

(** ** Cells *)

(** The byte [len] of a cell: a length and the two flags. *)
Definition len_byte (n : Z) (wide second : bool) : Z :=
  n + (if wide then IS_WIDE else 0) + (if second then IS_WIDE_CONTINUATION else 0).

Lemma len_byte_spec n wide second :
  0 ≤ n ≤ 22 →
  Z.land (len_byte n wide second) LEN_BITS = n ∧
  has_flag IS_WIDE (len_byte n wide second) = wide ∧
  has_flag IS_WIDE_CONTINUATION (len_byte n wide second) = second ∧
  (∀ b, set_flag b IS_WIDE (len_byte n wide second) = len_byte n b second) ∧
  (∀ b, set_flag b IS_WIDE_CONTINUATION (len_byte n wide second) = len_byte n wide b).
Proof.
  intros Hn.
  assert (∀ m, 0 ≤ m < 23 →
    Z.land (len_byte m wide second) LEN_BITS = m ∧
    has_flag IS_WIDE (len_byte m wide second) = wide ∧
    has_flag IS_WIDE_CONTINUATION (len_byte m wide second) = second ∧
    set_flag true IS_WIDE (len_byte m wide second) = len_byte m true second ∧
    set_flag false IS_WIDE (len_byte m wide second) = len_byte m false second ∧
    set_flag true IS_WIDE_CONTINUATION (len_byte m wide second) = len_byte m wide true ∧
    set_flag false IS_WIDE_CONTINUATION (len_byte m wide second) = len_byte m wide false) as H.
  { intros m Hm. assert (is_u8 m) as Hu by (unfold is_u8, U8_MAX; lia). revert Hm. pattern m.
    refine (all_u8 _ _ m Hu). destruct wide, second; vm_compute; reflexivity. }
  destruct (H n ltac:(lia)) as (? & ? & ? & ? & ? & ? & ?). split_and!; try done; by intros [].
Qed.

(** [cell_is n w k c]: well-formed, with flags [w] and [k], holding the scalars [l]. *)
Record cell_is (l : list Z) (wide second : bool) (c : Cell) : Prop := {
  ci_buffer : length (cell_contents c) = 22%nat;
  ci_attrs : attrs_ok (cell_attrs c);
  ci_scalars : Forall is_scalar l;
  ci_fits : len (l ≫= encode_utf8) ≤ 22;
  ci_len : cell_len c = len_byte (len (l ≫= encode_utf8)) wide second;
  ci_text : take (length (l ≫= encode_utf8)) (cell_contents c) = l ≫= encode_utf8;
}.

Section cell_facts.
Context {l : list Z} {wide second : bool} {c : Cell} (Hc : cell_is l wide second c).

Lemma cell_is_flags :
  contents_len c = len (l ≫= encode_utf8) ∧ is_wide c = wide ∧ is_wide_continuation c = second.
Proof.
  destruct (len_byte_spec (len (l ≫= encode_utf8)) wide second) as (H1 & H2 & H3 & _);
    [split; [apply len_nonneg|apply (ci_fits _ _ _ _ Hc)]|].
  unfold contents_len, is_wide, is_wide_continuation. by rewrite (ci_len _ _ _ _ Hc).
Qed.

Lemma contents_of_Some : contents_of c = Some (l ≫= encode_utf8).
Proof.
  unfold contents_of. destruct cell_is_flags as (-> & _ & _). destruct Hc.
  destruct (Z.ltb_spec (len (cell_contents c)) (len (l ≫= encode_utf8))); [unfold len in *; lia|].
  unfold len. rewrite Nat2Z.id, ci_text0. by rewrite encode_all_valid.
Qed.

Lemma set_wide_is b : cell_is l b second (set_wide b c).
Proof.
  destruct (len_byte_spec (len (l ≫= encode_utf8)) wide second) as (_ & _ & _ & Hs & _);
    [split; [apply len_nonneg|apply (ci_fits _ _ _ _ Hc)]|].
  destruct Hc. split; try done. cbn. by rewrite ci_len0.
Qed.

Lemma set_second_is b : cell_is l wide b (set_wide_continuation b c).
Proof.
  destruct (len_byte_spec (len (l ≫= encode_utf8)) wide second) as (_ & _ & _ & _ & Hs);
    [split; [apply len_nonneg|apply (ci_fits _ _ _ _ Hc)]|].
  destruct Hc. split; try done. cbn. by rewrite ci_len0.
Qed.

Lemma clear_is a : attrs_ok a → cell_is [] false false (Cell_clear a c).
Proof. intros Ha. destruct Hc. by split. Qed.
End cell_facts.

Lemma new_is : cell_is [] false false Cell_new.
Proof. by split. Qed.

Lemma write_at_Some start src buf :
  0 ≤ start → start + len src ≤ len buf →
  ∃ out, write_at start src buf = Some out ∧ length out = length buf ∧
    take (Z.to_nat start + length src) out = take (Z.to_nat start) buf ++ src.
Proof.
  intros Hs Hl. unfold write_at. replace (_ && _) with true by lia. eexists. split; [done|].
  unfold len in *. rewrite !length_app, length_take, length_drop. split; [lia|].
  rewrite app_assoc. rewrite take_app_le by (rewrite length_app, length_take; lia).
  by rewrite take_ge by (rewrite length_app, length_take; lia).
Qed.

(** Appending the scalar [ch] where the text ends. *)
Lemma append_char_is l wide second ch c :
  cell_is l wide second c → is_scalar ch → len (l ≫= encode_utf8) + len_utf8 ch ≤ 22 →
  succeeds (append_char (len (l ≫= encode_utf8)) ch c) (cell_is (l ++ [ch]) wide second).
Proof.
  intros Hc Hch Hfit. pose proof (len_encode_utf8 ch) as Hlen. pose proof (len_utf8_bounds ch).
  pose proof (len_nonneg (l ≫= encode_utf8)).
  destruct (write_at_Some (len (l ≫= encode_utf8)) (encode_utf8 ch) (cell_contents c)) as (out & Hw & Hl & Ht).
  { lia. }
  { destruct Hc. unfold len in *. lia. }
  assert ((l ++ [ch]) ≫= encode_utf8 = (l ≫= encode_utf8) ++ encode_utf8 ch) as Happ.
  { rewrite bind_app. cbn. by rewrite app_nil_r. }
  unfold append_char. rewrite Hw. cbn. unfold add8.
  assert (cell_len c + len_utf8 ch ≤ U8_MAX) as Hu.
  { rewrite (ci_len _ _ _ _ Hc). unfold len_byte, IS_WIDE, IS_WIDE_CONTINUATION, U8_MAX.
    destruct wide, second; lia. }
  rewrite (proj2 (checked_add_Some U8_MAX _ _ _) (conj eq_refl Hu)). cbn. apply succeeds_ret.
  destruct Hc. split; cbn [cell_contents cell_attrs cell_len].
  - congruence.
  - done.
  - apply Forall_app. split; [done|]. by apply Forall_singleton.
  - rewrite Happ, len_app. lia.
  - rewrite Happ, len_app, ci_len0. unfold len_byte. lia.
  - rewrite Happ, length_app. unfold len in Ht. rewrite Nat2Z.id in Ht. by rewrite Ht, ci_text0.
Qed.

(** [Cell::set] *)
Lemma Cell_set_is `{UW : UnicodeWidth} l wide second ch a c :
  cell_is l wide second c → is_scalar ch → attrs_ok a →
  succeeds (Cell_set ch a c) (cell_is [ch] (1 <? default 1 (width ch)) false).
Proof.
  intros Hc Hch Ha. unfold Cell_set.
  assert (cell_is [] false false (set_cell_len 0 c)) as H0 by (destruct Hc; by split).
  eapply succeeds_bind.
  { apply (append_char_is _ _ _ ch _ H0 Hch). pose proof (len_utf8_bounds ch).
    change (len ([] ≫= encode_utf8)) with 0. lia. }
  intros c' Hc'. apply succeeds_ret. destruct (set_wide_is Hc' (1 <? default 1 (width ch))). by split.
Qed.

Lemma Cell_set_attrs `{UW : UnicodeWidth} ch a c d : Cell_set ch a c = Some d → cell_attrs d = a.
Proof. unfold Cell_set. destruct (append_char _ _ _); [|done]. cbn. by intros [= <-]. Qed.

(** [Cell::append] drops a scalar that does not fit. *)
Definition appended (l : list Z) (ch : Z) : list Z :=
  if 18 <=? len (l ≫= encode_utf8) then l else if bool_decide (l = []) then [32; ch] else l ++ [ch].

Lemma Cell_append_is l wide second ch c :
  cell_is l wide second c → is_scalar ch → succeeds (Cell_append ch c) (cell_is (appended l ch) wide second).
Proof.
  intros Hc Hch. unfold Cell_append. destruct (cell_is_flags Hc) as (-> & _ & _).
  pose proof (len_utf8_bounds ch). unfold CONTENT_BYTES, appended. change (22 - 4) with 18.
  destruct (Z.leb_spec 18 (len (l ≫= encode_utf8))); [by apply succeeds_ret|].
  destruct (Z.eqb_spec (len (l ≫= encode_utf8)) 0) as [Hz|Hz].
  - assert (l = []) as ->.
    { destruct l as [|x l]; [done|]. cbn in Hz. rewrite len_app, len_encode_utf8 in Hz.
      pose proof (len_utf8_bounds x). pose proof (len_nonneg (l ≫= encode_utf8)). lia. }
    assert (is_scalar 32) as Hsp by (left; lia).
    destruct (append_char_is _ _ _ 32 _ Hc Hsp) as (c1 & H1 & Hc1); [done|].
    unfold append_char in H1. cbn [list_bind mbind] in H1.
    change (encode_utf8 32) with [32] in H1. change (len_utf8 32) with 1 in H1. change (len []) with 0 in H1.
    destruct (write_at 0 [32] (cell_contents c)) as [b|]; [|done]. cbn in H1 |- *.
    destruct (add8 (cell_len c) 1) as [n|]; [|done]. cbn in H1 |- *. injection H1 as <-.
    destruct (cell_is_flags Hc1) as (-> & _ & _).
    apply (append_char_is _ _ _ ch _ Hc1 Hch).
    change (len (([] ++ [32]) ≫= encode_utf8)) with 1. lia.
  - cbn. destruct (cell_is_flags Hc) as (-> & _ & _).
    rewrite bool_decide_eq_false_2 by (by intros ->). by apply (append_char_is _ _ _ ch _ Hc Hch); lia.
Qed.

(** ** Rows *)

(** A character that is drawn: not a control character. *)
Definition printable (c : Z) : Prop := is_scalar c ∧ 32 ≤ c ∧ (c < 127 ∨ 160 ≤ c).

Lemma width_printable `{UW : UnicodeWidth} `{!UnicodeWidthLaws UW} c w : is_scalar c → width c = Some w → printable c.
Proof.
  intros Hc Hw. split; [done|]. destruct (decide (32 ≤ c ∧ (c < 127 ∨ 160 ≤ c))) as [|Hctl]; [done|].
  rewrite width_control in Hw by lia. done.
Qed.

Create HintDb cells discriminated.

(** Whether a row that is marked as wrapped must have its last column in use. The
    operations keep this as long as the scroll region has two rows. *)
Class Discipline := { strict : bool }.

Section rows.
Context `{UW : UnicodeWidth} `{D : Discipline}.

(** The text of a cell: a character of width 1 or 2, and the characters of width 0 that
    joined it while there was room. *)
Inductive text_of (wide : bool) : list Z → Prop :=
  | text_base c :
      printable c → bool_decide (width c = None) && (c <? 256) = false →
      1 ≤ default 1 (width c) → (1 <? default 1 (width c)) = wide → text_of wide [c]
  | text_joined l c :
      text_of wide l → len (l ≫= encode_utf8) < 18 → printable c → width c = Some 0 → text_of wide (l ++ [c]).

(** The three kinds of cells. *)
Definition narrow (c : Cell) : Prop := ∃ l, cell_is l false false c ∧ (l = [] ∨ text_of false l).
Definition wide_half (c : Cell) : Prop := ∃ l, cell_is l true false c ∧ text_of true l.
Definition second_half (c : Cell) : Prop := cell_is [] false true c ∧ cell_attrs c = Attrs_default.

(** Every wide character is followed by its second half, and by nothing else. *)
Inductive paired : list Cell → Prop :=
  | paired_nil : paired []
  | paired_narrow c l : narrow c → paired l → paired (c :: l)
  | paired_wide c d l : wide_half c → second_half d → paired l → paired (c :: d :: l).

Lemma paired_app a b : paired a → paired b → paired (a ++ b).
Proof. intros Ha Hb. induction Ha; simpl; [done|by constructor|by constructor]. Qed.

Lemma narrow_clear a c : (∃ l w k, cell_is l w k c) → attrs_ok a → narrow (Cell_clear a c).
Proof. intros (l & w & k & Hc) Ha. exists []. split; [by eapply clear_is|by left]. Qed.

Lemma narrow_is c : narrow c → ∃ l w k, cell_is l w k c.
Proof. intros (l & ? & _). eauto. Qed.
Lemma wide_is c : wide_half c → ∃ l w k, cell_is l w k c.
Proof. intros (l & ? & _). eauto. Qed.
Lemma second_is c : second_half c → ∃ l w k, cell_is l w k c.
Proof. intros [? _]. eauto. Qed.

Lemma cell_attrs_ok c : (∃ l w k, cell_is l w k c) → attrs_ok (cell_attrs c).
Proof. intros (l & w & k & []). done. Qed.

Lemma narrow_clear_keep c : (∃ l w k, cell_is l w k c) → narrow (clear_keep c).
Proof. intros Hc. apply narrow_clear; [done|by apply cell_attrs_ok]. Qed.

Lemma narrow_new : narrow Cell_new.
Proof. exists []. split; [apply new_is|by left]. Qed.

#[local] Hint Resolve narrow_clear narrow_is wide_is second_is narrow_clear_keep narrow_new cell_attrs_ok
  attrs_ok_default paired_app paired_nil paired_narrow paired_wide : cells.

Lemma narrow_flags c : narrow c → is_wide c = false ∧ is_wide_continuation c = false.
Proof. intros (l & Hc & _). by destruct (cell_is_flags Hc) as (_ & ? & ?). Qed.
Lemma wide_flags c : wide_half c → is_wide c = true ∧ is_wide_continuation c = false.
Proof. intros (l & Hc & _). by destruct (cell_is_flags Hc) as (_ & ? & ?). Qed.
Lemma second_flags c : second_half c → is_wide c = false ∧ is_wide_continuation c = true.
Proof. intros [Hc _]. by destruct (cell_is_flags Hc) as (_ & ? & ?). Qed.

(** What surrounds a position of a row. *)
Inductive around : list Cell → Z → Prop :=
  | around_narrow a c b : paired a → narrow c → paired b → around (a ++ c :: b) (len a)
  | around_wide a c d b : paired a → wide_half c → second_half d → paired b → around (a ++ c :: d :: b) (len a)
  | around_second a c d b :
      paired a → wide_half c → second_half d → paired b → around (a ++ c :: d :: b) (len a + 1).

Lemma around_cons c l i : narrow c → around l i → around (c :: l) (i + 1).
Proof.
  intros Hc H. destruct H as [a x b|a x y b|a x y b].
  - rewrite <- len_cons with (x := c). apply (around_narrow (c :: a)); auto with cells.
  - rewrite <- len_cons with (x := c). apply (around_wide (c :: a)); auto with cells.
  - rewrite <- len_cons with (x := c). apply (around_second (c :: a)); auto with cells.
Qed.

Lemma around_cons2 c d l i : wide_half c → second_half d → around l i → around (c :: d :: l) (i + 1 + 1).
Proof.
  intros Hc Hd H. destruct H as [a x b|a x y b|a x y b].
  - replace (len a + 1 + 1) with (len (c :: d :: a)) by (rewrite !len_cons; lia).
    apply (around_narrow (c :: d :: a)); auto with cells.
  - replace (len a + 1 + 1) with (len (c :: d :: a)) by (rewrite !len_cons; lia).
    apply (around_wide (c :: d :: a)); auto with cells.
  - replace (len a + 1 + 1 + 1) with (len (c :: d :: a) + 1) by (rewrite !len_cons; lia).
    apply (around_second (c :: d :: a)); auto with cells.
Qed.

Lemma paired_around l i : paired l → 0 ≤ i < len l → around l i.
Proof.
  intros Hl. revert i. induction Hl as [|c l Hc Hl IH|c d l Hc Hd Hl IH]; intros i Hi.
  - change (len []) with 0 in Hi. lia.
  - rewrite len_cons in Hi. destruct (decide (i = 0)) as [->|].
    + apply (around_narrow [] c l); auto with cells.
    + replace i with (i - 1 + 1) by lia. apply around_cons; [done|]. apply IH. lia.
  - rewrite !len_cons in Hi. destruct (decide (i = 0)) as [->|]; [apply (around_wide [] c d l); auto with cells|].
    destruct (decide (i = 1)) as [->|]; [apply (around_second [] c d l); auto with cells|].
    replace i with (i - 2 + 1 + 1) by lia. apply around_cons2; [done|done|]. apply IH. lia.
Qed.

(** A cell that text occupies, and rows that end with one. *)
Definition filled (c : Cell) : bool := has_contents c || is_wide_continuation c.
Definition last_filled (l : list Cell) : Prop := ∃ a c, l = a ++ [c] ∧ filled c = true.

Lemma last_filled_app a b : last_filled b → last_filled (a ++ b).
Proof. intros (x & c & -> & Hc). exists (a ++ x), c. by rewrite <- app_assoc. Qed.

Lemma last_filled_tail a b : b ≠ [] → last_filled (a ++ b) → last_filled b.
Proof.
  intros Hb (x & c & Heq & Hc). destruct b as [|d b _] using rev_ind; [done|].
  rewrite app_assoc in Heq. apply app_inj_tail in Heq as [_ ->]. by exists b, c.
Qed.

Lemma last_filled_one c : filled c = true → last_filled [c].
Proof. intros Hc. by exists [], c. Qed.

(** A row of [cols] cells. *)
Definition wrap_ok (r : Row) : Prop := strict = true → wrapped r = true → last_filled (cells r).
Definition row_ok (cols : Z) (r : Row) : Prop := len (cells r) = cols ∧ paired (cells r) ∧ wrap_ok r.

Lemma wrap_ok_false cs : wrap_ok (mkRow cs false).
Proof. done. Qed.

(** A change of a row that leaves its end alone, or a filled cell there. *)
Lemma wrap_ok_end a a' b b' r :
  wrap_ok r → cells r = a ++ b → b ≠ [] → (last_filled b → last_filled b') → wrap_ok (mkRow (a' ++ b') (wrapped r)).
Proof.
  intros Hr Heq Hb Hbb Hs Hw. cbn in *. specialize (Hr Hs Hw). rewrite Heq in Hr.
  by apply last_filled_app, Hbb, (last_filled_tail a).
Qed.

Lemma wrap_ok_before a a' b r : wrap_ok r → cells r = a ++ b → b ≠ [] → wrap_ok (mkRow (a' ++ b) (wrapped r)).
Proof. intros. by eapply wrap_ok_end. Qed.

Lemma wrap_ok_filled a c w : filled c = true → wrap_ok (mkRow (a ++ [c]) w).
Proof. intros Hc _ _. by apply last_filled_app, last_filled_one. Qed.

(** One cell replaced by a filled one. *)
Lemma wrap_ok_replace a c c' b r :
  wrap_ok r → cells r = a ++ c :: b → filled c' = true → wrap_ok (mkRow (a ++ c' :: b) (wrapped r)).
Proof.
  intros Hr Heq Hc. destruct b as [|x b]; [by apply wrap_ok_filled|].
  change (a ++ c' :: ?l) with (a ++ [c'] ++ l). rewrite app_assoc.
  apply (wrap_ok_before (a ++ [c])); [done|by rewrite Heq, <- app_assoc|done].
Qed.

(** Text makes a cell filled, and so does the mark of a second half. *)
Lemma text_of_nonempty wide l : text_of wide l → l ≠ [].
Proof. intros [|]; [done|]. by destruct l0. Qed.

Lemma has_contents_text l wide second c : cell_is l wide second c → has_contents c = negb (bool_decide (l = [])).
Proof.
  intros Hc. unfold has_contents. destruct (cell_is_flags Hc) as (-> & _). destruct l as [|x l]; [done|].
  rewrite bool_decide_eq_false_2 by done. cbn. rewrite len_app, len_encode_utf8. pose proof (len_utf8_bounds x).
  pose proof (len_nonneg (l ≫= encode_utf8)). lia.
Qed.

Lemma filled_text l wide second c : cell_is l wide second c → l ≠ [] → filled c = true.
Proof. intros Hc Hl. unfold filled. by rewrite (has_contents_text _ _ _ _ Hc), bool_decide_eq_false_2. Qed.

Lemma filled_second c : second_half c → filled c = true.
Proof. intros Hc. unfold filled. by rewrite (proj2 (second_flags _ Hc)), orb_true_r. Qed.

(** Appending a character of width 0 to a text, or to a blank cell. *)
Lemma text_appended `{UWL : !UnicodeWidthLaws UW} wide l c :
  (l = [] ∧ wide = false ∨ text_of wide l) → printable c → width c = Some 0 → text_of wide (appended l c).
Proof.
  intros Hl Hc Hw. unfold appended. destruct (Z.leb_spec 18 (len (l ≫= encode_utf8))) as [Hlong|Hshort].
  - destruct Hl as [[-> _]|Hl]; [|done]. change (len _) with 0 in Hlong. lia.
  - destruct Hl as [[-> ->]|Hl].
    + rewrite bool_decide_eq_true_2 by done. apply (text_joined false [32]); [|by vm_compute|done|done].
      apply text_base; rewrite ?width_ascii by lia; [|done|done|done]. split; [left|]; lia.
    + rewrite bool_decide_eq_false_2 by (by eapply text_of_nonempty). by apply text_joined.
Qed.

(** One cell, in context. *)
Lemma Row_get_app a c b r : cells r = a ++ c :: b → Row_get (len a) r = Some c.
Proof. intros Hr. unfold Row_get. rewrite Hr. by apply index_app. Qed.

Lemma Row_update_app a c c' b r (f : Cell → option Cell) :
  cells r = a ++ c :: b → f c = Some c' → Row_update (len a) f r = Some (mkRow (a ++ c' :: b) (wrapped r)).
Proof. intros Hr Hf. unfold Row_update. rewrite Hr, (update_app a b c c') by done. done. Qed.

(** The same for the cell after the first of [a ++ c :: d :: b]. *)
Lemma Row_update_app2 a c d d' b r (f : Cell → option Cell) :
  cells r = a ++ c :: d :: b → f d = Some d' →
  Row_update (len a + 1) f r = Some (mkRow (a ++ c :: d' :: b) (wrapped r)).
Proof.
  intros Hr Hf. replace (len a + 1) with (len (a ++ [c])) by (rewrite len_app; done).
  rewrite (Row_update_app (a ++ [c]) d d' b r f); [by rewrite <- app_assoc|by rewrite Hr, <- app_assoc|done].
Qed.

Lemma Row_get_app2 a c d b r : cells r = a ++ c :: d :: b → Row_get (len a + 1) r = Some d.
Proof.
  intros Hr. replace (len a + 1) with (len (a ++ [c])) by (rewrite len_app; done).
  apply (Row_get_app (a ++ [c]) d b). by rewrite Hr, <- app_assoc.
Qed.

Lemma len_app_cons {A} (a b : list A) x y : len (a ++ x :: b) = len (a ++ y :: b).
Proof. by rewrite !len_app, !len_cons. Qed.

(** [clear_wide] leaves a row that is paired on both sides of the cell at [i]. *)
Lemma clear_wide_spec cols i r :
  row_ok cols r → 0 ≤ i < cols → cols ≤ U16_MAX →
  ∃ a c b, Row_get i r = Some c ∧ clear_wide i r = Some (mkRow (a ++ c :: b) (wrapped r)) ∧
    len a = i ∧ paired a ∧ paired b ∧ (∃ l w k, cell_is l w k c) ∧ len (a ++ c :: b) = cols ∧
    (is_wide c = true → i + 2 ≤ cols) ∧
    (i ≠ cols - (if is_wide c then 2 else 1) → ∀ x, wrap_ok (mkRow (a ++ x :: b) (wrapped r))).
Proof.
  intros (Hl & Hp & Hwr) Hi Hc. rewrite <- Hl in *. pose proof (paired_around _ _ Hp Hi) as Ha.
  inversion Ha as [a c b Hpa Hn Hpb Heq Hi'|a c d b Hpa Hw Hs Hpb Heq Hi'|a c d b Hpa Hw Hs Hpb Heq Hi'];
    symmetry in Heq; subst i; unfold clear_wide.
  - destruct (narrow_flags _ Hn) as [Hf1 Hf2]. exists a, c, b. rewrite (Row_get_app a c b r Heq). cbn.
    rewrite Hf1, Hf2. rewrite <- Heq.
    split_and!; try done; [by destruct r|eauto with cells|]. intros Hlast x.
    change (a ++ x :: b) with (a ++ [x] ++ b). rewrite app_assoc. apply (wrap_ok_before (a ++ [c])); [done|by rewrite <- app_assoc|].
    intros ->. rewrite ?Heq, len_app in Hlast. change (len [c]) with 1 in Hlast. lia.
  - destruct (wide_flags _ Hw) as [Hf1 _]. exists a, c, (clear_keep d :: b).
    rewrite (Row_get_app a c (d :: b) r Heq). cbn. rewrite Hf1.
    assert (len a + 1 < len (cells r)).
    { rewrite Heq, len_app, !len_cons. pose proof (len_nonneg b). lia. }
    rewrite add16_Some by lia. cbn. rewrite (Row_update_app2 a c d (clear_keep d) b r) by done.
    split_and!; try done; [eauto with cells|eauto with cells|by rewrite !len_app, !len_cons| |].
    { rewrite len_app, !len_cons. pose proof (len_nonneg b). lia. }
    intros Hlast x. replace (a ++ x :: clear_keep d :: b) with ((a ++ [x; clear_keep d]) ++ b) by (by rewrite <- app_assoc).
    apply (wrap_ok_before (a ++ [c; d])); [done|by rewrite <- app_assoc|].
    intros ->. rewrite ?Heq, len_app in Hlast. change (len [c; d]) with 2 in Hlast. lia.
  - destruct (second_flags _ Hs) as [Hf1 Hf2]. exists (a ++ [clear_keep c]), d, b.
    rewrite (Row_get_app2 a c d b r Heq). cbn. rewrite Hf1, Hf2. rewrite sub16_Some by (pose proof (len_nonneg a); lia).
    cbn. replace (len a + 1 - 1) with (len a) by lia. rewrite (Row_update_app a c (clear_keep c) (d :: b) r) by done.
    split_and!; try done; [by rewrite <- app_assoc|by rewrite len_app|apply paired_app; auto with cells|eauto with cells| |].
    { rewrite <- app_assoc, ?Heq. cbn [app]. apply len_app_cons. }
    intros Hlast x. change (?l ++ x :: b) with (l ++ [x] ++ b). rewrite app_assoc.
    apply (wrap_ok_before (a ++ [c; d])); [done|by rewrite <- app_assoc|].
    intros ->. rewrite ?Heq, len_app in Hlast. change (len [c; d]) with 2 in Hlast. lia.
Qed.

Lemma Row_cols_Some cols r : row_ok cols r → 0 ≤ cols ≤ U16_MAX → Row_cols r = Some cols.
Proof.
  intros [Hl _] Hc. unfold Row_cols, try_from. rewrite Hl. by replace (_ && _) with true by lia.
Qed.

Lemma Row_remove_ok cols i r :
  row_ok cols r → 0 ≤ i < cols → cols ≤ U16_MAX → succeeds (Row_remove i r) (row_ok (cols - 1)).
Proof.
  intros Hr Hi Hc. destruct (clear_wide_spec cols i r Hr Hi Hc) as (a & c & b & _ & Hcl & Ha & Hpa & Hpb & _ & Hlen & _).
  unfold Row_remove. rewrite Hcl. cbn. rewrite (vec_remove_app a b c) by done. cbn. apply succeeds_ret.
  split_and!; cbn; [|auto with cells|apply wrap_ok_false]. rewrite len_app, len_cons in Hlen. rewrite len_app. lia.
Qed.

Lemma Row_erase_ok cols i at_ r :
  row_ok cols r → 0 ≤ i < cols → cols ≤ U16_MAX → attrs_ok at_ → succeeds (Row_erase i at_ r) (row_ok cols).
Proof.
  intros Hr Hi Hc Hat.
  destruct (clear_wide_spec cols i r Hr Hi Hc) as (a & c & b & Hg & Hcl & Ha & Hpa & Hpb & Hci & Hlen & Hw & Hwr).
  unfold Row_erase. rewrite Hg. cbn. rewrite Hcl. cbn. rewrite <- Ha.
  rewrite (Row_update_app a c (Cell_clear at_ c) b) by done. cbn.
  assert (len (a ++ Cell_clear at_ c :: b) = cols) as Hlen' by (by rewrite <- (len_app_cons a b c)).
  assert (paired (a ++ Cell_clear at_ c :: b)) as Hp' by auto with cells.
  unfold Row_cols, try_from. cbn [cells]. rewrite Hlen'. replace (_ && _) with true by lia. cbn.
  rewrite sub16_Some by (destruct (is_wide c); [specialize (Hw eq_refl)|]; lia). cbn. apply succeeds_ret.
  destruct (Z.eqb_spec (len a) (cols - (if is_wide c then 2 else 1))); [done|]. split_and!; [done|done|].
  apply Hwr. lia.
Qed.

Lemma Row_clear_ok cols at_ r : row_ok cols r → attrs_ok at_ → row_ok cols (Row_clear at_ r).
Proof.
  intros (Hl & Hp & _) Ha. split_and!; cbn; [by rewrite len_fmap| |apply wrap_ok_false]. clear Hl.
  induction Hp; csimpl; [constructor|apply paired_narrow; [auto with cells|done]|].
  apply paired_narrow; [auto with cells|]. apply paired_narrow; [auto with cells|done].
Qed.

Lemma Row_wrap_ok cols w r :
  row_ok cols r → (strict = true → w = true → last_filled (cells r)) → row_ok cols (Row_wrap w r).
Proof. intros (Hl & Hp & _) Hw. by split_and!. Qed.

Lemma paired_replicate n c : narrow c → paired (replicate n c).
Proof. intros Hc. induction n; simpl; [constructor|by apply paired_narrow]. Qed.

Lemma Row_new_ok cols : 0 ≤ cols → row_ok cols (Row_new cols).
Proof.
  intros Hc. split_and!; cbn; [rewrite len_replicate; lia|apply paired_replicate, narrow_new|apply wrap_ok_false].
Qed.

(** A row cut at [n] is paired but for a wide character that lost its second half. *)
Lemma paired_take l n :
  paired l → paired (take n l) ∨ ∃ a c, take n l = a ++ [c] ∧ paired a ∧ wide_half c.
Proof.
  intros Hl. revert n. induction Hl as [|c l Hc Hl IH|c d l Hc Hd Hl IH]; intros n.
  - left. rewrite take_nil. constructor.
  - destruct n as [|n]; [left; constructor|]. cbn [take].
    destruct (IH n) as [H|(a & x & -> & Ha & Hx)]; [left; by apply paired_narrow|right].
    exists (c :: a), x. split_and!; [done|by apply paired_narrow|done].
  - destruct n as [|[|n]]; [left; constructor|right; exists [], c; split_and!; [done|constructor|done]|]. cbn [take].
    destruct (IH n) as [H|(a & x & -> & Ha & Hx)]; [left; by apply paired_wide|right].
    exists (c :: d :: a), x. split_and!; [done|by apply paired_wide|done].
Qed.

(** The last cell of a row is not the first half of a wide character. *)
Lemma paired_last a c : paired (a ++ [c]) → is_wide c = false.
Proof.
  intros H. remember (a ++ [c]) as l eqn:Hl. revert a Hl.
  induction H as [|x l Hx Hl IH|x y l Hx Hy Hl IH]; intros a Ha.
  - by destruct a.
  - destruct a as [|z a]; injection Ha as -> ->; [by apply narrow_flags|by apply (IH a)].
  - destruct a as [|z [|z' a]]; simplify_eq/=; [by apply second_flags|by apply (IH a)].
Qed.

Lemma Row_truncate_ok cols n r :
  row_ok n r → 1 ≤ cols ≤ n → succeeds (Row_truncate cols r) (row_ok cols).
Proof.
  intros (Hl & Hp & _) Hc. unfold Row_truncate. rewrite (proj2 (checked_sub_Some cols 1 (cols - 1))) by lia. cbn.
  assert (len (take (Z.to_nat cols) (cells r)) = cols) as Hlen by (rewrite len_take; lia).
  pose proof (paired_take (cells r) (Z.to_nat cols) Hp) as Hcut.
  destruct (take (Z.to_nat cols) (cells r)) as [|c a _] eqn:Ht using rev_ind.
  { change (len (@nil Cell)) with 0 in Hlen. lia. }
  rewrite len_app in Hlen. change (len [c]) with 1 in Hlen. replace (cols - 1) with (len a) by lia.
  erewrite (Row_update_app a c _ []); [|done|done]. apply succeeds_ret.
  split_and!; cbn; [by rewrite len_app| |apply wrap_ok_false]. destruct Hcut as [H|(a' & c' & H & Ha & Hw)].
  - by rewrite (paired_last a c H).
  - apply app_inj_tail in H as [<- <-]. rewrite (proj1 (wide_flags _ Hw)). apply paired_app; auto with cells.
Qed.

(** Growing a row pads it with blank cells; a cut must not go through a wide character. *)
Lemma Row_resize_ok cols n r :
  row_ok n r → 0 ≤ cols → paired (take (Z.to_nat cols) (cells r)) → row_ok cols (Row_resize cols Cell_new r).
Proof.
  intros (Hl & Hp & _) Hc Hcut. split_and!; cbn; [by apply len_vec_resize| |apply wrap_ok_false].
  apply paired_app; [done|]. apply paired_replicate, narrow_new.
Qed.

Lemma take_all {A} n (l : list A) : len l ≤ n → take (Z.to_nat n) l = l.
Proof. intros. apply take_ge. unfold len in *. lia. Qed.

(** [n] cells inserted in front of the cell at [i], or at the end of the row. *)
Lemma Row_insert_ok cols i r :
  row_ok cols r → 0 ≤ i ≤ cols →
  (∀ c, Row_get i r = Some c → is_wide_continuation c = false) →
  succeeds (Row_insert i Cell_new r) (row_ok (cols + 1)).
Proof.
  intros (Hl & Hp & _) Hi Hc. unfold Row_insert.
  assert (∃ a b, cells r = a ++ b ∧ len a = i ∧ paired a ∧ paired b) as (a & b & Heq & Ha & Hpa & Hpb).
  { destruct (decide (i = cols)) as [->|].
    { exists (cells r), []. rewrite app_nil_r. auto with cells. }
    assert (0 ≤ i < len (cells r)) as Hi' by lia.
    pose proof (paired_around _ _ Hp Hi') as H.
    inversion H as [a c b Hpa Hn Hpb Heq Hia|a c d b Hpa Hw Hs Hpb Heq Hia|a c d b Hpa Hw Hs Hpb Heq Hia];
      symmetry in Heq.
    - exists a, (c :: b). auto with cells.
    - exists a, (c :: d :: b). auto with cells.
    - subst i. apply (Row_get_app2 a c d b r) in Heq as Hg. specialize (Hc _ Hg).
      destruct (second_flags _ Hs). congruence. }
  rewrite Heq, (vec_insert_app a b) by done. apply succeeds_ret. rewrite <- Hl, Heq.
  split_and!; cbn; [rewrite !len_app, len_cons; lia|auto with cells|apply wrap_ok_false].
Qed.
End rows.

#[export] Hint Resolve narrow_clear narrow_clear_keep narrow_new cell_attrs_ok
  attrs_ok_default paired_app paired_nil paired_narrow paired_wide wrap_ok_false filled_second : cells.
(** The kind of a cell says that it is well formed; the widths are those of the hypothesis. *)
#[export] Hint Extern 1 (∃ l w k, cell_is l w k _) =>
  first [eassumption | eapply narrow_is; eassumption | eapply wide_is; eassumption | eapply second_is; eassumption] : cells.
