(* ===== verification/Vt100Grid.v ===== *)
(** * The grid: [src/src/vt100/grid.rs]

    The rows of one screen, the cursor, the scroll region and the scrollback. A
    method on [&mut self] maps the grid to the grid it leaves, or panics. *)

From S2P Require Import Prelude TerminalWidth Vt100Cell Vt100Row.

Local Open Scope Z_scope.

Record Grid := mkGrid {
  size : Size;
  pos : Pos;
  saved_pos : Pos;
  rows : list Row;
  scroll_top : Z;
  scroll_bottom : Z;
  origin_mode : bool;
  saved_origin_mode : bool;
  scrollback : list Row;
  scrollback_len : Z;
  scrollback_offset : Z;
}.

Definition set_size_field (v : Size) (g : Grid) : Grid :=
  mkGrid v (pos g) (saved_pos g) (rows g) (scroll_top g) (scroll_bottom g) (origin_mode g)
    (saved_origin_mode g) (scrollback g) (scrollback_len g) (scrollback_offset g).
Definition set_pos_field (v : Pos) (g : Grid) : Grid :=
  mkGrid (size g) v (saved_pos g) (rows g) (scroll_top g) (scroll_bottom g) (origin_mode g)
    (saved_origin_mode g) (scrollback g) (scrollback_len g) (scrollback_offset g).
Definition set_saved_pos (v : Pos) (g : Grid) : Grid :=
  mkGrid (size g) (pos g) v (rows g) (scroll_top g) (scroll_bottom g) (origin_mode g)
    (saved_origin_mode g) (scrollback g) (scrollback_len g) (scrollback_offset g).
Definition set_rows (v : list Row) (g : Grid) : Grid :=
  mkGrid (size g) (pos g) (saved_pos g) v (scroll_top g) (scroll_bottom g) (origin_mode g)
    (saved_origin_mode g) (scrollback g) (scrollback_len g) (scrollback_offset g).
Definition set_scroll_top (v : Z) (g : Grid) : Grid :=
  mkGrid (size g) (pos g) (saved_pos g) (rows g) v (scroll_bottom g) (origin_mode g)
    (saved_origin_mode g) (scrollback g) (scrollback_len g) (scrollback_offset g).
Definition set_scroll_bottom (v : Z) (g : Grid) : Grid :=
  mkGrid (size g) (pos g) (saved_pos g) (rows g) (scroll_top g) v (origin_mode g)
    (saved_origin_mode g) (scrollback g) (scrollback_len g) (scrollback_offset g).
Definition set_origin_mode_field (v : bool) (g : Grid) : Grid :=
  mkGrid (size g) (pos g) (saved_pos g) (rows g) (scroll_top g) (scroll_bottom g) v
    (saved_origin_mode g) (scrollback g) (scrollback_len g) (scrollback_offset g).
Definition set_saved_origin_mode (v : bool) (g : Grid) : Grid :=
  mkGrid (size g) (pos g) (saved_pos g) (rows g) (scroll_top g) (scroll_bottom g) (origin_mode g)
    v (scrollback g) (scrollback_len g) (scrollback_offset g).
Definition set_scrollback_rows (v : list Row) (g : Grid) : Grid :=
  mkGrid (size g) (pos g) (saved_pos g) (rows g) (scroll_top g) (scroll_bottom g) (origin_mode g)
    (saved_origin_mode g) v (scrollback_len g) (scrollback_offset g).
Definition set_scrollback_offset (v : Z) (g : Grid) : Grid :=
  mkGrid (size g) (pos g) (saved_pos g) (rows g) (scroll_top g) (scroll_bottom g) (origin_mode g)
    (saved_origin_mode g) (scrollback g) (scrollback_len g) v.

Definition set_pos_row (r : Z) (g : Grid) : Grid := set_pos_field (set_row r (pos g)) g.
Definition set_pos_col (c : Z) (g : Grid) : Grid := set_pos_field (set_col c (pos g)) g.

(** [self.size.rows - 1] and [self.size.cols - 1] *)
Definition last_row (g : Grid) : option Z := sub16 (s_rows (size g)) 1.
Definition last_col (g : Grid) : option Z := sub16 (s_cols (size g)) 1.

(** [Grid::new] *)
Definition Grid_new (sz : Size) (scrollback_len : Z) : option Grid :=
  bottom ← sub16 (s_rows sz) 1;
  Some (mkGrid sz Pos_default Pos_default [] 0 bottom false false [] scrollback_len 0).

(** [Grid::new_row] *)
Definition new_row (g : Grid) : Row := Row_new (s_cols (size g)).

(** [Grid::allocate_rows] *)
Definition allocate_rows (g : Grid) : Grid :=
  if bool_decide (rows g = []) then set_rows (replicate (Z.to_nat (s_rows (size g))) (new_row g)) g else g.

(** [Grid::clear] *)
Definition Grid_clear (g : Grid) : option Grid :=
  let g := set_saved_pos Pos_default (set_pos_field Pos_default g) in
  let g := set_rows (Row_clear Attrs_default <$> rows g) g in
  bottom ← last_row g;
  Some (set_saved_origin_mode false (set_origin_mode_field false
          (set_scroll_bottom bottom (set_scroll_top 0 g)))).

(** ** Clamping *)

(** [row_clamp_top], [row_clamp_bottom]: the new grid and the number of rows clamped. *)
Definition row_clamp_top (limit_to_scroll_region : bool) (g : Grid) : Grid * Z :=
  if limit_to_scroll_region && (p_row (pos g) <? scroll_top g)
  then (set_pos_row (scroll_top g) g, scroll_top g - p_row (pos g))
  else (g, 0).

Definition row_clamp_bottom (limit_to_scroll_region : bool) (g : Grid) : option (Grid * Z) :=
  bottom ← (if limit_to_scroll_region then Some (scroll_bottom g) else last_row g);
  Some (if bottom <? p_row (pos g) then (set_pos_row bottom g, p_row (pos g) - bottom) else (g, 0)).

Definition row_clamp (g : Grid) : option Grid :=
  bottom ← last_row g;
  Some (if bottom <? p_row (pos g) then set_pos_row bottom g else g).

Definition col_clamp (g : Grid) : option Grid :=
  right ← last_col g;
  Some (if right <? p_col (pos g) then set_pos_col right g else g).

(** [Grid::set_size] *)
Definition Grid_set_size (sz : Size) (g : Grid) : option Grid :=
  let g := if negb (s_cols sz =? s_cols (size g)) then set_rows (Row_wrap false <$> rows g) g else g in
  old_bottom ← last_row g;
  new_bottom ← sub16 (s_rows sz) 1;
  let g := if scroll_bottom g =? old_bottom then set_scroll_bottom new_bottom g else g in
  let g := set_size_field sz g in
  let g := set_rows (Row_resize (s_cols sz) Cell_new <$> rows g) g in
  let g := set_rows (vec_resize (s_rows sz) (new_row g) (rows g)) g in
  let g := if s_rows sz <=? scroll_bottom g then set_scroll_bottom new_bottom g else g in
  let g := if scroll_bottom g <? scroll_top g then set_scroll_top 0 g else g in
  let '(g, _) := row_clamp_top false g in
  '(g, _) ← row_clamp_bottom false g;
  g ← col_clamp g;
  bottom ← last_row g;
  right ← last_col g;
  let g := if bottom <? p_row (saved_pos g) then set_saved_pos (set_row bottom (saved_pos g)) g else g in
  Some (if right <? p_col (saved_pos g) then set_saved_pos (set_col right (saved_pos g)) g else g).

(** [Grid::set_pos] *)
Definition set_pos (p : Pos) (g : Grid) : option Grid :=
  let p := if origin_mode g then set_row (saturating_add U16_MAX (p_row p) (scroll_top g)) p else p in
  let g := set_pos_field p g in
  let '(g, _) := row_clamp_top (origin_mode g) g in
  '(g, _) ← row_clamp_bottom (origin_mode g) g;
  col_clamp g.

Definition Grid_save_cursor (g : Grid) : Grid :=
  set_saved_origin_mode (origin_mode g) (set_saved_pos (pos g) g).

Definition Grid_restore_cursor (g : Grid) : Grid :=
  set_origin_mode_field (saved_origin_mode g) (set_pos_field (saved_pos g) g).

(** ** Rows and cells *)

(** [Grid::visible_rows] *)
Definition visible_rows (g : Grid) : option (list Row) :=
  skip ← checked_sub (len (scrollback g)) (scrollback_offset g);
  Some (take (length (rows g)) (drop (Z.to_nat skip) (scrollback g)) ++
        take (Z.to_nat (saturating_sub (len (rows g)) (scrollback_offset g))) (rows g)).

(** [visible_cell], [drawing_row], [drawing_cell]: the outer [option] of the first is a panic. *)
Definition visible_cell (p : Pos) (g : Grid) : option (option Cell) :=
  visible ← visible_rows g;
  Some (r ← index (p_row p) visible; Row_get (p_col p) r).

Definition drawing_row (row : Z) (g : Grid) : option Row := index row (rows g).
Definition drawing_cell (p : Pos) (g : Grid) : option Cell := r ← drawing_row (p_row p) g; Row_get (p_col p) r.

(** An update through [drawing_row_mut(..).unwrap()] and [drawing_cell_mut(..).unwrap()]. *)
Definition update_row (row : Z) (f : Row → option Row) (g : Grid) : option Grid :=
  rs ← update row f (rows g);
  Some (set_rows rs g).

Definition update_cell (p : Pos) (f : Cell → option Cell) (g : Grid) : option Grid :=
  update_row (p_row p) (Row_update (p_col p) f) g.

(** An update through [current_row_mut]. *)
Definition update_current_row (f : Row → option Row) (g : Grid) : option Grid :=
  update_row (p_row (pos g)) f g.

Definition set_scrollback (n : Z) (g : Grid) : Grid := set_scrollback_offset (Z.min n (len (scrollback g))) g.

(** ** Erasing, inserting and deleting *)
Definition erase_all (a : Attrs) (g : Grid) : Grid := set_rows (Row_clear a <$> rows g) g.

Definition erase_row (a : Attrs) (g : Grid) : option Grid :=
  update_current_row (λ r, Some (Row_clear a r)) g.

Definition erase_cols (l : list Z) (a : Attrs) (g : Grid) : option Grid :=
  update_current_row (for_each l (λ col r, Row_erase col a r)) g.

(** [a..b] as a list. *)
Definition range (a b : Z) : list Z := seqZ a (b - a).

Definition erase_row_forward (a : Attrs) (g : Grid) : option Grid :=
  erase_cols (range (p_col (pos g)) (s_cols (size g))) a g.

Definition erase_row_backward (a : Attrs) (g : Grid) : option Grid :=
  right ← last_col g;
  erase_cols (range 0 (Z.min (p_col (pos g)) right + 1)) a g.

Definition erase_all_forward (a : Attrs) (g : Grid) : option Grid :=
  let n := Z.to_nat (p_row (pos g) + 1) in
  erase_row_forward a (set_rows (take n (rows g) ++ (Row_clear a <$> drop n (rows g))) g).

Definition erase_all_backward (a : Attrs) (g : Grid) : option Grid :=
  let n := Z.to_nat (p_row (pos g)) in
  erase_row_backward a (set_rows ((Row_clear a <$> take n (rows g)) ++ drop n (rows g)) g).

Definition erase_cells (count : Z) (a : Attrs) (g : Grid) : option Grid :=
  erase_cols (range (p_col (pos g))
                (Z.min (saturating_add U16_MAX (p_col (pos g)) count) (s_cols (size g)))) a g.

(** One iteration of [insert_cells]. *)
Definition insert_cell (col : Z) (wide : bool) (r : Row) : option Row :=
  r ← (if wide then Row_update col (λ c, Some (set_wide_continuation false c)) r else Some r);
  r ← Row_insert col Cell_new r;
  if wide then Row_update col (λ c, Some (set_wide_continuation true c)) r else Some r.

Definition insert_cells (count : Z) (g : Grid) : option Grid :=
  wide ← (if p_col (pos g) <? s_cols (size g) then is_wide_continuation <$> drawing_cell (pos g) g
          else Some false);
  update_current_row (λ r,
    r ← repeat_n (Z.to_nat count) (insert_cell (p_col (pos g)) wide) r;
    Row_truncate (s_cols (size g)) r) g.

Definition delete_cells (count : Z) (g : Grid) : option Grid :=
  left ← sub16 (s_cols (size g)) (p_col (pos g));
  update_current_row (λ r,
    r ← repeat_n (Z.to_nat (Z.min count left)) (Row_remove (p_col (pos g))) r;
    Some (Row_resize (s_cols (size g)) Cell_new r)) g.

(** Remove the row at [bottom], insert a blank one at [top] and unwrap the row now at [bottom]. *)
Definition shift_down (top bottom : Z) (g : Grid) : option Grid :=
  '(_, rs) ← vec_remove bottom (rows g);
  rs ← vec_insert top (new_row g) rs;
  rs ← update bottom (λ r, Some (Row_wrap false r)) rs;
  Some (set_rows rs g).

Definition insert_lines (count : Z) (g : Grid) : option Grid :=
  repeat_n (Z.to_nat count) (λ g, shift_down (p_row (pos g)) (scroll_bottom g) g) g.

Definition scroll_down (count : Z) (g : Grid) : option Grid :=
  repeat_n (Z.to_nat count) (λ g, shift_down (scroll_top g) (scroll_bottom g) g) g.

(** Insert a blank row below [bottom] and remove the row at [top], which is returned. *)
Definition shift_up (top bottom : Z) (g : Grid) : option (Row * Grid) :=
  rs ← vec_insert (bottom + 1) (new_row g) (rows g);
  '(removed, rs) ← vec_remove top rs;
  Some (removed, set_rows rs g).

Definition delete_lines (count : Z) (g : Grid) : option Grid :=
  below ← sub16 (s_rows (size g)) (p_row (pos g));
  repeat_n (Z.to_nat (Z.min count below)) (λ g,
    '(_, g) ← shift_up (p_row (pos g)) (scroll_bottom g) g;
    Some g) g.

Definition scroll_region_active (g : Grid) : option bool :=
  if negb (scroll_top g =? 0) then Some true
  else bottom ← last_row g; Some (negb (scroll_bottom g =? bottom)).

(** The rows that leave the screen go to the scrollback. *)
Definition keep_scrollback (removed : Row) (g : Grid) : option Grid :=
  active ← (if 0 <? scrollback_len g then scroll_region_active g else Some true);
  if negb active then
    let kept := scrollback g ++ [removed] in
    let kept := drop (Z.to_nat (len kept - scrollback_len g)) kept in
    let g := set_scrollback_rows kept g in
    Some (if 0 <? scrollback_offset g
          then set_scrollback_offset (Z.min (len kept) (scrollback_offset g + 1)) g else g)
  else Some g.

Definition scroll_up (count : Z) (g : Grid) : option Grid :=
  below ← sub16 (s_rows (size g)) (scroll_top g);
  repeat_n (Z.to_nat (Z.min count below)) (λ g,
    '(removed, g) ← shift_up (scroll_top g) (scroll_bottom g) g;
    keep_scrollback removed g) g.

Definition set_scroll_region (top bottom : Z) (g : Grid) : option Grid :=
  last ← last_row g;
  let bottom := Z.min bottom last in
  let g := if top <? bottom then set_scroll_bottom bottom (set_scroll_top top g)
           else set_scroll_bottom last (set_scroll_top 0 g) in
  Some (set_pos_field (mkPos (scroll_top g) 0) g).

Definition in_scroll_region (g : Grid) : bool :=
  (scroll_top g <=? p_row (pos g)) && (p_row (pos g) <=? scroll_bottom g).

Definition set_origin_mode (on : bool) (g : Grid) : option Grid :=
  set_pos (mkPos 0 0) (set_origin_mode_field on g).

(** ** Cursor movement *)
Definition row_inc_clamp (count : Z) (g : Grid) : option Grid :=
  let region := in_scroll_region g in
  let g := set_pos_row (saturating_add U16_MAX (p_row (pos g)) count) g in
  '(g, _) ← row_clamp_bottom region g;
  Some g.

Definition row_inc_scroll (count : Z) (g : Grid) : option (Grid * Z) :=
  let region := in_scroll_region g in
  let g := set_pos_row (saturating_add U16_MAX (p_row (pos g)) count) g in
  '(g, lines) ← row_clamp_bottom region g;
  if region then g ← scroll_up lines g; Some (g, lines) else Some (g, 0).

Definition row_dec_clamp (count : Z) (g : Grid) : Grid :=
  let region := in_scroll_region g in
  let g := set_pos_row (saturating_sub (p_row (pos g)) count) g in
  (row_clamp_top region g).1.

Definition row_dec_scroll (count : Z) (g : Grid) : option Grid :=
  let region := in_scroll_region g in
  let extra_lines := saturating_sub count (p_row (pos g)) in
  let g := set_pos_row (saturating_sub (p_row (pos g)) count) g in
  let '(g, lines) := row_clamp_top region g in
  n ← add16 lines extra_lines;
  scroll_down n g.

Definition row_set (i : Z) (g : Grid) : option Grid := row_clamp (set_pos_row i g).

Definition col_inc (count : Z) (g : Grid) : Grid := set_pos_col (saturating_add U16_MAX (p_col (pos g)) count) g.
Definition col_inc_clamp (count : Z) (g : Grid) : option Grid := col_clamp (col_inc count g).
Definition col_dec (count : Z) (g : Grid) : Grid := set_pos_col (saturating_sub (p_col (pos g)) count) g.

Definition col_tab (g : Grid) : option Grid :=
  c ← add16 (p_col (pos g) - p_col (pos g) mod 8) 8;
  col_clamp (set_pos_col c g).

Definition col_set (i : Z) (g : Grid) : option Grid := col_clamp (set_pos_col i g).

(** [Grid::col_wrap] *)
Definition col_wrap (width : Z) (wrap : bool) (g : Grid) : option Grid :=
  limit ← sub16 (s_cols (size g)) width;
  if limit <? p_col (pos g) then
    let previous := p_row (pos g) in
    '(g, scrolled) ← row_inc_scroll 1 (set_pos_col 0 g);
    previous ← sub16 previous scrolled;
    next ← (if wrap then add16 previous 1 else Some 0);
    update_row previous (λ r, Some (Row_wrap (wrap && (next =? p_row (pos g))) r)) g
  else Some g.

(** ** Writing a grid *)

(** [Grid::write_contents] *)
Definition write_contents_row (cols : Z) (r : Row) (st : bytes * bool) : option (bytes * bool) :=
  let '(out, wrapping) := st in
  text ← Row_write_contents 0 cols wrapping r;
  Some (out ++ text ++ (if wrapped r then [] else [10]), wrapped r).

(** [while contents.ends_with('\n') { truncate }] *)
Fixpoint strip_newlines (reversed : bytes) : bytes :=
  match reversed with
  | b :: rest => if b =? 10 then strip_newlines rest else reversed
  | [] => []
  end.

Definition Grid_write_contents (g : Grid) : option bytes :=
  visible ← visible_rows g;
  '(out, _) ← for_each visible (write_contents_row (s_cols (size g))) ([], false);
  Some (reverse (strip_newlines (reverse out))).

Section write_grid.
Context `{IT : Itoa}.

(** The last cell of a row that can hold text: the first half of a wide character
    that ends the row. *)
Definition last_cell (row : Z) (g : Grid) : option (Pos * Cell) :=
  right ← last_col g;
  c ← drawing_cell (mkPos row right) g;
  col ← (if is_wide_continuation c then sub16 (s_cols (size g)) 2 else Some right);
  c ← drawing_cell (mkPos row col) g;
  Some (mkPos row col, c).

(** [MoveFromTo] from a known position, [MoveTo] otherwise. *)
Definition move_from (prev : option Pos) (p : Pos) : option bytes :=
  match prev with Some q => MoveFromTo_write_buf q p | None => MoveTo_write_buf p end.

(** Redraw a cell and return to the attributes before it. *)
Definition redraw_cell (prev_attrs : Attrs) (c : Cell) : option bytes :=
  on ← write_escape_code_diff (cell_attrs c) prev_attrs;
  text ← contents_of c;
  off ← write_escape_code_diff prev_attrs (cell_attrs c);
  Some (on ++ text ++ off).

(** [for i in (0..self.pos.row).rev()]: from the first row above whose last cell has
    contents; [None] inside means that there is none. *)
Fixpoint redraw_above (above : list Z) (prev : option Pos) (prev_attrs : Attrs) (g : Grid) :
    option (option bytes) :=
  match above with
  | [] => Some None
  | i :: rest =>
      '(p, c) ← last_cell i g;
      if has_contents c then
        drawn ← (match prev with
                 | Some q =>
                     if negb (p_row q =? i) || (p_col q <? s_cols (size g)) then
                       m ← MoveFromTo_write_buf q p; d ← redraw_cell prev_attrs c; Some (m ++ d)
                     else Some []
                 | None => m ← MoveTo_write_buf p; d ← redraw_cell prev_attrs c; Some (m ++ d)
                 end);
        n ← sub16 (p_row (pos g)) i;
        Some (Some (drawn ++ replicate (Z.to_nat n) 10))
      else redraw_above rest prev prev_attrs g
  end.

(** The last resort: a space in the last column, erased again. *)
Definition redraw_blank (prev : option Pos) (prev_attrs : Attrs) (g : Grid) : option bytes :=
  right ← last_col g;
  let p := mkPos (p_row (pos g)) right in
  m ← move_from prev p;
  end_cell ← drawing_cell p g;
  on ← write_escape_code_diff (cell_attrs end_cell) prev_attrs;
  off ← write_escape_code_diff prev_attrs (cell_attrs end_cell);
  Some (m ++ [32] ++ on ++ SaveCursor_write_buf ++ Backspace_write_buf ++ EraseChar_write_buf 1 ++
        RestoreCursor_write_buf ++ off).

(** [Grid::write_cursor_position_formatted] *)
Definition write_cursor_position_formatted (prev : option Pos) (attrs : option Attrs) (g : Grid) : option bytes :=
  let prev_attrs := default Attrs_default attrs in
  if bool_decide (prev ≠ Some (pos g)) && (s_cols (size g) <=? p_col (pos g)) then
    '(p, c) ← last_cell (p_row (pos g)) g;
    if has_contents c then
      m ← move_from prev p;
      d ← redraw_cell prev_attrs c;
      Some (m ++ d)
    else
      found ← redraw_above (reverse (range 0 (p_row (pos g)))) prev prev_attrs g;
      match found with
      | Some b => Some b
      | None => redraw_blank prev prev_attrs g
      end
  else move_from prev (pos g).

(** One row of [write_contents_formatted]; the locals are the bytes written so far,
    [prev_pos], [prev_attrs] and [wrapping]. *)
Definition formatted_row (cols : Z) (item : Z * Row) (st : bytes * Pos * Attrs * bool) :
    option (bytes * Pos * Attrs * bool) :=
  let '(i, r) := item in
  let '(out, prev_pos, prev_attrs, wrapping) := st in
  i ← try_from U16_MAX i;
  '(b, new_pos, new_attrs) ← Row_write_contents_formatted 0 cols i wrapping (Some prev_pos) (Some prev_attrs) r;
  Some (out ++ b, new_pos, new_attrs, wrapped r).

(** [Grid::write_contents_formatted] *)
Definition Grid_write_contents_formatted (g : Grid) : option (bytes * Attrs) :=
  visible ← visible_rows g;
  '(out, prev_pos, prev_attrs, _) ←
    for_each (zip (seqZ 0 (len visible)) visible) (formatted_row (s_cols (size g)))
      (ClearAttrs_write_buf ++ ClearScreen_write_buf, Pos_default, Attrs_default, false);
  cursor ← write_cursor_position_formatted (Some prev_pos) (Some prev_attrs) g;
  Some (out ++ cursor, prev_attrs).

(** One row of [write_contents_diff]. *)
Definition diff_row (cols : Z) (item : Z * (Row * Row)) (st : bytes * Pos * Attrs * bool * bool) :
    option (bytes * Pos * Attrs * bool * bool) :=
  let '(i, (r, prev_row)) := item in
  let '(out, prev_pos, prev_attrs, wrapping, prev_wrapping) := st in
  i ← try_from U16_MAX i;
  '(b, new_pos, new_attrs) ←
    Row_write_contents_diff prev_row 0 cols i wrapping prev_wrapping prev_pos prev_attrs r;
  Some (out ++ b, new_pos, new_attrs, wrapped r, wrapped prev_row).

(** [Grid::write_contents_diff] *)
Definition Grid_write_contents_diff (prev : Grid) (prev_attrs : Attrs) (g : Grid) : option (bytes * Attrs) :=
  visible ← visible_rows g;
  prev_visible ← visible_rows prev;
  let pairs := zip visible prev_visible in
  '(out, prev_pos, prev_attrs, _, _) ←
    for_each (zip (seqZ 0 (len pairs)) pairs) (diff_row (s_cols (size g)))
      ([], pos prev, prev_attrs, false, false);
  cursor ← write_cursor_position_formatted (Some prev_pos) (Some prev_attrs) g;
  Some (out ++ cursor, prev_attrs).
End write_grid.
