(* ===== verification/Vt100GridInv.v ===== *)
(** * Well-formed grids

    The invariant of a grid of at least two rows and two columns, and its
    preservation by every operation of [grid.rs]: none of them panics. *)

From S2P Require Import Prelude Limits TerminalWidth Vt100Cell Vt100Row Vt100RowInv Vt100Grid.

Local Open Scope Z_scope.

(** The sizes for which the emulator is safe; the upper bounds are those the client
    enforces on every terminal. *)
Definition size_safe (sz : Size) : Prop :=
  2 ≤ s_rows sz ≤ MAX_TERMINAL_ROWS ∧ 2 ≤ s_cols sz ≤ MAX_TERMINAL_COLUMNS.

(** A cursor may stand one column past the last one, before a wrap. *)
Definition pos_ok (sz : Size) (p : Pos) : Prop := 0 ≤ p_row p < s_rows sz ∧ 0 ≤ p_col p ≤ s_cols sz.

(** A grid of size [sz], without scrollback, whose rows may not be allocated yet. *)
Record grid_ok `{UW : UnicodeWidth} `{D : Discipline} (sz : Size) (g : Grid) : Prop := {
  go_size : size g = sz;
  go_rows : rows g = [] ∨ len (rows g) = s_rows sz;
  go_row : Forall (row_ok (s_cols sz)) (rows g);
  go_pos : pos_ok sz (pos g);
  go_saved : pos_ok sz (saved_pos g);
  go_region : 0 ≤ scroll_top g ≤ scroll_bottom g;
  go_bottom : 1 ≤ scroll_bottom g < s_rows sz;
  go_strict : strict = true → scroll_top g < scroll_bottom g;
  go_scrollback : scrollback g = [] ∧ scrollback_len g = 0 ∧ scrollback_offset g = 0;
}.

(** A grid whose rows are allocated. *)
Definition live `{UW : UnicodeWidth} `{D : Discipline} (sz : Size) (g : Grid) : Prop := grid_ok sz g ∧ len (rows g) = s_rows sz.

Ltac safe := cbn in *; unfold size_safe, pos_ok, saturating_add, saturating_sub, MAX_TERMINAL_ROWS, MAX_TERMINAL_COLUMNS,
  U16_MAX in *; cbn in *; lia.

Section preserved.
Context `{UW : UnicodeWidth} `{D : Discipline}.
Context (sz : Size) (Hsz : size_safe sz).

(** ** Fields *)
Lemma live_set_pos p g : live sz g → pos_ok sz p → live sz (set_pos_field p g).
Proof using. intros [[] Hl] Hp. by split; [split|]. Qed.

Lemma live_set_rows rs g :
  live sz g → len rs = s_rows sz → Forall (row_ok (s_cols sz)) rs → live sz (set_rows rs g).
Proof using. intros [[] _] Hl Hr. split; [split; auto|done]. Qed.

Lemma live_size g : live sz g → size g = sz.
Proof using. by intros [[] _]. Qed.
Lemma live_pos g : live sz g → pos_ok sz (pos g).
Proof using. by intros [[] _]. Qed.
Lemma live_region g : live sz g → 0 ≤ scroll_top g ≤ scroll_bottom g ∧ 1 ≤ scroll_bottom g < s_rows sz.
Proof using. by intros [[] _]. Qed.

Lemma last_row_Some g : size g = sz → last_row g = Some (s_rows sz - 1).
Proof using Hsz. intros Hg. unfold last_row. rewrite Hg, sub16_Some by safe. done. Qed.
Lemma last_col_Some g : size g = sz → last_col g = Some (s_cols sz - 1).
Proof using Hsz. intros Hg. unfold last_col. rewrite Hg, sub16_Some by safe. done. Qed.

(** ** Rows and cells *)
Lemma live_row g i :
  live sz g → 0 ≤ i < s_rows sz →
  ∃ a r b, rows g = a ++ r :: b ∧ len a = i ∧ row_ok (s_cols sz) r ∧
    Forall (row_ok (s_cols sz)) a ∧ Forall (row_ok (s_cols sz)) b.
Proof using.
  intros [Hg Hl] Hi. destruct (split_at (rows g) i) as (a & [|r b] & Heq & Ha); [lia| |].
  { rewrite app_nil_r in Heq. subst a. lia. }
  exists a, r, b. pose proof (go_row _ _ Hg) as Hf. rewrite Heq in Hf.
  apply Forall_app in Hf as [? Hf]. apply Forall_cons in Hf as [? ?]. done.
Qed.

Lemma update_row_ok i f g :
  live sz g → 0 ≤ i < s_rows sz →
  (∀ r, index i (rows g) = Some r → row_ok (s_cols sz) r → succeeds (f r) (row_ok (s_cols sz))) →
  succeeds (update_row i f g) (λ g', live sz g' ∧ pos g' = pos g).
Proof using.
  intros Hg Hi Hf. unfold update_row. eapply succeeds_bind.
  { apply (update_ok (row_ok (s_cols sz))); [by rewrite (proj2 Hg)|apply Hg|done]. }
  intros rs [Hrs Hlen]. apply succeeds_ret. split; [|done]. apply live_set_rows; [done| |done].
  by rewrite Hlen, (proj2 Hg).
Qed.

Lemma update_current_row_ok f g :
  live sz g → (∀ r, row_ok (s_cols sz) r → succeeds (f r) (row_ok (s_cols sz))) →
  succeeds (update_current_row f g) (live sz).
Proof using.
  intros Hg Hf. pose proof (live_pos g Hg) as [Hp _].
  eapply succeeds_mono; [by apply update_row_ok; auto|]. by intros g' [? _].
Qed.

Lemma elem_of_range x a b : x ∈ range a b ↔ a ≤ x < b.
Proof using. unfold range. rewrite elem_of_seqZ. lia. Qed.

(** ** Erasing *)
Lemma erase_cols_ok l a g :
  live sz g → attrs_ok a → (∀ i, i ∈ l → 0 ≤ i < s_cols sz) → succeeds (erase_cols l a g) (live sz).
Proof using Hsz.
  intros Hg Ha Hl. apply update_current_row_ok; [done|]. intros r Hr. apply for_each_succeeds; [done|].
  intros i r' Hi Hr'. apply Row_erase_ok; [done|by apply Hl|safe|done].
Qed.

Lemma erase_row_forward_ok a g : live sz g → attrs_ok a → succeeds (erase_row_forward a g) (live sz).
Proof using Hsz.
  intros Hg Ha. apply erase_cols_ok; [done|done|]. intros i. rewrite elem_of_range, (live_size g Hg).
  pose proof (live_pos g Hg). safe.
Qed.

Lemma erase_row_backward_ok a g : live sz g → attrs_ok a → succeeds (erase_row_backward a g) (live sz).
Proof using Hsz.
  intros Hg Ha. unfold erase_row_backward. rewrite last_col_Some by (by apply live_size). cbn.
  apply erase_cols_ok; [done|done|]. intros i. rewrite elem_of_range. pose proof (live_pos g Hg). safe.
Qed.

Lemma erase_cells_ok n a g : live sz g → attrs_ok a → succeeds (erase_cells n a g) (live sz).
Proof using Hsz.
  intros Hg Ha. apply erase_cols_ok; [done|done|]. intros i. rewrite elem_of_range, (live_size g Hg).
  pose proof (live_pos g Hg). safe.
Qed.

Lemma erase_row_ok a g : live sz g → attrs_ok a → succeeds (erase_row a g) (live sz).
Proof using.
  intros Hg Ha. apply update_current_row_ok; [done|]. intros r Hr. apply succeeds_ret. by apply Row_clear_ok.
Qed.

Lemma Forall_clear a l :
  attrs_ok a → Forall (row_ok (s_cols sz)) l → Forall (row_ok (s_cols sz)) (Row_clear a <$> l).
Proof using. intros Ha Hl. apply Forall_fmap. eapply Forall_impl; [done|]. intros r ?. by apply Row_clear_ok. Qed.

Lemma erase_all_ok a g : live sz g → attrs_ok a → live sz (erase_all a g).
Proof using.
  intros Hg Ha. apply live_set_rows; [done|rewrite len_fmap; apply Hg|].
  apply Forall_clear; [done|apply Hg].
Qed.

Lemma erase_all_forward_ok a g : live sz g → attrs_ok a → succeeds (erase_all_forward a g) (live sz).
Proof using Hsz.
  intros Hg Ha. apply erase_row_forward_ok; [|done]. apply live_set_rows; [done| |].
  - rewrite len_app, len_fmap, <- len_app, take_drop. apply Hg.
  - apply Forall_app. split; [|apply Forall_clear; [done|]]; [apply Forall_take|apply Forall_drop]; apply Hg.
Qed.

Lemma erase_all_backward_ok a g : live sz g → attrs_ok a → succeeds (erase_all_backward a g) (live sz).
Proof using Hsz.
  intros Hg Ha. apply erase_row_backward_ok; [|done]. apply live_set_rows; [done| |].
  - rewrite len_app, len_fmap, <- len_app, take_drop. apply Hg.
  - apply Forall_app. split; [apply Forall_clear; [done|]|]; [apply Forall_take|apply Forall_drop]; apply Hg.
Qed.

(** ** Inserting and deleting cells *)

(** The cell under the cursor is the second half of a wide character: it moves on
    with what follows it, and the inserted cell takes its place. *)
Lemma insert_cell_second n i r :
  row_ok n r → 0 ≤ i < n → (∃ c, Row_get i r = Some c ∧ is_wide_continuation c = true) →
  succeeds (insert_cell i true r) (λ r', row_ok (n + 1) r' ∧
    ∃ c, Row_get i r' = Some c ∧ is_wide_continuation c = true).
Proof using.
  intros (Hl & Hp & _) Hi (x & Hg & Hx). rewrite <- Hl in *. pose proof (paired_around _ _ Hp Hi) as H.
  inversion H as [a c b Hpa Hn Hpb Heq Hia|a c d b Hpa Hw Hs Hpb Heq Hia|a c d b Hpa Hw Hs Hpb Heq Hia];
    symmetry in Heq; subst i.
  - rewrite (Row_get_app _ _ _ _ Heq) in Hg. destruct (narrow_flags _ Hn). congruence.
  - rewrite (Row_get_app _ _ _ _ Heq) in Hg. destruct (wide_flags _ Hw). congruence.
  - unfold insert_cell. rewrite (Row_update_app2 a c d (set_wide_continuation false d) b r) by done. cbn.
    unfold Row_insert. cbn.
    change (a ++ c :: ?l) with (a ++ [c] ++ l). rewrite app_assoc.
    replace (len a + 1) with (len (a ++ [c])) by (rewrite len_app; done).
    rewrite (vec_insert_app (a ++ [c])) by done. cbn.
    erewrite (Row_update_app (a ++ [c]) Cell_new _ (set_wide_continuation false d :: b)) by done.
    apply succeeds_ret. split.
    + split_and!; cbn; [rewrite !len_app, !len_cons, len_nil; lia| |apply wrap_ok_false]. rewrite <- app_assoc.
      apply paired_app; [done|]. apply paired_wide; [done|split; [by apply (set_second_is new_is)|done]|].
      apply paired_narrow; [|done]. exists []. split; [by apply (set_second_is (proj1 Hs))|by left].
    + eexists. split; [|by apply (proj2 (proj2 (cell_is_flags (set_second_is new_is true))))].
      by eapply Row_get_app.
Qed.

(** The row between two iterations of [insert_cells]. *)
Definition inserting (i : Z) (second : bool) (r : Row) : Prop :=
  ∃ n, s_cols sz ≤ n ∧ row_ok n r ∧ (if second then i < n else i ≤ n) ∧
    (second = true → ∃ c, Row_get i r = Some c ∧ is_wide_continuation c = true) ∧
    (second = false → ∀ c, Row_get i r = Some c → is_wide_continuation c = false).

Lemma insert_cell_ok i second r :
  0 ≤ i → inserting i second r → succeeds (insert_cell i second r) (inserting i second).
Proof using.
  intros Hi (n & Hn & Hr & Hin & Hs & Hns). destruct second.
  - eapply succeeds_mono; [by apply (insert_cell_second n i r); auto with lia|].
    intros r' [Hr' Hc']. exists (n + 1). split_and!; [lia|done|lia|done|done].
  - unfold insert_cell. cbn.
    pose proof (Row_insert_ok n i r Hr ltac:(lia) (Hns eq_refl)) as (r' & Hins & Hr').
    rewrite Hins. apply succeeds_ret. exists (n + 1). split_and!; [lia|done|lia|done|]. intros _ c Hc.
    unfold Row_insert, vec_insert in Hins. rewrite (proj1 Hr) in Hins.
    replace (_ && _) with true in Hins by lia. injection Hins as <-.
    unfold Row_get in Hc. cbn in Hc. rewrite index_app in Hc by (rewrite len_take, (proj1 Hr); lia).
    injection Hc as <-. done.
Qed.

Lemma drawing_cell_Some p g :
  live sz g → 0 ≤ p_row p < s_rows sz → 0 ≤ p_col p < s_cols sz →
  ∃ r c, drawing_row (p_row p) g = Some r ∧ Row_get (p_col p) r = Some c ∧ row_ok (s_cols sz) r ∧
    drawing_cell p g = Some c.
Proof using.
  intros Hg Hr Hc. destruct (live_row g _ Hg Hr) as (a & r & b & Heq & Ha & Hrow & _).
  assert (drawing_row (p_row p) g = Some r) as Hd by (unfold drawing_row; rewrite Heq; by apply index_app).
  destruct (index_Some (p_col p) (cells r)) as [c Hi]; [by rewrite (proj1 Hrow)|].
  exists r, c. unfold drawing_cell. by rewrite Hd.
Qed.

Lemma insert_cells_ok n g : live sz g → succeeds (insert_cells n g) (live sz).
Proof using Hsz.
  intros Hg. pose proof (live_pos g Hg) as [Hpr Hpc]. unfold insert_cells. rewrite (live_size g Hg).
  set (i := p_col (pos g)) in *.
  assert (∃ second, (if i <? s_cols sz then is_wide_continuation <$> drawing_cell (pos g) g else Some false)
            = Some second ∧
          ∀ r, drawing_row (p_row (pos g)) g = Some r → row_ok (s_cols sz) r → inserting i second r)
    as (second & -> & Hins).
  { destruct (Z.ltb_spec i (s_cols sz)).
    - destruct (drawing_cell_Some (pos g) g Hg Hpr ltac:(lia)) as (r & c & Hr & Hc & _ & ->).
      exists (is_wide_continuation c). split; [done|]. intros r' Hr' Hok. simplify_eq.
      exists (s_cols sz). split_and!; [lia|done|by destruct is_wide_continuation; lia|eauto|].
      intros ? c' Hc'. fold i in Hc. by simplify_eq.
    - exists false. split; [done|]. intros r Hr Hok. exists (s_cols sz). split_and!; [lia|done|lia|done|].
      intros _ c Hc. unfold Row_get, index in Hc. case_match; [|done]. apply lookup_lt_Some in Hc.
      destruct Hok as [Hok _]. unfold len in Hok. lia. }
  cbn. destruct (live_row g _ Hg Hpr) as (a & r & b & Heq & Ha & Hrow & Hra & Hrb).
  assert (drawing_row (p_row (pos g)) g = Some r) as Hd by (unfold drawing_row; rewrite Heq; by apply index_app).
  assert (succeeds (r ← repeat_n (Z.to_nat n) (insert_cell i second) r; Row_truncate (s_cols sz) r)
            (row_ok (s_cols sz))) as (r' & Hr' & Hok').
  { eapply succeeds_bind.
    { apply (repeat_n_succeeds _ _ (inserting i second)); [by apply Hins|]. intros. apply insert_cell_ok; [safe|done]. }
    intros r1 (m & Hm & Hr1 & _). apply (Row_truncate_ok _ m); [done|safe]. }
  unfold update_current_row, update_row. rewrite Heq. erewrite (update_app a b r r') by done.
  apply succeeds_ret. apply live_set_rows; [done| |by apply Forall_app; split; [|constructor]].
  destruct Hg as [_ <-]. rewrite Heq. apply len_app_cons.
Qed.

Lemma delete_cells_ok n g : live sz g → succeeds (delete_cells n g) (live sz).
Proof using Hsz.
  intros Hg. pose proof (live_pos g Hg) as [Hpr Hpc]. unfold delete_cells. rewrite (live_size g Hg).
  set (i := p_col (pos g)) in *. rewrite sub16_Some by lia. cbn.
  apply update_current_row_ok; [done|]. intros r Hr. eapply succeeds_bind.
  - assert (∀ k m r, Z.of_nat k ≤ m - i → m ≤ s_cols sz → row_ok m r →
      succeeds (repeat_n k (Row_remove i) r) (λ r, ∃ m, m ≤ s_cols sz ∧ row_ok m r)) as H.
    { induction k as [|k IH]; intros m r1 Hk Hm Hr1; [apply succeeds_ret; eauto|]. cbn [repeat_n].
      eapply succeeds_bind; [apply (Row_remove_ok m); [done|lia|safe]|].
      intros r2 Hr2. apply (IH (m - 1)); [lia|lia|done]. }
    apply (H _ (s_cols sz)); [lia|lia|done].
  - intros r1 (m & Hm & Hr1). apply succeeds_ret. apply (Row_resize_ok _ m); [done|safe|].
    rewrite take_all by (rewrite (proj1 Hr1); lia). apply Hr1.
Qed.

(** ** Inserting and deleting lines, scrolling *)
Lemma new_row_ok g : size g = sz → row_ok (s_cols sz) (new_row g).
Proof using Hsz. intros Hg. unfold new_row. rewrite Hg. apply Row_new_ok. safe. Qed.

Lemma shift_down_ok top bottom g :
  live sz g → 0 ≤ top < s_rows sz → 0 ≤ bottom < s_rows sz →
  succeeds (shift_down top bottom g) (λ g', live sz g' ∧ ∃ rs, g' = set_rows rs g).
Proof using Hsz.
  intros Hg Ht Hb. unfold shift_down. destruct Hg as [Hok Hlen].
  eapply succeeds_bind; [apply (vec_remove_ok (row_ok (s_cols sz))); [lia|apply Hok]|].
  intros [x rs] [Hrs Hl]. eapply succeeds_bind.
  { apply (vec_insert_ok (row_ok (s_cols sz))); [lia| |done]. apply new_row_ok, Hok. }
  intros rs' [Hrs' Hl']. eapply succeeds_bind.
  { apply (update_ok (row_ok (s_cols sz))); [lia|done|]. intros r _ Hr. by apply succeeds_ret, Row_wrap_ok. }
  intros rs2 [Hrs2 Hl2]. apply succeeds_ret. split; [|eauto]. apply live_set_rows; [by split|lia|done].
Qed.

Lemma shift_up_ok top bottom g :
  live sz g → 0 ≤ top < s_rows sz → 0 ≤ bottom < s_rows sz →
  succeeds (shift_up top bottom g) (λ '(_, g'), live sz g' ∧ ∃ rs, g' = set_rows rs g).
Proof using Hsz.
  intros Hg Ht Hb. unfold shift_up. destruct Hg as [Hok Hlen].
  eapply succeeds_bind.
  { apply (vec_insert_ok (row_ok (s_cols sz))); [lia| |apply Hok]. apply new_row_ok, Hok. }
  intros rs [Hrs Hl]. eapply succeeds_bind; [apply (vec_remove_ok (row_ok (s_cols sz))); [lia|done]|].
  intros [x rs'] [Hrs' Hl']. apply succeeds_ret. split; [|eauto]. apply live_set_rows; [by split|lia|done].
Qed.

(** The row at the bottom of a region of two rows or more moves up by one. *)
Lemma shift_up_bottom top bottom g x g' :
  0 ≤ top < bottom → bottom < len (rows g) → shift_up top bottom g = Some (x, g') →
  index (bottom - 1) (rows g') = index bottom (rows g).
Proof using.
  intros Ht Hb H. unfold shift_up in H. destruct (split_at (rows g) (bottom + 1)) as (a & b & Heq & Ha); [lia|].
  rewrite Heq, (vec_insert_app a b) in H by done. cbn in H.
  destruct (split_at a top) as (u & [|y v] & -> & Hu); [lia|rewrite app_nil_r in Ha; lia|].
  rewrite <- app_assoc in H. cbn [app] in H. rewrite vec_remove_app in H by done. cbn in H. injection H as _ <-.
  rewrite len_app, len_cons in Ha. destruct v as [|z v _] using rev_ind; [change (len (@nil Row)) with 0 in Ha; lia|].
  rewrite len_app in Ha. change (len [z]) with 1 in Ha. cbn [rows set_rows]. rewrite Heq.
  transitivity (Some z); [|symmetry].
  - replace (u ++ (v ++ [z]) ++ new_row g :: b) with ((u ++ v) ++ z :: new_row g :: b) by (by rewrite <- !app_assoc).
    apply index_app. rewrite len_app. lia.
  - replace ((u ++ y :: v ++ [z]) ++ b) with ((u ++ y :: v) ++ z :: b) by (by rewrite <- !app_assoc; cbn; rewrite <- app_assoc).
    apply index_app. rewrite len_app, len_cons. lia.
Qed.

Lemma insert_lines_ok n g : live sz g → succeeds (insert_lines n g) (live sz).
Proof using Hsz.
  intros Hg. apply repeat_n_succeeds; [done|]. intros g' Hg'. pose proof (live_pos g' Hg') as [Hp _].
  pose proof (live_region g' Hg'). eapply succeeds_mono; [apply shift_down_ok; [done|done|lia]|]. by intros ? [? _].
Qed.

Lemma scroll_down_ok n g : live sz g → succeeds (scroll_down n g) (live sz).
Proof using Hsz.
  intros Hg. apply repeat_n_succeeds; [done|]. intros g' Hg'. pose proof (live_region g' Hg').
  eapply succeeds_mono; [apply shift_down_ok; [done|lia|lia]|]. by intros ? [? _].
Qed.

Lemma delete_lines_ok n g : live sz g → succeeds (delete_lines n g) (live sz).
Proof using Hsz.
  intros Hg. pose proof (live_pos g Hg) as [Hp _]. unfold delete_lines.
  rewrite (live_size g Hg), sub16_Some by lia. cbn.
  apply repeat_n_succeeds; [done|]. intros g' Hg'. pose proof (live_pos g' Hg') as [Hp' _].
  pose proof (live_region g' Hg'). eapply succeeds_bind; [apply shift_up_ok; [done|done|lia]|].
  intros [? g2] [? _]. by apply succeeds_ret.
Qed.

(** Scrolling changes the rows only. *)
Lemma scroll_up_ok n g :
  live sz g → succeeds (scroll_up n g) (λ g', live sz g' ∧ ∃ rs, g' = set_rows rs g).
Proof using Hsz.
  intros Hg. unfold scroll_up. pose proof (live_region g Hg). rewrite (live_size g Hg), sub16_Some by lia. cbn.
  apply repeat_n_succeeds; [by split; [|exists (rows g); destruct g]|]. intros g' [Hg' (rs & Hrs)].
  pose proof (live_region g' Hg'). eapply succeeds_bind; [apply shift_up_ok; [done|lia|lia]|].
  intros [x g2] [Hg2 (rs2 & ->)]. unfold keep_scrollback.
  assert (scrollback_len (set_rows rs2 g') = 0) as -> by apply (go_scrollback _ _ (proj1 Hg2)). cbn.
  apply succeeds_ret. split; [done|]. exists rs2. by rewrite Hrs.
Qed.

Lemma scroll_up_zero g : size g = sz → scroll_top g ≤ s_rows sz → scroll_up 0 g = Some g.
Proof using. intros Hs Ht. unfold scroll_up. rewrite Hs, sub16_Some by lia. cbn. by rewrite Z.min_l by lia. Qed.

Lemma scroll_up_bottom n g g' :
  live sz g → scroll_top g < scroll_bottom g → 0 ≤ n ≤ 1 → scroll_up n g = Some g' →
  index (scroll_bottom g - n) (rows g') = index (scroll_bottom g) (rows g).
Proof using.
  intros Hg Ht Hn H. pose proof (live_region g Hg). unfold scroll_up in H.
  rewrite (live_size g Hg), sub16_Some in H by lia. cbn [mbind option_bind] in H.
  assert (n = 0 ∨ n = 1) as [-> | ->] by lia.
  { rewrite Z.min_l in H by lia. injection H as <-. by rewrite Z.sub_0_r. }
  rewrite Z.min_l in H by lia. change (Z.to_nat 1) with 1%nat in H. cbn [repeat_n] in H.
  destruct (shift_up (scroll_top g) (scroll_bottom g) g) as [[x g1]|] eqn:Hs; [|done]. cbn [mbind option_bind] in H.
  assert (rows g' = rows g1) as ->.
  { unfold keep_scrollback in H.
    assert (scrollback_len g1 = 0) as Hz.
    { unfold shift_up in Hs. destruct (vec_insert _ _ _); [|done]. cbn in Hs. destruct (vec_remove _ _) as [[]|]; [|done].
      cbn in Hs. injection Hs as _ <-. apply (go_scrollback _ _ (proj1 Hg)). }
    rewrite Hz in H. cbn in H. by injection H as <-. }
  apply (shift_up_bottom (scroll_top g) _ g x); [lia| |done]. rewrite (proj2 Hg). lia.
Qed.

(** ** The cursor *)

(** Clamping leaves a cursor on the screen, and moves only the cursor. *)
Lemma row_clamp_bottom_ok limit g :
  size g = sz → scroll_bottom g < s_rows sz →
  succeeds (row_clamp_bottom limit g) (λ '(g', n),
    g' = set_pos_row (Z.min (p_row (pos g)) (if limit then scroll_bottom g else s_rows sz - 1)) g ∧
    n = Z.max 0 (p_row (pos g) - (if limit then scroll_bottom g else s_rows sz - 1))).
Proof using Hsz.
  intros Hg Hb. unfold row_clamp_bottom. rewrite last_row_Some by done.
  destruct limit; cbn; apply succeeds_ret; destruct (Z.ltb_spec (s_rows sz - 1) (p_row (pos g)));
    destruct (Z.ltb_spec (scroll_bottom g) (p_row (pos g)));
    (split; [|lia]); try (rewrite Z.min_r by lia; done); rewrite Z.min_l by lia; by destruct g as [? []].
Qed.

Lemma row_clamp_top_eq limit g :
  row_clamp_top limit g =
    (set_pos_row (if limit then Z.max (p_row (pos g)) (scroll_top g) else p_row (pos g)) g,
     if limit then Z.max 0 (scroll_top g - p_row (pos g)) else 0).
Proof using.
  unfold row_clamp_top. destruct limit; cbn; [|by destruct g as [? []]].
  destruct (Z.ltb_spec (p_row (pos g)) (scroll_top g)).
  - rewrite !Z.max_r by lia. done.
  - rewrite !Z.max_l by lia. by destruct g as [? []].
Qed.

Lemma col_clamp_ok g :
  size g = sz → col_clamp g = Some (set_pos_col (Z.min (p_col (pos g)) (s_cols sz - 1)) g).
Proof using Hsz.
  intros Hg. unfold col_clamp. rewrite last_col_Some by done. cbn.
  destruct (Z.ltb_spec (s_cols sz - 1) (p_col (pos g))).
  - by rewrite Z.min_r by lia.
  - rewrite Z.min_l by lia. by destruct g as [? []].
Qed.

Lemma row_clamp_ok g :
  size g = sz → row_clamp g = Some (set_pos_row (Z.min (p_row (pos g)) (s_rows sz - 1)) g).
Proof using Hsz.
  intros Hg. unfold row_clamp. rewrite last_row_Some by done. cbn.
  destruct (Z.ltb_spec (s_rows sz - 1) (p_row (pos g))).
  - by rewrite Z.min_r by lia.
  - rewrite Z.min_l by lia. by destruct g as [? []].
Qed.

(** A grid whose cursor was moved: the rest is as before. *)
Lemma live_moved g g' :
  live sz g → g' = set_pos_field (pos g') g → pos_ok sz (pos g') → live sz g'.
Proof using. intros Hg Heq Hp. rewrite Heq. by apply live_set_pos. Qed.

Lemma set_pos_ok p g : live sz g → 0 ≤ p_row p → 0 ≤ p_col p → succeeds (set_pos p g) (live sz).
Proof using Hsz.
  intros Hg Hr Hc. pose proof (live_region g Hg). pose proof (live_size g Hg) as Hs. unfold set_pos.
  set (q := if origin_mode g then _ else p).
  assert (0 ≤ p_row q ∧ 0 ≤ p_col q) as [Hqr Hqc] by (unfold q; destruct (origin_mode g); safe).
  clearbody q.
  rewrite row_clamp_top_eq. cbv iota beta. eapply succeeds_bind; [apply row_clamp_bottom_ok; [done|cbn; lia]|].
  intros [g1 n] [-> _]. rewrite col_clamp_ok by done. apply succeeds_ret.
  apply (live_moved g); [done|by destruct g|]. cbn. destruct (origin_mode g); safe.
Qed.

Lemma row_inc_clamp_ok n g : live sz g → 0 ≤ n → succeeds (row_inc_clamp n g) (live sz).
Proof using Hsz.
  intros Hg Hn. pose proof (live_region g Hg). pose proof (live_pos g Hg). unfold row_inc_clamp.
  eapply succeeds_bind; [apply row_clamp_bottom_ok; [exact (live_size g Hg)|cbn; lia]|].
  intros [g1 m] [-> _]. apply succeeds_ret.
  apply (live_moved g); [done|by destruct g|]. cbn. destruct (in_scroll_region g); safe.
Qed.

Lemma row_dec_clamp_ok n g : live sz g → 0 ≤ n → live sz (row_dec_clamp n g).
Proof using Hsz.
  intros Hg Hn. pose proof (live_region g Hg). pose proof (live_pos g Hg). unfold row_dec_clamp.
  rewrite row_clamp_top_eq. apply (live_moved g); [done|by destruct g|]. cbn. destruct (in_scroll_region g); safe.
Qed.

Lemma row_dec_scroll_ok n g : live sz g → 0 ≤ n ≤ 1 → succeeds (row_dec_scroll n g) (live sz).
Proof using Hsz.
  intros Hg Hn. pose proof (live_region g Hg). pose proof (live_pos g Hg). unfold row_dec_scroll.
  rewrite row_clamp_top_eq. cbn. rewrite add16_Some; [|destruct (in_scroll_region g); safe]. cbn.
  apply scroll_down_ok. apply (live_moved g); [done|by destruct g|]. cbn. destruct (in_scroll_region g); safe.
Qed.

(** At the bottom of the region the cursor stays and the region scrolls. *)
Lemma row_inc_scroll_ok g :
  live sz g → succeeds (row_inc_scroll 1 g) (λ '(g', n), live sz g' ∧ p_col (pos g') = p_col (pos g) ∧
    0 ≤ n ≤ p_row (pos g) ∧
    (strict = true → index (p_row (pos g) - n) (rows g') = index (p_row (pos g)) (rows g))).
Proof using Hsz.
  intros Hg. pose proof (live_region g Hg). pose proof (live_pos g Hg). unfold row_inc_scroll.
  eapply succeeds_bind; [apply row_clamp_bottom_ok; [exact (live_size g Hg)|cbn; lia]|].
  intros [g1 m] [-> Hm]. destruct (in_scroll_region g) eqn:Hin.
  - eapply succeeds_bind.
    { apply succeeds_with, scroll_up_ok. apply (live_moved g); [done|by destruct g|]. safe. }
    intros g2 [Hsc [Hg2 (rs & ->)]]. apply succeeds_ret. split_and!; [done|done| | |]; [safe|safe|].
    intros Hst. pose proof (go_strict _ _ (proj1 Hg) Hst). subst m. unfold in_scroll_region in Hin.
    assert (p_row (pos g) = scroll_bottom g ∨ p_row (pos g) + 1 ≤ scroll_bottom g) as [Hb|Hb] by lia.
    + assert (live sz (set_pos_row (Z.min (saturating_add U16_MAX (p_row (pos g)) 1) (scroll_bottom g)) g)) as Hl.
      { apply (live_moved g); [done|by destruct g|]. safe. }
      apply (scroll_up_bottom _ _ _ Hl) in Hsc; cbn in *; [|lia|safe]. rewrite Hb, <- Hsc. f_equal. safe.
    + rewrite Z.max_l in Hsc |- * by safe.
      rewrite scroll_up_zero in Hsc by (done || exact (live_size g Hg) || (cbn; lia)). injection Hsc as Hrs. cbn.
      by rewrite <- Hrs, Z.sub_0_r.
  - apply succeeds_ret. split_and!; [|done| | |]; [apply (live_moved g); [done|by destruct g|]|..]; try safe.
    intros _. cbn. by rewrite Z.sub_0_r.
Qed.

Lemma row_set_ok n g : live sz g → 0 ≤ n → succeeds (row_set n g) (live sz).
Proof using Hsz.
  intros Hg Hn. pose proof (live_pos g Hg). unfold row_set. rewrite row_clamp_ok by exact (live_size g Hg).
  apply succeeds_ret. apply (live_moved g); [done|by destruct g|]. safe.
Qed.

Lemma col_set_ok n g : live sz g → 0 ≤ n → succeeds (col_set n g) (live sz).
Proof using Hsz.
  intros Hg Hn. pose proof (live_pos g Hg). unfold col_set. rewrite col_clamp_ok by exact (live_size g Hg).
  apply succeeds_ret. apply (live_moved g); [done|by destruct g|]. safe.
Qed.

Lemma col_inc_clamp_ok n g : live sz g → 0 ≤ n → succeeds (col_inc_clamp n g) (live sz).
Proof using Hsz. intros Hg Hn. pose proof (live_pos g Hg). apply col_set_ok; [done|]. safe. Qed.

Lemma col_dec_ok n g : live sz g → 0 ≤ n → live sz (col_dec n g).
Proof using Hsz. intros Hg Hn. pose proof (live_pos g Hg). apply live_set_pos; [done|]. safe. Qed.

Lemma col_tab_ok g : live sz g → succeeds (col_tab g) (live sz).
Proof using Hsz.
  intros Hg. pose proof (live_pos g Hg) as [? Hc]. unfold col_tab.
  pose proof (Z.mod_pos_bound (p_col (pos g)) 8 ltac:(lia)) as Hm.
  pose proof (Z.mod_le (p_col (pos g)) 8 (proj1 Hc) ltac:(lia)).
  rewrite add16_Some by safe. cbn. apply col_set_ok; [done|]. lia.
Qed.

Lemma set_scroll_region_ok top bottom g :
  live sz g → 0 ≤ top → succeeds (set_scroll_region top bottom g) (live sz).
Proof using Hsz.
  intros Hg Ht. unfold set_scroll_region. rewrite last_row_Some by (by apply live_size). cbn.
  apply succeeds_ret. destruct Hg as [[] Hl]. destruct (Z.ltb_spec top (Z.min bottom (s_rows sz - 1)));
    (split; [split|]; cbn; try done; safe).
Qed.

Lemma set_origin_mode_ok on g : live sz g → succeeds (set_origin_mode on g) (live sz).
Proof using Hsz. intros Hg. apply set_pos_ok; [|done|done]. destruct Hg as [[] Hl]. by split; [split|]. Qed.

Lemma Grid_save_cursor_ok g : live sz g → live sz (Grid_save_cursor g).
Proof using. intros [[] Hl]. by split; [split|]. Qed.

Lemma Grid_restore_cursor_ok g : live sz g → live sz (Grid_restore_cursor g).
Proof using. intros [[] Hl]. by split; [split|]. Qed.

(** A character of [width] columns has its place after the wrap. *)
Lemma col_wrap_ok width wrap g :
  live sz g → 0 ≤ width ≤ 2 →
  (wrap = true → ∀ r, index (p_row (pos g)) (rows g) = Some r → last_filled (cells r)) →
  succeeds (col_wrap width wrap g) (λ g', live sz g' ∧ p_col (pos g') + width ≤ s_cols sz).
Proof using Hsz.
  intros Hg Hw Hlast. pose proof (live_pos g Hg). unfold col_wrap. rewrite (live_size g Hg), sub16_Some by safe. cbn.
  destruct (Z.ltb_spec (s_cols sz - width) (p_col (pos g))); [|apply succeeds_ret; split; [done|lia]].
  assert (live sz (set_pos_col 0 g)) as Hg0 by (apply live_set_pos; [done|safe]).
  eapply succeeds_bind; [by apply row_inc_scroll_ok|]. intros [g1 n] (Hg1 & Hc1 & Hn & Hrow). cbn in Hc1, Hn, Hrow.
  rewrite sub16_Some by lia. cbn.
  assert ((if wrap then add16 (p_row (pos g) - n) 1 else Some 0) =
          Some (if wrap then p_row (pos g) - n + 1 else 0)) as ->.
  { destruct wrap; [|done]. rewrite add16_Some by safe. done. }
  cbn. eapply succeeds_mono.
  { apply update_row_ok; [done|safe|]. intros r Hr Hok. apply succeeds_ret, Row_wrap_ok; [done|].
    intros Hst [Hwr _]%andb_prop. apply Hlast; [done|]. by rewrite <- Hrow. }
  intros g2 [Hg2 ->]. split; [done|]. rewrite Hc1. safe.
Qed.

(** ** Allocation and clearing *)
Lemma allocate_rows_ok g : grid_ok sz g → live sz (allocate_rows g).
Proof using Hsz.
  intros Hg. unfold allocate_rows. case_bool_decide as Hr.
  - assert (len (replicate (Z.to_nat (s_rows (size g))) (new_row g)) = s_rows sz) as Hl.
    { rewrite len_replicate, (go_size _ _ Hg). safe. }
    split; [|done]. destruct Hg. split; try done; [by right|].
    by apply Forall_replicate, new_row_ok.
  - split; [done|]. by destruct (go_rows _ _ Hg).
Qed.

Lemma Grid_new_ok : succeeds (Grid_new sz 0) (grid_ok sz).
Proof using Hsz.
  unfold Grid_new. rewrite sub16_Some by safe. apply succeeds_ret.
  split; cbn; try done; [by left|safe..].
Qed.

Lemma Grid_clear_ok g : grid_ok sz g → succeeds (Grid_clear g) (grid_ok sz).
Proof using Hsz.
  intros Hg. unfold Grid_clear. rewrite last_row_Some by apply Hg. apply succeeds_ret.
  destruct Hg. split; cbn; try done; try safe.
  - destruct go_rows0 as [->|<-]; [by left|right]. by rewrite len_fmap.
  - apply Forall_clear; [apply attrs_ok_default|done].
Qed.

Lemma set_scrollback_ok n g : live sz g → 0 ≤ n → live sz (set_scrollback n g).
Proof using.
  intros [[] Hl] Hn. split; [split|]; try done. destruct go_scrollback0 as (Hsb & ? & ?). cbn.
  split_and!; [done|done|]. rewrite Hsb. change (len (@nil Row)) with 0. lia.
Qed.
End preserved.

(** ** Resizing *)

Section resizing.
Context `{UW : UnicodeWidth} `{D : Discipline}.

(** The scroll region would not shrink to a single row. *)
Definition keeps_region (rows : Z) (g : Grid) : Prop := strict = true → scroll_top g ≠ rows - 1.

(** No row would be cut in the middle of a wide character. *)
Definition uncut (cols : Z) (g : Grid) : Prop := Forall (λ r, paired (take (Z.to_nat cols) (cells r))) (rows g).

Lemma uncut_grow sz cols g : grid_ok sz g → s_cols sz ≤ cols → uncut cols g.
Proof.
  intros [] Hc. eapply Forall_impl; [done|]. intros r (Hl & Hp & _). rewrite take_all; [done|lia].
Qed.

Lemma Grid_set_size_ok sz sz' g :
  size_safe sz → size_safe sz' → grid_ok sz g → uncut (s_cols sz') g → keeps_region (s_rows sz') g →
  succeeds (Grid_set_size sz' g) (live sz').
Proof.
  intros Hsz Hsz' Hg Hcut Hkeep. unfold Grid_set_size.
  set (g1 := if negb _ then _ else g).
  assert (grid_ok sz g1 ∧ uncut (s_cols sz') g1 ∧ keeps_region (s_rows sz') g1) as (Hg1 & Hcut1 & Hkeep1).
  { unfold g1. destruct (negb _); [|done]. destruct Hg. split_and!; [split; cbn; try done|..].
    - destruct go_rows0 as [->|<-]; [by left|right]. by rewrite len_fmap.
    - apply Forall_fmap. eapply Forall_impl; [exact go_row0|]. intros r Hr. by apply (Row_wrap_ok _ false).
    - unfold uncut. cbn. apply Forall_fmap. done.
    - done. }
  clearbody g1. rewrite (last_row_Some sz Hsz) by apply Hg1. cbn [mbind option_bind].
  rewrite sub16_Some by safe. cbn [mbind option_bind].
  match goal with |- context [row_clamp_top false ?g] => set (g2 := g) end.
  assert (size g2 = sz' ∧ len (rows g2) = s_rows sz' ∧ Forall (row_ok (s_cols sz')) (rows g2) ∧
    pos g2 = pos g1 ∧ saved_pos g2 = saved_pos g1 ∧ 0 ≤ scroll_top g2 ≤ scroll_bottom g2 ∧
    1 ≤ scroll_bottom g2 < s_rows sz' ∧ (strict = true → scroll_top g2 < scroll_bottom g2) ∧
    scrollback g2 = [] ∧ scrollback_len g2 = 0 ∧ scrollback_offset g2 = 0)
    as (Hs & Hl & Hr & Hp & Hsp & Ht & Hb & Hst & Hsb).
  { assert (len (vec_resize (s_rows sz') (Row_new (s_cols sz')) (Row_resize (s_cols sz') Cell_new <$> rows g1)) =
            s_rows sz') by (apply len_vec_resize; safe).
    assert (Forall (row_ok (s_cols sz'))
      (vec_resize (s_rows sz') (Row_new (s_cols sz')) (Row_resize (s_cols sz') Cell_new <$> rows g1))).
    { apply Forall_app. split; [|apply Forall_replicate, Row_new_ok; safe]. apply Forall_take, Forall_fmap.
      apply Forall_forall. intros r Hr. apply (Row_resize_ok _ (s_cols sz)); [|safe|].
      - by apply (proj1 (Forall_forall _ _) (go_row _ _ Hg1)).
      - by apply (proj1 (Forall_forall _ _) Hcut1). }
    pose proof (go_region _ _ Hg1). pose proof (go_bottom _ _ Hg1). destruct (go_scrollback _ _ Hg1) as (? & ? & ?).
    assert (strict = true → scroll_top g1 < scroll_bottom g1 ∧ scroll_top g1 ≠ s_rows sz' - 1) as Hstrict.
    { intros Hs. split; [by apply (go_strict _ _ Hg1)|by apply Hkeep1]. }
    subst g2. destruct (Z.eqb_spec (scroll_bottom g1) (s_rows sz - 1)); cbn;
    repeat match goal with
      | |- context [?a <=? ?b] => destruct (Z.leb_spec a b); cbn
      | |- context [?a <? ?b] => destruct (Z.ltb_spec a b); cbn
      end; split_and!; try done; try safe; intros Hs; specialize (Hstrict Hs); safe. }
  clearbody g2. pose proof (go_pos _ _ Hg1). pose proof (go_saved _ _ Hg1).
  rewrite row_clamp_top_eq. cbv iota beta.
  eapply succeeds_bind; [apply (row_clamp_bottom_ok sz' Hsz'); [done|cbn; lia]|].
  intros [g3 n] [-> _]. rewrite (col_clamp_ok sz' Hsz') by done. cbn [mbind option_bind].
  rewrite (last_row_Some sz' Hsz') by done. cbn [mbind option_bind].
  rewrite (last_col_Some sz' Hsz') by done. cbn [mbind option_bind]. apply succeeds_ret. cbn.
  destruct (Z.ltb_spec (s_rows sz' - 1) (p_row (saved_pos g2))); cbn;
    destruct (Z.ltb_spec (s_cols sz' - 1) (p_col (saved_pos g2))); cbn;
    (split; [split|]; cbn; try done; [by right|..]; rewrite ?Hp, ?Hsp in *; safe).
Qed.
End resizing.
