(* ===== verification/Vt100Screen.v ===== *)
(** * The screen: [src/src/vt100/screen.rs]

    Two grids, the drawing attributes and the modes, with one operation per control
    code and escape sequence. A callback for an unhandled sequence is a flag in the
    result of the operation. *)

From S2P Require Import Prelude TerminalWidth Vt100Cell Vt100Row Vt100Grid.

Local Open Scope Z_scope.

Definition MODE_APPLICATION_KEYPAD : Z := 1.
Definition MODE_APPLICATION_CURSOR : Z := 2.
Definition MODE_HIDE_CURSOR : Z := 4.
Definition MODE_ALTERNATE_SCREEN : Z := 8.
Definition MODE_BRACKETED_PASTE : Z := 16.
Definition MODE_REVERSE_VIDEO : Z := 32.

Record VtScreen := mkVtScreen {
  primary_grid : Grid;
  alternate_grid : Grid;
  attrs : Attrs;
  saved_attrs : Attrs;
  modes : Z;
  mouse_protocol_mode : MouseProtocolMode;
  mouse_protocol_encoding : MouseProtocolEncoding;
}.

Definition set_primary_grid (v : Grid) (s : VtScreen) : VtScreen :=
  mkVtScreen v (alternate_grid s) (attrs s) (saved_attrs s) (modes s) (mouse_protocol_mode s) (mouse_protocol_encoding s).
Definition set_alternate_grid (v : Grid) (s : VtScreen) : VtScreen :=
  mkVtScreen (primary_grid s) v (attrs s) (saved_attrs s) (modes s) (mouse_protocol_mode s) (mouse_protocol_encoding s).
Definition set_attrs (v : Attrs) (s : VtScreen) : VtScreen :=
  mkVtScreen (primary_grid s) (alternate_grid s) v (saved_attrs s) (modes s) (mouse_protocol_mode s) (mouse_protocol_encoding s).
Definition set_saved_attrs (v : Attrs) (s : VtScreen) : VtScreen :=
  mkVtScreen (primary_grid s) (alternate_grid s) (attrs s) v (modes s) (mouse_protocol_mode s) (mouse_protocol_encoding s).
Definition set_modes (v : Z) (s : VtScreen) : VtScreen :=
  mkVtScreen (primary_grid s) (alternate_grid s) (attrs s) (saved_attrs s) v (mouse_protocol_mode s) (mouse_protocol_encoding s).
Definition set_mouse_mode (v : MouseProtocolMode) (s : VtScreen) : VtScreen :=
  mkVtScreen (primary_grid s) (alternate_grid s) (attrs s) (saved_attrs s) (modes s) v (mouse_protocol_encoding s).
Definition set_mouse_encoding (v : MouseProtocolEncoding) (s : VtScreen) : VtScreen :=
  mkVtScreen (primary_grid s) (alternate_grid s) (attrs s) (saved_attrs s) (modes s) (mouse_protocol_mode s) v.

(** [Screen::new] *)
Definition VtScreen_new (sz : Size) (scrollback_len : Z) : option VtScreen :=
  g ← Grid_new sz scrollback_len;
  alternate ← Grid_new sz 0;
  Some (mkVtScreen (allocate_rows g) alternate Attrs_default Attrs_default 0 NoMouse DefaultEncoding).

(** [Screen::set_size] *)
Definition VtScreen_set_size (rows cols : Z) (s : VtScreen) : option VtScreen :=
  g ← Grid_set_size (mkSize rows cols) (primary_grid s);
  alternate ← Grid_set_size (mkSize rows cols) (alternate_grid s);
  Some (set_alternate_grid alternate (set_primary_grid g s)).

(** ** Modes *)
Definition mode (m : Z) (s : VtScreen) : bool := has_flag m (modes s).
Definition set_mode (m : Z) (s : VtScreen) : VtScreen := set_modes (set_flag true m (modes s)) s.
Definition clear_mode (m : Z) (s : VtScreen) : VtScreen := set_modes (set_flag false m (modes s)) s.

Definition clear_mouse_mode (m : MouseProtocolMode) (s : VtScreen) : VtScreen :=
  if bool_decide (mouse_protocol_mode s = m) then set_mouse_mode NoMouse s else s.
Definition clear_mouse_encoding (e : MouseProtocolEncoding) (s : VtScreen) : VtScreen :=
  if bool_decide (mouse_protocol_encoding s = e) then set_mouse_encoding DefaultEncoding s else s.

(** [Screen::grid] and an update through [Screen::grid_mut]. *)
Definition grid (s : VtScreen) : Grid := if mode MODE_ALTERNATE_SCREEN s then alternate_grid s else primary_grid s.
Definition set_grid (g : Grid) (s : VtScreen) : VtScreen :=
  if mode MODE_ALTERNATE_SCREEN s then set_alternate_grid g s else set_primary_grid g s.
Definition on_grid (f : Grid → option Grid) (s : VtScreen) : option VtScreen :=
  g ← f (grid s);
  Some (set_grid g s).

(** [Screen::size] *)
Definition VtScreen_size (s : VtScreen) : Z * Z := (s_rows (size (grid s)), s_cols (size (grid s))).

(** [Screen::cell], with the contents of the cell. *)
Definition cell_text (s : VtScreen) (row col : Z) : option (option bytes) :=
  found ← visible_cell (mkPos row col) (grid s);
  match found with
  | Some c => t ← contents_of c; Some (Some t)
  | None => Some None
  end.

Definition enter_alternate_grid (s : VtScreen) : VtScreen :=
  let s := set_grid (set_scrollback 0 (grid s)) s in
  let s := set_mode MODE_ALTERNATE_SCREEN s in
  set_alternate_grid (allocate_rows (alternate_grid s)) s.

Definition exit_alternate_grid (s : VtScreen) : VtScreen := clear_mode MODE_ALTERNATE_SCREEN s.

Definition save_cursor (s : VtScreen) : VtScreen :=
  let s := set_grid (Grid_save_cursor (grid s)) s in
  set_saved_attrs (attrs s) s.

Definition restore_cursor (s : VtScreen) : VtScreen :=
  let s := set_grid (Grid_restore_cursor (grid s)) s in
  set_attrs (saved_attrs s) s.

(** ** Text *)
Section text.
Context `{UW : UnicodeWidth}.

(** The cell before column [col], or the first half of the wide character it ends. *)
Definition append_before (row col c : Z) (g : Grid) : option Grid :=
  previous ← sub16 col 1;
  prev_cell ← drawing_cell (mkPos row previous) g;
  target ← (if is_wide_continuation prev_cell then sub16 col 2 else Some previous);
  update_cell (mkPos row target) (Cell_append c) g.

(** [text] for a character of width 0: it joins the cell before the cursor. *)
Definition text_combining (c : Z) (g : Grid) : option Grid :=
  let p := pos g in
  if 0 <? p_col p then append_before (p_row p) (p_col p) c g
  else if 0 <? p_row p then
    prev_row ← drawing_row (p_row p - 1) g;
    if wrapped prev_row then append_before (p_row p - 1) (s_cols (size g)) c g else Some g
  else Some g.

(** The second half of a wide character, at the cursor. *)
Definition text_second_half (a : Attrs) (g : Grid) : option Grid :=
  let p := pos g in
  c ← drawing_cell p g;
  g ← (if is_wide c then
         next ← add16 (p_col p) 1;
         g ← update_cell (mkPos (p_row p) next) (λ c, Some (Cell_clear a c)) g;
         right ← last_col g;
         if next =? right then update_row (p_row p) (λ r, Some (Row_wrap false r)) g else Some g
       else Some g);
  g ← update_cell p (λ c, Some (set_wide_continuation true (Cell_clear Attrs_default c))) g;
  Some (col_inc 1 g).

(** [text] for a character of width 1 or 2: the halves of wide characters that it
    overwrites are cleared first. *)
Definition text_printing (c width : Z) (a : Attrs) (g : Grid) : option Grid :=
  let p := pos g in
  here ← drawing_cell p g;
  g ← (if is_wide_continuation here then
         previous ← sub16 (p_col p) 1;
         update_cell (mkPos (p_row p) previous) (λ c, Some (Cell_clear a c)) g
       else Some g);
  here ← drawing_cell p g;
  g ← (if is_wide here then
         next ← add16 (p_col p) 1;
         update_cell (mkPos (p_row p) next) (Cell_set 32 a) g
       else Some g);
  g ← update_cell p (Cell_set c a) g;
  let g := col_inc 1 g in
  if 1 <? width then text_second_half a g else Some g.

(** The test for a wrap from a row whose last column is in use. *)
Definition text_wraps (w : Z) (g : Grid) : option bool :=
  limit ← sub16 (s_cols (size g)) w;
  if limit <? p_col (pos g) then
    right ← last_col g;
    last ← drawing_cell (mkPos (p_row (pos g)) right) g;
    Some (has_contents last || is_wide_continuation last)
  else Some false.

(** [Screen::text] on the current grid *)
Definition grid_text (c : Z) (a : Attrs) (g : Grid) : option Grid :=
  if bool_decide (width c = None) && (c <? 256) then Some g
  else
    w ← try_from U16_MAX (default 1 (width c));
    wrap ← text_wraps w g;
    g ← col_wrap w wrap g;
    if w =? 0 then text_combining c g else text_printing c w a g.

Definition text (c : Z) (s : VtScreen) : option VtScreen := on_grid (grid_text c (attrs s)) s.
End text.

(** ** Control and escape codes *)
Definition bs (s : VtScreen) : option VtScreen := on_grid (λ g, Some (col_dec 1 g)) s.
Definition tab (s : VtScreen) : option VtScreen := on_grid col_tab s.
Definition lf (s : VtScreen) : option VtScreen := on_grid (λ g, '(g, _) ← row_inc_scroll 1 g; Some g) s.
Definition vt (s : VtScreen) : option VtScreen := lf s.
Definition ff (s : VtScreen) : option VtScreen := lf s.
Definition cr (s : VtScreen) : option VtScreen := on_grid (col_set 0) s.

Definition decsc (s : VtScreen) : VtScreen := save_cursor s.
Definition decrc (s : VtScreen) : VtScreen := restore_cursor s.
Definition deckpam (s : VtScreen) : VtScreen := set_mode MODE_APPLICATION_KEYPAD s.
Definition deckpnm (s : VtScreen) : VtScreen := clear_mode MODE_APPLICATION_KEYPAD s.
Definition ri (s : VtScreen) : option VtScreen := on_grid (row_dec_scroll 1) s.
Definition ris (s : VtScreen) : option VtScreen :=
  VtScreen_new (size (primary_grid s)) (scrollback_len (primary_grid s)).

Definition ich (count : Z) (s : VtScreen) : option VtScreen := on_grid (insert_cells count) s.
Definition cuu (offset : Z) (s : VtScreen) : option VtScreen := on_grid (λ g, Some (row_dec_clamp offset g)) s.
Definition cud (offset : Z) (s : VtScreen) : option VtScreen := on_grid (row_inc_clamp offset) s.
Definition cuf (offset : Z) (s : VtScreen) : option VtScreen := on_grid (col_inc_clamp offset) s.
Definition cub (offset : Z) (s : VtScreen) : option VtScreen := on_grid (λ g, Some (col_dec offset g)) s.
Definition cnl (offset : Z) (s : VtScreen) : option VtScreen :=
  s ← on_grid (col_set 0) s; on_grid (row_inc_clamp offset) s.
Definition cpl (offset : Z) (s : VtScreen) : option VtScreen :=
  s ← on_grid (col_set 0) s; on_grid (λ g, Some (row_dec_clamp offset g)) s.
Definition cha (col : Z) (s : VtScreen) : option VtScreen := c ← sub16 col 1; on_grid (col_set c) s.
Definition cup (row col : Z) (s : VtScreen) : option VtScreen :=
  r ← sub16 row 1; c ← sub16 col 1; on_grid (set_pos (mkPos r c)) s.
Definition il (count : Z) (s : VtScreen) : option VtScreen := on_grid (insert_lines count) s.
Definition dl (count : Z) (s : VtScreen) : option VtScreen := on_grid (delete_lines count) s.
Definition dch (count : Z) (s : VtScreen) : option VtScreen := on_grid (delete_cells count) s.
Definition su (count : Z) (s : VtScreen) : option VtScreen := on_grid (scroll_up count) s.
Definition sd (count : Z) (s : VtScreen) : option VtScreen := on_grid (scroll_down count) s.
Definition ech (count : Z) (s : VtScreen) : option VtScreen := on_grid (erase_cells count (attrs s)) s.
Definition vpa (row : Z) (s : VtScreen) : option VtScreen := r ← sub16 row 1; on_grid (row_set r) s.
Definition decstbm (top bottom : Z) (s : VtScreen) : option VtScreen :=
  t ← sub16 top 1; b ← sub16 bottom 1; on_grid (set_scroll_region t b) s.

(** The calls of [unhandled] are counted. *)
Definition ed (m : Z) (s : VtScreen) : option (VtScreen * nat) :=
  if m =? 0 then s ← on_grid (erase_all_forward (attrs s)) s; Some (s, 0%nat)
  else if m =? 1 then s ← on_grid (erase_all_backward (attrs s)) s; Some (s, 0%nat)
  else if m =? 2 then s ← on_grid (λ g, Some (erase_all (attrs s) g)) s; Some (s, 0%nat)
  else Some (s, 1%nat).

Definition el (m : Z) (s : VtScreen) : option (VtScreen * nat) :=
  if m =? 0 then s ← on_grid (erase_row_forward (attrs s)) s; Some (s, 0%nat)
  else if m =? 1 then s ← on_grid (erase_row_backward (attrs s)) s; Some (s, 0%nat)
  else if m =? 2 then s ← on_grid (erase_row (attrs s)) s; Some (s, 0%nat)
  else Some (s, 1%nat).

Definition decsed (m : Z) (s : VtScreen) : option (VtScreen * nat) := ed m s.
Definition decsel (m : Z) (s : VtScreen) : option (VtScreen * nat) := el m s.

Definition decset_param (param : list Z) (s : VtScreen) : option (VtScreen * nat) :=
  let handled s := Some (s, 0%nat) in
  match param with
  | [1] => handled (set_mode MODE_APPLICATION_CURSOR s)
  | [5] => handled (set_mode MODE_REVERSE_VIDEO s)
  | [6] => s ← on_grid (set_origin_mode true) s; handled s
  | [9] => handled (set_mouse_mode Press s)
  | [25] => handled (clear_mode MODE_HIDE_CURSOR s)
  | [47] => handled (enter_alternate_grid s)
  | [1000] => handled (set_mouse_mode PressRelease s)
  | [1002] => handled (set_mouse_mode ButtonMotion s)
  | [1003] => handled (set_mouse_mode AnyMotion s)
  | [1005] => handled (set_mouse_encoding Utf8 s)
  | [1006] => handled (set_mouse_encoding Sgr s)
  | [1049] =>
      let s := decsc s in
      g ← Grid_clear (alternate_grid s);
      handled (enter_alternate_grid (set_alternate_grid g s))
  | [2004] => handled (set_mode MODE_BRACKETED_PASTE s)
  | _ => Some (s, 1%nat)
  end.

Definition decrst_param (param : list Z) (s : VtScreen) : option (VtScreen * nat) :=
  let handled s := Some (s, 0%nat) in
  match param with
  | [1] => handled (clear_mode MODE_APPLICATION_CURSOR s)
  | [5] => handled (clear_mode MODE_REVERSE_VIDEO s)
  | [6] => s ← on_grid (set_origin_mode false) s; handled s
  | [9] => handled (clear_mouse_mode Press s)
  | [25] => handled (set_mode MODE_HIDE_CURSOR s)
  | [47] => handled (exit_alternate_grid s)
  | [1000] => handled (clear_mouse_mode PressRelease s)
  | [1002] => handled (clear_mouse_mode ButtonMotion s)
  | [1003] => handled (clear_mouse_mode AnyMotion s)
  | [1005] => handled (clear_mouse_encoding Utf8 s)
  | [1006] => handled (clear_mouse_encoding Sgr s)
  | [1049] => handled (decrc (exit_alternate_grid s))
  | [2004] => handled (clear_mode MODE_BRACKETED_PASTE s)
  | _ => Some (s, 1%nat)
  end.

(** [for param in params]: the callbacks made so far are counted. *)
Definition each_param (f : list Z → VtScreen → option (VtScreen * nat)) (params : list (list Z)) (s : VtScreen) :
    option (VtScreen * nat) :=
  for_each params (λ param '(s, n), '(s, k) ← f param s; Some (s, (n + k)%nat)) (s, 0%nat).

Definition decset (params : list (list Z)) (s : VtScreen) : option (VtScreen * nat) :=
  each_param decset_param params s.
Definition decrst (params : list (list Z)) (s : VtScreen) : option (VtScreen * nat) :=
  each_param decrst_param params s.

(** ** [sgr] *)

(** [u16_to_u8] *)
Definition u16_to_u8 (i : Z) : option Z := if U8_MAX <? i then None else Some i.

(** The ranges of basic colors. *)
Definition sgr_color (n : Z) (a : Attrs) : option Attrs :=
  if between 30 37 n then Some (set_fgcolor (Idx (n - 30)) a)
  else if between 40 47 n then Some (set_bgcolor (Idx (n - 40)) a)
  else if between 90 97 n then Some (set_fgcolor (Idx (n - 82)) a)
  else if between 100 107 n then Some (set_bgcolor (Idx (n - 92)) a)
  else None.

(** A parameter that is one number and needs no other: [None] is unhandled. *)
Definition sgr_code (n : Z) (a : Attrs) : option Attrs :=
  match n with
  | 0 => Some Attrs_default
  | 1 => Some (set_bold a)
  | 2 => Some (set_dim a)
  | 3 => Some (set_italic true a)
  | 4 => Some (set_underline true a)
  | 5 => Some (set_blink true a)
  | 7 => Some (set_inverse true a)
  | 8 => Some (set_hidden true a)
  | 22 => Some (set_normal_intensity a)
  | 23 => Some (set_italic false a)
  | 24 => Some (set_underline false a)
  | 25 => Some (set_blink false a)
  | 27 => Some (set_inverse false a)
  | 28 => Some (set_hidden false a)
  | 39 => Some (set_fgcolor DefaultColor a)
  | 49 => Some (set_bgcolor DefaultColor a)
  | _ => sgr_color n a
  end.

Definition rgb (r g b : Z) : option Color :=
  r ← u16_to_u8 r; g ← u16_to_u8 g; b ← u16_to_u8 b; Some (Rgb r g b).
Definition idx (i : Z) : option Color := i ← u16_to_u8 i; Some (Idx i).

(** The setter of the code 38 or 48. *)
Definition set_color (code : Z) (c : Color) (a : Attrs) : Attrs :=
  if code =? 38 then set_fgcolor c a else set_bgcolor c a.

(** The loop of [sgr]: the attributes and the number of callbacks so far. A return in
    the middle keeps what was set before. *)
Fixpoint sgr_loop (iter : list (list Z)) (a : Attrs) (n : nat) : Attrs * nat :=
  match iter with
  | [] => (a, n)
  | param :: rest =>
      match param with
      | [code] =>
          if (code =? 38) || (code =? 48) then
            match rest with
            | [] => (a, n)
            | [kind] :: rest1 =>
                if kind =? 2 then
                  match rest1 with
                  | [r] :: [g] :: [b] :: rest2 =>
                      match rgb r g b with Some c => sgr_loop rest2 (set_color code c a) n | None => (a, n) end
                  | _ => (a, n)
                  end
                else if kind =? 5 then
                  match rest1 with
                  | [i] :: rest2 =>
                      match idx i with Some c => sgr_loop rest2 (set_color code c a) n | None => (a, n) end
                  | _ => (a, n)
                  end
                else (a, S n)
            | _ :: _ => (a, S n)
            end
          else
            match sgr_code code a with
            | Some a' => sgr_loop rest a' n
            | None => sgr_loop rest a (S n)
            end
      | [code; kind; r; g; b] =>
          if ((code =? 38) || (code =? 48)) && (kind =? 2) then
            match rgb r g b with Some c => sgr_loop rest (set_color code c a) n | None => (a, n) end
          else sgr_loop rest a (S n)
      | [code; kind; i] =>
          if ((code =? 38) || (code =? 48)) && (kind =? 5) then
            match idx i with Some c => sgr_loop rest (set_color code c a) n | None => (a, n) end
          else sgr_loop rest a (S n)
      | _ => sgr_loop rest a (S n)
      end
  end.

(** [Screen::sgr] *)
Definition sgr (params : list (list Z)) (s : VtScreen) : VtScreen * nat :=
  if bool_decide (params = []) then (set_attrs Attrs_default s, 0%nat)
  else let '(a, n) := sgr_loop params (attrs s) 0 in (set_attrs a s, n).

(** ** Writing a screen *)
Definition hide_cursor (s : VtScreen) : bool := mode MODE_HIDE_CURSOR s.
Definition reverse_video (s : VtScreen) : bool := mode MODE_REVERSE_VIDEO s.

Definition VtScreen_contents (s : VtScreen) : option bytes := Grid_write_contents (grid s).

(** [Screen::set_scrollback], [Screen::row_wrapped] *)
Definition VtScreen_set_scrollback (n : Z) (s : VtScreen) : VtScreen := set_grid (set_scrollback n (grid s)) s.

Definition row_wrapped (row : Z) (s : VtScreen) : option bool :=
  visible ← visible_rows (grid s);
  Some (match index row visible with Some r => wrapped r | None => false end).

(** A [map] over rows that can panic. *)
Fixpoint map_rows {A B} (f : A → option B) (l : list A) : option (list B) :=
  match l with
  | [] => Some []
  | x :: rest => y ← f x; ys ← map_rows f rest; Some (y :: ys)
  end.

(** [Screen::rows] *)
Definition screen_rows (start width : Z) (s : VtScreen) : option (list bytes) :=
  visible ← visible_rows (grid s);
  map_rows (Row_write_contents start width false) visible.

(** [Screen::contents_between] *)
Definition between_row (start_row start_col end_row end_col cols : Z) (item : Z * Row) (out : bytes) : option bytes :=
  let '(i, r) := item in
  let newline := if wrapped r then [] else [10] in
  if i =? start_row then
    w ← sub16 cols start_col;
    t ← Row_write_contents start_col w false r;
    Some (out ++ t ++ newline)
  else if i =? end_row then
    t ← Row_write_contents 0 end_col false r;
    Some (out ++ t)
  else
    t ← Row_write_contents 0 cols false r;
    Some (out ++ t ++ newline).

Definition contents_between (start_row start_col end_row end_col : Z) (s : VtScreen) : option bytes :=
  match start_row ?= end_row with
  | Lt =>
      visible ← visible_rows (grid s);
      for_each (enumerated start_row (end_row - start_row + 1) visible)
        (between_row start_row start_col end_row end_col (VtScreen_size s).2) []
  | Eq =>
      if start_col <? end_col then
        visible ← visible_rows (grid s);
        l ← map_rows (Row_write_contents start_col (end_col - start_col) false)
              (take (Z.to_nat (start_row + 1)) visible);
        Some (default [] (index start_row l))
      else Some []
  | Gt => Some []
  end.

Section write_screen.
Context `{IT : Itoa}.

(** [Screen::write_contents_formatted] *)
Definition write_contents_formatted (s : VtScreen) : option bytes :=
  '(out, prev_attrs) ← Grid_write_contents_formatted (grid s);
  tail ← write_escape_code_diff (attrs s) prev_attrs;
  Some (ReverseVideo_write_buf (reverse_video s) ++ HideCursor_write_buf (hide_cursor s) ++ out ++ tail).

(** [Screen::write_contents_diff] *)
Definition write_contents_diff (prev s : VtScreen) : option bytes :=
  '(out, prev_attrs) ← Grid_write_contents_diff (grid prev) (attrs prev) (grid s);
  tail ← write_escape_code_diff (attrs s) prev_attrs;
  Some ((if Bool.eqb (reverse_video s) (reverse_video prev) then []
         else ReverseVideo_write_buf (reverse_video s)) ++
        (if Bool.eqb (hide_cursor s) (hide_cursor prev) then []
         else HideCursor_write_buf (hide_cursor s)) ++ out ++ tail).

(** [Screen::write_input_mode_formatted] *)
Definition write_input_mode_formatted (s : VtScreen) : bytes :=
  ApplicationKeypad_write_buf (mode MODE_APPLICATION_KEYPAD s) ++
  ApplicationCursor_write_buf (mode MODE_APPLICATION_CURSOR s) ++
  BracketedPaste_write_buf (mode MODE_BRACKETED_PASTE s) ++
  MouseProtocolMode_write_buf (mouse_protocol_mode s) NoMouse ++
  MouseProtocolEncoding_write_buf (mouse_protocol_encoding s) DefaultEncoding.

(** [Screen::write_input_mode_diff] *)
Definition write_input_mode_diff (prev s : VtScreen) : bytes :=
  let changed_mode m (write : bool → bytes) :=
    if Bool.eqb (mode m s) (mode m prev) then [] else write (mode m s) in
  changed_mode MODE_APPLICATION_KEYPAD ApplicationKeypad_write_buf ++
  changed_mode MODE_APPLICATION_CURSOR ApplicationCursor_write_buf ++
  changed_mode MODE_BRACKETED_PASTE BracketedPaste_write_buf ++
  MouseProtocolMode_write_buf (mouse_protocol_mode s) (mouse_protocol_mode prev) ++
  MouseProtocolEncoding_write_buf (mouse_protocol_encoding s) (mouse_protocol_encoding prev).

(** [Screen::state_formatted] *)
Definition VtScreen_state_formatted (s : VtScreen) : option bytes :=
  contents ← write_contents_formatted s;
  Some (contents ++ write_input_mode_formatted s).

(** [Screen::state_diff] *)
Definition VtScreen_state_diff (s prev : VtScreen) : option bytes :=
  contents ← write_contents_diff prev s;
  Some (contents ++ write_input_mode_diff prev s).

(** [Screen::attributes_formatted], [Screen::cursor_state_formatted] *)
Definition attributes_formatted (s : VtScreen) : option bytes :=
  b ← write_escape_code_diff (attrs s) Attrs_default;
  Some (ClearAttrs_write_buf ++ b).

Definition cursor_state_formatted (s : VtScreen) : option bytes :=
  b ← write_cursor_position_formatted None None (grid s);
  Some (HideCursor_write_buf (hide_cursor s) ++ b).

(** [Screen::rows_formatted]: the state of the closure is [wrapping]. *)
Definition rows_formatted (start width : Z) (s : VtScreen) : option (list bytes) :=
  visible ← visible_rows (grid s);
  '(out, _) ← for_each (zip (seqZ 0 (len visible)) visible)
    (λ '(i, r) '(out, wrapping),
       i ← try_from U16_MAX i;
       '(b, _, _) ← Row_write_contents_formatted start width i wrapping None None r;
       Some (out ++ [b], if (start =? 0) && (width =? s_cols (size (primary_grid s))) then wrapped r else wrapping))
    ([], false);
  Some out.

(** [Screen::rows_diff] *)
Definition rows_diff (prev : VtScreen) (start width : Z) (s : VtScreen) : option (list bytes) :=
  visible ← visible_rows (grid s);
  prev_visible ← visible_rows (grid prev);
  let pairs := zip visible prev_visible in
  map_rows (λ '(i, (r, prev_row)),
    i ← try_from U16_MAX i;
    '(b, _, _) ← Row_write_contents_diff prev_row start width i false false (mkPos i start) Attrs_default r;
    Some b) (zip (seqZ 0 (len pairs)) pairs).
End write_screen.
