(* ===== verification/Vt100Attrs.v ===== *)
(** * Attributes survive a round trip

    The parameters that [write_escape_code_diff] writes, read back by [sgr], turn the
    old attributes into the new ones. *)

From S2P Require Import Prelude TerminalWidth Vt100Cell Vt100Row Vt100RowInv Vt100Screen.

Local Open Scope Z_scope.

(** The parameters as [vte] delivers them: each without subparameters. *)
Definition as_params (l : list Z) : list (list Z) := (λ p, [p]) <$> l.

Lemma as_params_app l k : as_params (l ++ k) = as_params l ++ as_params k.
Proof. apply fmap_app. Qed.

(** What the written parameters mean. *)
Definition opt_apply {A} (f : A → Attrs → Attrs) (o : option A) (a : Attrs) : Attrs :=
  match o with Some v => f v a | None => a end.

Definition set_intensity (i : Intensity) : Attrs → Attrs :=
  match i with Normal => set_normal_intensity | Bold => set_bold | Dim => set_dim end.

Definition apply_difference (d : TermAttrs) (a : Attrs) : Attrs :=
  opt_apply set_hidden (t_hidden d) (opt_apply set_blink (t_blink d) (opt_apply set_inverse (t_inverse d)
    (opt_apply set_underline (t_underline d) (opt_apply set_italic (t_italic d)
      (opt_apply set_intensity (t_intensity d) (opt_apply set_bgcolor (t_bgcolor d)
        (opt_apply set_fgcolor (t_fgcolor d) a))))))).

(** [reads f l]: the loop of [sgr] reads the parameters [l] as the change [f]. *)
Definition reads (f : Attrs → Attrs) (l : list Z) : Prop :=
  ∀ rest a n, sgr_loop (as_params l ++ rest) a n = sgr_loop rest (f a) n.

Lemma reads_app f g l k : reads f l → reads g k → reads (λ a, g (f a)) (l ++ k).
Proof. intros Hl Hk rest a n. by rewrite as_params_app, <- app_assoc, Hl, Hk. Qed.

Lemma reads_opt {A} (f : A → Attrs → Attrs) (params : A → list Z) o :
  (∀ v, o = Some v → reads (f v) (params v)) → reads (opt_apply f o) (opt_params params o).
Proof. intros H. destruct o as [v|]; cbn; [by apply H|]. by intros rest a n. Qed.

Lemma reads_code code f : (∀ a, sgr_code code a = Some (f a)) → code ≠ 38 → code ≠ 48 → reads f [code].
Proof.
  intros Hc H38 H48 rest a n. cbn [as_params fmap list_fmap app sgr_loop].
  rewrite (proj2 (Z.eqb_neq _ _) H38), (proj2 (Z.eqb_neq _ _) H48). cbn. by rewrite Hc.
Qed.

Lemma sgr_color_range code : 30 ≤ code → code ≠ 38 → code ≠ 39 → code ≠ 48 → code ≠ 49 →
  ∀ a, sgr_code code a = sgr_color code a.
Proof.
  intros H30 H38 H39 H48 H49 a. unfold sgr_code.
  repeat match goal with |- context [match ?x with _ => _ end] => is_var x; destruct x end; lia || done.
Qed.

Lemma reads_fgcolor c : color_ok c → reads (set_fgcolor c) (color_params 30 82 c).
Proof.
  intros Hc. destruct c as [|i|r g b]; cbn in Hc; unfold color_params.
  - by apply reads_code.
  - unfold is_u8, U8_MAX in Hc. destruct (Z.ltb_spec i 8); [|destruct (Z.ltb_spec i 16)].
    + apply reads_code; [|lia|lia]. intros a. rewrite sgr_color_range by lia. unfold sgr_color, between.
      replace (_ && _) with true by lia. by replace (i + 30 - 30) with i by lia.
    + apply reads_code; [|lia|lia]. intros a. rewrite sgr_color_range by lia. unfold sgr_color, between.
      replace ((30 <=? i + 82) && (i + 82 <=? 37)) with false by lia.
      replace ((40 <=? i + 82) && (i + 82 <=? 47)) with false by lia.
      replace (_ && _) with true by lia. by replace (i + 82 - 82) with i by lia.
    + intros rest a n. cbn. unfold idx, u16_to_u8, U8_MAX. by replace (255 <? i) with false by lia.
  - intros rest a n. cbn. unfold rgb, u16_to_u8. destruct Hc as (? & ? & ?). unfold is_u8, U8_MAX in *.
    replace (255 <? r) with false by lia. replace (255 <? g) with false by lia. by replace (255 <? b) with false by lia.
Qed.

Lemma reads_bgcolor c : color_ok c → reads (set_bgcolor c) (color_params 40 92 c).
Proof.
  intros Hc. destruct c as [|i|r g b]; cbn in Hc; unfold color_params.
  - by apply reads_code.
  - unfold is_u8, U8_MAX in Hc. destruct (Z.ltb_spec i 8); [|destruct (Z.ltb_spec i 16)].
    + apply reads_code; [|lia|lia]. intros a. rewrite sgr_color_range by lia. unfold sgr_color, between.
      replace ((30 <=? i + 40) && (i + 40 <=? 37)) with false by lia.
      replace (_ && _) with true by lia. by replace (i + 40 - 40) with i by lia.
    + apply reads_code; [|lia|lia]. intros a. rewrite sgr_color_range by lia. unfold sgr_color, between.
      replace ((30 <=? i + 92) && (i + 92 <=? 37)) with false by lia.
      replace ((40 <=? i + 92) && (i + 92 <=? 47)) with false by lia.
      replace ((90 <=? i + 92) && (i + 92 <=? 97)) with false by lia.
      replace (_ && _) with true by lia. by replace (i + 92 - 92) with i by lia.
    + intros rest a n. cbn. unfold idx, u16_to_u8, U8_MAX. by replace (255 <? i) with false by lia.
  - intros rest a n. cbn. unfold rgb, u16_to_u8. destruct Hc as (? & ? & ?). unfold is_u8, U8_MAX in *.
    replace (255 <? r) with false by lia. replace (255 <? g) with false by lia. by replace (255 <? b) with false by lia.
Qed.

Definition difference_ok (d : TermAttrs) : Prop :=
  (∀ c, t_fgcolor d = Some c → color_ok c) ∧ (∀ c, t_bgcolor d = Some c → color_ok c).

Lemma reads_difference d : difference_ok d → reads (apply_difference d) (TermAttrs_params d).
Proof.
  intros [Hf Hb]. unfold apply_difference, TermAttrs_params. rewrite !app_assoc.
  repeat apply (reads_app _ _ _ _); apply reads_opt; try (intros [|] _; by apply reads_code).
  - intros c Hc. by apply reads_fgcolor, Hf.
  - intros c Hc. by apply reads_bgcolor, Hb.
  - intros [| |] _; by apply reads_code.
Qed.

(** The change of the mode alone. *)
Definition mode_change (d : TermAttrs) (m : Z) : Z :=
  text_mode (apply_difference
    (mkTermAttrs None None (t_intensity d) (t_italic d) (t_underline d) (t_inverse d) (t_blink d) (t_hidden d))
    (mkAttrs DefaultColor DefaultColor m)).

Lemma apply_difference_eq d a :
  apply_difference d a =
    mkAttrs (default (fgcolor a) (t_fgcolor d)) (default (bgcolor a) (t_bgcolor d)) (mode_change d (text_mode a)).
Proof.
  destruct a as [f b m], d as [cf cb i it u v bl h]. unfold mode_change, apply_difference.
  cbn [t_fgcolor t_bgcolor fgcolor bgcolor text_mode].
  assert (opt_apply set_bgcolor cb (opt_apply set_fgcolor cf (mkAttrs f b m)) = mkAttrs (default f cf) (default b cb) m)
    as -> by (by destruct cf, cb).
  generalize (default f cf), (default b cb). intros.
  destruct i as [[]|], it, u, v, bl, h; reflexivity.
Qed.

(** The difference of two modes leads from the one to the other, for all modes. *)
Definition mode_restored (m m0 : Z) : bool :=
  match attrs_difference (mkAttrs DefaultColor DefaultColor m) (mkAttrs DefaultColor DefaultColor m0) with
  | Some d => mode_change d m0 =? m
  | None => false
  end.

Lemma mode_restored_all m m0 : mode_ok m → mode_ok m0 → mode_restored m m0 = true.
Proof.
  intros Hm Hm0.
  assert (∀ m, is_u8 m → mode_ok m → forallb (mode_restored m) (filter mode_ok (seqZ 0 256)) = true) as H.
  { refine (all_u8 (λ m, mode_ok m → forallb (mode_restored m) (filter mode_ok (seqZ 0 256)) = true) _).
    vm_compute. reflexivity. }
  apply (forallb_forall (mode_restored m) (filter mode_ok (seqZ 0 256))); [by apply H, Hm; apply Hm|].
  apply list_elem_of_In, list_elem_of_filter. split; [done|]. apply elem_of_seqZ. destruct Hm0 as [Hu _].
  unfold is_u8, U8_MAX in Hu. lia.
Qed.

Lemma attrs_difference_mode f b m f0 b0 m0 d :
  attrs_difference (mkAttrs f b m) (mkAttrs f0 b0 m0) = Some d →
  ∃ d0, attrs_difference (mkAttrs DefaultColor DefaultColor m) (mkAttrs DefaultColor DefaultColor m0) = Some d0 ∧
    t_fgcolor d = changed f f0 ∧ t_bgcolor d = changed b b0 ∧ ∀ x, mode_change d x = mode_change d0 x.
Proof.
  unfold attrs_difference. change (intensity (mkAttrs f b m)) with (intensity (mkAttrs DefaultColor DefaultColor m)).
  change (intensity (mkAttrs f0 b0 m0)) with (intensity (mkAttrs DefaultColor DefaultColor m0)).
  destruct (changed_intensity _ _) as [i|]; [|done]. cbn [mbind option_bind]. intros [= <-].
  eexists. split; [done|]. split_and!; [done|done|]. done.
Qed.

Lemma difference_restores self other n :
  attrs_ok self → attrs_ok other →
  ∃ d, attrs_difference self other = Some d ∧ difference_ok d ∧ sgr_loop (as_params (TermAttrs_params d)) other n = (self, n).
Proof.
  intros Hs Ho. destruct self as [f b m], other as [f0 b0 m0].
  pose proof Hs as (Hf & Hb & Hm). pose proof Ho as (_ & _ & Hm0). cbn in Hf, Hb, Hm, Hm0.
  pose proof (mode_restored_all m m0 Hm Hm0) as Hr. unfold mode_restored in Hr.
  destruct (attrs_difference (mkAttrs f b m) (mkAttrs f0 b0 m0)) as [d|] eqn:Hd.
  - apply attrs_difference_mode in Hd as (d0 & Hd0 & Hfg & Hbg & Hmode). rewrite Hd0 in Hr. apply Z.eqb_eq in Hr.
    assert (difference_ok d) as Hd.
    { unfold difference_ok. rewrite Hfg, Hbg. unfold changed. split; intros c; case_bool_decide; by intros [= <-]. }
    exists d. split_and!; [done|done|]. rewrite <- (app_nil_r (as_params _)), reads_difference by done.
    cbn [sgr_loop]. rewrite apply_difference_eq, Hfg, Hbg, Hmode. cbn. rewrite Hr. unfold changed.
    f_equal. by repeat case_bool_decide; subst.
  - unfold attrs_difference in Hd, Hr. destruct (changed_intensity _ _) eqn:Hi in Hd; [done|].
    unfold intensity in *. cbn [text_mode] in *. by rewrite Hi in Hr.
Qed.


