(* ===== verification/Vt100Parser.v ===== *)
(** * The parser: [src/src/vt100/perform.rs], [callbacks.rs], [parser.rs]

    The events of [vte] act on the screen; what the screen does not handle is
    reported through callbacks. The instance at the end is the emulator that
    [src/src/terminal/] uses. *)

From Stdlib Require Import String.
From S2P Require Import Prelude TerminalWidth Emulator Vt100Cell Vt100Row Vt100Grid Vt100Screen.

Local Open Scope Z_scope.

Definition BASE64 : bytes := lit "ABCDEFGHIJKLMNOPQRSTUVWXYZabcdefghijklmnopqrstuvwxyz0123456789+/=".
Definition CLIPBOARD_SELECTOR : bytes := lit "cpqs01234567".

(** The methods of the trait [Callbacks]. *)
Inductive Callback :=
  | AudibleBell
  | VisualBell
  | ResizeRequest (rows cols : Z)
  | SetWindowIconName (name : bytes)
  | SetWindowTitle (title : bytes)
  | CopyToClipboard (ty data : bytes)
  | PasteFromClipboard (ty : bytes)
  | OnUnhandled (u : Unhandled).

(** [WrappedScreen]: the screen, and the callbacks made so far. *)
Record WrappedScreen := mkWrappedScreen { wrapped_screen : VtScreen; callbacks : list Callback }.

Definition call (c : Callback) (w : WrappedScreen) : WrappedScreen :=
  mkWrappedScreen (wrapped_screen w) (callbacks w ++ [c]).
Definition on_screen (f : VtScreen → option VtScreen) (w : WrappedScreen) : option WrappedScreen :=
  s ← f (wrapped_screen w);
  Some (mkWrappedScreen s (callbacks w)).
(** An operation that calls the closure [unhandled] some number of times. *)
Definition on_screen_unhandled (f : VtScreen → option (VtScreen * nat)) (u : Unhandled) (w : WrappedScreen) :
    option WrappedScreen :=
  '(s, n) ← f (wrapped_screen w);
  Some (mkWrappedScreen s (callbacks w ++ replicate n (OnUnhandled u))).

(** [params_iter.next().map_or(0, |x| *x.first().unwrap_or(&0))] on a parameter. *)
Definition param_or (default : Z) (p : option (list Z)) : Z :=
  match p with Some (x :: _) => x | _ => default end.
Definition nonzero_or (default x : Z) : Z := if x =? 0 then default else x.

Definition canonicalize_params_1 (params : list (list Z)) (default : Z) : Z :=
  nonzero_or default (param_or 0 (params !! 0%nat)).
Definition canonicalize_params_2 (params : list (list Z)) (default1 default2 : Z) : Z * Z :=
  (nonzero_or default1 (param_or 0 (params !! 0%nat)), nonzero_or default2 (param_or 0 (params !! 1%nat))).
Definition canonicalize_params_decstbm (params : list (list Z)) (sz : Size) : Z * Z :=
  (nonzero_or 1 (param_or 0 (params !! 0%nat)), nonzero_or (s_rows sz) (param_or 0 (params !! 1%nat))).

Section perform.
Context `{UW : UnicodeWidth}.

(** [print] *)
Definition perform_print (c : Z) (w : WrappedScreen) : option WrappedScreen :=
  if (0x80 <=? c) && (c <? 0xa0) then Some (call (OnUnhandled (UnhandledChar c)) w)
  else on_screen (text c) w.

(** [execute] *)
Definition perform_execute (b : Z) (w : WrappedScreen) : option WrappedScreen :=
  match b with
  | 7 => Some (call AudibleBell w)
  | 8 => on_screen bs w
  | 9 => on_screen tab w
  | 10 => on_screen lf w
  | 11 => on_screen vt w
  | 12 => on_screen ff w
  | 13 => on_screen cr w
  | 14 | 15 => Some w
  | _ => Some (call (OnUnhandled (UnhandledControl b)) w)
  end.

(** [esc_dispatch] *)
Definition perform_esc (intermediates : bytes) (b : Z) (w : WrappedScreen) : option WrappedScreen :=
  match intermediates with
  | i :: rest => Some (call (OnUnhandled (UnhandledEscape (Some i) (head rest) b)) w)
  | [] =>
      match b with
      | 55 => on_screen (λ s, Some (decsc s)) w
      | 56 => on_screen (λ s, Some (decrc s)) w
      | 61 => on_screen (λ s, Some (deckpam s)) w
      | 62 => on_screen (λ s, Some (deckpnm s)) w
      | 77 => on_screen ri w
      | 99 => on_screen ris w
      | 103 => Some (call VisualBell w)
      | _ => Some (call (OnUnhandled (UnhandledEscape None None b)) w)
      end
  end.

(** [csi_dispatch] without intermediates *)
Definition perform_csi_plain (params : list (list Z)) (c : Z) (w : WrappedScreen) : option WrappedScreen :=
  let unhandled := UnhandledCsi None None params c in
  let n := canonicalize_params_1 params 1 in
  let m := canonicalize_params_1 params 0 in
  match c with
  | 64 => on_screen (ich n) w
  | 65 => on_screen (cuu n) w
  | 66 => on_screen (cud n) w
  | 67 => on_screen (cuf n) w
  | 68 => on_screen (cub n) w
  | 69 => on_screen (cnl n) w
  | 70 => on_screen (cpl n) w
  | 71 => on_screen (cha n) w
  | 72 => let '(row, col) := canonicalize_params_2 params 1 1 in on_screen (cup row col) w
  | 74 => on_screen_unhandled (ed m) unhandled w
  | 75 => on_screen_unhandled (el m) unhandled w
  | 76 => on_screen (il n) w
  | 77 => on_screen (dl n) w
  | 80 => on_screen (dch n) w
  | 83 => on_screen (su n) w
  | 84 => on_screen (sd n) w
  | 88 => on_screen (ech n) w
  | 100 => on_screen (vpa n) w
  | 109 => on_screen_unhandled (λ s, Some (sgr params s)) unhandled w
  | 114 =>
      let '(top, bottom) := canonicalize_params_decstbm params (size (grid (wrapped_screen w))) in
      on_screen (decstbm top bottom) w
  | 116 =>
      if bool_decide ((params !! 0%nat ≫= head) = Some 8) then
        let '(screen_rows, screen_cols) := VtScreen_size (wrapped_screen w) in
        Some (call (ResizeRequest (param_or screen_rows (params !! 1%nat)) (param_or screen_cols (params !! 2%nat))) w)
      else Some (call (OnUnhandled unhandled) w)
  | _ => Some (call (OnUnhandled unhandled) w)
  end.

(** [csi_dispatch] *)
Definition perform_csi (params : list (list Z)) (intermediates : bytes) (c : Z) (w : WrappedScreen) :
    option WrappedScreen :=
  match intermediates with
  | [] => perform_csi_plain params c w
  | i :: rest =>
      let unhandled := UnhandledCsi (Some i) (head rest) params c in
      if i =? 63 then
        match c with
        | 74 => on_screen_unhandled (decsed (canonicalize_params_1 params 0)) unhandled w
        | 75 => on_screen_unhandled (decsel (canonicalize_params_1 params 0)) unhandled w
        | 104 => on_screen_unhandled (decset params) unhandled w
        | 108 => on_screen_unhandled (decrst params) unhandled w
        | _ => Some (call (OnUnhandled unhandled) w)
        end
      else Some (call (OnUnhandled unhandled) w)
  end.

(** [osc_dispatch] *)
Definition all_in (set l : bytes) : bool := forallb (λ b, bool_decide (b ∈ set)) l.

Definition perform_osc (params : list bytes) (w : WrappedScreen) : WrappedScreen :=
  let title parts := separated (lit ";") parts in
  let unhandled := call (OnUnhandled (UnhandledOsc params)) w in
  match params with
  | [48] :: (_ :: _) as parts =>
      call (SetWindowTitle (title (tail parts))) (call (SetWindowIconName (title (tail parts))) w)
  | [49] :: (_ :: _) as parts => call (SetWindowIconName (title (tail parts))) w
  | [50] :: (_ :: _) as parts => call (SetWindowTitle (title (tail parts))) w
  | [[53; 50]; ty; data] =>
      if all_in CLIPBOARD_SELECTOR ty then
        if bool_decide (data = [63]) then call (PasteFromClipboard ty) w
        else if all_in BASE64 data then call (CopyToClipboard ty data) w
        else unhandled
      else unhandled
  | _ => unhandled
  end.

(** [vte::Perform] for [WrappedScreen]; [hook] is the trait's empty default. *)
Definition perform (e : VteEvent) (w : WrappedScreen) : option WrappedScreen :=
  match e with
  | Print c => perform_print c w
  | Execute b => perform_execute b w
  | Hook => Some w
  | OscDispatch params => Some (perform_osc params w)
  | CsiDispatch params intermediates c => perform_csi params intermediates c w
  | EscDispatch intermediates b => perform_esc intermediates b w
  end.

(** [Parser::process] with a new parser *)
Definition process `{VTE : Vte} (l : bytes) (s : VtScreen) : option WrappedScreen :=
  for_each (vte_advance vte_new l).2 perform (mkWrappedScreen s []).
End perform.

(** ** The instance *)
Definition unhandled_of (c : Callback) : option Unhandled :=
  match c with OnUnhandled u => Some u | _ => None end.

Definition process_reported `{UnicodeWidth} `{Vte} (s : VtScreen) (l : bytes) : option (VtScreen * list Unhandled) :=
  w ← process l s;
  Some (wrapped_screen w, omap unhandled_of (callbacks w)).

Definition cell_chars (s : VtScreen) (row col : Z) : option (option (list Z)) :=
  t ← cell_text s row col;
  Some (option_map utf8_chars t).

#[export] Instance vt100 `{UW : UnicodeWidth} `{VTE : Vte} `{IT : Itoa} : Vt100 := {|
  Screen := VtScreen;
  screen_new rows cols := VtScreen_new (mkSize rows cols) 0;
  screen_size := VtScreen_size;
  screen_set_size := VtScreen_set_size;
  screen_cell := cell_chars;
  screen_process := process_reported;
  state_formatted := VtScreen_state_formatted;
  state_diff := VtScreen_state_diff;
|}.
