(* ===== verification/Vt100ScreenInv.v ===== *)
(** * Well-formed screens

    Every event of the parser keeps the screen well formed and does not panic, on
    screens of at least two rows and two columns. *)

From S2P Require Import Prelude Limits TerminalWidth Emulator Vt100Cell Vt100Row Vt100RowInv Vt100Grid Vt100GridInv Vt100Screen Vt100Parser.

Local Open Scope Z_scope.

(** ** One row of a grid *)
Lemma drawing_cell_row g a r b p :
  rows g = a ++ r :: b → p_row p = len a → drawing_cell p g = Row_get (p_col p) r.
Proof. intros Hg Hp. unfold drawing_cell, drawing_row. by rewrite Hg, (index_app a b r). Qed.

Lemma update_cell_row g a r r' b p f :
  rows g = a ++ r :: b → p_row p = len a → Row_update (p_col p) f r = Some r' →
  update_cell p f g = Some (set_rows (a ++ r' :: b) g).
Proof. intros Hg Hp Hf. unfold update_cell, update_row. by rewrite Hg, (update_app a b r r'). Qed.

Lemma update_row_row g a r r' b i f :
  rows g = a ++ r :: b → i = len a → f r = Some r' → update_row i f g = Some (set_rows (a ++ r' :: b) g).
Proof. intros Hg Hp Hf. unfold update_row. by rewrite Hg, (update_app a b r r'). Qed.

(** A row of the grid replaced by another. *)
Lemma live_replace `{UW : UnicodeWidth} `{D : Discipline} sz g a r r' b :
  live sz g → rows g = a ++ r :: b → row_ok (s_cols sz) r' → live sz (set_rows (a ++ r' :: b) g).
Proof.
  intros Hg Heq Hr. pose proof (go_row _ _ (proj1 Hg)) as Hf. rewrite Heq in Hf.
  apply Forall_app in Hf as [? Hf]. apply Forall_cons in Hf as [? ?].
  apply live_set_rows; [done| |by apply Forall_app; split; [|constructor]].
  rewrite <- (proj2 Hg), Heq. apply len_app_cons.
Qed.

Section text.
Context `{UW : UnicodeWidth} {UWL : UnicodeWidthLaws UW} `{D : Discipline}.
Context (sz : Size) (Hsz : size_safe sz).

(** A combining character joins the character before it. *)
Lemma append_before_ok row col c g :
  live sz g → 0 ≤ row < s_rows sz → 1 ≤ col ≤ s_cols sz → printable c → width c = Some 0 →
  succeeds (append_before row col c g) (live sz).
Proof using Hsz UWL.
  intros Hg Hr Hc Hch Hwc. unfold append_before. rewrite (sub16_Some col 1) by lia. cbn [mbind option_bind].
  destruct (live_row sz g row Hg Hr) as (a & r & b & Heq & Ha & Hrow & _).
  rewrite (drawing_cell_row g a r b) by done. cbn [p_col].
  pose proof Hrow as (Hl & Hp & Hwr). pose proof (proj1 Hch) as Hsc.
  assert (∀ x d d' y, cells r = x ++ d :: y → Cell_append c d = Some d' → filled d' = true →
    paired (x ++ d' :: y) → live sz (set_rows (a ++ mkRow (x ++ d' :: y) (wrapped r) :: b) g)) as Hlive.
  { intros x d d' y Hx Hd' Hf Hpd. apply (live_replace sz g a r); [done|done|].
    split_and!; [by rewrite <- Hl, Hx, (len_app_cons x y d d')|done|by apply (wrap_ok_replace x d)]. }
  pose proof (paired_around _ (col - 1) Hp ltac:(lia)) as H.
  inversion H as [x d y Hpx Hn Hpy Hx Hi|x d e y Hpx Hw Hs Hpy Hx Hi|x d e y Hpx Hw Hs Hpy Hx Hi]; symmetry in Hx.
  - rewrite (Row_get_app x d y r) by done. cbn [mbind option_bind]. rewrite (proj2 (narrow_flags _ Hn)).
    destruct Hn as (l & Hn & Hl0). destruct (Cell_append_is _ _ _ c _ Hn Hsc) as (d' & Hd' & Hd).
    assert (text_of false (appended l c)) as Ht by (apply text_appended; naive_solver).
    cbn [mbind option_bind]. erewrite update_cell_row; [|done|done|by apply (Row_update_app x d d' y)].
    apply succeeds_ret. apply (Hlive x d); [done|done|by eapply filled_text, text_of_nonempty|].
    apply paired_app; [done|]. apply paired_narrow; [|done]. exists (appended l c). split; [done|by right].
  - rewrite (Row_get_app x d (e :: y) r) by done. cbn [mbind option_bind]. rewrite (proj2 (wide_flags _ Hw)).
    destruct Hw as (l & Hw & Hl0). destruct (Cell_append_is _ _ _ c _ Hw Hsc) as (d' & Hd' & Hd).
    assert (text_of true (appended l c)) as Ht by (apply text_appended; naive_solver).
    cbn [mbind option_bind]. erewrite update_cell_row; [|done|done|by apply (Row_update_app x d d' (e :: y))].
    apply succeeds_ret. apply (Hlive x d); [done|done|by eapply filled_text, text_of_nonempty|].
    apply paired_app; [done|]. apply paired_wide; [by exists (appended l c)|done|done].
  - rewrite (Row_get_app2 x d e y r) by done. cbn [mbind option_bind]. rewrite (proj2 (second_flags _ Hs)).
    destruct Hw as (l & Hw & Hl0). destruct (Cell_append_is _ _ _ c _ Hw Hsc) as (d' & Hd' & Hd).
    assert (text_of true (appended l c)) as Ht by (apply text_appended; naive_solver).
    pose proof (len_nonneg x). rewrite sub16_Some by lia. cbn [mbind option_bind].
    replace (col - 2) with (len x) by lia.
    erewrite update_cell_row; [|done|done|by apply (Row_update_app x d d' (e :: y))].
    apply succeeds_ret. apply (Hlive x d); [done|done|by eapply filled_text, text_of_nonempty|].
    apply paired_app; [done|]. apply paired_wide; [by exists (appended l c)|done|done].
Qed.

Lemma text_combining_ok c g :
  live sz g → printable c → width c = Some 0 → succeeds (text_combining c g) (live sz).
Proof using Hsz UWL.
  intros Hg Hc Hw. unfold text_combining. pose proof (live_pos sz g Hg) as [Hr Hcol].
  destruct (Z.ltb_spec 0 (p_col (pos g))); [apply append_before_ok; [done|done|lia|done|done]|].
  destruct (Z.ltb_spec 0 (p_row (pos g))); [|by apply succeeds_ret].
  destruct (live_row sz g (p_row (pos g) - 1) Hg ltac:(lia)) as (a & r & b & Heq & Ha & _).
  unfold drawing_row. rewrite Heq, (index_app a b r) by done. cbn [mbind option_bind].
  destruct (wrapped r); [|by apply succeeds_ret].
  rewrite (live_size sz g Hg). apply append_before_ok; [done|lia|safe|done|done].
Qed.

(** A wrap is only noted when the last column is in use. *)
Lemma text_wraps_ok w g :
  live sz g → 0 ≤ w ≤ 2 →
  succeeds (text_wraps w g) (λ wrap, wrap = true → ∀ r, index (p_row (pos g)) (rows g) = Some r → last_filled (cells r)).
Proof using Hsz.
  intros Hg Hw. unfold text_wraps. pose proof (live_pos sz g Hg) as [Hr _].
  rewrite (live_size sz g Hg), sub16_Some by safe. cbn [mbind option_bind].
  destruct (Z.ltb_spec (s_cols sz - w) (p_col (pos g))); [|by apply succeeds_ret].
  rewrite (last_col_Some sz Hsz g (live_size sz g Hg)). cbn [mbind option_bind].
  destruct (drawing_cell_Some sz (mkPos (p_row (pos g)) (s_cols sz - 1)) g Hg) as (r & c & Hdr & Hgc & Hrow & ->);
    [done|safe|]. apply succeeds_ret. intros Hf r' Hr'. unfold drawing_row in Hdr. cbn in Hdr. simplify_eq.
    unfold Row_get in Hgc. cbn in Hgc. destruct (cells r) as [|z a _] eqn:Hcs using rev_ind; [by unfold index in Hgc; destruct (0 <=? _)|].
    destruct Hrow as [Hl _]. rewrite Hcs, len_app in Hl. change (len [z]) with 1 in Hl.
    rewrite (index_app a [] z) in Hgc by lia. injection Hgc as ->. by apply last_filled_app, last_filled_one.
Qed.

(** The cell at [i] with the halves of wide characters around it cleared. *)
Lemma detached cols i r :
  row_ok cols r → 0 ≤ i < cols →
  ∃ x d y, cells r = x ++ d :: y ∧ len x = i ∧ (∃ l w k, cell_is l w k d) ∧
    ((paired x ∧ is_wide_continuation d = false) ∨
     (∃ x' e, x = x' ++ [e] ∧ paired x' ∧ wide_half e ∧ is_wide d = false ∧ is_wide_continuation d = true)) ∧
    ((paired y ∧ is_wide d = false) ∨
     (∃ e y', y = e :: y' ∧ second_half e ∧ paired y' ∧ is_wide d = true)).
Proof using.
  intros (Hl & Hp & _) Hi. rewrite <- Hl in Hi. pose proof (paired_around _ _ Hp Hi) as H.
  inversion H as [x d y Hpx Hn Hpy Hx Hix|x d e y Hpx Hw Hs Hpy Hx Hix|x d e y Hpx Hw Hs Hpy Hx Hix]; symmetry in Hx.
  - destruct (narrow_flags _ Hn). exists x, d, y. split_and!; auto with cells.
  - destruct (wide_flags _ Hw). exists x, d, (e :: y). split_and!; [done|done|auto with cells|by left|right].
    exists e, y. done.
  - destruct (second_flags _ Hs). exists (x ++ [d]), e, y.
    split_and!; [by rewrite <- app_assoc|by rewrite len_app|auto with cells|right; by exists x, d|by left].
Qed.

(** What [text_printing] does to the row before the second half: the character is in
    its cell and both sides are well formed. *)
Lemma text_printing_row c w a g A r B :
  live sz g → rows g = A ++ r :: B → p_row (pos g) = len A → row_ok (s_cols sz) r →
  p_col (pos g) < s_cols sz → is_scalar c → attrs_ok a →
  ∃ x d y, len x = p_col (pos g) ∧ paired x ∧ paired y ∧ len (x ++ d :: y) = s_cols sz ∧
    cell_is [c] (1 <? default 1 (width c)) false d ∧ cell_attrs d = a ∧ wrap_ok (mkRow (x ++ d :: y) (wrapped r)) ∧
    text_printing c w a g =
      (let g := col_inc 1 (set_rows (A ++ mkRow (x ++ d :: y) (wrapped r) :: B) g) in
       if 1 <? w then text_second_half a g else Some g).
Proof using Hsz UWL.
  intros Hg Heq HA Hrow Hc Hch Ha. pose proof (live_pos sz g Hg) as [Hpr Hpc].
  destruct (detached (s_cols sz) (p_col (pos g)) r Hrow ltac:(lia)) as (x & d & y & Hx & Hlx & (l & w' & k & Hd) & Hleft & Hright).
  assert (len x + len y + 1 = s_cols sz) as Hlen by (rewrite <- (proj1 Hrow), Hx, len_app, len_cons; lia).
  unfold text_printing. rewrite (drawing_cell_row g A r B) by done. rewrite <- Hlx, (Row_get_app x d y r) by done.
  cbn [mbind option_bind].
  assert (∃ x1, len x1 = len x ∧ paired x1 ∧
    (if is_wide_continuation d
     then previous ← sub16 (len x) 1; update_cell (mkPos (p_row (pos g)) previous) (λ c, Some (Cell_clear a c)) g
     else Some g) = Some (set_rows (A ++ mkRow (x1 ++ d :: y) (wrapped r) :: B) g)) as (x1 & Hl1 & Hp1 & ->).
  { destruct Hleft as [[Hpx ->]|(x' & e & -> & Hpx & He & _ & ->)].
    - exists x. split_and!; [done|done|]. replace (mkRow (x ++ d :: y) (wrapped r)) with r by (destruct r; cbn in *; congruence).
      rewrite <- Heq. by destruct g.
    - exists (x' ++ [Cell_clear a e]). rewrite !len_app. split_and!; [done|apply paired_app; auto with cells|].
      pose proof (len_nonneg x'). change (len [e]) with 1 in *. rewrite (sub16_Some (len x' + 1) 1) by lia. cbn [mbind option_bind].
      eapply update_cell_row; [done|done|]. cbn [p_col]. replace (len x' + 1 - 1) with (len x') by lia.
      rewrite <- app_assoc in Hx |- *. by apply (Row_update_app x' e (Cell_clear a e) (d :: y)). }
  cbn [mbind option_bind]. set (r1 := mkRow (x1 ++ d :: y) (wrapped r)).
  rewrite (drawing_cell_row _ A r1 B) by done. cbn [pos set_rows]. rewrite <- Hlx, <- Hl1, (Row_get_app x1 d y r1) by done.
  cbn [mbind option_bind].
  assert (∃ y1, len y1 = len y ∧ paired y1 ∧ (last_filled y → last_filled y1) ∧
    (if is_wide d
     then next ← add16 (len x1) 1; update_cell (mkPos (p_row (pos g)) next) (Cell_set 32 a) (set_rows (A ++ r1 :: B) g)
     else Some (set_rows (A ++ r1 :: B) g)) = Some (set_rows (A ++ mkRow (x1 ++ d :: y1) (wrapped r) :: B) g))
    as (y1 & Hly & Hpy & Hend & ->).
  { destruct Hright as [[Hpy ->]|(e & y' & -> & He & Hpy & ->)]; [by exists y|].
    destruct (Cell_set_is _ _ _ 32 a _ (proj1 He) ltac:(left; lia) Ha) as (e' & He' & Hise).
    exists (e' :: y'). rewrite !len_cons. split_and!; [done| | |].
    - apply paired_narrow; [|done]. exists [32]. rewrite (width_ascii 32) in Hise by lia. split; [done|right].
      apply text_base; rewrite ?width_ascii by lia; [|done|done|done]. split; [left|]; lia.
    - intros Hf. destruct y' as [|z y']; [by apply last_filled_one, (filled_text _ _ _ _ Hise)|].
      apply (last_filled_app [e']), (last_filled_tail [e]); [done|exact Hf].
    - rewrite add16_Some by safe. cbn [mbind option_bind]. erewrite update_cell_row; [|done|done|]; cycle 1.
      { cbn [p_col]. by apply (Row_update_app2 x1 d e e' y' r1). }
      done. }
  cbn [mbind option_bind]. destruct (Cell_set_is _ _ _ c a _ Hd Hch Ha) as (d' & Hd' & Hisd).
  erewrite update_cell_row; [|done|done|]; cycle 1.
  { cbn [p_col pos set_rows]. rewrite <- Hlx, <- Hl1. by apply (Row_update_app x1 d d' y1). }
  exists x1, d', y1. split_and!; [done|done|done| |done|by eapply Cell_set_attrs| |done].
  { rewrite len_app, len_cons. lia. }
  destruct y as [|z y].
  - destruct y1 as [|? y1]; [by apply wrap_ok_filled, (filled_text _ _ _ _ Hisd)|]. rewrite !len_cons in Hly.
    change (len (@nil Cell)) with 0 in Hly. pose proof (len_nonneg y1). lia.
  - change (x1 ++ d' :: y1) with (x1 ++ [d'] ++ y1). rewrite app_assoc.
    apply (wrap_ok_end (x ++ [d]) _ (z :: y)); [apply Hrow|by rewrite Hx, <- app_assoc|done|done].
Qed.

Lemma second_half_clear d : (∃ l w k, cell_is l w k d) →
  second_half (set_wide_continuation true (Cell_clear Attrs_default d)).
Proof using. intros (l & w & k & Hd). split; [|done]. by apply (set_second_is (clear_is Hd _ attrs_ok_default)). Qed.

(** The second half of a wide character takes the next cell, and clears what was there. *)
Lemma text_second_half_row a g A r B x d y :
  attrs_ok a → rows g = A ++ r :: B → cells r = x ++ d :: y → size g = sz →
  p_row (pos g) = len A → p_col (pos g) = len x + 1 → len (cells r) = s_cols sz → len x + 1 < s_cols sz →
  paired x → wide_half d → paired y → wrap_ok r →
  ∃ r', row_ok (s_cols sz) r' ∧
    (∃ e y', cells r' = x ++ d :: e :: y' ∧ is_wide_continuation e = true) ∧
    text_second_half a g = Some (col_inc 1 (set_rows (A ++ r' :: B) g)).
Proof using Hsz.
  intros Ha Heq Hx Hs HA Hc Hl Hlt Hpx Hd Hpy Hwr. unfold text_second_half.
  destruct y as [|e y]. { rewrite Hx, len_app in Hl. change (len [d]) with 1 in Hl. lia. }
  rewrite (drawing_cell_row g A r B) by done. rewrite Hc, (Row_get_app2 x d e y r) by done. cbn [mbind option_bind].
  assert (second_half (set_wide_continuation true (Cell_clear Attrs_default e))) as Hsecond.
  { apply second_half_clear. inversion Hpy; auto with cells. }
  assert (∀ y' wr, paired y' → len y' = len y → (strict = true → wr = true → y' = [] ∨ last_filled y') →
    row_ok (s_cols sz) (mkRow (x ++ d :: set_wide_continuation true (Cell_clear Attrs_default e) :: y') wr)) as Hok.
  { intros y' wr Hy' Hly Hend. split_and!; cbn.
    - rewrite <- Hl, Hx, !len_app, !len_cons. lia.
    - apply paired_app; [done|]. by apply paired_wide.
    - intros Hst Hw. cbn. destruct (Hend Hst Hw) as [-> | Hy].
      + apply last_filled_app, (last_filled_app [d]), last_filled_one. auto with cells.
      + by apply last_filled_app, (last_filled_app [d; _]). }
  assert (∀ z y', cells r = z ++ y' → strict = true → wrapped r = true → y' = [] ∨ last_filled y') as Hkeep.
  { intros z y' Hz Hst Hw. destruct y'; [by left|right]. specialize (Hwr Hst Hw). rewrite Hz in Hwr.
    by apply last_filled_tail in Hwr. }
  pose proof (proj2 (second_flags _ Hsecond)) as Hsec.
  inversion Hpy as [|? ? He Hy|? f y' He Hf Hy]; subst.
  - rewrite (proj1 (narrow_flags _ He)). cbn [mbind option_bind].
    erewrite update_cell_row; [|done|done|by rewrite Hc; by eapply (Row_update_app2 x d e _ y)].
    eexists. split_and!; [apply Hok; [done|done|]|by eauto|done].
    apply (Hkeep (x ++ [d; e])). by rewrite Hx, <- app_assoc.
  - rewrite (proj1 (wide_flags _ He)). pose proof (len_nonneg x). rewrite add16_Some by safe. cbn [mbind option_bind].
    erewrite update_cell_row; [|done|done|]; cycle 1.
    { cbn [p_col]. replace (len x + 1 + 1) with (len (x ++ [d]) + 1) by (rewrite len_app; done).
      eapply (Row_update_app2 (x ++ [d]) e f _ y'); [by rewrite <- app_assoc|done]. }
    cbn [mbind option_bind]. rewrite (last_col_Some (size g) Hsz) by done. cbn [mbind option_bind].
    set (r1 := mkRow ((x ++ [d]) ++ e :: Cell_clear a f :: y') (wrapped r)).
    assert (∃ wr, (strict = true → wr = true → last_filled (Cell_clear a f :: y')) ∧
       (if len x + 1 + 1 =? s_cols (size g) - 1
       then update_row (p_row (pos g)) (λ r0, Some (Row_wrap false r0)) (set_rows (A ++ r1 :: B) g)
       else Some (set_rows (A ++ r1 :: B) g)) = Some (set_rows (A ++ mkRow (cells r1) wr :: B) g)) as (wr & Hwr1 & ->).
    { destruct (Z.eqb_spec (len x + 1 + 1) (s_cols (size g) - 1)) as [|Hne].
      - exists false. split; [done|]. by erewrite update_row_row; [|done|done|done].
      - exists (wrapped r). split; [|done]. intros Hst Hw.
        destruct (Hkeep (x ++ [d; e; f]) y' ltac:(by rewrite Hx, <- app_assoc) Hst Hw) as [->|Hfy];
          [|by apply (last_filled_app [_])].
        rewrite Hx, len_app in Hl. change (len [d; e; f]) with 3 in Hl. lia. }
    cbn [mbind option_bind].
    erewrite update_cell_row; [|done|done|]; cycle 1.
    { rewrite Hc. eapply (Row_update_app2 x d e _ (Cell_clear a f :: y')); [|done]. cbn. by rewrite <- app_assoc. }
    eexists. split_and!; [| |done]; [|by eauto]. apply Hok; [|by rewrite !len_cons|by auto].
    apply paired_narrow; [auto with cells|done].
Qed.

Lemma text_printing_ok c a g :
  live sz g → printable c → bool_decide (width c = None) && (c <? 256) = false → attrs_ok a → 1 ≤ default 1 (width c) ≤ 2 →
  p_col (pos g) + default 1 (width c) ≤ s_cols sz →
  succeeds (text_printing c (default 1 (width c)) a g) (live sz).
Proof using Hsz UWL.
  intros Hg Hch Hskip Ha Hw Hfit. pose proof (live_pos sz g Hg) as [Hpr Hpc].
  destruct (live_row sz g _ Hg Hpr) as (A & r & B & Heq & HA & Hrow & _).
  destruct (text_printing_row c (default 1 (width c)) a g A r B)
    as (x & d & y & Hlx & Hpx & Hpy & Hlen & Hd & _ & Hwr & ->); try done; [lia|apply Hch|].
  assert (text_of (1 <? default 1 (width c)) [c]) as Ht by (by apply text_base; [| |lia|]).
  destruct (Z.ltb_spec 1 (default 1 (width c))) as [Hwide|Hnarrow]; cbn zeta.
  - destruct (text_second_half_row a (col_inc 1 (set_rows (A ++ mkRow (x ++ d :: y) (wrapped r) :: B) g)) A
      (mkRow (x ++ d :: y) (wrapped r)) B x d y) as (r' & Hr' & _ & ->); try done.
    + exact (live_size sz g Hg).
    + safe.
    + lia.
    + by exists [c].
    + apply succeeds_ret. cbn. apply (live_moved sz (set_rows (A ++ r' :: B) g)).
      * by apply (live_replace sz g A r).
      * done.
      * safe.
  - apply succeeds_ret. apply (live_moved sz (set_rows (A ++ mkRow (x ++ d :: y) (wrapped r) :: B) g)).
    + apply (live_replace sz g A r); [done|done|]. split_and!; [done| |done]. apply paired_app; [done|].
      apply paired_narrow; [|done]. exists [c]. split; [done|by right].
    + done.
    + safe.
Qed.

Lemma grid_text_ok c a g : live sz g → is_scalar c → attrs_ok a → succeeds (grid_text c a g) (live sz).
Proof using Hsz UWL.
  intros Hg Hc Ha. unfold grid_text. destruct (_ && _) eqn:Hskip; [by apply succeeds_ret|].
  assert (printable c) as Hpr.
  { split; [done|]. destruct (decide (32 ≤ c ∧ (c < 127 ∨ 160 ≤ c))) as [|Hctl]; [done|].
    rewrite width_control, bool_decide_eq_true_2 in Hskip by (done || lia). lia. }
  assert (0 ≤ default 1 (width c) ≤ 2) as Hw.
  { destruct (width c) as [w|] eqn:E; cbn; [by eapply width_range|lia]. }
  unfold try_from. replace (_ && _) with true by (unfold U16_MAX; lia). cbn [mbind option_bind].
  eapply succeeds_bind; [by apply text_wraps_ok|]. intros wrap Hwrap.
  eapply succeeds_bind; [by apply (col_wrap_ok sz Hsz)|]. intros g' [Hg' Hfit].
  destruct (Z.eqb_spec (default 1 (width c)) 0).
  { apply text_combining_ok; [done|done|]. destruct (width c); cbn in *; [congruence|done]. }
  apply text_printing_ok; [done|done|done|done|lia|done].
Qed.
End text.

(** ** Screens *)
Record screen_ok `{UW : UnicodeWidth} `{D : Discipline} (sz : Size) (s : VtScreen) : Prop := {
  so_primary : live sz (primary_grid s);
  so_alternate : grid_ok sz (alternate_grid s);
  so_current : mode MODE_ALTERNATE_SCREEN s = true → live sz (alternate_grid s);
  so_attrs : attrs_ok (attrs s);
  so_saved_attrs : attrs_ok (saved_attrs s);
  so_modes : is_u8 (modes s);
}.

(** The modes other than the alternate screen do not touch its flag. *)
Definition plain_mode (m : Z) : Prop :=
  m ∈ [MODE_APPLICATION_KEYPAD; MODE_APPLICATION_CURSOR; MODE_HIDE_CURSOR; MODE_BRACKETED_PASTE; MODE_REVERSE_VIDEO].

Lemma modes_flag on n :
  is_u8 n →
  is_u8 (set_flag on MODE_ALTERNATE_SCREEN n) ∧
  has_flag MODE_ALTERNATE_SCREEN (set_flag on MODE_ALTERNATE_SCREEN n) = on ∧
  Forall (λ m, is_u8 (set_flag on m n) ∧
            has_flag MODE_ALTERNATE_SCREEN (set_flag on m n) = has_flag MODE_ALTERNATE_SCREEN n)
    [MODE_APPLICATION_KEYPAD; MODE_APPLICATION_CURSOR; MODE_HIDE_CURSOR; MODE_BRACKETED_PASTE; MODE_REVERSE_VIDEO].
Proof.
  intros Hu. pattern n. refine (all_u8 _ _ n Hu). destruct on; vm_compute; reflexivity.
Qed.

Section screen.
Context `{UW : UnicodeWidth} `{D : Discipline}.
Context (sz : Size) (Hsz : size_safe sz).

Lemma screen_grid s : screen_ok sz s → live sz (grid s).
Proof using. intros []. unfold grid. destruct (mode _ s) eqn:?; auto. Qed.

Lemma screen_set_grid g s : screen_ok sz s → live sz g → screen_ok sz (set_grid g s).
Proof using.
  intros [] Hg. unfold set_grid. destruct (mode _ s) eqn:E; split; cbn; auto; [apply Hg|].
  intros H. change (mode MODE_ALTERNATE_SCREEN s = true) in H. congruence.
Qed.

Lemma screen_set_modes m on s : screen_ok sz s → plain_mode m → screen_ok sz (set_modes (set_flag on m (modes s)) s).
Proof using.
  intros [] Hm. destruct (modes_flag on (modes s)) as (_ & _ & Hall); [done|].
  apply (proj1 (Forall_forall _ _) Hall) in Hm as [? Hf].
  split; cbn; auto. unfold mode. cbn. rewrite Hf. done.
Qed.

Lemma screen_set_attrs a s : screen_ok sz s → attrs_ok a → screen_ok sz (set_attrs a s).
Proof using. intros [] Ha. by split. Qed.

Lemma screen_set_mouse_mode m s : screen_ok sz s → screen_ok sz (set_mouse_mode m s).
Proof using. by intros []. Qed.
Lemma screen_set_mouse_encoding e s : screen_ok sz s → screen_ok sz (set_mouse_encoding e s).
Proof using. by intros []. Qed.

Lemma screen_clear_mouse_mode m s : screen_ok sz s → screen_ok sz (clear_mouse_mode m s).
Proof using. intros. unfold clear_mouse_mode. case_bool_decide; [by apply screen_set_mouse_mode|done]. Qed.
Lemma screen_clear_mouse_encoding e s : screen_ok sz s → screen_ok sz (clear_mouse_encoding e s).
Proof using. intros. unfold clear_mouse_encoding. case_bool_decide; [by apply screen_set_mouse_encoding|done]. Qed.

Lemma on_grid_ok f s :
  screen_ok sz s → (∀ g, live sz g → succeeds (f g) (live sz)) → succeeds (on_grid f s) (screen_ok sz).
Proof using.
  intros Hs Hf. unfold on_grid. eapply succeeds_bind; [by apply Hf, screen_grid|].
  intros g Hg. apply succeeds_ret. by apply screen_set_grid.
Qed.

Lemma VtScreen_new_ok : succeeds (VtScreen_new sz 0) (screen_ok sz).
Proof using Hsz.
  unfold VtScreen_new. eapply succeeds_bind; [by apply Grid_new_ok|]. intros g Hg.
  eapply succeeds_bind; [by apply Grid_new_ok|]. intros alt Halt. apply succeeds_ret.
  split; cbn; try apply attrs_ok_default; [by apply allocate_rows_ok|done|done].
Qed.

Lemma enter_alternate_grid_ok s : screen_ok sz s → screen_ok sz (enter_alternate_grid s).
Proof using Hsz.
  intros Hs. unfold enter_alternate_grid.
  assert (screen_ok sz (set_grid (set_scrollback 0 (grid s)) s)) as Hs1.
  { apply screen_set_grid; [done|]. apply set_scrollback_ok; [by apply screen_grid|lia]. }
  set (s1 := set_grid _ s) in *. clearbody s1. destruct Hs1.
  destruct (modes_flag true (modes s1)) as (Hu & Hf & _); [done|].
  pose proof (allocate_rows_ok sz Hsz _ so_alternate0) as Hal.
  split; cbn; auto. apply Hal.
Qed.

Lemma exit_alternate_grid_ok s : screen_ok sz s → screen_ok sz (exit_alternate_grid s).
Proof using.
  intros []. destruct (modes_flag false (modes s)) as (Hu & Hf & _); [done|].
  split; try done. intros Hm.
  change (has_flag MODE_ALTERNATE_SCREEN (set_flag false MODE_ALTERNATE_SCREEN (modes s)) = true) in Hm. congruence.
Qed.

Lemma save_cursor_ok s : screen_ok sz s → screen_ok sz (save_cursor s).
Proof using.
  intros Hs. unfold save_cursor. assert (screen_ok sz (set_grid (Grid_save_cursor (grid s)) s)) as [] by
    (apply screen_set_grid; [done|]; by apply Grid_save_cursor_ok, screen_grid).
  by split.
Qed.

Lemma restore_cursor_ok s : screen_ok sz s → screen_ok sz (restore_cursor s).
Proof using.
  intros Hs. unfold restore_cursor. assert (screen_ok sz (set_grid (Grid_restore_cursor (grid s)) s)) as [] by
    (apply screen_set_grid; [done|]; by apply Grid_restore_cursor_ok, screen_grid).
  by split.
Qed.
End screen.

(** ** [sgr] *)
Lemma idx_ok i c : 0 ≤ i → idx i = Some c → color_ok c.
Proof.
  unfold idx, u16_to_u8. intros Hi. destruct (Z.ltb_spec U8_MAX i); [done|]. intros [= <-]. cbn. unfold is_u8. lia.
Qed.

Lemma rgb_ok r g b c : 0 ≤ r → 0 ≤ g → 0 ≤ b → rgb r g b = Some c → color_ok c.
Proof.
  unfold rgb, u16_to_u8. intros Hr Hg Hb. destruct (Z.ltb_spec U8_MAX r), (Z.ltb_spec U8_MAX g), (Z.ltb_spec U8_MAX b);
    try done. intros [= <-]. cbn. unfold is_u8. lia.
Qed.

Lemma sgr_color_ok n a a' : attrs_ok a → sgr_color n a = Some a' → attrs_ok a'.
Proof.
  intros Ha. unfold sgr_color, between.
  repeat match goal with |- context [if ?b then _ else _] => destruct b eqn:?; [intros [= <-]|] end; [..|done];
    match goal with
    | |- attrs_ok (set_fgcolor _ _) => apply attrs_ok_set_fgcolor
    | |- attrs_ok (set_bgcolor _ _) => apply attrs_ok_set_bgcolor
    end; try done; cbn; unfold is_u8, U8_MAX; lia.
Qed.

(** The codes that are not colors. *)
Lemma sgr_code_cases n a :
  sgr_code n a = sgr_color n a ∨
  (∃ a', sgr_code n a = Some a' ∧
     a' ∈ [Attrs_default; set_bold a; set_dim a; set_italic true a; set_underline true a; set_blink true a;
           set_inverse true a; set_hidden true a; set_normal_intensity a; set_italic false a;
           set_underline false a; set_blink false a; set_inverse false a; set_hidden false a;
           set_fgcolor DefaultColor a; set_bgcolor DefaultColor a]).
Proof.
  unfold sgr_code.
  repeat match goal with |- context [match ?x with _ => _ end] => is_var x; destruct x end;
    first [by left|right; eexists; split; [reflexivity|repeat first [by left|right]]].
Qed.

Lemma sgr_code_ok n a a' : attrs_ok a → sgr_code n a = Some a' → attrs_ok a'.
Proof.
  intros Ha Hn. destruct (sgr_code_cases n a) as [H|(x & H & Hx)]; [rewrite H in Hn; by eapply sgr_color_ok|].
  assert (x = a') as -> by congruence. clear H Hn.
  pose proof Ha as (_ & _ & Hm). destruct (mode_ok_set _ Hm) as (H1 & H2 & H3 & Hf).
  rewrite !Forall_cons in Hf. destruct Hf as ([] & [] & [] & [] & [] & _).
  revert Hx. apply Forall_forall.
  repeat (apply Forall_cons; split); try apply attrs_ok_default; try (by apply attrs_ok_set_mode).
  - by apply attrs_ok_set_fgcolor.
  - by apply attrs_ok_set_bgcolor.
  - constructor.
Qed.

Lemma attrs_ok_set_color code c a : color_ok c → attrs_ok a → attrs_ok (set_color code c a).
Proof.
  intros. unfold set_color. destruct (code =? 38); [by apply attrs_ok_set_fgcolor|by apply attrs_ok_set_bgcolor].
Qed.

Lemma sgr_loop_ok iter a n :
  Forall (Forall is_u16) iter → attrs_ok a → attrs_ok (sgr_loop iter a n).1.
Proof.
  remember (length iter) as k eqn:Hk. assert (length iter ≤ k)%nat as Hle by lia. clear Hk.
  revert iter a n Hle. induction k as [|k IH]; intros [|param rest] a n Hle Hiter Ha; try done; [simpl in Hle; lia|].
  cbn [length] in Hle. apply Forall_cons in Hiter as [Hparam Hrest].
  cbn [sgr_loop]. destruct param as [|code param]; [apply IH; [lia|done|done]|].
  destruct param as [|kind param].
  - destruct ((code =? 38) || (code =? 48)).
    + destruct rest as [|[|kind [|? ?]] rest1]; try done.
      destruct (kind =? 2); [|destruct (kind =? 5); [|done]].
      * destruct rest1 as [|[|r [|]] [|[|g [|]] [|[|b [|]] rest2]]]; try done.
        rewrite !Forall_cons in Hrest. unfold is_u16 in Hrest. destruct (rgb r g b) eqn:Hc; [|done].
        apply IH; [cbn in Hle; lia|apply Hrest|]. apply attrs_ok_set_color; [|done].
        apply rgb_ok in Hc; [done|lia..].
      * destruct rest1 as [|[|i [|]] rest2]; try done.
        rewrite !Forall_cons in Hrest. unfold is_u16 in Hrest. destruct (idx i) eqn:Hc; [|done].
        apply IH; [cbn in Hle; lia|apply Hrest|]. apply attrs_ok_set_color; [|done].
        apply idx_ok in Hc; [done|lia..].
    + destruct (sgr_code code a) eqn:Hc; apply IH; try lia; try done. by eapply sgr_code_ok.
  - destruct param as [|x [|y [|z [|? ?]]]]; try (apply IH; [lia|done|done]);
      destruct (_ && _); try (apply IH; [lia|done|done]); rewrite !Forall_cons in Hparam; unfold is_u16 in Hparam.
    + destruct (idx x) eqn:Hc; [|done]. apply IH; [lia|done|]. apply attrs_ok_set_color; [|done].
      apply idx_ok in Hc; [done|lia].
    + destruct (rgb x y z) eqn:Hc; [|done]. apply IH; [lia|done|]. apply attrs_ok_set_color; [|done].
      apply rgb_ok in Hc; [done|lia..].
Qed.

Lemma sgr_ok `{UW : UnicodeWidth} `{D : Discipline} sz params s :
  screen_ok sz s → Forall (Forall is_u16) params → screen_ok sz (sgr params s).1.
Proof.
  intros Hs Hp. unfold sgr. case_bool_decide; [by apply screen_set_attrs, attrs_ok_default|].
  pose proof (sgr_loop_ok params (attrs s) 0 Hp (so_attrs _ _ Hs)) as Ha.
  destruct (sgr_loop params (attrs s) 0). by apply screen_set_attrs.
Qed.

(** ** Events *)
Lemma plain_modes :
  plain_mode MODE_APPLICATION_KEYPAD ∧ plain_mode MODE_APPLICATION_CURSOR ∧ plain_mode MODE_HIDE_CURSOR ∧
  plain_mode MODE_BRACKETED_PASTE ∧ plain_mode MODE_REVERSE_VIDEO.
Proof. unfold plain_mode. set_solver. Qed.

Section events.
Context `{UW : UnicodeWidth} {UWL : UnicodeWidthLaws UW} `{D : Discipline}.
Context (sz : Size) (Hsz : size_safe sz).

Implicit Types (s : VtScreen) (w : WrappedScreen).

(** The screen after an operation that reports what it does not handle. *)
Definition reports (P : VtScreen → Prop) (r : VtScreen * nat) : Prop := P r.1.

Lemma screen_modes_ok m on s :
  screen_ok sz s → plain_mode m → screen_ok sz (if on : bool then set_mode m s else clear_mode m s).
Proof using. intros Hs Hm. destruct on; by apply screen_set_modes. Qed.

Lemma on_grid_reports f s :
  screen_ok sz s → (∀ g, live sz g → succeeds (f g) (live sz)) →
  succeeds (s ← on_grid f s; Some (s, 0%nat)) (reports (screen_ok sz)).
Proof using.
  intros Hs Hf. eapply succeeds_bind; [by apply (on_grid_ok sz)|]. intros s' Hs'. by apply succeeds_ret.
Qed.

Lemma ed_ok m s : screen_ok sz s → succeeds (ed m s) (reports (screen_ok sz)).
Proof using Hsz.
  intros Hs. pose proof (so_attrs _ _ Hs). unfold ed.
  destruct (m =? 0), (m =? 1), (m =? 2); try (by apply succeeds_ret); apply on_grid_reports; try done; intros g Hg;
    try (by apply erase_all_forward_ok); try (by apply erase_all_backward_ok).
  apply succeeds_ret. by apply erase_all_ok.
Qed.

Lemma el_ok m s : screen_ok sz s → succeeds (el m s) (reports (screen_ok sz)).
Proof using Hsz.
  intros Hs. pose proof (so_attrs _ _ Hs). unfold el.
  destruct (m =? 0), (m =? 1), (m =? 2); try (by apply succeeds_ret); apply on_grid_reports; try done; intros g Hg;
    try (by apply erase_row_forward_ok); try (by apply erase_row_backward_ok).
  by apply erase_row_ok.
Qed.

Lemma decset_1049_ok s :
  screen_ok sz s →
  succeeds (g ← Grid_clear (alternate_grid (decsc s)); Some (enter_alternate_grid (set_alternate_grid g (decsc s)), 0%nat))
    (reports (screen_ok sz)).
Proof using Hsz.
  intros Hs. apply save_cursor_ok in Hs. unfold decsc. set (s1 := save_cursor s) in *. clearbody s1.
  eapply succeeds_bind.
  { apply (succeeds_mono _ (λ g, grid_ok sz g ∧ (len (rows (alternate_grid s1)) = len (rows g)))).
    - destruct (Grid_clear_ok sz Hsz (alternate_grid s1) (so_alternate _ _ Hs)) as (g & Hc & Hg).
      exists g. split; [done|]. split; [done|]. unfold Grid_clear in Hc.
      rewrite (last_row_Some sz Hsz) in Hc by apply (so_alternate _ _ Hs). injection Hc as <-. cbn. by rewrite len_fmap.
    - intros g Hg. exact Hg. }
  intros g [Hg Hl]. apply succeeds_ret. apply enter_alternate_grid_ok; [done|].
  destruct Hs. split; try done. intros Hm. split; [done|]. rewrite <- (proj2 (so_current0 Hm)). done.
Qed.

Lemma handled_ok s : screen_ok sz s → succeeds (Some (s, 0%nat)) (reports (screen_ok sz)).
Proof using. intros Hs. by apply succeeds_ret. Qed.

Lemma set_origin_mode_reports on s :
  screen_ok sz s → succeeds (s ← on_grid (set_origin_mode on) s; Some (s, 0%nat)) (reports (screen_ok sz)).
Proof using Hsz. intros Hs. apply on_grid_reports; [done|]. intros g Hg. by apply set_origin_mode_ok. Qed.

Ltac each_mode :=
  repeat match goal with |- context [match ?x with _ => _ end] => is_var x; destruct x end;
  first [by apply succeeds_ret|by apply decset_1049_ok|by apply set_origin_mode_reports|apply handled_ok];
  first [by apply screen_set_modes|by apply enter_alternate_grid_ok|by apply exit_alternate_grid_ok
        |by apply screen_set_mouse_mode|by apply screen_set_mouse_encoding
        |by apply screen_clear_mouse_mode|by apply screen_clear_mouse_encoding
        |by apply restore_cursor_ok, exit_alternate_grid_ok].

Lemma decset_param_ok param s : screen_ok sz s → succeeds (decset_param param s) (reports (screen_ok sz)).
Proof using Hsz. intros Hs. destruct plain_modes as (? & ? & ? & ? & ?). unfold decset_param. each_mode. Qed.

Lemma decrst_param_ok param s : screen_ok sz s → succeeds (decrst_param param s) (reports (screen_ok sz)).
Proof using Hsz. intros Hs. destruct plain_modes as (? & ? & ? & ? & ?). unfold decrst_param. each_mode. Qed.

Lemma each_param_ok f params s :
  (∀ p s, screen_ok sz s → succeeds (f p s) (reports (screen_ok sz))) → screen_ok sz s →
  succeeds (each_param f params s) (reports (screen_ok sz)).
Proof using.
  intros Hf Hs. apply for_each_succeeds; [done|]. intros p [s1 n] _ Hs1.
  eapply succeeds_bind; [by apply Hf|]. intros [s2 k] Hs2. by apply succeeds_ret.
Qed.

Definition wrapped_ok w : Prop := screen_ok sz (wrapped_screen w).

Lemma on_screen_ok f w :
  succeeds (f (wrapped_screen w)) (screen_ok sz) → succeeds (on_screen f w) wrapped_ok.
Proof using. intros Hf. unfold on_screen. eapply succeeds_bind; [done|]. intros s Hs. by apply succeeds_ret. Qed.

Lemma on_screen_unhandled_ok f u w :
  succeeds (f (wrapped_screen w)) (reports (screen_ok sz)) → succeeds (on_screen_unhandled f u w) wrapped_ok.
Proof using.
  intros Hf. unfold on_screen_unhandled. eapply succeeds_bind; [done|]. intros [s n] Hs. by apply succeeds_ret.
Qed.

Lemma on_screen_grid f w :
  wrapped_ok w → (∀ g, live sz g → succeeds (f g) (live sz)) → succeeds (on_screen (on_grid f) w) wrapped_ok.
Proof using. intros Hw Hf. apply on_screen_ok. by apply (on_grid_ok sz). Qed.

Lemma call_ok c w : wrapped_ok w → succeeds (Some (call c w)) wrapped_ok.
Proof using. intros Hw. by apply succeeds_ret. Qed.

Lemma perform_print_ok c w : wrapped_ok w → is_scalar c → succeeds (perform_print c w) wrapped_ok.
Proof using Hsz UWL.
  intros Hw Hc. unfold perform_print. destruct (_ && _); [by apply call_ok|].
  apply on_screen_ok. apply (on_grid_ok sz); [done|]. intros g Hg. apply grid_text_ok; [done|done|done|apply Hw].
Qed.

Lemma lf_ok w : wrapped_ok w → succeeds (on_screen lf w) wrapped_ok.
Proof using Hsz.
  intros Hw. apply on_screen_grid; [done|]. intros g Hg.
  eapply succeeds_bind; [by apply (row_inc_scroll_ok sz)|]. intros [g' n] [Hg' _]. by apply succeeds_ret.
Qed.

Lemma perform_execute_ok b w : wrapped_ok w → succeeds (perform_execute b w) wrapped_ok.
Proof using Hsz.
  intros Hw. unfold perform_execute.
  repeat match goal with |- context [match ?x with _ => _ end] => is_var x; destruct x end;
    try (by apply succeeds_ret); try (by apply call_ok); try (by apply lf_ok);
    apply on_screen_grid; try done; intros g Hg.
  - by apply (col_set_ok sz).
  - by apply (col_tab_ok sz).
  - apply succeeds_ret. by apply col_dec_ok.
Qed.

Lemma perform_esc_ok i b w : wrapped_ok w → succeeds (perform_esc i b w) wrapped_ok.
Proof using Hsz.
  intros Hw. destruct plain_modes as (? & _). unfold perform_esc.
  destruct i as [|i rest]; [|by apply call_ok].
  repeat match goal with |- context [match ?x with _ => _ end] => is_var x; destruct x end;
    try (by apply call_ok); try (by apply call_ok); try (apply on_screen_ok, succeeds_ret;
      first [by apply screen_set_modes|by apply save_cursor_ok|by apply restore_cursor_ok]).
  - apply on_screen_ok. unfold ris.
    destruct Hw as [[[] Hl] _ _ _ _ _]. destruct go_scrollback as (_ & -> & _). rewrite go_size. by apply VtScreen_new_ok.
  - apply on_screen_grid; [done|]. intros g Hg. by apply row_dec_scroll_ok.
Qed.

(** A parameter with a positive default is positive. *)
Lemma param_or_range params i :
  Forall (Forall is_u16) params → 0 ≤ param_or 0 (params !! i) ≤ U16_MAX.
Proof using.
  intros Hp. unfold param_or. destruct (params !! i) as [[|x l]|] eqn:E; try (unfold U16_MAX; lia).
  apply (Forall_lookup_1 _ _ _ _ Hp) in E. by apply Forall_cons in E as [? _].
Qed.

Lemma nonzero_or_pos d params i :
  Forall (Forall is_u16) params → 1 ≤ d ≤ U16_MAX → 1 ≤ nonzero_or d (param_or 0 (params !! i)) ≤ U16_MAX.
Proof using.
  intros Hp Hd. pose proof (param_or_range params i Hp). unfold nonzero_or.
  destruct (Z.eqb_spec (param_or 0 (params !! i)) 0); lia.
Qed.

Lemma on_screen_sub f n w :
  wrapped_ok w → 1 ≤ n → (∀ m g, 0 ≤ m → live sz g → succeeds (f m g) (live sz)) →
  succeeds (on_screen (λ s, m ← sub16 n 1; on_grid (f m) s) w) wrapped_ok.
Proof using.
  intros Hw Hn Hf. rewrite sub16_Some by lia. apply on_screen_grid; [done|]. intros g Hg. apply Hf; [lia|done].
Qed.

(** The operations with a count. *)
Lemma perform_counts n w :
  wrapped_ok w → 1 ≤ n ≤ U16_MAX →
  Forall (λ op : Z → VtScreen → option VtScreen, succeeds (on_screen (op n) w) wrapped_ok)
    [ich; cuu; cud; cuf; cub; cnl; cpl; cha; il; dl; dch; su; sd; ech; vpa].
Proof using Hsz.
  intros Hw Hn. repeat (apply Forall_cons; split); [..|constructor];
    try (apply on_screen_grid; [done|]; intros g Hg).
  - by apply (insert_cells_ok sz).
  - apply succeeds_ret, row_dec_clamp_ok; [done|done|lia].
  - apply (row_inc_clamp_ok sz); [done|done|lia].
  - apply (col_inc_clamp_ok sz); [done|done|lia].
  - apply succeeds_ret, col_dec_ok; [done|done|lia].
  - apply on_screen_ok. eapply succeeds_bind.
    { apply (on_grid_ok sz); [done|]. intros g Hg. by apply (col_set_ok sz). }
    intros s Hs. apply (on_grid_ok sz); [done|]. intros g Hg. apply (row_inc_clamp_ok sz); [done|done|lia].
  - apply on_screen_ok. eapply succeeds_bind.
    { apply (on_grid_ok sz); [done|]. intros g Hg. by apply (col_set_ok sz). }
    intros s Hs. apply (on_grid_ok sz); [done|]. intros g Hg. apply succeeds_ret, row_dec_clamp_ok; [done|done|lia].
  - apply on_screen_sub; [done|lia|]. intros m g Hm Hg. by apply (col_set_ok sz).
  - by apply (insert_lines_ok sz).
  - by apply (delete_lines_ok sz).
  - by apply (delete_cells_ok sz).
  - eapply succeeds_mono; [by apply (scroll_up_ok sz)|]. by intros g' [? _].
  - by apply (scroll_down_ok sz).
  - apply erase_cells_ok; [done|done|apply Hw].
  - apply on_screen_sub; [done|lia|]. intros m g Hm Hg. by apply (row_set_ok sz).
Qed.

Lemma perform_cup row col w :
  wrapped_ok w → 1 ≤ row → 1 ≤ col → succeeds (on_screen (cup row col) w) wrapped_ok.
Proof using Hsz.
  intros Hw Hr Hc. apply on_screen_ok. unfold cup. rewrite (sub16_Some row 1), (sub16_Some col 1) by lia.
  apply (on_grid_ok sz); [done|]. intros g Hg. apply (set_pos_ok sz); [done|done|cbn; lia..].
Qed.

Lemma perform_decstbm top bottom w :
  wrapped_ok w → 1 ≤ top → 1 ≤ bottom → succeeds (on_screen (decstbm top bottom) w) wrapped_ok.
Proof using Hsz.
  intros Hw Ht Hb. apply on_screen_ok. unfold decstbm. rewrite (sub16_Some top 1), (sub16_Some bottom 1) by lia.
  apply (on_grid_ok sz); [done|]. intros g Hg. apply (set_scroll_region_ok sz); [done|done|lia].
Qed.

Lemma perform_csi_plain_ok params c w :
  wrapped_ok w → Forall (Forall is_u16) params → succeeds (perform_csi_plain params c w) wrapped_ok.
Proof using Hsz.
  intros Hw Hp. unfold perform_csi_plain. cbn zeta.
  pose proof (nonzero_or_pos 1 params 0 Hp ltac:(done)) as Hn.
  pose proof (nonzero_or_pos 1 params 1 Hp ltac:(done)) as Hn1.
  pose proof (perform_counts _ w Hw Hn) as Hops. fold (canonicalize_params_1 params 1) in Hops.
  rewrite !Forall_cons in Hops. destruct Hops as (? & ? & ? & ? & ? & ? & ? & ? & ? & ? & ? & ? & ? & ? & ? & _).
  assert (1 ≤ nonzero_or (s_rows (size (grid (wrapped_screen w)))) (param_or 0 (params !! 1%nat))) as Hbot.
  { rewrite (live_size sz) by (by apply screen_grid). apply nonzero_or_pos; [done|safe]. }
  set (n := canonicalize_params_1 params 1) in *. clearbody n.
  repeat match goal with |- context [match ?x with _ => _ end] => is_var x; destruct x end;
    try (by apply call_ok); try done.
  all: try (apply on_screen_unhandled_ok; first [by apply ed_ok|by apply el_ok|
              apply succeeds_ret; unfold reports; by apply sgr_ok]).
  all: try (apply perform_cup; [done|apply Hn|apply Hn1]).
  all: try (apply perform_decstbm; [done|apply Hn|done]).
  case_bool_decide; [|by apply call_ok]. destruct (VtScreen_size _). by apply call_ok.
Qed.

Lemma perform_csi_ok params i c w :
  wrapped_ok w → Forall (Forall is_u16) params → succeeds (perform_csi params i c w) wrapped_ok.
Proof using Hsz.
  intros Hw Hp. unfold perform_csi. destruct i as [|i rest]; [by apply perform_csi_plain_ok|].
  destruct (i =? 63); [|by apply call_ok].
  repeat match goal with |- context [match ?x with _ => _ end] => is_var x; destruct x end;
    try (by apply call_ok); apply on_screen_unhandled_ok.
  all: first [by apply ed_ok|by apply el_ok|apply each_param_ok; [|done]; intros; first [by apply decset_param_ok|by apply decrst_param_ok]].
Qed.

Lemma perform_osc_ok params w : wrapped_ok w → wrapped_ok (perform_osc params w).
Proof using. intros Hw. unfold perform_osc. repeat case_match; done. Qed.

Lemma perform_ok e w : wrapped_ok w → event_typed e → succeeds (perform e w) wrapped_ok.
Proof using Hsz UWL.
  intros Hw He. destruct e as [c|b| |params|params i c|i b]; cbn in *.
  - by apply perform_print_ok.
  - by apply perform_execute_ok.
  - by apply succeeds_ret.
  - apply succeeds_ret. by apply perform_osc_ok.
  - by apply perform_csi_ok.
  - by apply perform_esc_ok.
Qed.

Lemma process_ok `{VTE : Vte} {VT : VteTyped VTE} l s :
  screen_ok sz s → succeeds (process l s) wrapped_ok.
Proof using Hsz UWL.
  intros Hs. unfold process. apply for_each_succeeds; [done|]. intros e w He Hw. apply perform_ok; [done|].
  by apply (proj1 (Forall_forall _ _) (vte_advance_typed vte_new l)).
Qed.
End events.
