(* ===== verification/Vt100Format.v ===== *)
(** * Formatting does not panic

    The writers of [attrs.rs], [row.rs], [grid.rs] and [screen.rs] succeed on every
    well-formed screen, whatever screen the difference is taken from. *)

From S2P Require Import Prelude Limits TerminalWidth Vt100Cell Vt100Row Vt100RowInv Vt100Grid Vt100GridInv Vt100Screen Vt100ScreenInv.

Local Open Scope Z_scope.

(** ** Loops over enumerated elements *)
Lemma for_each_enumerated {A S} (l : list A) (body : Z * A → S → option S) (I : Z → S → Prop) k s :
  I k s →
  (∀ i x s, k ≤ i < k + len l → x ∈ l → I i s → succeeds (body (i, x) s) (I (i + 1))) →
  succeeds (for_each (zip (seqZ k (len l)) l) body s) (I (k + len l)).
Proof.
  revert k s. induction l as [|x l IH]; intros k s Hs Hb.
  - change (len (@nil A)) with 0. rewrite Z.add_0_r. by apply succeeds_ret.
  - rewrite len_cons. pose proof (len_nonneg l). rewrite (seqZ_cons k) by lia. cbn [zip_with for_each].
    rewrite len_cons in Hb. eapply succeeds_bind; [apply Hb; [lia|by left|done]|]. intros s' Hs'.
    replace (k + (len l + 1)) with (k + 1 + len l) by lia. replace (Z.pred (len l + 1)) with (len l) by lia.
    replace (Z.succ k) with (k + 1) by lia.
    apply IH; [done|]. intros i y s'' Hi Hy. apply Hb; [lia|by right].
Qed.

Lemma enumerated_all {A} width (l : list A) : len l ≤ width → enumerated 0 width l = zip (seqZ 0 (len l)) l.
Proof.
  intros Hw. unfold enumerated. cbn [Z.to_nat drop]. apply take_ge.
  rewrite length_zip, length_seqZ. unfold len in *. lia.
Qed.

Section format.
Context `{IT : Itoa} `{UW : UnicodeWidth} `{D : Discipline}.

(** ** Attributes *)
Lemma intensity_cases a : attrs_ok a → intensity a = 0 ∨ intensity a = 1 ∨ intensity a = 2.
Proof using.
  intros (_ & _ & Hm). pose proof Hm as [Hu _]. unfold intensity. revert Hm. pattern (text_mode a).
  refine (all_u8 _ _ _ Hu). vm_compute. reflexivity.
Qed.

Lemma escape_code_ok self other : attrs_ok self → succeeds (write_escape_code_diff self other) (λ _, True).
Proof using.
  intros Hs. unfold write_escape_code_diff. destruct (_ && _); [by apply succeeds_ret|].
  unfold attrs_difference, changed_intensity.
  destruct (intensity_cases self Hs) as [H|[H|H]]; rewrite H; cbn; destruct (_ =? _); cbn; by apply succeeds_ret.
Qed.

(** ** Positions *)

(** A position one row or two columns past the largest screen still has a successor. *)
Definition pos_small (p : Pos) : Prop :=
  0 ≤ p_row p ≤ MAX_TERMINAL_ROWS ∧ 0 ≤ p_col p ≤ MAX_TERMINAL_COLUMNS + 2.

Ltac small := unfold pos_small, size_safe, pos_ok, MAX_TERMINAL_ROWS, MAX_TERMINAL_COLUMNS, U16_MAX in *; cbn in *; lia.

Lemma MoveTo_ok p : pos_small p → succeeds (MoveTo_write_buf p) (λ _, True).
Proof using.
  intros Hp. unfold MoveTo_write_buf. destruct (_ && _); [by apply succeeds_ret|].
  rewrite !add16_Some by small. by apply succeeds_ret.
Qed.

Lemma MoveFromTo_ok p q : pos_small p → pos_small q → succeeds (MoveFromTo_write_buf p q) (λ _, True).
Proof using.
  intros Hp Hq. unfold MoveFromTo_write_buf. rewrite add16_Some by small. cbn [mbind option_bind].
  destruct (_ && _); [by apply succeeds_ret|]. destruct (_ && _); [by apply succeeds_ret|].
  case_bool_decide; [by apply MoveTo_ok|by apply succeeds_ret].
Qed.

(** ** Rows *)

(** The locals of the loop before column [i]. *)
Record pen_ok (i : Z) (p : Pen) : Prop := {
  po_pos : pos_small (prev_pos p);
  po_attrs : attrs_ok (prev_attrs p);
  po_erase : ∀ c a, erase p = Some (c, a) → 0 ≤ c ≤ i ∧ attrs_ok a;
}.

Lemma pen_mono i j p : pen_ok i p → i ≤ j → pen_ok j p.
Proof using. intros [] Hij. split; [done|done|]. intros c a Hc. destruct (po_erase0 c a Hc). split; [lia|done]. Qed.

Lemma pen_write i b p : pen_ok i p → pen_ok i (write b p).
Proof using. by intros []. Qed.
Lemma pen_wide i w p : pen_ok i p → pen_ok i (set_prev_was_wide w p).
Proof using. by intros []. Qed.
Lemma pen_pos i q p : pen_ok i p → pos_small q → pen_ok i (set_prev_pos q p).
Proof using. by intros [] Hq. Qed.

Lemma switch_attrs_ok i a p :
  pen_ok i p → attrs_ok a → succeeds (switch_attrs a p) (λ p', pen_ok i p' ∧ prev_pos p' = prev_pos p).
Proof using.
  intros Hp Ha. unfold switch_attrs. case_bool_decide; [|by apply succeeds_ret].
  eapply succeeds_bind; [by apply escape_code_ok|]. intros b _. apply succeeds_ret. by destruct Hp.
Qed.

(** A small screen, with the row that is written. *)
Context (cols row : Z) (Hcols : 1 ≤ cols ≤ MAX_TERMINAL_COLUMNS) (Hrow : 0 ≤ row < MAX_TERMINAL_ROWS).

Lemma move_to_erase_ok i wrapping c p :
  pen_ok i p → 0 ≤ c ≤ cols → succeeds (move_to_erase cols row wrapping c p) (pen_ok i).
Proof using Hcols Hrow.
  intros Hp Hc. unfold move_to_erase. pose proof (po_pos _ _ Hp).
  assert ((if wrapping then add16 (p_row (prev_pos p)) 1 else Some 0) =
          Some (if wrapping then p_row (prev_pos p) + 1 else 0)) as ->.
  { destruct wrapping; [|done]. apply add16_Some. small. }
  cbn [mbind option_bind]. eapply succeeds_bind.
  { instantiate (1 := λ _, True). destruct (_ && _); [by apply succeeds_ret|]. apply MoveFromTo_ok; [done|small]. }
  intros b _. apply succeeds_ret. apply pen_pos; [by apply pen_write|small].
Qed.

Lemma flush_erase_ok i wrapping cell p :
  pen_ok i p → 0 ≤ i ≤ cols → succeeds (flush_erase cols row wrapping i cell p) (pen_ok i).
Proof using Hcols Hrow.
  intros Hp Hi. unfold flush_erase. destruct (erase p) as [[c a]|] eqn:He; [|by apply succeeds_ret].
  destruct (po_erase _ _ Hp c a He) as [Hc Ha]. destruct (_ || _); [|by apply succeeds_ret].
  eapply succeeds_bind; [apply move_to_erase_ok; [done|lia]|]. intros p1 Hp1.
  eapply succeeds_bind; [by apply (switch_attrs_ok i)|]. intros p2 [Hp2 _].
  rewrite sub16_Some by lia. apply succeeds_ret. destruct Hp2. by split.
Qed.

Lemma needs_move_ok wrapping cell p q : pos_small q → succeeds (needs_move cols wrapping cell p q) (λ _, True).
Proof using Hcols.
  intros Hq. unfold needs_move. destruct (negb wrapping); [by apply succeeds_ret|].
  rewrite add16_Some by small. cbn [mbind option_bind]. destruct (negb _); [by apply succeeds_ret|].
  rewrite sub16_Some by (destruct (is_wide cell); lia). by apply succeeds_ret.
Qed.

Lemma draw_cell_ok i wrapping cell p :
  pen_ok i p → 0 ≤ i < cols → (∃ l w k, cell_is l w k cell) →
  succeeds (draw_cell cols wrapping (mkPos row i) cell p) (pen_ok i).
Proof using Hcols Hrow.
  intros Hp Hi (l & w & k & Hc). unfold draw_cell. destruct (has_contents cell).
  - eapply succeeds_bind.
    { instantiate (1 := λ p', pen_ok i p' ∧ prev_pos p' = mkPos row i). case_bool_decide as Hpos.
      - pose proof (po_pos _ _ Hp). eapply succeeds_bind; [by apply needs_move_ok|]. intros move _.
        eapply succeeds_bind.
        { instantiate (1 := λ _, True). destruct move; [apply MoveFromTo_ok; [done|small]|by apply succeeds_ret]. }
        intros b _. apply succeeds_ret. split; [|done]. apply pen_pos; [by apply pen_write|small].
      - apply succeeds_ret. by split. }
    intros p1 [Hp1 Hq1]. eapply succeeds_bind; [apply (switch_attrs_ok i); [done|apply Hc]|].
    intros p2 [Hp2 Hq2]. rewrite Hq2, Hq1, add16_Some by (destruct (is_wide cell); small). cbn [mbind option_bind].
    rewrite (contents_of_Some Hc). apply succeeds_ret. apply pen_write, pen_pos; [done|].
    destruct (is_wide cell); small.
  - apply succeeds_ret. destruct (erase p) eqn:He; [done|]. destruct Hp. split; [done|done|].
    intros c a [= <- <-]. split; [cbn; lia|apply Hc].
Qed.

Lemma write_step_ok i wrapping cell differs p :
  pen_ok i p → 0 ≤ i < cols → (∃ l w k, cell_is l w k cell) →
  succeeds (write_step cols row wrapping i cell differs p) (pen_ok (i + 1)).
Proof using Hcols Hrow.
  intros Hp Hi Hc. unfold write_step. destruct (prev_was_wide p).
  { apply succeeds_ret, pen_wide. apply (pen_mono i); [done|lia]. }
  unfold try_from. replace (_ && _) with true by small. cbn [mbind option_bind].
  eapply succeeds_bind; [apply flush_erase_ok; [by apply pen_wide|lia]|]. intros p1 Hp1.
  destruct differs; [|apply succeeds_ret, (pen_mono i); [done|lia]].
  eapply succeeds_mono; [by apply draw_cell_ok|]. intros p2 Hp2. apply (pen_mono i); [done|lia].
Qed.

Lemma finish_erase_ok wrapping p : pen_ok cols p → succeeds (finish_erase cols row wrapping p) (pen_ok cols).
Proof using Hcols Hrow.
  intros Hp. unfold finish_erase. destruct (erase p) as [[c a]|] eqn:He; [|by apply succeeds_ret].
  destruct (po_erase _ _ Hp c a He) as [Hc Ha].
  eapply succeeds_bind; [by apply move_to_erase_ok|]. intros p1 Hp1.
  eapply succeeds_bind; [by apply (switch_attrs_ok cols)|]. intros p2 [Hp2 _].
  apply succeeds_ret. by apply pen_write.
Qed.

(** Every cell of a well-formed row is well formed. *)
Lemma paired_cells l : paired l → Forall (λ c, ∃ t w k, cell_is t w k c) l.
Proof using. induction 1; repeat constructor; auto with cells. Qed.

Lemma row_cell r c : row_ok cols r → c ∈ cells r → ∃ t w k, cell_is t w k c.
Proof using. intros (_ & Hp & _) Hc. by apply (proj1 (Forall_forall _ _) (paired_cells _ Hp)). Qed.

Lemma row_index r i : row_ok cols r → 0 ≤ i < cols → ∃ c, index i (cells r) = Some c ∧ ∃ t w k, cell_is t w k c.
Proof using.
  intros Hr Hi. destruct (index_Some i (cells r)) as [c Hc]; [by rewrite (proj1 Hr)|].
  exists c. split; [done|]. eapply row_cell; [done|]. by eapply index_elem.
Qed.

Definition written (x : bytes * Pos * Attrs) : Prop := pos_small x.1.2 ∧ attrs_ok x.2.

Lemma pen_new q a : pos_small q → attrs_ok a → pen_ok 0 (mkPen [] false q a None).
Proof using. by split. Qed.

Lemma Row_formatted_ok wrapping q a r :
  row_ok cols r → pos_small q → attrs_ok a →
  succeeds (Row_write_contents_formatted 0 cols row wrapping (Some q) (Some a) r) written.
Proof using Hcols Hrow.
  intros Hr Hq Ha. unfold Row_write_contents_formatted. rewrite (Row_cols_Some cols) by (done || small).
  cbn [mbind option_bind default].
  destruct (row_index r 0 Hr ltac:(lia)) as (c0 & Hc0 & _).
  eapply succeeds_bind.
  { instantiate (1 := pen_ok 0). unfold formatted_start. rewrite Hc0. cbn [mbind option_bind].
    destruct (_ && _); [|by apply succeeds_ret, pen_new].
    eapply succeeds_bind; [apply (switch_attrs_ok 0); [by apply pen_new|apply attrs_ok_default]|].
    intros p [Hp _]. apply succeeds_ret. apply pen_pos; [by apply pen_write|small]. }
  intros p Hp. rewrite enumerated_all by (rewrite (proj1 Hr); lia). eapply succeeds_bind.
  { eapply (for_each_enumerated _ _ pen_ok); [done|]. intros i c p' Hi Hc Hp'.
    apply write_step_ok; [done|rewrite (proj1 Hr) in Hi; lia|]. by apply (row_cell r). }
  rewrite Z.add_0_l, (proj1 Hr). intros p1 Hp1.
  eapply succeeds_bind; [by apply finish_erase_ok|]. intros p2 []. by apply succeeds_ret.
Qed.

Lemma diff_start_ok wrapping prev_wrapping cols' r prev p :
  row_ok cols r → row_ok cols' prev → 1 ≤ cols' → pen_ok 0 p →
  succeeds (diff_start cols 0 row wrapping prev_wrapping r prev p) (pen_ok 0).
Proof using Hcols Hrow.
  intros Hr (Hl' & Hp' & _) Hcols' Hp. unfold diff_start. pose proof (po_pos _ _ Hp).
  destruct (row_index r 0 Hr ltac:(lia)) as (c0 & Hc0 & t0 & w0 & k0 & His0). rewrite Hc0. cbn [mbind option_bind].
  destruct (index_Some 0 (cells prev)) as [c1 Hc1]; [lia|]. rewrite Hc1. cbn [mbind option_bind].
  apply index_elem in Hc1. apply (proj1 (Forall_forall _ _) (paired_cells _ Hp')) in Hc1 as (t1 & w1 & k1 & His1).
  destruct (_ && _); [|by apply succeeds_ret]. rewrite add16_Some by small. cbn [mbind option_bind].
  destruct (negb _); [by apply succeeds_ret|]. rewrite sub16_Some by (destruct (is_wide c1); lia).
  cbn [mbind option_bind]. destruct (_ <? _); [by apply succeeds_ret|].
  eapply succeeds_bind; [apply (switch_attrs_ok 0); [done|apply His0]|]. intros p1 [Hp1 _].
  rewrite (contents_of_Some His1). apply succeeds_ret. apply pen_pos; [by apply pen_write|small].
Qed.

Lemma diff_wrap_ok r prev p :
  2 ≤ cols → row_ok cols r → pen_ok cols p → succeeds (diff_wrap cols row r prev p) (pen_ok cols).
Proof using Hcols Hrow.
  intros H2 Hr Hp. unfold diff_wrap. destruct (_ || _); [|by apply succeeds_ret].
  rewrite (sub16_Some cols 1) by lia. cbn [mbind option_bind].
  destruct (row_index r (cols - 1) Hr ltac:(lia)) as (c & Hc & _). rewrite Hc. cbn [mbind option_bind].
  assert (∃ e, (if is_wide_continuation c then sub16 cols 2 else Some (cols - 1)) = Some e ∧ 0 ≤ e < cols)
    as (e & -> & He).
  { destruct (is_wide_continuation c); [exists (cols - 2); rewrite sub16_Some by lia|exists (cols - 1)]; split; done || lia. }
  cbn [mbind option_bind]. pose proof (po_pos _ _ Hp).
  eapply succeeds_bind; [apply MoveFromTo_ok; [done|small]|]. intros b _.
  destruct (row_index r e Hr He) as (ec & Hec & t & w & k & His). rewrite Hec. cbn [mbind option_bind].
  set (p1 := if negb (wrapped r) then _ else _).
  assert (pen_ok cols p1 ∧ prev_pos p1 = mkPos row e) as [Hp1 Hq1].
  { unfold p1. destruct (negb _); (split; [|done]); repeat apply pen_write; (apply pen_pos; [by apply pen_write|small]). }
  clearbody p1. destruct (has_contents ec); [|by apply succeeds_ret].
  eapply succeeds_bind; [apply (switch_attrs_ok cols); [done|apply His]|]. intros p2 [Hp2 Hq2].
  rewrite (contents_of_Some His). cbn [mbind option_bind].
  rewrite Hq2, Hq1, add16_Some by (destruct (is_wide ec); small). apply succeeds_ret.
  apply pen_pos; [by apply pen_write|]. destruct (is_wide ec); small.
Qed.

Lemma Row_diff_ok wrapping prev_wrapping q a cols' prev r :
  2 ≤ cols → row_ok cols r → row_ok cols' prev → 1 ≤ cols' → pos_small q → attrs_ok a →
  succeeds (Row_write_contents_diff prev 0 cols row wrapping prev_wrapping q a r) written.
Proof using Hcols Hrow.
  intros H2 Hr Hprev Hcols' Hq Ha. unfold Row_write_contents_diff. rewrite (Row_cols_Some cols) by (done || small).
  cbn [mbind option_bind]. eapply succeeds_bind; [by eapply diff_start_ok, pen_new|]. intros p Hp.
  assert (len (zip (cells r) (cells prev)) ≤ cols) as Hlen.
  { destruct Hr as [<- _]. unfold len. rewrite length_zip. lia. }
  rewrite enumerated_all by done. eapply succeeds_bind.
  { eapply (for_each_enumerated _ _ pen_ok); [done|]. intros i [c c'] p' Hi Hc Hp'.
    apply write_step_ok; [done|lia|]. apply (row_cell r); [done|]. by apply elem_of_zip_l in Hc. }
  intros p1 Hp1. eapply succeeds_bind; [apply finish_erase_ok; apply (pen_mono _ _ _ Hp1); lia|]. intros p2 Hp2.
  eapply succeeds_bind; [by apply diff_wrap_ok|]. intros p3 []. by apply succeeds_ret.
Qed.
End format.

(** ** Grids and screens *)
Ltac small := unfold pos_small, size_safe, pos_ok, MAX_TERMINAL_ROWS, MAX_TERMINAL_COLUMNS, U16_MAX in *; cbn in *; lia.

Lemma visible_rows_all g : scrollback g = [] → scrollback_offset g = 0 → visible_rows g = Some (rows g).
Proof.
  intros Hs Ho. unfold visible_rows. rewrite Hs, Ho. cbn.
  change (checked_sub (len (@nil Row)) 0) with (Some 0). cbn [mbind option_bind]. rewrite drop_nil, take_nil. cbn [app].
  f_equal. apply take_ge. unfold saturating_sub, len. lia.
Qed.

Lemma visible_rows_live `{UW : UnicodeWidth} `{D : Discipline} sz g : grid_ok sz g → visible_rows g = Some (rows g).
Proof. intros [_ _ _ _ _ _ _ _ (Hs & _ & Ho)]. by apply visible_rows_all. Qed.

Section grid.
Context `{IT : Itoa} `{UW : UnicodeWidth} `{D : Discipline}.
Context (sz : Size) (Hsz : size_safe sz).

Lemma drawing_cell_is p g :
  live sz g → 0 ≤ p_row p < s_rows sz → 0 ≤ p_col p < s_cols sz →
  ∃ c t w k, drawing_cell p g = Some c ∧ cell_is t w k c.
Proof using.
  intros Hg Hr Hc. destruct (drawing_cell_Some sz p g Hg Hr Hc) as (r & c & _ & Hget & Hrow & Hd).
  destruct (row_cell (s_cols sz) r c) as (t & w & k & His); [done|by eapply index_elem|].
  exists c, t, w, k. done.
Qed.

Lemma last_cell_ok i g :
  live sz g → 0 ≤ i < s_rows sz →
  succeeds (last_cell i g) (λ '(p, c), pos_small p ∧ ∃ t w k, cell_is t w k c).
Proof using Hsz.
  intros Hg Hi. unfold last_cell. rewrite (last_col_Some sz) by (done || by apply live_size).
  cbn [mbind option_bind]. rewrite (live_size sz g Hg).
  destruct (drawing_cell_is (mkPos i (s_cols sz - 1)) g Hg) as (c & t & w & k & -> & His); [done|small|].
  cbn [mbind option_bind].
  assert (∃ e, (if is_wide_continuation c then sub16 (s_cols sz) 2 else Some (s_cols sz - 1)) = Some e ∧
    0 ≤ e < s_cols sz) as (e & -> & He).
  { destruct (is_wide_continuation c); [exists (s_cols sz - 2); rewrite sub16_Some by small|exists (s_cols sz - 1)];
      split; done || small. }
  cbn [mbind option_bind].
  destruct (drawing_cell_is (mkPos i e) g Hg) as (c' & t' & w' & k' & -> & His'); [done|done|].
  apply succeeds_ret. split; [small|eauto].
Qed.

Lemma redraw_cell_ok a c :
  attrs_ok a → (∃ t w k, cell_is t w k c) → succeeds (redraw_cell a c) (λ _, True).
Proof using.
  intros Ha (t & w & k & Hc). unfold redraw_cell.
  eapply succeeds_bind; [apply escape_code_ok, Hc|]. intros on _. rewrite (contents_of_Some Hc). cbn [mbind option_bind].
  eapply succeeds_bind; [by apply escape_code_ok|]. intros off _. by apply succeeds_ret.
Qed.

Lemma move_from_ok prev p : (∀ q, prev = Some q → pos_small q) → pos_small p → succeeds (move_from prev p) (λ _, True).
Proof using. intros Hq Hp. destruct prev; cbn; [apply MoveFromTo_ok; auto|by apply MoveTo_ok]. Qed.

Lemma redraw_above_ok above prev a g :
  live sz g → (∀ i, i ∈ above → 0 ≤ i ≤ p_row (pos g)) → (∀ q, prev = Some q → pos_small q) → attrs_ok a →
  succeeds (redraw_above above prev a g) (λ _, True).
Proof using Hsz.
  intros Hg Hab Hq Ha. induction above as [|i rest IH]; [by apply succeeds_ret|]. cbn [redraw_above].
  pose proof (live_pos sz g Hg) as [Hr _]. assert (0 ≤ i ≤ p_row (pos g)) as Hi by (apply Hab; by left).
  eapply succeeds_bind; [apply last_cell_ok; [done|lia]|]. intros [p c] [Hp Hc].
  destruct (has_contents c); [|apply IH; intros j Hj; apply Hab; by right].
  eapply succeeds_bind.
  { instantiate (1 := λ _, True). destruct prev as [q|].
    - destruct (_ || _); [|by apply succeeds_ret].
      eapply succeeds_bind; [apply MoveFromTo_ok; auto|]. intros m _.
      eapply succeeds_bind; [by apply redraw_cell_ok|]. intros d _. by apply succeeds_ret.
    - eapply succeeds_bind; [by apply MoveTo_ok|]. intros m _.
      eapply succeeds_bind; [by apply redraw_cell_ok|]. intros d _. by apply succeeds_ret. }
  intros b _. rewrite sub16_Some by lia. by apply succeeds_ret.
Qed.

Lemma redraw_blank_ok prev a g :
  live sz g → (∀ q, prev = Some q → pos_small q) → attrs_ok a → succeeds (redraw_blank prev a g) (λ _, True).
Proof using Hsz.
  intros Hg Hq Ha. pose proof (live_pos sz g Hg) as [Hr _]. unfold redraw_blank.
  rewrite (last_col_Some sz) by (done || by apply live_size). cbn [mbind option_bind].
  eapply succeeds_bind; [apply move_from_ok; [done|small]|]. intros m _.
  destruct (drawing_cell_is (mkPos (p_row (pos g)) (s_cols sz - 1)) g Hg) as (c & t & w & k & -> & His); [done|small|].
  cbn [mbind option_bind]. eapply succeeds_bind; [apply escape_code_ok, His|]. intros on _.
  eapply succeeds_bind; [by apply escape_code_ok|]. intros off _. by apply succeeds_ret.
Qed.

Lemma cursor_position_ok prev a g :
  live sz g → (∀ q, prev = Some q → pos_small q) → attrs_ok (default Attrs_default a) →
  succeeds (write_cursor_position_formatted prev a g) (λ _, True).
Proof using Hsz.
  intros Hg Hq Ha. pose proof (live_pos sz g Hg) as Hp. unfold write_cursor_position_formatted.
  destruct (_ && _); [|apply move_from_ok; [done|small]].
  eapply succeeds_bind; [apply last_cell_ok; [done|apply Hp]|]. intros [p c] [Hps Hc].
  destruct (has_contents c).
  - eapply succeeds_bind; [by apply move_from_ok|]. intros m _.
    eapply succeeds_bind; [by apply redraw_cell_ok|]. intros d _. by apply succeeds_ret.
  - eapply succeeds_bind.
    { apply redraw_above_ok; [done| |done|done]. intros i. rewrite elem_of_reverse, elem_of_range. lia. }
    intros [b|] _; [by apply succeeds_ret|by apply redraw_blank_ok].
Qed.

Lemma Grid_formatted_ok g : live sz g → succeeds (Grid_write_contents_formatted g) (λ '(_, a), attrs_ok a).
Proof using Hsz.
  intros Hg. unfold Grid_write_contents_formatted. rewrite (visible_rows_live sz) by apply Hg. cbn [mbind option_bind].
  rewrite (live_size sz g Hg). eapply succeeds_bind.
  { eapply (for_each_enumerated _ _ (λ _ '(_, q, a, _), pos_small q ∧ attrs_ok a)).
    { split; [small|apply attrs_ok_default]. }
    intros i r [[[out q] a] wrapping] Hi Hr [Hq Ha]. unfold formatted_row. rewrite (proj2 Hg) in Hi.
    unfold try_from. replace (_ && _) with true by small. cbn [mbind option_bind].
    eapply succeeds_bind; [apply Row_formatted_ok; [small|small| |done|done]|].
    { by apply (proj1 (Forall_forall _ _) (go_row _ _ (proj1 Hg))). }
    intros [[b q'] a'] [? ?]. by apply succeeds_ret. }
  intros [[[out q] a] wrapping] [Hq Ha].
  eapply succeeds_bind; [apply cursor_position_ok; [done|by intros ? [= <-]|done]|].
  intros cursor _. by apply succeeds_ret.
Qed.

Lemma Grid_diff_ok sz' g' a g :
  size_safe sz' → live sz' g' → live sz g → attrs_ok a →
  succeeds (Grid_write_contents_diff g' a g) (λ '(_, a), attrs_ok a).
Proof using Hsz.
  intros Hsz' Hg' Hg Ha. unfold Grid_write_contents_diff.
  rewrite (visible_rows_live sz g), (visible_rows_live sz' g') by (apply Hg || apply Hg'). cbn [mbind option_bind].
  rewrite (live_size sz g Hg). pose proof (live_pos sz' g' Hg') as Hp'. eapply succeeds_bind.
  { eapply (for_each_enumerated _ _ (λ _ '(_, q, a, _, _), pos_small q ∧ attrs_ok a)).
    { split; [small|done]. }
    intros i [r r'] [[[[out q] a1] wrapping] wrapping'] Hi Hr [Hq Ha1]. unfold diff_row.
    assert (len (zip (rows g) (rows g')) ≤ s_rows sz).
    { rewrite <- (proj2 Hg). unfold len. rewrite length_zip. lia. }
    unfold try_from. replace (_ && _) with true by small. cbn [mbind option_bind].
    eapply succeeds_bind; [apply Row_diff_ok with (cols' := s_cols sz')|]; try done; try small.
    { apply elem_of_zip_l in Hr. by apply (proj1 (Forall_forall _ _) (go_row _ _ (proj1 Hg))). }
    { apply elem_of_zip_r in Hr. by apply (proj1 (Forall_forall _ _) (go_row _ _ (proj1 Hg'))). }
    intros [[b q'] a'] [? ?]. by apply succeeds_ret. }
  intros [[[[out q] a1] wrapping] wrapping'] [Hq Ha1].
  eapply succeeds_bind; [apply cursor_position_ok; [done|by intros ? [= <-]|done]|].
  intros cursor _. by apply succeeds_ret.
Qed.

Lemma screen_formatted_ok s : screen_ok sz s → succeeds (VtScreen_state_formatted s) (λ _, True).
Proof using Hsz.
  intros Hs. unfold VtScreen_state_formatted, write_contents_formatted.
  eapply (succeeds_bind _ _ (λ _, True)); [|intros c _; by apply succeeds_ret].
  eapply succeeds_bind; [by apply Grid_formatted_ok, screen_grid|]. intros [out a] Ha.
  eapply succeeds_bind; [apply escape_code_ok, Hs|]. intros tail _. by apply succeeds_ret.
Qed.

Lemma screen_diff_ok sz' prev s :
  size_safe sz' → screen_ok sz' prev → screen_ok sz s → succeeds (VtScreen_state_diff s prev) (λ _, True).
Proof using Hsz.
  intros Hsz' Hprev Hs. unfold VtScreen_state_diff, write_contents_diff.
  eapply (succeeds_bind _ _ (λ _, True)); [|intros c _; by apply succeeds_ret].
  eapply succeeds_bind.
  { apply (Grid_diff_ok sz'); [done|by apply screen_grid|by apply screen_grid|apply Hprev]. }
  intros [out a] Ha.
  eapply succeeds_bind; [apply escape_code_ok, Hs|]. intros tail _. by apply succeeds_ret.
Qed.

(** Every cell of the screen can be read, and there is nothing else. *)
Lemma cell_text_ok row col s :
  screen_ok sz s → succeeds (cell_text s row col) (λ t,
    is_Some t ↔ 0 ≤ row < s_rows sz ∧ 0 ≤ col < s_cols sz).
Proof using.
  intros Hs. pose proof (screen_grid sz s Hs) as Hg. unfold cell_text, visible_cell.
  rewrite (visible_rows_live sz) by apply Hg. cbn [mbind option_bind p_row p_col].
  destruct (decide (0 ≤ row < s_rows sz ∧ 0 ≤ col < s_cols sz)) as [[Hr Hc]|Hn].
  - destruct (drawing_cell_is (mkPos row col) (grid s) Hg Hr Hc) as (c & t & w & k & Hd & His).
    unfold drawing_cell, drawing_row in Hd. cbn [p_row p_col] in Hd. rewrite Hd. rewrite (contents_of_Some His).
    apply succeeds_ret. split; [done|by eexists].
  - assert ((r ← index row (rows (grid s)); Row_get col r) = None) as ->.
    { destruct (index row (rows (grid s))) as [r|] eqn:Hr; [|done]. cbn.
      pose proof (index_elem _ _ _ Hr) as Hin.
      apply (proj1 (Forall_forall _ _) (go_row _ _ (proj1 Hg))) in Hin as [Hl _].
      destruct (Row_get col r) eqn:Hc; [|done]. exfalso. apply Hn. unfold Row_get, index in *.
      destruct (Z.leb_spec 0 row); [|done]. destruct (Z.leb_spec 0 col); [|done].
      apply lookup_lt_Some in Hr, Hc. rewrite <- (proj2 Hg), <- Hl. unfold len. lia. }
    apply succeeds_ret. split; [intros [? ?]; done|done].
Qed.
End grid.
