(* ===== verification/EmulatorSafety.v ===== *)
(** * The emulator as the client uses it

    Safety of the instance [Vt100Parser.vt100] on the screens the client can reach,
    what printing does to a screen, and the sizes for which the emulator panics. *)

From S2P Require Import Prelude Limits TerminalWidth Emulator Vt100Cell Vt100Row Vt100RowInv Vt100Grid Vt100GridInv Vt100Screen Vt100Parser Vt100ScreenInv Vt100Format.

Local Open Scope Z_scope.

(** ** Resizing *)

(** A screen narrowed to [cols] columns would keep the first half of a wide character
    without the second. *)
Definition cut_in_row (cols : Z) (r : Row) : bool :=
  match index (cols - 1) (cells r) with Some c => is_wide c | None => false end.
Definition cuts_wide (cols : Z) (s : VtScreen) : bool :=
  existsb (cut_in_row cols) (rows (primary_grid s) ++ rows (alternate_grid s)).

Section resizing.
Context `{UW : UnicodeWidth} `{D : Discipline}.

Lemma uncut_row n cols r :
  1 ≤ cols → row_ok n r → cut_in_row cols r = false → paired (take (Z.to_nat cols) (cells r)).
Proof.
  intros Hc (_ & Hp & _) Hcut. destruct (paired_take (cells r) (Z.to_nat cols) Hp) as [H|(a & c & H & _ & Hw)]; [done|].
  destruct (decide (len (cells r) ≤ cols)) as [Hle|Hgt]; [by rewrite take_all|].
  assert (cells r = a ++ c :: drop (Z.to_nat cols) (cells r)) as Heq.
  { rewrite <- (take_drop (Z.to_nat cols) (cells r)) at 1. by rewrite H, <- app_assoc. }
  assert (len a = cols - 1) as Ha.
  { apply (f_equal len) in H. rewrite len_take, len_app in H. change (len [c]) with 1 in H. lia. }
  unfold cut_in_row in Hcut. rewrite Heq, index_app in Hcut by done. destruct (wide_flags _ Hw). congruence.
Qed.

Lemma cuts_wide_uncut sz cols s :
  1 ≤ cols → screen_ok sz s → cuts_wide cols s = false →
  uncut cols (primary_grid s) ∧ uncut cols (alternate_grid s).
Proof.
  intros Hc Hs Hcut. unfold cuts_wide in Hcut. rewrite existsb_app, orb_false_iff in Hcut. destruct Hcut as [H1 H2].
  assert (∀ g, grid_ok sz g → existsb (cut_in_row cols) (rows g) = false → uncut cols g) as H.
  { intros g Hg Hg2. apply Forall_forall. intros r Hr. apply (uncut_row (s_cols sz)); [done| |].
    - by apply (proj1 (Forall_forall _ _) (go_row _ _ Hg)).
    - apply not_true_is_false. intros Ht. assert (existsb (cut_in_row cols) (rows g) = true) as Hx; [|congruence].
      apply existsb_exists. exists r. by rewrite <- list_elem_of_In. }
  split; apply H; try done; [apply (so_primary _ _ Hs)|apply (so_alternate _ _ Hs)].
Qed.

Lemma set_size_ok sz sz' s :
  size_safe sz → size_safe sz' → screen_ok sz s → cuts_wide (s_cols sz') s = false →
  keeps_region (s_rows sz') (primary_grid s) → keeps_region (s_rows sz') (alternate_grid s) →
  succeeds (VtScreen_set_size (s_rows sz') (s_cols sz') s) (screen_ok sz').
Proof.
  intros Hsz Hsz' Hs Hcut Hk1 Hk2. destruct (cuts_wide_uncut sz (s_cols sz') s) as [Hu1 Hu2]; [safe|done|done|].
  destruct sz' as [r c]. unfold VtScreen_set_size. eapply succeeds_bind.
  { apply (Grid_set_size_ok sz); [done|done|apply (so_primary _ _ Hs)|done|done]. }
  intros g Hg. eapply succeeds_bind.
  { apply (Grid_set_size_ok sz); [done|done|apply (so_alternate _ _ Hs)|done|done]. }
  intros alt Halt. apply succeeds_ret. destruct Hs. by split; try apply Halt.
Qed.
End resizing.

(** ** Reachable screens *)
Section reachable.
Context `{UW : UnicodeWidth} {UWL : UnicodeWidthLaws UW} `{VTE : Vte} {VT : VteTyped VTE} `{IT : Itoa}.
#[local] Instance lenient : Discipline := {| strict := false |}.

(** The screens of a client whose sizes are safe: new ones, what host bytes make of them, and
    resized ones; at least two rows and two columns, and never narrowed through a
    wide character. *)
Inductive safe_screen : VtScreen → Prop :=
  | safe_new rows cols s :
      size_safe (mkSize rows cols) → screen_new rows cols = Some s → safe_screen s
  | safe_process s l s' u :
      safe_screen s → screen_process s l = Some (s', u) → safe_screen s'
  | safe_resize s rows cols s' :
      safe_screen s → size_safe (mkSize rows cols) → cuts_wide cols s = false →
      screen_set_size rows cols s = Some s' → safe_screen s'.

Lemma safe_screen_ok s : safe_screen s → ∃ sz, size_safe sz ∧ screen_ok sz s.
Proof using UWL VT.
  induction 1 as [rows cols s Hsz Hn|s l s' u _ (sz & Hsz & Hok) Hp|s rows cols s' _ (sz & Hsz & Hok) Hsz' Hcut Hr].
  - exists (mkSize rows cols). split; [done|]. destruct (VtScreen_new_ok _ Hsz) as (s1 & H1 & Hok). cbn in Hn. congruence.
  - exists sz. split; [done|]. destruct (process_ok sz Hsz l s Hok) as (w & Hw & Hok').
    cbn in Hp. unfold process_reported in Hp. rewrite Hw in Hp. by injection Hp as <- _.
  - exists (mkSize rows cols). split; [done|]. destruct (set_size_ok sz (mkSize rows cols) s) as (s1 & H1 & Hok1); try done.
    cbn in Hr, H1. congruence.
Qed.

(** The operations on such screens. *)
Lemma screen_ok_size sz s : screen_ok sz s → screen_size s = (s_rows sz, s_cols sz).
Proof. intros Hok. cbn. unfold VtScreen_size. by rewrite (live_size sz _ (screen_grid sz s Hok)). Qed.

Lemma safe_screen_new rows cols : size_safe (mkSize rows cols) → ∃ s, screen_new rows cols = Some s ∧ safe_screen s.
Proof using UWL VT.
  intros Hsz. destruct (VtScreen_new_ok _ Hsz) as (s & Hs & _). exists s. split; [done|by eapply safe_new].
Qed.

Lemma safe_screen_process s l : safe_screen s → ∃ s' u, screen_process s l = Some (s', u) ∧ screen_size s' = screen_size s.
Proof using UWL VT.
  intros (sz & Hsz & Hok)%safe_screen_ok. cbn [screen_process vt100].
  destruct (process_ok sz Hsz l s Hok) as (w & Hw & Hok'). unfold process_reported. rewrite Hw.
  eexists _, _. split; [done|]. by rewrite (screen_ok_size sz s Hok), (screen_ok_size sz _ Hok').
Qed.

Lemma safe_screen_formatted s : safe_screen s → is_Some (state_formatted s).
Proof using UWL VT.
  intros (sz & Hsz & Hok)%safe_screen_ok. cbn [state_formatted vt100].
  destruct (screen_formatted_ok sz Hsz s Hok) as (b & -> & _). by eexists.
Qed.

Lemma safe_screen_diff s s' : safe_screen s → safe_screen s' → is_Some (state_diff s s').
Proof using UWL VT.
  intros (sz & Hsz & Hok)%safe_screen_ok (sz' & Hsz' & Hok')%safe_screen_ok. cbn [state_diff vt100].
  destruct (screen_diff_ok sz Hsz sz' s' s Hsz' Hok' Hok) as (b & -> & _). by eexists.
Qed.

Lemma safe_screen_cell s row col :
  safe_screen s → ∃ text, screen_cell s row col = Some text ∧
    (is_Some text ↔ 0 ≤ row < (screen_size s).1 ∧ 0 ≤ col < (screen_size s).2).
Proof using UWL VT.
  intros (sz & Hsz & Hok)%safe_screen_ok. rewrite (screen_ok_size sz s Hok). cbn [screen_cell vt100 fst snd].
  destruct (cell_text_ok sz row col s Hok) as (t & Ht & Hiff). unfold cell_chars. rewrite Ht.
  eexists. split; [done|]. rewrite <- Hiff. destruct t; cbn; split; (intros [? ?]; done) || by eexists.
Qed.

Lemma safe_screen_resize s rows cols :
  safe_screen s → size_safe (mkSize rows cols) → cuts_wide cols s = false →
  ∃ s', screen_set_size rows cols s = Some s' ∧ safe_screen s' ∧ screen_size s' = (rows, cols).
Proof using UWL VT.
  intros Hs Hsz' Hcut. destruct (safe_screen_ok s Hs) as (sz & Hsz & Hok).
  destruct (set_size_ok sz (mkSize rows cols) s) as (s' & Hr & Hok'); try done.
  exists s'. split; [done|]. split; [exact (safe_resize s rows cols s' Hs Hsz' Hcut Hr)|by apply (screen_ok_size (mkSize rows cols))].
Qed.

(** C15. On a screen that is reachable with at least two rows and two columns and without
    narrowing through a wide character, the emulator never panics: it processes every
    byte string, formats the screen, computes the difference to every other such
    screen and resizes; it reads exactly the cells within its size; and processing
    does not change the size. *)
Theorem emulator_never_panics s :
  safe_screen s →
  (∀ l, ∃ s' u, screen_process s l = Some (s', u) ∧ screen_size s' = screen_size s) ∧
  is_Some (state_formatted s) ∧
  (∀ s', safe_screen s' → is_Some (state_diff s s')) ∧
  (∀ row col, ∃ text, screen_cell s row col = Some text ∧
     (is_Some text ↔ 0 ≤ row < (screen_size s).1 ∧ 0 ≤ col < (screen_size s).2)) ∧
  (∀ rows cols, size_safe (mkSize rows cols) → cuts_wide cols s = false →
     ∃ s', screen_set_size rows cols s = Some s' ∧ screen_size s' = (rows, cols)).
Proof using UWL VT.
  intros Hs. split_and!; eauto using safe_screen_process, safe_screen_formatted, safe_screen_diff, safe_screen_cell.
  intros rows cols Hsz' Hcut. destruct (safe_screen_resize s rows cols) as (s' & ? & _ & ?); eauto.
Qed.
(** A cell next to the one at [i]. *)
Lemma index_next {A} (a b : list A) x y : index (len a + 1) (a ++ x :: y :: b) = Some y.
Proof using. change (a ++ x :: y :: b) with (a ++ [x] ++ y :: b). rewrite app_assoc. apply index_app. rewrite len_app. done. Qed.

Lemma cell_typed cols r i c :
  row_ok cols r → index i (cells r) = Some c →
  (∃ text, contents_of c = Some (text ≫= encode_utf8) ∧ Forall printable text ∧ len (text ≫= encode_utf8) ≤ CONTENT_BYTES) ∧
  attrs_ok (cell_attrs c) ∧
  (is_wide c = true → has_contents c = true ∧ ∃ d, index (i + 1) (cells r) = Some d ∧ is_wide_continuation d = true) ∧
  (is_wide_continuation c = true → has_contents c = false ∧ ∃ d, index (i - 1) (cells r) = Some d ∧ is_wide d = true).
Proof using.
  intros (Hl & Hp & _) Hi. assert (0 ≤ i < len (cells r)) as Hr.
  { unfold index in Hi. destruct (Z.leb_spec 0 i); [|done]. apply lookup_lt_Some in Hi. unfold len. lia. }
  assert (∀ w l, text_of w l → Forall printable l) as Htext.
  { intros w l Ht. induction Ht as [ch Hch|l ch _ IH _ Hch]; [by apply Forall_singleton|]. apply Forall_app. by rewrite Forall_singleton. }
  assert (∀ l w k, cell_is l w k c → (l = [] ∨ text_of w l) →
    (∃ text, contents_of c = Some (text ≫= encode_utf8) ∧ Forall printable text ∧ len (text ≫= encode_utf8) ≤ CONTENT_BYTES) ∧
    attrs_ok (cell_attrs c) ∧ is_wide c = w ∧ is_wide_continuation c = k ∧ has_contents c = negb (bool_decide (l = []))) as Hc.
  { intros l w k Hc Hl0. destruct (cell_is_flags Hc) as (_ & Hw & Hk). split_and!; [|apply Hc|done|done|by eapply has_contents_text].
    exists l. split_and!; [by apply contents_of_Some in Hc|destruct Hl0 as [-> | Ht]; [constructor|by eapply Htext]|apply Hc]. }
  pose proof (paired_around _ _ Hp Hr) as Ha.
  inversion Ha as [x d y Hpx Hn Hpy Hx Hix|x d e y Hpx Hw Hs Hpy Hx Hix|x d e y Hpx Hw Hs Hpy Hx Hix];
    symmetry in Hx; subst i; rewrite Hx in Hi.
  - rewrite index_app in Hi by done. injection Hi as ->. destruct Hn as (l & Hn & Hl0).
    destruct (Hc l false false Hn Hl0) as (H1 & H2 & -> & -> & _). split_and!; done.
  - rewrite index_app in Hi by done. injection Hi as ->. destruct Hw as (l & Hw & Ht).
    destruct (Hc l true false Hw (or_intror Ht)) as (H1 & H2 & -> & -> & ->). split_and!; [done|done|intros _|done].
    rewrite bool_decide_eq_false_2 by (by eapply text_of_nonempty). split; [done|]. exists e. rewrite index_next. by destruct (second_flags _ Hs).
  - rewrite index_next in Hi. injection Hi as ->. destruct Hs as [Hs _].
    destruct (Hc [] false true Hs (or_introl eq_refl)) as (H1 & H2 & -> & -> & ->). split_and!; [done|done|done|intros _].
    split; [done|]. exists d. rewrite index_app by lia. by destruct (wide_flags _ Hw).
Qed.

(** C19. A screen that had at least two rows and two columns in every size and was never
    narrowed through a wide character, whatever bytes it processed, is well typed: the grid has
    the rows and columns of its size, the cursor is on it or just after the end of a row, and each cell holds printable
    characters in at most 22 bytes of UTF-8, with attributes in their ranges; a
    wide character has text and is followed by its second half, and a second half has no
    text and follows a wide character. *)
Theorem screen_well_typed s :
  safe_screen s →
  let '(rows, cols) := screen_size s in
  let g := grid s in
  len (Vt100Grid.rows g) = rows ∧ 0 ≤ p_row (pos g) < rows ∧ 0 ≤ p_col (pos g) ≤ cols ∧
  ∀ r, r ∈ Vt100Grid.rows g → len (cells r) = cols ∧
    ∀ i c, index i (cells r) = Some c →
      (∃ text, contents_of c = Some (text ≫= encode_utf8) ∧ Forall printable text ∧ len (text ≫= encode_utf8) ≤ CONTENT_BYTES) ∧
      attrs_ok (cell_attrs c) ∧
      (is_wide c = true → has_contents c = true ∧ ∃ d, index (i + 1) (cells r) = Some d ∧ is_wide_continuation d = true) ∧
      (is_wide_continuation c = true → has_contents c = false ∧ ∃ d, index (i - 1) (cells r) = Some d ∧ is_wide d = true).
Proof using UWL VT.
  intros (sz & Hsz & Hok)%safe_screen_ok. rewrite (screen_ok_size sz s Hok). cbn zeta.
  pose proof (screen_grid sz s Hok) as Hg. pose proof (live_pos sz _ Hg) as [Hr Hc]. split_and!; [apply Hg|lia|lia|lia|lia|].
  intros r Hin. assert (row_ok (s_cols sz) r) as Hrow by (by apply (proj1 (Forall_forall _ _) (go_row _ _ (proj1 Hg)))).
  split; [apply Hrow|]. intros i c Hi. by apply (cell_typed (s_cols sz)).
Qed.
End reachable.

(** ** Printing *)
Lemma grid_set_grid g s : grid (set_grid g s) = g.
Proof. unfold set_grid, grid. destruct (mode MODE_ALTERNATE_SCREEN s) eqn:E; cbn; unfold mode in *; cbn; by rewrite E. Qed.

Lemma index_app_other {A} (a b : list A) x y i : i ≠ len a → index i (a ++ x :: b) = index i (a ++ y :: b).
Proof.
  intros Hi. unfold index. destruct (Z.leb_spec 0 i); [|done]. unfold len in Hi.
  destruct (decide (Z.to_nat i < length a)%nat); [by rewrite !lookup_app_l|].
  rewrite !lookup_app_r by lia. destruct (Z.to_nat i - length a)%nat eqn:E; [lia|done].
Qed.

Section print.
Context `{UW : UnicodeWidth} {UWL : UnicodeWidthLaws UW} `{D : Discipline}.
Context (sz : Size) (Hsz : size_safe sz).

(** The row and the cursor after a character was drawn at the cursor. *)
Lemma text_printing_draws c a g w :
  live sz g → is_scalar c → attrs_ok a → width c = Some w → 1 ≤ w → p_col (pos g) + w ≤ s_cols sz →
  ∃ A r B r' x d y,
    rows g = A ++ r :: B ∧ len A = p_row (pos g) ∧ cells r' = x ++ d :: y ∧ len x = p_col (pos g) ∧
    cell_is [c] (1 <? w) false d ∧ cell_attrs d = a ∧ (w = 2 → ∃ e y', y = e :: y' ∧ is_wide_continuation e = true) ∧
    text_printing c w a g =
      Some (set_pos_col (p_col (pos g) + w) (set_rows (A ++ r' :: B) g)).
Proof using Hsz UWL.
  intros Hg Hc Ha Hw Hw1 Hfit. pose proof (live_pos sz g Hg) as [Hpr Hpc]. pose proof (width_range c w Hw).
  destruct (live_row sz g _ Hg Hpr) as (A & r & B & Heq & HA & Hrow & _).
  destruct (text_printing_row sz Hsz c w a g A r B) as (x & d & y & Hlx & Hpx & Hpy & Hlen & Hd & Hat & Hwr & ->);
    try done; [lia|]. pose proof (text_base (1 <? w) c (width_printable c w Hc Hw)) as Htext. rewrite Hw in Hd, Htext. cbn in Hd, Htext. exists A, r, B. cbn zeta.
  destruct (Z.ltb_spec 1 w) as [Hwide|Hnarrow].
  - destruct (text_second_half_row sz Hsz a (col_inc 1 (set_rows (A ++ mkRow (x ++ d :: y) (wrapped r) :: B) g)) A
      (mkRow (x ++ d :: y) (wrapped r)) B x d y) as (r' & Hr' & (e & y' & He & Hs) & ->); try done.
    + exact (live_size sz g Hg).
    + safe.
    + lia.
    + exists [c]. auto.
    + exists r', x, d, (e :: y'). split_and!; try done; [by eauto|].
      change (col_inc 1 (set_rows (A ++ r' :: B) _)) with
        (set_pos_col (saturating_add U16_MAX (saturating_add U16_MAX (p_col (pos g)) 1) 1) (set_rows (A ++ r' :: B) g)).
      do 2 f_equal. safe.
  - exists (mkRow (x ++ d :: y) (wrapped r)), x, d, y. split_and!; try done; [lia|].
    unfold col_inc. do 2 f_equal. safe.
Qed.

(** C18. Printing a character that fits before the right margin puts it, with the current
    attributes, in the cell under the cursor; the next cell becomes the second half
    of a wide one; the cursor moves past it and the other rows are as they were. *)
Theorem print_draws_character c w s :
  screen_ok sz s → is_scalar c → width c = Some w → 1 ≤ w →
  p_col (pos (grid s)) + w ≤ s_cols sz →
  ∃ s', text c s = Some s' ∧
    pos (grid s') = mkPos (p_row (pos (grid s))) (p_col (pos (grid s)) + w) ∧
    cell_chars s' (p_row (pos (grid s))) (p_col (pos (grid s))) = Some (Some [c]) ∧
    (∃ d, drawing_cell (pos (grid s)) (grid s') = Some d ∧ cell_attrs d = attrs s ∧ is_wide d = (1 <? w)) ∧
    (w = 2 → ∃ d, drawing_cell (mkPos (p_row (pos (grid s))) (p_col (pos (grid s)) + 1)) (grid s') = Some d ∧
       is_wide_continuation d = true) ∧
    (∀ i, i ≠ p_row (pos (grid s)) → drawing_row i (grid s') = drawing_row i (grid s)).
Proof using Hsz UWL.
  intros Hs Hc Hw Hw1 Hfit. pose proof (screen_grid sz s Hs) as Hg. pose proof (width_range c w Hw).
  destruct (text_printing_draws c (attrs s) (grid s) w) as (A & r & B & r' & x & d & y & Heq & HA & Hr' & Hx & Hd & Hat & Hy & Ht);
    try done; [apply Hs|].
  assert (grid_text c (attrs s) (grid s) = Some (set_pos_col (p_col (pos (grid s)) + w) (set_rows (A ++ r' :: B) (grid s)))) as Hgt.
  { unfold grid_text. rewrite Hw, bool_decide_eq_false_2 by done. cbn [default andb id]. unfold try_from.
    replace (_ && _) with true by (unfold U16_MAX; lia). cbn [mbind option_bind]. unfold text_wraps, col_wrap.
    pose proof (live_pos sz _ Hg) as [_ ?]. rewrite (live_size sz _ Hg), !sub16_Some by lia. cbn [mbind option_bind].
    destruct (Z.ltb_spec (s_cols sz - w) (p_col (pos (grid s)))); [lia|]. cbn [mbind option_bind].
    destruct (Z.eqb_spec w 0); [lia|done]. }
  destruct (grid_text_ok sz Hsz c (attrs s) (grid s)) as (g1 & Hg1 & Hg'); [done|done|apply Hs|].
  unfold text, on_grid. rewrite Hgt in Hg1 |- *. injection Hg1 as <-. cbn [mbind option_bind].
  eexists. split; [done|]. rewrite grid_set_grid. set (g' := set_pos_col _ _) in *.
  assert (rows g' = A ++ r' :: B) as Hrows by done.
  assert (drawing_cell (pos (grid s)) g' = Some d) as Hdraw.
  { rewrite (drawing_cell_row g' A r' B) by done. rewrite <- Hx. by eapply Row_get_app. }
  split_and!; [done| | | |].
  - unfold cell_chars, cell_text, visible_cell. rewrite grid_set_grid. rewrite (visible_rows_live sz) by apply Hg'.
    cbn [mbind option_bind]. unfold drawing_cell, drawing_row in Hdraw. cbn [p_row p_col]. rewrite Hdraw.
    rewrite (contents_of_Some Hd). cbn [mbind option_bind option_map].
    by rewrite encode_all_chars by (by constructor).
  - exists d. split_and!; [done|done|]. apply (cell_is_flags Hd).
  - intros Hw2. destruct (Hy Hw2) as (e & y' & -> & He). exists e. split; [|done].
    rewrite (drawing_cell_row g' A r' B) by done. cbn [p_col]. rewrite <- Hx. by eapply Row_get_app2.
  - intros i Hi. unfold drawing_row. rewrite Hrows, Heq. apply index_app_other. lia.
Qed.
End print.

(** ** Scrolling *)

(** The lines of a region moved up by [k], with blank lines at its end. *)
Definition scrolled {A} (k : nat) (blank : A) (region : list A) : list A :=
  drop k region ++ replicate (k `min` length region) blank.

Lemma scrolled_step {A} k (blank x : A) m : scrolled k blank (m ++ [blank]) = scrolled (S k) blank (x :: m).
Proof.
  unfold scrolled. cbn [drop length]. rewrite length_app. cbn [length]. destruct (decide (k ≤ length m)%nat) as [Hk|Hk].
  - rewrite drop_app_le by done. rewrite <- app_assoc. f_equal.
    replace (k `min` (length m + 1))%nat with k by lia. by replace (S k `min` S (length m))%nat with (S k) by lia.
  - rewrite !drop_ge by (rewrite ?length_app; cbn; lia). cbn [app]. f_equal. lia.
Qed.

Lemma length_scrolled {A} k (blank : A) region : length (scrolled k blank region) = length region.
Proof. unfold scrolled. rewrite length_app, length_drop, length_replicate. lia. Qed.

Section scroll.
Context `{UW : UnicodeWidth} `{D : Discipline}.
Context (sz : Size) (Hsz : size_safe sz).

Lemma shift_up_region g a x m b top bottom :
  rows g = a ++ (x :: m) ++ b → len a = top → len (x :: m) = bottom + 1 - top →
  shift_up top bottom g = Some (x, set_rows (a ++ (m ++ [new_row g]) ++ b) g).
Proof using.
  intros Hr Ha Hm. unfold shift_up. rewrite Hr.
  replace (a ++ (x :: m) ++ b) with ((a ++ x :: m) ++ b) by (by rewrite <- app_assoc).
  rewrite vec_insert_app by (rewrite len_app; lia). cbn [mbind option_bind].
  rewrite <- app_assoc. cbn [app]. rewrite vec_remove_app by done. cbn [mbind option_bind].
  by rewrite <- (app_assoc m).
Qed.

(** C20. [scroll_up] moves the lines of the scroll region up and fills the region with
    blank lines; nothing else of the grid changes. *)
Theorem scroll_up_shifts_region n g :
  live sz g → 0 ≤ n →
  let top := Z.to_nat (scroll_top g) in
  let height := Z.to_nat (scroll_bottom g + 1 - scroll_top g) in
  scroll_up n g =
    Some (set_rows (take top (rows g) ++
                    scrolled (Z.to_nat n `min` height) (new_row g) (take height (drop top (rows g))) ++
                    drop (top + height) (rows g)) g).
Proof using Hsz.
  intros Hg Hn top height. pose proof (live_region sz g Hg). unfold scroll_up.
  rewrite (live_size sz g Hg), sub16_Some by lia. cbn [mbind option_bind].
  set (k := Z.to_nat (Z.min n (s_rows sz - scroll_top g))).
  set (a := take top (rows g)). set (reg := take height (drop top (rows g))). set (b := drop (top + height) (rows g)).
  assert (rows g = a ++ reg ++ b) as Hrows.
  { unfold a, reg, b. rewrite <- drop_drop, take_drop. by rewrite take_drop. }
  assert (len a = scroll_top g) as Ha.
  { unfold a, top. rewrite len_take, (proj2 Hg). lia. }
  assert (length reg = height) as Hreg.
  { unfold reg. rewrite length_take, length_drop. pose proof (proj2 Hg) as Hl. unfold len in Hl. lia. }
  assert (scrolled (Z.to_nat n `min` height) (new_row g) reg = scrolled k (new_row g) reg) as ->.
  { unfold scrolled. rewrite Hreg. destruct (decide (Z.to_nat n ≤ height)%nat).
    - by replace k with (Z.to_nat n `min` height)%nat by lia.
    - rewrite !drop_ge by lia. cbn. f_equal. lia. }
  assert (∀ k reg g', g' = set_rows (a ++ reg ++ b) g → length reg = height →
    repeat_n k (λ g, '(removed, g) ← shift_up (scroll_top g) (scroll_bottom g) g; keep_scrollback removed g) g' =
    Some (set_rows (a ++ scrolled k (new_row g) reg ++ b) g)) as Hloop.
  { clear k reg Hrows Hreg. induction k as [|k IH]; intros reg g' -> Hreg.
    - unfold scrolled. cbn [drop Nat.min replicate repeat_n]. by rewrite app_nil_r.
    - destruct reg as [|x m]; [cbn in Hreg; lia|]. cbn [repeat_n].
      rewrite (shift_up_region _ a x m b); [|done|done|unfold len; cbn [scroll_bottom scroll_top set_rows]; lia].
      cbn [mbind option_bind]. unfold keep_scrollback.
      assert (scrollback_len g = 0) as Hsb by apply (go_scrollback _ _ (proj1 Hg)).
      cbn [scrollback_len set_rows]. rewrite Hsb. cbn [Z.ltb mbind option_bind negb].
      etransitivity; [apply (IH (m ++ [new_row g])); [done|]|by rewrite (scrolled_step k (new_row g) x)].
      rewrite length_app. cbn in *. lia. }
  apply Hloop; [|done]. rewrite <- Hrows. by destruct g.
Qed.
End scroll.

(** ** Where the emulator panics *)

(** C39. On a grid of one row, the first character that wraps makes the emulator panic: the
    row above the scrolled one does not exist. *)
Theorem one_row_wrap_panics `{UW : UnicodeWidth} c a g :
  width c = Some 1 → s_rows (size g) = 1 → 1 ≤ s_cols (size g) ≤ U16_MAX →
  pos g = mkPos 0 (s_cols (size g)) → scroll_top g = 0 → scroll_bottom g = 0 → grid_text c a g = None.
Proof.
  intros Hw Hr Hc Hp Ht Hb. unfold grid_text. rewrite Hw, bool_decide_eq_false_2 by done. cbn [default andb id].
  change (try_from U16_MAX 1) with (Some 1). cbn [mbind option_bind].
  destruct (text_wraps 1 g) as [wrap|]; [|done]. cbn [mbind option_bind].
  unfold col_wrap. rewrite sub16_Some by lia. cbn [mbind option_bind]. rewrite Hp. cbn [p_col p_row].
  replace (s_cols (size g) - 1 <? s_cols (size g)) with true by lia.
  assert (row_inc_scroll 1 (set_pos_col 0 g) = None ∨ ∃ g', row_inc_scroll 1 (set_pos_col 0 g) = Some (g', 1))
    as [->|(g' & ->)]; [|done|done].
  unfold row_inc_scroll.
  assert (in_scroll_region (set_pos_col 0 g) = true) as ->.
  { unfold in_scroll_region. cbn. by rewrite Hp, Ht, Hb. }
  set (g0 := set_pos_row _ _).
  assert (row_clamp_bottom true g0 = Some (set_pos_row 0 g0, 1)) as ->.
  { unfold row_clamp_bottom, g0. cbn. by rewrite Hp, Hb. }
  cbv beta iota delta [mbind option_bind].
  destruct (scroll_up 1 (set_pos_row 0 g0)) as [g'|]; [right; by exists g'|by left].
Qed.

(** On a grid narrower than a character, printing the character panics. *)
Theorem narrow_grid_panics `{UW : UnicodeWidth} c w a g :
  width c = Some w → 0 ≤ w ≤ U16_MAX → s_cols (size g) < w → grid_text c a g = None.
Proof.
  intros Hw Hr Hc. unfold grid_text. rewrite Hw, bool_decide_eq_false_2 by done. cbn [default andb id].
  unfold try_from. replace (_ && _) with true by lia. cbn [mbind option_bind]. unfold text_wraps, sub16.
  destruct (checked_sub (s_cols (size g)) w) eqn:E; [|done]. apply checked_sub_Some in E. lia.
Qed.

(** C40. A row that was narrowed through a wide character cannot be erased any more: erasing
    its last cell panics. *)
Theorem cut_row_panics cols r a :
  1 ≤ cols → cut_in_row cols r = true → Row_erase (cols - 1) a (Row_resize cols Cell_new r) = None.
Proof.
  intros Hc Hcut. unfold cut_in_row in Hcut. destruct (index (cols - 1) (cells r)) as [c|] eqn:Hi; [|done].
  unfold Row_erase.
  assert (Row_get (cols - 1) (Row_resize cols Cell_new r) = Some c) as Hg.
  { unfold Row_get, Row_resize, index in *. cbn. destruct (Z.leb_spec 0 (cols - 1)); [|done].
    apply lookup_lt_Some in Hi as Hlt. unfold vec_resize. rewrite lookup_app_l by (rewrite length_take; lia).
    by rewrite lookup_take_lt by lia. }
  rewrite Hg. cbn [mbind option_bind]. unfold clear_wide. rewrite Hg. cbn [mbind option_bind]. rewrite Hcut.
  destruct (add16 (cols - 1) 1) as [next|] eqn:Hn; [|done]. cbn [mbind option_bind].
  apply checked_add_Some in Hn as [-> _].
  assert (Row_update (cols - 1 + 1) (λ c, Some (clear_keep c)) (Row_resize cols Cell_new r) = None) as ->; [|done].
  unfold Row_update, update, index. destruct (Z.leb_spec 0 (cols - 1 + 1)); [|done].
  rewrite (proj2 (lookup_ge_None _ _)); [done|]. pose proof (len_vec_resize cols Cell_new (cells r) ltac:(lia)) as Hl.
  unfold len in Hl. cbn. lia.
Qed.

(** ** Witnesses *)
#[local] Existing Instance lenient.

(** A width table with one wide character, decimal numbers, and a parser for which
    each byte is an event: ASCII prints itself, 200 prints the wide character, 201
    erases the rest of the line, and the rest are control codes. *)
#[local] Instance wide_width : UnicodeWidth :=
  {| unicode_width c := if (c <? 32) || between 127 159 c then None else if c =? 0x4e2d then Some 2 else Some 1 |}.

#[local] Instance wide_width_laws : UnicodeWidthLaws wide_width.
Proof.
  split.
  - intros c w. cbn. repeat case_match; intros [= <-]; lia.
  - intros c Hc. cbn. unfold between. replace (_ || _) with false by lia. by replace (c =? 0x4e2d) with false by lia.
  - intros c Hc. cbn. unfold between. by replace (_ || _) with true by lia.
Qed.

#[local] Instance decimal_itoa : Itoa := {| itoa := decimal |}.

Definition byte_event (b : Z) : VteEvent :=
  if between 32 126 b then Print b
  else if b =? 200 then Print 0x4e2d
  else if b =? 201 then CsiDispatch [[0]] [] 75
  else Execute b.
#[local] Instance byte_vte : Vte :=
  {| VteParser := unit; vte_new := tt; vte_advance _ l := (tt, byte_event <$> l) |}.
#[local] Instance byte_vte_typed : VteTyped byte_vte.
Proof.
  intros p l. cbn. apply Forall_fmap, Forall_forall. intros b _. cbn. unfold byte_event, between.
  destruct (_ && _) eqn:E; [left; lia|]. destruct (b =? 200); [left; lia|]. destruct (b =? 201); [|done].
  repeat constructor; unfold U16_MAX; lia.
Qed.

Lemma screen_well_typed_witness :
  ∃ s c d r, safe_screen s ∧ r ∈ rows (grid s) ∧ index 0 (cells r) = Some c ∧ is_wide c = true ∧
    index 1 (cells r) = Some d ∧ is_wide_continuation d = true.
Proof.
  assert (size_safe (mkSize 2 4)) as Hsz by (repeat split; done).
  destruct (screen_new 2 4) as [s|] eqn:Hs; [|exfalso; vm_compute in Hs; discriminate].
  destruct (screen_process s [200]) as [[s' u]|] eqn:Hp; [|exfalso; vm_compute in Hs; injection Hs as <-; vm_compute in Hp; discriminate].
  assert (safe_screen s') as Hsafe by (eapply safe_process; [by eapply safe_new|exact Hp]).
  pose proof (screen_well_typed s' Hsafe) as H. destruct (screen_size s') as [n m]. destruct H as (_ & _ & _ & H).
  destruct (rows (grid s')) as [|r rs] eqn:Hr; [exfalso; vm_compute in Hs; injection Hs as <-; vm_compute in Hp; injection Hp as <- _; discriminate|].
  destruct (H r ltac:(by left)) as [_ Hcell]. destruct (index 0 (cells r)) as [c|] eqn:Hc;
    [|exfalso; vm_compute in Hs; injection Hs as <-; vm_compute in Hp; injection Hp as <- _; injection Hr as <- _; discriminate].
  assert (is_wide c = true) as Hw.
  { vm_compute in Hs; injection Hs as <-; vm_compute in Hp; injection Hp as <- _; injection Hr as <- _; injection Hc as <-; reflexivity. }
  destruct (Hcell 0 c Hc) as (_ & _ & Hwide & _). destruct (Hwide Hw) as (_ & d & Hd & Hk).
  exists s', c, d, r. split; [exact Hsafe|]. split; [rewrite Hr; by left|]. split; [exact Hc|]. split; [exact Hw|]. split; [exact Hd|exact Hk].
Defined.

Lemma emulator_never_panics_witness :
  ∃ s s', screen_new 2 4 = Some s ∧ screen_process s [97; 98; 200; 99] = Some (s', []) ∧
    is_Some (state_formatted s') ∧ is_Some (state_diff s s').
Proof.
  assert (size_safe (mkSize 2 4)) as Hsz by (repeat split; done).
  destruct (screen_new 2 4) as [s|] eqn:Hs; [|exfalso; vm_compute in Hs; discriminate].
  pose proof (safe_new 2 4 s Hsz Hs) as Hsafe.
  destruct (screen_process s [97; 98; 200; 99]) as [[s' u]|] eqn:Hp.
  2: { destruct (proj1 (emulator_never_panics s Hsafe) [97; 98; 200; 99]) as (? & ? & H & _). congruence. }
  pose proof (safe_process s _ s' u Hsafe Hp) as Hsafe'.
  exists s, s'. split; [done|]. split; [|split].
  - vm_compute in Hs. injection Hs as <-. vm_compute in Hp. injection Hp as <- <-. vm_compute. reflexivity.
  - apply (emulator_never_panics s' Hsafe').
  - by apply (emulator_never_panics s Hsafe).
Defined.

Lemma print_draws_character_witness :
  ∃ s s', VtScreen_new (mkSize 2 4) 0 = Some s ∧ text 0x4e2d s = Some s' ∧
    cell_chars s' 0 0 = Some (Some [0x4e2d]).
Proof.
  assert (size_safe (mkSize 2 4)) as Hsz by (repeat split; done).
  destruct (VtScreen_new_ok (mkSize 2 4) Hsz) as (s & Hs & Hok).
  pose proof Hs as Hs'. vm_compute in Hs'. injection Hs' as Heq.
  assert (p_col (pos (grid s)) = 0 ∧ p_row (pos (grid s)) = 0) as [Hc Hr] by (rewrite <- Heq; by vm_compute).
  destruct (print_draws_character (mkSize 2 4) Hsz 0x4e2d 2 s Hok) as (s' & Ht & _ & Hcell & _).
  - left. lia.
  - reflexivity.
  - lia.
  - rewrite Hc. cbn. lia.
  - exists s, s'. rewrite Hc, Hr in Hcell. done.
Defined.

Definition two_rows : Grid :=
  mkGrid (mkSize 2 2) (mkPos 1 0) Pos_default [mkRow (replicate 2 Cell_new) true; Row_new 2] 0 1 false false [] 0 0.

Lemma scroll_up_shifts_region_witness :
  scroll_up 1 two_rows = Some (set_rows [Row_new 2; Row_new 2] two_rows).
Proof.
  assert (size_safe (mkSize 2 2)) as Hsz by (repeat split; done).
  assert (live (mkSize 2 2) two_rows) as Hg.
  { split; [split; cbn; try done; try lia|done]; [by right| |by repeat split..].
    constructor; [|constructor; [|constructor]]; (split_and!; [done|apply (paired_replicate 2), narrow_new|by intros ?]). }
  rewrite (scroll_up_shifts_region (mkSize 2 2) Hsz 1 two_rows Hg ltac:(lia)). reflexivity.
Defined.

(** A grid of one row and two columns that is full. *)
Definition full_row : Grid :=
  mkGrid (mkSize 1 2) (mkPos 0 2) Pos_default [Row_new 2] 0 0 false false [] 0 0.

Lemma one_row_wrap_panics_witness : grid_text 97 Attrs_default full_row = None.
Proof. apply one_row_wrap_panics; try reflexivity. cbn. unfold U16_MAX. lia. Defined.

Lemma narrow_grid_panics_witness :
  grid_text 0x4e2d Attrs_default (mkGrid (mkSize 2 1) Pos_default Pos_default [Row_new 1; Row_new 1] 0 1 false false [] 0 0) = None.
Proof. apply (narrow_grid_panics 0x4e2d 2); [reflexivity|unfold U16_MAX; lia|cbn; lia]. Defined.

(** The row [a b 中] narrowed to three columns. *)
Definition cut_row : Row :=
  mkRow (replicate 2 Cell_new ++ [set_wide true Cell_new; set_wide_continuation true Cell_new]) false.

Lemma cut_row_panics_witness : Row_erase 2 Attrs_default (Row_resize 3 Cell_new cut_row) = None.
Proof. apply (cut_row_panics 3); [lia|reflexivity]. Defined.

(** The same through the interface: a full one-row screen, and a screen narrowed
    through a wide character whose line is then erased. *)
Example one_row_screen_panics :
  ∃ s, screen_new 1 2 = Some s ∧ is_Some (screen_process s [97; 98]) ∧ screen_process s [97; 98; 99] = None.
Proof. eexists. split; [vm_compute; reflexivity|]. split; [eexists; vm_compute; reflexivity|vm_compute; reflexivity]. Qed.

Example narrowed_screen_panics :
  ∃ s s' s'', screen_new 2 4 = Some s ∧ screen_process s [97; 98; 200] = Some (s', []) ∧
    screen_set_size 2 3 s' = Some s'' ∧ screen_process s'' [201] = None.
Proof.
  eexists _, _, _. split; [vm_compute; reflexivity|]. split; [vm_compute; reflexivity|].
  split; vm_compute; reflexivity.
Qed.
