(* ===== verification/Vt100Tokens.v ===== *)
(** * What written bytes do to a terminal

    The writers of the emulator produce characters, control codes and escape sequences.
    [drawn] says that a byte string is made of complete ones, and what a screen becomes
    when the parser delivers their events. *)

From Stdlib Require Import String.
From S2P Require Import Prelude Limits TerminalWidth Emulator Vt100Cell Vt100Row Vt100RowInv Vt100Grid Vt100Screen Vt100Attrs Vt100Parser.

Local Open Scope Z_scope.

(** ** Tokens *)
Inductive Token :=
  | TChar (c : Z)
  | TControl (b : Z)
  | TEscape (b : Z)
  | TCsi (private : bool) (params : list Z) (final : Z).

Definition token_bytes (t : Token) : bytes :=
  match t with
  | TChar c => encode_utf8 c
  | TControl b => [b]
  | TEscape b => [27; b]
  | TCsi private params final =>
      27 :: 91 :: (if private then [63] else []) ++ separated [59] (decimal <$> params) ++ [final]
  end.

(** The event the parser delivers for it; a sequence without parameters has the single
    parameter 0. *)
Definition token_event (t : Token) : VteEvent :=
  match t with
  | TChar c => Print c
  | TControl b => Execute b
  | TEscape b => EscDispatch [] b
  | TCsi private params final =>
      CsiDispatch (if bool_decide (params = []) then [[0]] else as_params params) (if private then [63] else []) final
  end.

(** What the parser takes for such a token: a character that is not a control code, a C0
    control, the final byte of an escape sequence that does not start a longer one, and
    up to 16 numeric parameters of 16 bits with a final byte. *)
Definition token_ok (t : Token) : Prop :=
  match t with
  | TChar c => printable c
  | TControl b => b = 8 ∨ b = 10 ∨ b = 13
  | TEscape b => b = 55 ∨ b = 56 ∨ b = 61 ∨ b = 62
  | TCsi _ params final => Forall is_u16 params ∧ len params ≤ 16 ∧ 64 ≤ final ≤ 126
  end.

#[export] Instance token_ok_dec t : Decision (token_ok t).
Proof. destruct t; unfold token_ok, printable, is_scalar, is_u16; apply _. Defined.

(** What the parser documents for complete tokens, from its initial state. *)
Class VteTokens (V : Vte) : Prop :=
  vte_tokens tokens :
    Forall token_ok tokens → (vte_advance vte_new (tokens ≫= token_bytes)).2 = token_event <$> tokens.

(** ** Screens that differ in the current grid and the drawing attributes *)
Definition put (g : Grid) (a : Attrs) (s : VtScreen) : VtScreen := set_attrs a (set_grid g s).

Ltac both_grids s :=
  destruct s as [? ? ? ? m ? ?]; unfold put, grid, set_grid, mode; cbn [modes];
  destruct (has_flag MODE_ALTERNATE_SCREEN m) eqn:E; cbn; rewrite ?E; done.

Lemma put_grid g a s : grid (put g a s) = g.
Proof. both_grids s. Qed.
Lemma put_attrs g a s : attrs (put g a s) = a.
Proof. done. Qed.
Lemma put_put g a g' a' s : put g' a' (put g a s) = put g' a' s.
Proof. both_grids s. Qed.
Lemma put_same s : put (grid s) (attrs s) s = s.
Proof. both_grids s. Qed.
Lemma put_set_grid g' g a s : set_grid g' (put g a s) = put g' a s.
Proof. both_grids s. Qed.

Lemma put_saved_attrs g a s : saved_attrs (put g a s) = saved_attrs s.
Proof. both_grids s. Qed.

Lemma on_grid_put f g g' a s : f g = Some g' → on_grid f (put g a s) = Some (put g' a s).
Proof. intros Hf. unfold on_grid. rewrite put_grid, Hf. cbn [mbind option_bind]. by rewrite put_set_grid. Qed.

Section drawn.
Context `{UW : UnicodeWidth}.

(** [b] is made of complete tokens and turns [s] into [s'], without a callback. *)
Definition paints (b : bytes) (s s' : VtScreen) : Prop :=
  ∃ tokens, b = tokens ≫= token_bytes ∧ Forall token_ok tokens ∧
    ∀ calls, for_each (token_event <$> tokens) perform (mkWrappedScreen s calls) = Some (mkWrappedScreen s' calls).

Lemma paints_nil s : paints [] s s.
Proof. by exists []. Qed.

Lemma for_each_app {A S} (l k : list A) (body : A → S → option S) s :
  for_each (l ++ k) body s = for_each l body s ≫= for_each k body.
Proof. revert s. induction l as [|x l IH]; intros s; [done|]. cbn. destruct (body x s); [apply IH|done]. Qed.

Lemma paints_app b b' s s1 s2 : paints b s s1 → paints b' s1 s2 → paints (b ++ b') s s2.
Proof.
  intros (t & -> & Ht & Hr) (t' & -> & Ht' & Hr'). exists (t ++ t'). rewrite bind_app.
  split_and!; [done|by apply Forall_app|]. intros calls. rewrite fmap_app, for_each_app, Hr. apply Hr'.
Qed.

Lemma paints_one t s s' :
  token_ok t → (∀ calls, perform (token_event t) (mkWrappedScreen s calls) = Some (mkWrappedScreen s' calls)) →
  paints (token_bytes t) s s'.
Proof.
  intros Ht Hp. exists [t]. split_and!; [cbn; by rewrite app_nil_r|by constructor|].
  intros calls. cbn [fmap list_fmap for_each]. by rewrite Hp.
Qed.

(** The same for the grid and the attributes alone. *)
Definition drawn (b : bytes) (x y : Grid * Attrs) : Prop := ∀ s, paints b (put x.1 x.2 s) (put y.1 y.2 s).

Lemma drawn_nil x : drawn [] x x.
Proof. intros s. apply paints_nil. Qed.

Lemma drawn_app b b' x y z : drawn b x y → drawn b' y z → drawn (b ++ b') x z.
Proof. intros H H' s. by eapply paints_app. Qed.

Lemma drawn_one t x y :
  token_ok t →
  (∀ s calls, perform (token_event t) (mkWrappedScreen (put x.1 x.2 s) calls) = Some (mkWrappedScreen (put y.1 y.2 s) calls)) →
  drawn (token_bytes t) x y.
Proof. intros Ht Hp s. by apply paints_one. Qed.

(** An event that acts on the grid. *)
Lemma on_screen_grid_put f g g' a s calls :
  f g = Some g' → on_screen (on_grid f) (mkWrappedScreen (put g a s) calls) = Some (mkWrappedScreen (put g' a s) calls).
Proof. intros Hf. unfold on_screen. cbn [wrapped_screen]. by rewrite (on_grid_put f g g'). Qed.

(** ** The tokens the writers use *)
Context `{IT : Itoa} {IL : ItoaLaws IT}.

Lemma drawn_char c g g' a : printable c → grid_text c a g = Some g' → drawn (encode_utf8 c) (g, a) (g', a).
Proof.
  intros Hc Hg. apply (drawn_one (TChar c)); [done|]. intros s calls. cbn [token_event perform fst snd].
  unfold perform_print. replace (_ && _) with false by (unfold printable in Hc; lia).
  unfold on_screen, text. cbn [wrapped_screen]. by rewrite put_attrs, (on_grid_put _ g g').
Qed.

Lemma drawn_backspace g a : drawn Backspace_write_buf (g, a) (col_dec 1 g, a).
Proof. apply (drawn_one (TControl 8)); [by left|]. intros s calls. by apply on_screen_grid_put. Qed.

Lemma drawn_crlf g g1 g2 n a :
  col_set 0 g = Some g1 → row_inc_scroll 1 g1 = Some (g2, n) → drawn Crlf_write_buf (g, a) (g2, a).
Proof.
  intros H1 H2. apply (drawn_app [13] [10] _ (g1, a)).
  - apply (drawn_one (TControl 13)); [by right; right|]. intros s calls. by apply on_screen_grid_put.
  - apply (drawn_one (TControl 10)); [by right; left|]. intros s calls. apply on_screen_grid_put. cbn [fst]. by rewrite H2.
Qed.

Lemma drawn_linefeed g g' n a : row_inc_scroll 1 g = Some (g', n) → drawn [10] (g, a) (g', a).
Proof.
  intros H. apply (drawn_one (TControl 10)); [by right; left|]. intros s calls. apply on_screen_grid_put. cbn [fst]. by rewrite H.
Qed.

(** Sequences with at most one parameter; 1 need not be written. *)
Lemma drawn_csi_plain final g g' a (f : Z → VtScreen → option VtScreen) params n :
  64 ≤ final ≤ 126 → Forall is_u16 params → len params ≤ 1 →
  canonicalize_params_1 (if bool_decide (params = []) then [[0]] else as_params params) 1 = n →
  (∀ p w, canonicalize_params_1 p 1 = n → perform_csi_plain p final w = on_screen (f n) w) →
  (∀ s, f n (put g a s) = Some (put g' a s)) →
  drawn (token_bytes (TCsi false params final)) (g, a) (g', a).
Proof.
  intros Hf Hp Hl Hn Hperf Hfn. apply drawn_one; [split_and!; done || lia|]. intros s calls.
  cbn [token_event perform perform_csi fst snd]. rewrite Hperf by done. unfold on_screen. cbn [wrapped_screen]. by rewrite Hfn.
Qed.

Lemma drawn_move_right n g g' a :
  1 ≤ n → is_u16 n → col_inc_clamp n g = Some g' → drawn (MoveRight_write_buf n) (g, a) (g', a).
Proof.
  intros Hn Hu Hg. unfold MoveRight_write_buf. replace (n =? 0) with false by lia.
  assert (∀ s, cuf n (put g a s) = Some (put g' a s)) as Hc by (intros s; by apply on_grid_put).
  destruct (Z.eqb_spec n 1) as [->|].
  - apply (drawn_csi_plain 67 g g' a cuf [] 1); try done; try lia. by intros p w <-.
  - rewrite itoa_decimal by done. apply (drawn_csi_plain 67 g g' a cuf [n] n); try done; try lia; [by apply Forall_singleton| |by intros p w <-].
    cbn. unfold canonicalize_params_1, nonzero_or. cbn. by replace (n =? 0) with false by lia.
Qed.

Lemma drawn_erase_char n g g' a :
  1 ≤ n → is_u16 n → erase_cells n a g = Some g' → drawn (EraseChar_write_buf n) (g, a) (g', a).
Proof.
  intros Hn Hu Hg. unfold EraseChar_write_buf. replace (n =? 0) with false by lia.
  assert (∀ s, ech n (put g a s) = Some (put g' a s)) as Hc by (intros s; unfold ech; rewrite put_attrs; by apply on_grid_put).
  destruct (Z.eqb_spec n 1) as [->|].
  - apply (drawn_csi_plain 88 g g' a ech [] 1); try done; try lia. by intros p w <-.
  - rewrite itoa_decimal by done. apply (drawn_csi_plain 88 g g' a ech [n] n); try done; try lia; [by apply Forall_singleton| |by intros p w <-].
    cbn. unfold canonicalize_params_1, nonzero_or. cbn. by replace (n =? 0) with false by lia.
Qed.

Lemma drawn_move_to p g g' a :
  0 ≤ p_row p < U16_MAX → 0 ≤ p_col p < U16_MAX → set_pos p g = Some g' →
  ∃ b, MoveTo_write_buf p = Some b ∧ drawn b (g, a) (g', a).
Proof.
  intros Hr Hc Hg.
  assert (∀ r c s, r = p_row p + 1 → c = p_col p + 1 → cup r c (put g a s) = Some (put g' a s)) as Hcup.
  { intros r c s -> ->. unfold cup. rewrite !sub16_Some by lia. cbn [mbind option_bind]. apply on_grid_put.
    destruct p as [pr pc]. cbn [p_row p_col] in *. by replace (pr + 1 - 1) with pr by lia; replace (pc + 1 - 1) with pc by lia. }
  unfold MoveTo_write_buf. destruct (_ && _) eqn:Hz.
  - eexists. split; [done|]. apply (drawn_one (TCsi false [] 72)); [by split_and!|]. intros s calls.
    cbn [token_event perform perform_csi perform_csi_plain bool_decide fst snd].
    unfold canonicalize_params_2, nonzero_or, param_or. cbn -[cup put]. unfold on_screen. cbn [wrapped_screen].
    rewrite Z.eqb_refl, Hcup by lia. done.
  - rewrite !add16_Some by lia. cbn [mbind option_bind]. eexists. split; [done|].
    rewrite !itoa_decimal by (unfold is_u16; lia).
    replace (esc "[" ++ decimal (p_row p + 1) ++ lit ";" ++ decimal (p_col p + 1) ++ lit "H")
      with (token_bytes (TCsi false [p_row p + 1; p_col p + 1] 72)) by (cbn; by rewrite <- !app_assoc).
    apply drawn_one.
    { split_and!; try done. repeat (apply Forall_cons; split); [unfold is_u16; lia..|constructor]. }
    intros s calls. cbn [token_event perform perform_csi perform_csi_plain fst snd].
    rewrite bool_decide_eq_false_2 by done. cbn [as_params fmap list_fmap].
    unfold canonicalize_params_2, nonzero_or, param_or. cbn -[cup put Z.eqb Z.add].
    replace (p_row p + 1 =? 0) with false by lia. replace (p_col p + 1 =? 0) with false by lia.
    unfold on_screen. cbn [wrapped_screen]. rewrite Hcup by lia. done.
Qed.

(** The attributes. *)
Lemma params_u16 d : difference_ok d → Forall is_u16 (TermAttrs_params d) ∧ len (TermAttrs_params d) ≤ 16.
Proof.
  intros [Hf Hb]. unfold TermAttrs_params.
  assert (∀ base bright o, 0 ≤ base ≤ 100 → 0 ≤ bright ≤ 100 → (∀ c, o = Some c → color_ok c) →
    Forall is_u16 (opt_params (color_params base bright) o) ∧ len (opt_params (color_params base bright) o) ≤ 5) as Hcol.
  { intros base bright [c|] Hba Hbr Hc; cbn; [|split; [constructor|by vm_compute]]. specialize (Hc c eq_refl).
    destruct c as [|i|r g b]; cbn in Hc |- *; unfold is_u8, U8_MAX in Hc.
    - split; [|by vm_compute]. apply Forall_singleton. unfold is_u16, U16_MAX. lia.
    - repeat case_match; (split; [|by vm_compute]); repeat (apply Forall_cons; split); try constructor; unfold is_u16, U16_MAX; lia.
    - split; [|by vm_compute]. repeat (apply Forall_cons; split); try constructor; unfold is_u16, U16_MAX; lia. }
  destruct (Hcol 30 82 (t_fgcolor d)) as [H1 L1]; [lia|lia|done|].
  destruct (Hcol 40 92 (t_bgcolor d)) as [H2 L2]; [lia|lia|done|].
  assert (∀ {A} (f : A → list Z) (o : option A), (∀ v, Forall is_u16 (f v) ∧ len (f v) = 1) →
    Forall is_u16 (opt_params f o) ∧ len (opt_params f o) ≤ 1) as Hone.
  { intros A f [v|] Hv; cbn; [destruct (Hv v); split; [done|lia]|split; [constructor|by vm_compute]]. }
  assert (∀ on off (v : bool), is_u16 on → is_u16 off → Forall is_u16 (on_off on off v) ∧ len (on_off on off v) = 1) as Hoo.
  { intros on off v Hon Hoff. split; [|done]. apply Forall_singleton. by destruct v. }
  destruct (Hone _ intensity_params (t_intensity d)) as [H3 L3].
  { intros v. split; [|done]. apply Forall_singleton. by destruct v. }
  destruct (Hone _ (on_off 3 23) (t_italic d)) as [H4 L4]; [intros; by apply Hoo|].
  destruct (Hone _ (on_off 4 24) (t_underline d)) as [H5 L5]; [intros; by apply Hoo|].
  destruct (Hone _ (on_off 7 27) (t_inverse d)) as [H6 L6]; [intros; by apply Hoo|].
  destruct (Hone _ (on_off 5 25) (t_blink d)) as [H7 L7]; [intros; by apply Hoo|].
  destruct (Hone _ (on_off 8 28) (t_hidden d)) as [H8 L8]; [intros; by apply Hoo|].
  rewrite !Forall_app, !len_app. split; [by split_and!|lia].
Qed.

Lemma opt_params_nil {A} (f : A → list Z) o : (∀ v, f v ≠ []) → opt_params f o = [] → o = None.
Proof. intros Hf. destruct o as [v|]; [|done]. intros H. by destruct (Hf v). Qed.

Lemma params_nonempty d : TermAttrs_params d = [] → TermAttrs_is_empty d = true.
Proof.
  unfold TermAttrs_params, TermAttrs_is_empty. intros H. repeat apply app_eq_nil in H as [? H].
  assert (∀ base bright c, color_params base bright c ≠ []) by (intros ? ? []; cbn; by repeat case_match).
  repeat match goal with H : opt_params _ _ = [] |- _ => apply opt_params_nil in H; [|done] end.
  destruct d; cbn in *; subst. by apply bool_decide_eq_true_2.
Qed.

Lemma drawn_clear_attrs g a : drawn ClearAttrs_write_buf (g, a) (g, Attrs_default).
Proof.
  apply (drawn_one (TCsi false [] 109)); [by split_and!|]. intros s calls.
  unfold on_screen_unhandled. cbn. rewrite (proj2 (Z.eqb_neq 0 38)), (proj2 (Z.eqb_neq 0 48)) by done. cbn. by rewrite app_nil_r.
Qed.

Lemma drawn_attrs self other g :
  attrs_ok self → attrs_ok other → ∃ b, write_escape_code_diff self other = Some b ∧ drawn b (g, other) (g, self).
Proof.
  intros Hs Ho. unfold write_escape_code_diff. destruct (_ && _) eqn:Hdef.
  - apply andb_prop in Hdef as [_ ->%bool_decide_eq_true]. eexists. split; [done|]. apply drawn_clear_attrs.
  - destruct (difference_restores self other 0 Hs Ho) as (d & Hd & Hok & Hr). rewrite Hd. cbn [mbind option_bind].
    eexists. split; [done|]. unfold TermAttrs_write_buf. destruct (TermAttrs_is_empty d) eqn:He.
    + apply bool_decide_eq_true in He as ->. cbn in Hr. injection Hr as ->. apply drawn_nil.
    + destruct (params_u16 d Hok) as [Hu Hl].
      replace (itoa <$> TermAttrs_params d) with (decimal <$> TermAttrs_params d)
        by (apply list_fmap_ext; intros i n Hn; symmetry; apply itoa_decimal; by eapply Forall_lookup_1).
      apply (drawn_one (TCsi false (TermAttrs_params d) 109)); [by split_and!|]. intros s calls.
      assert (TermAttrs_params d ≠ []) as Hne by (intros Hn; by rewrite params_nonempty in He).
      cbn [token_event perform perform_csi perform_csi_plain fst snd]. rewrite bool_decide_eq_false_2 by done.
      unfold on_screen_unhandled, sgr. cbn [wrapped_screen]. rewrite bool_decide_eq_false_2 by (by destruct (TermAttrs_params d)).
      rewrite put_attrs, Hr. cbn [mbind option_bind]. by rewrite app_nil_r.
Qed.

(** Erasing to the end of the line, and of the screen. *)
Lemma drawn_erase_line g g' a : erase_row_forward a g = Some g' → drawn ClearRowForward_write_buf (g, a) (g', a).
Proof.
  intros Hg. apply (drawn_one (TCsi false [] 75)); [by split_and!|]. intros s calls.
  change (perform _ ?w) with (on_screen_unhandled (el 0) (UnhandledCsi None None [[0]] 75) w).
  unfold on_screen_unhandled, el. rewrite Z.eqb_refl. cbn [wrapped_screen fst snd]. rewrite put_attrs, (on_grid_put _ g g') by done.
  cbn [mbind option_bind replicate callbacks]. by rewrite app_nil_r.
Qed.

Lemma drawn_erase_below g g' a : erase_all_forward a g = Some g' → drawn (esc "[J") (g, a) (g', a).
Proof.
  intros Hg. apply (drawn_one (TCsi false [] 74)); [by split_and!|]. intros s calls.
  change (perform _ ?w) with (on_screen_unhandled (ed 0) (UnhandledCsi None None [[0]] 74) w).
  unfold on_screen_unhandled, ed. rewrite Z.eqb_refl. cbn [wrapped_screen fst snd]. rewrite put_attrs, (on_grid_put _ g g') by done.
  cbn [mbind option_bind replicate callbacks]. by rewrite app_nil_r.
Qed.

(** The modes. *)
Lemma paints_decset n b s s' :
  is_u16 n → token_bytes (TCsi true [n] 104) = b → decset_param [n] s = Some (s', 0%nat) → paints b s s'.
Proof.
  intros Hn <- Hd. apply paints_one; [split_and!; [by apply Forall_singleton|done..]|]. intros calls.
  change (perform _ ?w) with (on_screen_unhandled (decset [[n]]) (UnhandledCsi (Some 63) None [[n]] 104) w).
  unfold on_screen_unhandled, decset, each_param. cbn [for_each wrapped_screen]. rewrite Hd. cbn [mbind option_bind Nat.add replicate callbacks].
  by rewrite app_nil_r.
Qed.

Lemma paints_decrst n b s s' :
  is_u16 n → token_bytes (TCsi true [n] 108) = b → decrst_param [n] s = Some (s', 0%nat) → paints b s s'.
Proof.
  intros Hn <- Hd. apply paints_one; [split_and!; [by apply Forall_singleton|done..]|]. intros calls.
  change (perform _ ?w) with (on_screen_unhandled (decrst [[n]]) (UnhandledCsi (Some 63) None [[n]] 108) w).
  unfold on_screen_unhandled, decrst, each_param. cbn [for_each wrapped_screen]. rewrite Hd. cbn [mbind option_bind Nat.add replicate callbacks].
  by rewrite app_nil_r.
Qed.

Lemma paints_escape b (f : VtScreen → VtScreen) s :
  (b, f) ∈ [(55, decsc); (56, decrc); (61, deckpam); (62, deckpnm)] → paints [27; b] s (f s).
Proof.
  intros Hb. apply (paints_one (TEscape b)); [|intros calls]; repeat (apply elem_of_cons in Hb as [[= -> ->]|Hb]);
    try (by apply not_elem_of_nil in Hb); try done; cbn; auto.
Qed.
End drawn.
