(* ===== verification/Vt100Canvas.v ===== *)
(** * Drawing on a grid

    What moves, characters and erasures do to a grid whose scroll region is the whole
    screen and whose origin mode is off: the state in which the writers of the emulator
    leave the terminal they write for. *)

From Stdlib Require Import String.
From S2P Require Import Prelude Limits TerminalWidth Emulator Vt100Cell Vt100Row Vt100RowInv Vt100Grid Vt100GridInv Vt100Screen Vt100ScreenInv Vt100Tokens.

Local Open Scope Z_scope.

Section canvas.
Context `{UW : UnicodeWidth} {UWL : UnicodeWidthLaws UW} `{D : Discipline} `{IT : Itoa} {IL : ItoaLaws IT}.
Context (sz : Size) (Hsz : size_safe sz).

(** The grid to draw on, and the same with other rows and another cursor. *)
Record ready (G : Grid) : Prop := {
  rd_size : size G = sz;
  rd_origin : origin_mode G = false;
  rd_top : scroll_top G = 0;
  rd_bottom : scroll_bottom G = s_rows sz - 1;
  rd_scrollback : scrollback G = [] ∧ scrollback_len G = 0 ∧ scrollback_offset G = 0;
}.

Context (G : Grid) (HG : ready G).
Definition canvas (rs : list Row) (p : Pos) : Grid := set_pos_field p (set_rows rs G).

Definition on_grid_pos (p : Pos) : Prop := 0 ≤ p_row p < s_rows sz ∧ 0 ≤ p_col p < s_cols sz.

Lemma canvas_size rs p : size (canvas rs p) = sz.
Proof using HG. apply HG. Qed.

(** ** Moves *)
Lemma set_pos_canvas rs p q : on_grid_pos q → set_pos q (canvas rs p) = Some (canvas rs q).
Proof using HG Hsz.
  intros [Hr Hc]. unfold set_pos. cbn [origin_mode canvas set_pos_field set_rows]. rewrite (rd_origin _ HG).
  rewrite row_clamp_top_eq. cbv iota beta.
  destruct (row_clamp_bottom_ok sz Hsz false (set_pos_row (p_row q) (set_pos_field q (canvas rs p)))) as ([g n] & Hg & -> & _);
    [apply HG|cbn; rewrite (rd_bottom _ HG); lia|].
  unfold canvas in Hg |- *. cbn in Hg |- *. rewrite (rd_origin _ HG). rewrite Hg. cbn [mbind option_bind].
  rewrite (col_clamp_ok sz Hsz) by apply HG. destruct q as [qr qc]. cbn in *. f_equal.
  rewrite !Z.min_l by lia. done.
Qed.

Lemma col_set_canvas rs r c c' : 0 ≤ c' < s_cols sz → col_set c' (canvas rs (mkPos r c)) = Some (canvas rs (mkPos r c')).
Proof using HG Hsz.
  intros Hc. unfold col_set. rewrite (col_clamp_ok sz Hsz) by apply HG. cbn. by rewrite Z.min_l by lia.
Qed.

Lemma row_inc_canvas rs r c :
  0 ≤ r → r + 1 < s_rows sz →
  row_inc_scroll 1 (canvas rs (mkPos r c)) = Some (canvas rs (mkPos (r + 1) c), 0).
Proof using HG Hsz.
  intros Hr0 Hr. unfold row_inc_scroll, in_scroll_region. cbn [scroll_top scroll_bottom canvas set_pos_field set_rows pos p_row].
  rewrite (rd_top _ HG), (rd_bottom _ HG). replace (_ && _) with true by lia.
  unfold row_clamp_bottom. cbn -[scroll_up saturating_add].
  assert (saturating_add U16_MAX r 1 = r + 1) as -> by safe. rewrite (rd_bottom _ HG).
  replace (s_rows sz - 1 <? r + 1) with false by lia. cbn -[scroll_up].
  rewrite (scroll_up_zero sz) by (apply HG || (cbn; rewrite (rd_top _ HG); safe)). done.
Qed.

(** [MoveFromTo]: the shorter ways lead to the same place. *)
Lemma drawn_move_from_to rs p q a :
  0 ≤ p_row p < s_rows sz → 0 ≤ p_col p ≤ s_cols sz → on_grid_pos q →
  ∃ b, MoveFromTo_write_buf p q = Some b ∧ drawn b (canvas rs p, a) (canvas rs q, a).
Proof using HG Hsz IL.
  intros Hpr Hpc Hq. pose proof Hq as [Hqr Hqc]. destruct p as [pr pc], q as [qr qc]. cbn [p_row p_col] in *.
  unfold MoveFromTo_write_buf. cbn [p_row p_col]. rewrite add16_Some by safe. cbn [mbind option_bind].
  destruct ((qr =? pr + 1) && (qc =? 0)) eqn:H1.
  { assert (qr = pr + 1 ∧ qc = 0) as [-> ->] by lia. eexists. split; [done|].
    eapply drawn_crlf; [by apply col_set_canvas; lia|by apply row_inc_canvas; lia]. }
  destruct ((pr =? qr) && (pc <? qc)) eqn:H2.
  { assert (pr = qr ∧ pc < qc) as [-> Hlt] by lia. eexists. split; [done|].
    apply drawn_move_right; [lia|unfold is_u16; safe|]. unfold col_inc_clamp, col_inc. cbn.
    rewrite (col_clamp_ok sz Hsz) by apply HG. cbn. assert (saturating_add U16_MAX pc (qc - pc) = qc) as -> by safe.
    rewrite Z.min_l by lia. done. }
  case_bool_decide as H3.
  - apply drawn_move_to; [safe|safe|]. by apply set_pos_canvas.
  - assert (mkPos qr qc = mkPos pr pc) as -> by (destruct (decide (mkPos qr qc = mkPos pr pc)); done).
    eexists. split; [done|]. apply drawn_nil.
Qed.

(** ** Cells *)

(** A cell that holds no half of a wide character; a blank with given attributes; two cells that
    look the same. *)
Definition plain (c : Cell) : Prop := ∃ l, cell_is l false false c.
Definition blank (a : Attrs) (c : Cell) : Prop := cell_is [] false false c ∧ cell_attrs c = a.
Definition alike (c d : Cell) : Prop :=
  ∃ l w k, cell_is l w k c ∧ cell_is l w k d ∧ cell_attrs c = cell_attrs d.

Lemma blank_plain a c : blank a c → plain c.
Proof using. intros [Hc _]. by exists []. Qed.

Lemma plain_flags c : plain c → is_wide c = false ∧ is_wide_continuation c = false.
Proof using. intros (l & Hc). by destruct (cell_is_flags Hc) as (_ & ? & ?). Qed.

Lemma narrow_plain c : narrow c → plain c.
Proof using. intros (l & Hc & _). by exists l. Qed.

Lemma blank_clear a c : attrs_ok a → plain c → blank a (Cell_clear a c).
Proof using. intros Ha (l & Hc). split; [by eapply clear_is|done]. Qed.

Lemma alike_blank a c d : blank a c → blank a d → alike c d.
Proof using. intros [Hc Ha] [Hd Hb]. exists [], false, false. split_and!; [done|done|congruence]. Qed.

Lemma alike_flags c d :
  alike c d → is_wide c = is_wide d ∧ is_wide_continuation c = is_wide_continuation d ∧
    has_contents c = has_contents d ∧ filled c = filled d.
Proof using.
  intros (l & w & k & Hc & Hd & _). destruct (cell_is_flags Hc) as (H1 & -> & Hk1), (cell_is_flags Hd) as (H2 & -> & Hk2).
  unfold filled, has_contents. by rewrite H1, H2, Hk1, Hk2.
Qed.

Lemma alike_is l w k c d : alike c d → cell_is l w k c → cell_is l w k d.
Proof using.
  intros (l' & w' & k' & Hc' & Hd & _) Hc. pose proof (contents_of_Some Hc) as H1. rewrite (contents_of_Some Hc') in H1. injection H1 as H1.
  destruct (cell_is_flags Hc) as (_ & Hw & Hk), (cell_is_flags Hc') as (_ & Hw' & Hk').
  assert (w' = w) as -> by congruence. assert (k' = k) as -> by congruence.
  destruct Hd, Hc. split; rewrite <- ?H1; done.
Qed.

Lemma alike_second c d : alike c d → second_half c → second_half d.
Proof using. intros Hcd [Hc Ha]. split; [by eapply alike_is|]. destruct Hcd as (? & ? & ? & _ & _ & Hcd). congruence. Qed.

Lemma alike_eqb c d : alike c d → Cell_eqb c d = true.
Proof using.
  intros (l & w & k & Hc & Hd & Ha). unfold Cell_eqb. destruct (cell_is_flags Hc) as (-> & _ & _).
  rewrite (ci_len _ _ _ _ Hc), (ci_len _ _ _ _ Hd), Z.eqb_refl, bool_decide_eq_true_2 by done. cbn [andb].
  unfold len at 1 2. rewrite Nat2Z.id, (ci_text _ _ _ _ Hc), (ci_text _ _ _ _ Hd).
  unfold bytes_eqb. by apply bool_decide_eq_true_2.
Qed.

(** Equal cells look the same. *)
Lemma eqb_alike l w k l' w' k' c d : cell_is l w k c → cell_is l' w' k' d → Cell_eqb c d = true → alike c d.
Proof using.
  intros Hc Hd He. unfold Cell_eqb in He. apply andb_prop in He as [[Hl%Z.eqb_eq Ha%bool_decide_eq_true]%andb_prop Hb].
  destruct (cell_is_flags Hc) as (Hn & Hw & Hk), (cell_is_flags Hd) as (Hn' & Hw' & Hk'). rewrite Hn in Hb.
  assert (w' = w) as -> by (rewrite <- Hw, <- Hw'; unfold is_wide; by rewrite Hl).
  assert (k' = k) as -> by (rewrite <- Hk, <- Hk'; unfold is_wide_continuation; by rewrite Hl).
  assert (len (l ≫= encode_utf8) = len (l' ≫= encode_utf8)) as Hlen by (rewrite <- Hn, <- Hn'; unfold contents_len; by rewrite Hl).
  unfold bytes_eqb in Hb. apply bool_decide_eq_true in Hb. unfold len in Hlen, Hb. rewrite Nat2Z.id in Hb.
  rewrite (ci_text _ _ _ _ Hc) in Hb. apply Nat2Z.inj in Hlen.
  rewrite Hlen, (ci_text _ _ _ _ Hd) in Hb. exists l, w, k. split_and!; [done| |done]. destruct Hd. split; rewrite ?Hb; try done. apply Hc.
Qed.

Lemma eqb_second c d : Cell_eqb c d = true → is_wide_continuation c = is_wide_continuation d.
Proof using. unfold Cell_eqb. rewrite !andb_true_iff. intros ((Hl%Z.eqb_eq & _) & _). unfold is_wide_continuation. by rewrite Hl. Qed.

Lemma alike_trans c d e : alike c d → alike d e → alike c e.
Proof using.
  intros (l & w & k & Hc & Hd & Ha) Hde. exists l, w, k. split_and!; [done|by eapply alike_is|].
  destruct Hde as (? & ? & ? & _ & _ & Hb). congruence.
Qed.

#[export] Instance alike_sym : Symmetric alike.
Proof using. intros c d (l & w & k & Hc & Hd & Ha). by exists l, w, k. Qed.

Lemma alike_last T X : Forall2 alike T X → last_filled T → last_filled X.
Proof using.
  intros HX (x & c & -> & Hc). apply Forall2_app_inv_l in HX as (y & z & _ & Hz & ->).
  inversion Hz as [|? d ? ? Hd Hn]; subst. inversion Hn; subst. exists y, d. split; [done|].
  destruct (alike_flags _ _ Hd) as (_ & _ & _ & <-). done.
Qed.

Lemma last_alike T X : Forall2 alike T X → last_filled X → last_filled T.
Proof using. intros H. apply alike_last. apply Forall2_flip. eapply Forall2_impl; [exact H|]. intros c d Hcd. by apply alike_sym. Qed.

(** What a new cell is equal to. *)
Lemma eqb_new l w k c : cell_is l w k c → Cell_eqb c Cell_new = true → blank Attrs_default c.
Proof using.
  intros Hc He. unfold Cell_eqb in He. apply andb_prop in He as [[Hl%Z.eqb_eq Ha%bool_decide_eq_true]%andb_prop _].
  pose proof (ci_len _ _ _ _ Hc) as Hlen. rewrite Hl in Hlen. cbn in Hlen. unfold len_byte, IS_WIDE, IS_WIDE_CONTINUATION in Hlen.
  pose proof (len_nonneg (l ≫= encode_utf8)). destruct w, k; try lia. split; [|done].
  destruct l as [|x l]; [done|]. cbn in Hlen. rewrite len_app, len_encode_utf8 in Hlen. pose proof (len_utf8_bounds x).
  pose proof (len_nonneg (l ≫= encode_utf8)). lia.
Qed.

Lemma new_eqb c : blank Attrs_default c → Cell_eqb c Cell_new = true.
Proof using. intros Hc. apply alike_eqb, (alike_blank Attrs_default); [done|]. split; [apply new_is|done]. Qed.

(** ** Characters *)

(** What a character of the given width is drawn over, and what it leaves. *)
Inductive slot : bool → list Cell → Prop :=
  | slot_narrow y : plain y → slot false [y]
  | slot_wide y y2 : plain y → plain y2 → slot true [y; y2]
  | slot_again y y2 : wide_half y → second_half y2 → slot true [y; y2].

Inductive glyph (a : Attrs) (l : list Z) : bool → list Cell → Prop :=
  | glyph_narrow z : cell_is l false false z → cell_attrs z = a → glyph a l false [z]
  | glyph_wide z k : cell_is l true false z → cell_attrs z = a → second_half k → glyph a l true [z; k].

Lemma slot_cells wide ys : slot wide ys → ∃ y ys', ys = y :: ys' ∧ (∃ l w k, cell_is l w k y) ∧ is_wide_continuation y = false.
Proof using.
  intros [y (l & Hy)|y y2 (l & Hy) _|y y2 (l & Hy & _) _]; eexists y, _; split; [done|..|done| |done|];
    (split; [by eauto|by destruct (cell_is_flags Hy) as (_ & _ & ?)]).
Qed.

Lemma set_cell ch a c :
  (∃ l w k, cell_is l w k c) → is_scalar ch → attrs_ok a →
  ∃ z, Cell_set ch a c = Some z ∧ cell_is [ch] (1 <? default 1 (width ch)) false z ∧ cell_attrs z = a.
Proof using.
  intros (l & w & k & Hc) Hch Ha. destruct (Cell_set_is _ _ _ ch a _ Hc Hch Ha) as (z & Hz & Hi).
  exists z. split_and!; [done|done|by eapply Cell_set_attrs].
Qed.

(** One row of the canvas: reading and changing the cell after [X], or the next one. *)
Section one_row.
Context (A B : list Row) (w : bool) (X Y : list Cell).
Definition row_of (ys : list Cell) : list Row := A ++ mkRow (X ++ ys ++ Y) w :: B.

Lemma cell_here y ys q p : q = mkPos (len A) (len X) → drawing_cell q (canvas (row_of (y :: ys)) p) = Some y.
Proof using. intros ->. rewrite (drawing_cell_row _ A (mkRow (X ++ y :: ys ++ Y) w) B) by done. by apply (Row_get_app X y (ys ++ Y)). Qed.

Lemma cell_next y y2 ys q p :
  q = mkPos (len A) (len X + 1) → drawing_cell q (canvas (row_of (y :: y2 :: ys)) p) = Some y2.
Proof using.
  intros ->. rewrite (drawing_cell_row _ A (mkRow (X ++ y :: y2 :: ys ++ Y) w) B) by done. by apply (Row_get_app2 X y y2 (ys ++ Y)).
Qed.

Lemma change_here y z ys f q p :
  q = mkPos (len A) (len X) → f y = Some z →
  update_cell q f (canvas (row_of (y :: ys)) p) = Some (canvas (row_of (z :: ys)) p).
Proof using. intros -> Hf. by erewrite update_cell_row; [|done|done|by apply (Row_update_app X y z (ys ++ Y))]. Qed.

Lemma change_next y y2 z ys f q p :
  q = mkPos (len A) (len X + 1) → f y2 = Some z →
  update_cell q f (canvas (row_of (y :: y2 :: ys)) p) = Some (canvas (row_of (y :: z :: ys)) p).
Proof using. intros -> Hf. by erewrite update_cell_row; [|done|done|by apply (Row_update_app2 X y y2 z (ys ++ Y))]. Qed.

Lemma col_inc_canvas rs r c : 0 ≤ c < s_cols sz → col_inc 1 (canvas rs (mkPos r c)) = canvas rs (mkPos r (c + 1)).
Proof using Hsz. intros Hc. unfold col_inc. cbn. by assert (saturating_add U16_MAX c 1 = c + 1) as -> by safe. Qed.

(** The character itself. *)
Lemma printing_first ch n a y ys :
  (∃ l w k, cell_is l w k y) → is_wide y = false → is_wide_continuation y = false →
  is_scalar ch → attrs_ok a → len X < s_cols sz →
  ∃ z, cell_is [ch] (1 <? default 1 (width ch)) false z ∧ cell_attrs z = a ∧
    text_printing ch n a (canvas (row_of (y :: ys)) (mkPos (len A) (len X))) =
      (let g := canvas (row_of (z :: ys)) (mkPos (len A) (len X + 1)) in if 1 <? n then text_second_half a g else Some g).
Proof using Hsz.
  intros Hy Hf1 Hf2 Hch Ha Hx. destruct (set_cell ch a y Hy Hch Ha) as (z & Hz & Hiz & Haz). exists z.
  split_and!; [done|done|]. unfold text_printing. cbn [pos canvas set_pos_field p_row p_col].
  rewrite cell_here by done. cbn [mbind option_bind]. rewrite Hf2. cbn [mbind option_bind]. rewrite cell_here by done.
  cbn [mbind option_bind]. rewrite Hf1. cbn [mbind option_bind]. rewrite (change_here y z) by done. cbn [mbind option_bind].
  rewrite col_inc_canvas by (pose proof (len_nonneg X); lia). done.
Qed.

(** Over a wide character, whose second half becomes a space first. *)
Lemma printing_again ch n a y y2 :
  wide_half y → second_half y2 → is_scalar ch → attrs_ok a → len X + 1 < s_cols sz →
  ∃ z z2, cell_is [ch] (1 <? default 1 (width ch)) false z ∧ cell_attrs z = a ∧ cell_is [32] false false z2 ∧
    text_printing ch n a (canvas (row_of [y; y2]) (mkPos (len A) (len X))) =
      (let g := canvas (row_of [z; z2]) (mkPos (len A) (len X + 1)) in if 1 <? n then text_second_half a g else Some g).
Proof using Hsz UWL.
  intros Hy Hy2 Hch Ha Hx. destruct (set_cell ch a y (wide_is _ Hy) Hch Ha) as (z & Hz & Hiz & Haz).
  destruct (set_cell 32 a y2 (second_is _ Hy2) ltac:(left; lia) Ha) as (z2 & Hz2 & Hiz2 & _).
  rewrite width_ascii in Hiz2 by lia. exists z, z2. split_and!; [done|done|done|].
  pose proof (len_nonneg X). unfold text_printing. cbn [pos canvas set_pos_field p_row p_col].
  rewrite cell_here by done. cbn [mbind option_bind]. rewrite (proj2 (wide_flags _ Hy)). cbn [mbind option_bind].
  rewrite cell_here by done. cbn [mbind option_bind]. rewrite (proj1 (wide_flags _ Hy)), add16_Some by safe. cbn [mbind option_bind].
  rewrite (change_next y y2 z2) by done. cbn [mbind option_bind]. rewrite (change_here y z) by done. cbn [mbind option_bind].
  rewrite col_inc_canvas by lia. done.
Qed.

(** The second half of a wide one. *)
Lemma printing_second a y y2 :
  plain y2 → len X + 1 < s_cols sz →
  ∃ k, second_half k ∧
    text_second_half a (canvas (row_of [y; y2]) (mkPos (len A) (len X + 1))) =
      Some (canvas (row_of [y; k]) (mkPos (len A) (len X + 2))).
Proof using Hsz.
  intros Hy2 Hx. pose proof (len_nonneg X). destruct (plain_flags _ Hy2) as [Hf1 Hf2]. destruct Hy2 as (l & Hy2).
  exists (set_wide_continuation true (Cell_clear Attrs_default y2)).
  split; [apply second_half_clear; eauto|]. unfold text_second_half. cbn [pos canvas set_pos_field p_row p_col].
  rewrite cell_next by done. cbn [mbind option_bind]. rewrite Hf1. cbn [mbind option_bind].
  erewrite (change_next y y2); [|done|done]. cbn [mbind option_bind]. rewrite col_inc_canvas by lia.
  by replace (len X + 1 + 1) with (len X + 2) by lia.
Qed.

Lemma printing wide ch a ys :
  slot wide ys → is_scalar ch → 1 ≤ default 1 (width ch) → (1 <? default 1 (width ch)) = wide → attrs_ok a →
  len X + len ys ≤ s_cols sz →
  ∃ zs, glyph a [ch] wide zs ∧ len zs = len ys ∧
    text_printing ch (default 1 (width ch)) a (canvas (row_of ys) (mkPos (len A) (len X))) =
      Some (canvas (row_of zs) (mkPos (len A) (len X + len ys))).
Proof using Hsz UWL.
  intros Hs Hch Hw1 Hw Ha Hx. inversion Hs as [y Hy|y y2 Hy Hy2|y y2 Hy Hy2]; subst ys; rewrite <- H in *;
    [change (len [y]) with 1 in *|change (len [y; y2]) with 2 in *..].
  - destruct (plain_flags _ Hy) as [Hf1 Hf2]. destruct Hy as (l & Hy).
    destruct (printing_first ch (default 1 (width ch)) a y [] ltac:(eauto) Hf1 Hf2 Hch Ha ltac:(lia)) as (z & Hz & Haz & ->).
    rewrite Hw in *. exists [z]. split_and!; [by constructor|done|done].
  - destruct (plain_flags _ Hy) as [Hf1 Hf2]. destruct Hy as (l & Hy).
    destruct (printing_first ch (default 1 (width ch)) a y [y2] ltac:(eauto) Hf1 Hf2 Hch Ha ltac:(lia)) as (z & Hz & Haz & ->).
    rewrite Hw in *. cbn zeta. destruct (printing_second a z y2 Hy2 ltac:(lia)) as (k & Hk & ->).
    exists [z; k]. split_and!; [by constructor|done|done].
  - destruct (printing_again ch (default 1 (width ch)) a y y2 Hy Hy2 Hch Ha ltac:(lia)) as (z & z2 & Hz & Haz & Hz2 & ->).
    rewrite Hw in *. cbn zeta. destruct (printing_second a z z2 ltac:(by exists [32]) ltac:(lia)) as (k & Hk & ->).
    exists [z; k]. split_and!; [by constructor|done|done].
Qed.
End one_row.

Lemma Cell_append_attrs ch c d : Cell_append ch c = Some d → cell_attrs d = cell_attrs c.
Proof using.
  unfold Cell_append, append_char. destruct (_ <=? _); [by intros [= <-]|]. destruct (_ =? 0); [|cbn [mbind option_bind]].
  - destruct (write_at _ [32] _); [|done]. cbn [mbind option_bind]. destruct (add8 _ 1); [|done]. cbn [mbind option_bind].
    destruct (write_at _ _ _); [|done]. cbn [mbind option_bind]. by destruct (add8 _ _) as [m|]; [intros [= <-]|].
  - destruct (write_at _ _ _); [|done]. cbn [mbind option_bind]. by destruct (add8 _ _) as [m|]; [intros [= <-]|].
Qed.

(** A combining character joins the one before the cursor. *)
Lemma glyph_appended a l wide zs ch :
  glyph a l wide zs → l ≠ [] → len (l ≫= encode_utf8) < 18 → is_scalar ch →
  ∃ z zs' z', zs = z :: zs' ∧ Cell_append ch z = Some z' ∧ glyph a (l ++ [ch]) wide (z' :: zs').
Proof using.
  intros Hg Hl Hfit Hch.
  assert (appended l ch = l ++ [ch]) as Happ.
  { unfold appended. replace (18 <=? _) with false by lia. by rewrite bool_decide_eq_false_2. }
  destruct Hg as [z Hz Ha|z k Hz Ha Hk].
  all: destruct (Cell_append_is _ _ _ ch _ Hz Hch) as (z' & Hz' & Hi); rewrite Happ in Hi.
  all: assert (cell_attrs z' = a) as Ha' by (by rewrite (Cell_append_attrs _ _ _ Hz')).
  - exists z, [], z'. split_and!; [done|done|by constructor].
  - exists z, [k], z'. split_and!; [done|done|by constructor].
Qed.

Lemma combining wide ch a a' l A B w X Y zs :
  glyph a l wide zs → l ≠ [] → len (l ≫= encode_utf8) < 18 → printable ch → width ch = Some 0 →
  len X + len zs ≤ s_cols sz →
  ∃ zs', glyph a (l ++ [ch]) wide zs' ∧ len zs' = len zs ∧
    grid_text ch a' (canvas (row_of A B w X Y zs) (mkPos (len A) (len X + len zs))) =
      Some (canvas (row_of A B w X Y zs') (mkPos (len A) (len X + len zs))).
Proof using HG Hsz UWL.
  intros Hg Hl Hfit Hch Hw Hx. pose proof (len_nonneg X).
  destruct (glyph_appended a l wide zs ch Hg Hl Hfit (proj1 Hch)) as (z & zs' & z' & -> & Hz' & Hg').
  exists (z' :: zs'). split_and!; [done|by rewrite !len_cons|].
  rewrite len_cons in Hx |- *. pose proof (len_nonneg zs').
  unfold grid_text. rewrite Hw, bool_decide_eq_false_2 by done. cbn [andb from_option id].
  unfold try_from. replace (_ && _) with true by (unfold U16_MAX; lia). cbn [mbind option_bind].
  unfold text_wraps, col_wrap. cbn [pos canvas set_pos_field p_row p_col]. rewrite canvas_size.
  rewrite !sub16_Some by safe. cbn [mbind option_bind]. replace (s_cols sz - 0 <? len X + (len zs' + 1)) with false by lia.
  cbn [mbind option_bind]. rewrite Z.eqb_refl. unfold text_combining. cbn [pos canvas set_pos_field p_row p_col].
  replace (0 <? _) with true by lia. unfold append_before. rewrite (sub16_Some (len X + (len zs' + 1)) 1) by lia. cbn [mbind option_bind].
  inversion Hg as [? Hz Ha|? k Hz Ha Hk]; subst.
  - change (len (@nil Cell)) with 0 in *. rewrite cell_here by (f_equal; lia). cbn [mbind option_bind].
    destruct (cell_is_flags Hz) as (_ & _ & ->). cbn [mbind option_bind]. by apply change_here; [f_equal; lia|].
  - change (len [k]) with 1 in *. rewrite cell_next by (f_equal; lia). cbn [mbind option_bind].
    rewrite (proj2 (second_flags _ Hk)), sub16_Some by lia. cbn [mbind option_bind]. by apply change_here; [f_equal; lia|].
Qed.

(** ** Writing over another row *)

(** What is left of an old row [Q] on the terminal: the same cells, but where the first
    half of a wide character is gone, some other cell stands for the second. *)
Inductive rest : list Cell → list Cell → Prop :=
  | rest_same Q Y : paired Q → Forall2 alike Q Y → rest Q Y
  | rest_cut k Q y Y : second_half k → plain y → paired Q → Forall2 alike Q Y → rest (k :: Q) (y :: Y).

(** The first cell to write over: one cell, or a wide character. *)
Inductive over : list Cell → list Cell → Prop :=
  | over_nil : over [] []
  | over_plain q Q y Y : plain y → rest Q Y → over (q :: Q) (y :: Y)
  | over_wide q d Q y k Y :
      wide_half y → second_half d → second_half k → paired Q → Forall2 alike Q Y → over (q :: d :: Q) (y :: k :: Y).

Lemma rest_over Q Y : rest Q Y → over Q Y.
Proof using.
  intros [? ? HQ Ha|k ? y ? Hk Hy HQ Ha]; [|constructor; [done|by constructor]].
  destruct HQ as [|c l (t & Hc & _) Hl|c d l (t & Hc & Ht) Hd Hl].
  - inversion Ha; subst. constructor.
  - inversion Ha as [|? y ? Y' Hcy HY]; subst. constructor; [exists t; by eapply alike_is|by constructor].
  - inversion Ha as [|? y ? Y' Hcy HY]; subst. inversion HY as [|? k ? Y'' Hdk HY']; subst.
    constructor; [exists t; split; [by eapply alike_is|done]|done|by eapply alike_second|done|done].
Qed.

Lemma alike_refl l w k c : cell_is l w k c → alike c c.
Proof using. intros Hc. by exists l, w, k. Qed.

Lemma paired_alike l : paired l → Forall2 alike l l.
Proof using.
  induction 1 as [|c l (t & Hc & _) Hl IH|c d l (t & Hc & _) [Hd _] Hl IH]; repeat constructor; try done; by eapply alike_refl.
Qed.

Lemma rest_paired l : paired l → rest l l.
Proof using. intros Hl. constructor; [done|by apply paired_alike]. Qed.

Lemma rest_len Q Y : rest Q Y → len Y = len Q.
Proof using. intros [? ? _ H|? ? ? ? _ _ _ H]; rewrite ?len_cons; unfold len; by rewrite (Forall2_length _ _ _ H). Qed.

Lemma over_len Q Y : over Q Y → len Y = len Q.
Proof using.
  intros [|? ? ? ? _ H|? ? ? ? ? ? _ _ _ _ H]; rewrite ?len_cons; [done|by rewrite (rest_len _ _ H)|].
  unfold len. by rewrite (Forall2_length _ _ _ H).
Qed.

(** The mark of the row after a change of the cells [Y] to [Z]: it is taken away when the
    second half in the last column is. *)
Definition mark_after (w w' : bool) (Y Z Q : list Cell) : Prop :=
  (w' = w ∧ (last_filled Y → last_filled Z)) ∨ (w' = false ∧ ∃ k, Q = [k] ∧ second_half k).

(** A wide character over the first half of another one. *)
Lemma printing_second_cut A B w X Y a y y2 y3 :
  wide_half y2 → second_half y3 → attrs_ok a → len (X ++ y :: y2 :: y3 :: Y) = s_cols sz →
  ∃ k z w', second_half k ∧ plain z ∧ (w' = w ∧ Y ≠ [] ∨ w' = false ∧ Y = []) ∧
    text_second_half a (canvas (row_of A B w X Y [y; y2; y3]) (mkPos (len A) (len X + 1))) =
      Some (canvas (row_of A B w' X Y [y; k; z]) (mkPos (len A) (len X + 2))).
Proof using HG Hsz.
  intros Hy2 Hy3 Ha Hl. rewrite len_app, !len_cons in Hl. pose proof (len_nonneg X). pose proof (len_nonneg Y).
  exists (set_wide_continuation true (Cell_clear Attrs_default y2)), (Cell_clear a y3), (if bool_decide (Y = []) then false else w).
  split_and!; [apply second_half_clear; by apply wide_is|destruct Hy3 as [Hy3 _]; exists []; by eapply clear_is|case_bool_decide; auto|].
  assert (∀ w ys, row_of A B w X Y (y :: ys) = row_of A B w (X ++ [y]) Y ys) as Hrow by (intros w' ys; unfold row_of; by rewrite <- app_assoc).
  assert (len (X ++ [y]) = len X + 1) as HX by (rewrite len_app; done).
  unfold text_second_half. rewrite !Hrow. cbn [pos canvas set_pos_field p_row p_col].
  rewrite cell_here by (by rewrite HX). cbn [mbind option_bind]. rewrite (proj1 (wide_flags _ Hy2)), add16_Some by safe. cbn [mbind option_bind].
  rewrite (change_next A B w (X ++ [y]) Y y2 y3 (Cell_clear a y3)) by (done || by rewrite HX). cbn [mbind option_bind].
  rewrite (last_col_Some sz Hsz) by apply canvas_size. cbn [mbind option_bind].
  assert ((if len X + 1 + 1 =? s_cols sz - 1
      then update_row (len A) (λ r, Some (Row_wrap false r)) (canvas (row_of A B w (X ++ [y]) Y [y2; Cell_clear a y3]) (mkPos (len A) (len X + 1)))
      else Some (canvas (row_of A B w (X ++ [y]) Y [y2; Cell_clear a y3]) (mkPos (len A) (len X + 1)))) =
    Some (canvas (row_of A B (if bool_decide (Y = []) then false else w) (X ++ [y]) Y [y2; Cell_clear a y3]) (mkPos (len A) (len X + 1)))) as ->.
  { destruct Y as [|y4 Y]; [rewrite bool_decide_eq_true_2 by done|rewrite bool_decide_eq_false_2 by done].
    - change (len (@nil Cell)) with 0 in Hl. replace (_ =? _) with true by lia. by erewrite update_row_row; [|done|done|done].
    - rewrite len_cons in Hl. pose proof (len_nonneg Y). by replace (_ =? _) with false by lia. }
  cbn [mbind option_bind]. erewrite (change_here _ _ _ (X ++ [y]) Y y2); [|by rewrite HX|done]. cbn [mbind option_bind].
  rewrite col_inc_canvas by lia. by replace (len X + 1 + 1) with (len X + 2) by lia.
Qed.

(** A character over the first cells of an old row. *)
Lemma printing_over A B w X (wide : bool) ch a Q1 Q2 Y :
  over (Q1 ++ Q2) Y → len Q1 = (if wide then 2 else 1) → is_scalar ch → 1 ≤ default 1 (width ch) →
  (1 <? default 1 (width ch)) = wide → attrs_ok a → len (X ++ Y) = s_cols sz →
  ∃ zs Y' w', glyph a [ch] wide zs ∧ len zs = len Q1 ∧ (rest Q2 Y' ∧ mark_after w w' Y (zs ++ Y') Q2 ∧ (wide = false → w' = w)) ∧
    text_printing ch (default 1 (width ch)) a (canvas (A ++ mkRow (X ++ Y) w :: B) (mkPos (len A) (len X))) =
      Some (canvas (row_of A B w' X Y' zs) (mkPos (len A) (len X + len Q1))).
Proof using HG Hsz UWL.
  intros Ho HQ Hch Hw1 Hw Ha Hl. rewrite len_app in Hl. pose proof (over_len _ _ Ho) as HlY. pose proof (len_nonneg X). pose proof (len_nonneg Q2).
  assert (∀ ys Y', slot wide ys → Y = ys ++ Y' → len ys = len Q1 → rest Q2 Y' → ∃ zs Y' w', glyph a [ch] wide zs ∧ len zs = len Q1 ∧
    (rest Q2 Y' ∧ mark_after w w' Y (zs ++ Y') Q2 ∧ (wide = false → w' = w)) ∧ text_printing ch (default 1 (width ch)) a (canvas (A ++ mkRow (X ++ Y) w :: B) (mkPos (len A) (len X))) =
      Some (canvas (row_of A B w' X Y' zs) (mkPos (len A) (len X + len Q1)))) as Hslot.
  { intros ys Y' Hs -> Hlys HY'. rewrite len_app in Hl. pose proof (len_nonneg Y').
    destruct (printing A B w X Y' wide ch a ys Hs Hch Hw1 Hw Ha ltac:(lia)) as (zs & Hg & Hlz & Hp).
    exists zs, Y', w. rewrite <- Hlys. split_and!; [done|done|done| |done|exact Hp]. left. split; [done|]. intros Hf.
    destruct Y' as [|y' Y']; [|apply last_filled_app; by apply (last_filled_tail ys)]. rewrite app_nil_r.
    inversion Hg as [z Hz _|z k _ _ Hk]; [apply last_filled_one; by eapply filled_text|].
    apply (last_filled_app [z]), last_filled_one. by apply filled_second. }
  assert (∃ q Q1', Q1 = q :: Q1' ∧ len Q1' = if wide then 1 else 0) as (q & Q1' & -> & HQ1').
  { destruct Q1 as [|q Q1']; [change (len (@nil Cell)) with 0 in HQ; destruct wide; lia|]. exists q, Q1'. rewrite len_cons in HQ. split; [done|destruct wide; lia]. }
  destruct wide; inversion Ho as [|? ? y Y0 Hy HY0|? d Q y k Y0 Hy Hd Hk HpQ HY0]; subst.
  - destruct Q1' as [|q2 [|? ?]]; [by change (len (@nil Cell)) with 0 in HQ1'| |rewrite !len_cons in HQ1'; pose proof (len_nonneg l); lia].
    apply rest_over in HY0. inversion HY0 as [|? ? y2 Y1 Hy2 HY1|? d ? y2 y3 Y1 Hy2 Hd Hy3 HpQ HY1]; subst.
    + apply (Hslot [y; y2] Y1); [by constructor|done|done|done].
    + destruct (plain_flags _ Hy) as [Hf1 Hf2]. pose proof Hy as (t & Hyt). rewrite !len_cons in Hl. pose proof (len_nonneg Y1).
      destruct (printing_first A B w X Y1 ch (default 1 (width ch)) a y [y2; y3] ltac:(eauto) Hf1 Hf2 Hch Ha ltac:(lia)) as (z & Hz & Haz & Hp).
      rewrite Hw in Hz, Hp. cbn zeta iota in Hp.
      destruct (printing_second_cut A B w X Y1 a z y2 y3 Hy2 Hy3 Ha) as (k & z3 & w' & Hk & Hz3 & Hw' & Hp2); [rewrite len_app, !len_cons; lia|].
      exists [z; k], (z3 :: Y1), w'. split_and!; [by constructor|done|by constructor| |done|].
      * destruct Hw' as [[-> Hne]|[-> ->]]; [left|right].
        -- split; [done|]. intros Hf. apply (last_filled_app [z; k; z3]). by apply (last_filled_tail [y; y2; y3]).
        -- split; [done|]. exists d. split; [|done]. f_equal. inversion HY1. done.
      * change (len [q; q2]) with 2. unfold row_of in Hp, Hp2 |- *. cbn [app] in Hp, Hp2 |- *. by rewrite Hp, Hp2.
  - destruct Q1' as [|q2 [|? ?]]; [by change (len (@nil Cell)) with 0 in HQ1'| |rewrite !len_cons in HQ1'; pose proof (len_nonneg l); lia].
    cbn in *; simplify_eq. apply (Hslot [y; k] Y0); [by apply slot_again|done|done|by constructor].
  - destruct Q1' as [|? Q1']; [|rewrite len_cons in HQ1'; pose proof (len_nonneg Q1'); lia].
    apply (Hslot [y] Y0); [by constructor|done|done|done].
  - destruct Q1' as [|? Q1']; [|rewrite len_cons in HQ1'; pose proof (len_nonneg Q1'); lia]. cbn in *; subst Q2.
    rewrite !len_cons in Hl. pose proof (len_nonneg Y0).
    destruct (printing_again A B w X Y0 ch (default 1 (width ch)) a y k Hy Hk Hch Ha ltac:(lia)) as (z & z2 & Hz & Haz & Hz2 & Hp).
    rewrite Hw in Hz, Hp. cbn zeta iota in Hp.
    exists [z], (z2 :: Y0), w. split_and!; [by constructor|done|constructor; [done|by exists [32]|done|done]| |done|exact Hp].
    left. split; [done|]. intros Hf. destruct Y0 as [|y0 Y0].
    + apply (last_filled_app [z]), last_filled_one. by eapply filled_text.
    + apply (last_filled_app [z; z2]). by apply (last_filled_tail [y; k]).
Qed.

(** ** The text of a cell *)

(** A character of the given width typed on [g0] goes where [g1] has its cursor. *)
Definition enters (wide : bool) (g0 g1 : Grid) : Prop :=
  ∀ ch a, bool_decide (width ch = None) && (ch <? 256) = false → 1 ≤ default 1 (width ch) →
    (1 <? default 1 (width ch)) = wide → grid_text ch a g0 = text_printing ch (default 1 (width ch)) a g1.

(** The characters after the first leave the row as the first one did. *)
Lemma drawn_text_after wide l a g0 g1 A B X n (R : bool → list Cell → list Cell → Prop) :
  text_of wide l → enters wide g0 g1 → len X + n ≤ s_cols sz →
  (∀ w' Y' zs zs', R w' Y' zs → (last_filled zs → last_filled zs') → R w' Y' zs') →
  (∀ ch, is_scalar ch → 1 ≤ default 1 (width ch) → (1 <? default 1 (width ch)) = wide →
     ∃ zs Y' w', glyph a [ch] wide zs ∧ len zs = n ∧ R w' Y' zs ∧
       text_printing ch (default 1 (width ch)) a g1 = Some (canvas (row_of A B w' X Y' zs) (mkPos (len A) (len X + n)))) →
  ∃ zs Y' w', glyph a l wide zs ∧ len zs = n ∧ R w' Y' zs ∧
    drawn (l ≫= encode_utf8) (g0, a) (canvas (row_of A B w' X Y' zs) (mkPos (len A) (len X + n)), a).
Proof using HG Hsz UWL.
  intros Hl He Hx HR Hbase. induction Hl as [ch Hch Hskip Hw1 Hw|l ch Hl IH Hfit Hch Hw].
  - destruct (Hbase ch (proj1 Hch) Hw1 Hw) as (zs & Y' & w' & Hg & Hlz & Hr & Hp).
    exists zs, Y', w'. split_and!; [done|done|done|]. cbn [mbind list_bind]. rewrite app_nil_r.
    apply drawn_char; [done|]. by rewrite He.
  - destruct IH as (zs & Y' & w' & Hg & Hlz & Hr & Hd).
    destruct (combining wide ch a a l A B w' X Y' zs) as (zs' & Hg' & Hlz' & Hc); try done; [by eapply text_of_nonempty|lia|].
    exists zs', Y', w'. split_and!; [done|lia| |].
    + apply (HR _ _ _ _ Hr). intros _. inversion Hg' as [z Hz _|z k _ _ Hk]; subst.
      * apply last_filled_one. eapply filled_text; [done|]. by destruct l.
      * apply (last_filled_app [z]), last_filled_one. by apply filled_second.
    + rewrite bind_app. cbn [mbind list_bind]. rewrite app_nil_r.
      eapply drawn_app; [exact Hd|]. rewrite <- Hlz. by apply drawn_char.
Qed.

(** In a place of its own width. *)
Lemma drawn_text wide l a g0 A B w X Y ys :
  text_of wide l → slot wide ys → attrs_ok a → len X + len ys ≤ s_cols sz →
  enters wide g0 (canvas (row_of A B w X Y ys) (mkPos (len A) (len X))) →
  ∃ zs, glyph a l wide zs ∧ len zs = len ys ∧
    drawn (l ≫= encode_utf8) (g0, a) (canvas (row_of A B w X Y zs) (mkPos (len A) (len X + len ys)), a).
Proof using HG Hsz UWL.
  intros Hl Hs Ha Hx He.
  destruct (drawn_text_after wide l a g0 _ A B X (len ys) (λ w' Y' _, w' = w ∧ Y' = Y) Hl He Hx) as (zs & Y' & w' & Hg & Hlz & [-> ->] & Hd);
    [done| |by exists zs].
  intros ch Hch Hw1 Hw. destruct (printing A B w X Y wide ch a ys Hs Hch Hw1 Hw Ha Hx) as (zs & Hg & Hlz & Hp). by exists zs, Y, w.
Qed.

(** Over an old row. *)
Lemma drawn_text_over wide l a g0 A B w X Q1 Q2 Y :
  text_of wide l → over (Q1 ++ Q2) Y → len Q1 = (if wide then 2 else 1) → attrs_ok a → len (X ++ Y) = s_cols sz →
  enters wide g0 (canvas (A ++ mkRow (X ++ Y) w :: B) (mkPos (len A) (len X))) →
  ∃ zs Y' w', glyph a l wide zs ∧ len zs = len Q1 ∧ (rest Q2 Y' ∧ mark_after w w' Y (zs ++ Y') Q2 ∧ (wide = false → w' = w)) ∧
    drawn (l ≫= encode_utf8) (g0, a) (canvas (row_of A B w' X Y' zs) (mkPos (len A) (len X + len Q1)), a).
Proof using HG Hsz UWL.
  intros Hl Ho HQ Ha Hx He. pose proof (over_len _ _ Ho) as HlY. rewrite len_app in HlY, Hx. pose proof (len_nonneg Q2).
  destruct (drawn_text_after wide l a g0 _ A B X (len Q1) (λ w' Y' zs, rest Q2 Y' ∧ mark_after w w' Y (zs ++ Y') Q2 ∧ (wide = false → w' = w)) Hl He)
    as (zs & Y' & w' & Hg & Hlz & Hr & Hd); [lia|..|by exists zs, Y', w'].
  - intros w' Y' zs zs' (Hr & Hm & Hn) Hf. split_and!; [done| |done]. destruct Hm as [[-> Hm]|Hm]; [left|by right]. split; [done|]. intros HY. specialize (Hm HY).
    destruct Y' as [|y' Y']; [rewrite app_nil_r in *; auto|]. apply last_filled_app. by apply (last_filled_tail zs).
  - intros ch Hch Hw1 Hw. destruct (printing_over A B w X wide ch a Q1 Q2 Y) as (zs & Y' & w' & Hg & Hlz & Hr & Hp);
      [done..|by rewrite len_app|]. by exists zs, Y', w'.
Qed.


(** Within a row. *)
Lemma width_cases ch : 1 ≤ default 1 (width ch) → default 1 (width ch) = if 1 <? default 1 (width ch) then 2 else 1.
Proof using UWL.
  intros Hw. destruct (width ch) as [n|] eqn:E; [|done]. cbn in *. pose proof (width_range ch n E).
  destruct (Z.ltb_spec 1 n); lia.
Qed.

Lemma enters_here (wide : bool) rs p : p_col p + (if wide then 2 else 1) ≤ s_cols sz → enters wide (canvas rs p) (canvas rs p).
Proof using HG Hsz UWL.
  intros Hp ch a Hskip Hw1 Hw. pose proof (width_cases ch Hw1) as Hwc. rewrite Hw in Hwc.
  unfold grid_text. rewrite Hskip, Hwc. unfold try_from. replace (_ && _) with true by (unfold U16_MAX; destruct wide; lia).
  cbn [mbind option_bind]. unfold text_wraps, col_wrap. cbn [pos canvas set_pos_field p_row p_col]. rewrite canvas_size.
  rewrite !sub16_Some by (destruct wide; safe). cbn [mbind option_bind].
  replace (_ <? p_col p) with false by lia. cbn [mbind option_bind]. by destruct wide.
Qed.

(** From the end of a row whose last column is in use. *)
Lemma enters_wrap (wide : bool) A P R B c :
  s_cols sz - (if wide then 2 else 1) < c ≤ s_cols sz → len (cells P) = s_cols sz → last_filled (cells P) → len A + 1 < s_rows sz →
  enters wide (canvas (A ++ P :: R :: B) (mkPos (len A) c))
    (canvas (A ++ Row_wrap true P :: R :: B) (mkPos (len A + 1) 0)).
Proof using HG Hsz UWL.
  intros Hc HP (x & d & Hx & Hf) HA ch a Hskip Hw1 Hw. pose proof (width_cases ch Hw1) as Hwc. rewrite Hw in Hwc.
  pose proof (len_nonneg A).
  unfold grid_text. rewrite Hskip, Hwc. unfold try_from. replace (_ && _) with true by (unfold U16_MAX; destruct wide; lia).
  cbn [mbind option_bind]. unfold text_wraps, col_wrap. cbn [pos canvas set_pos_field p_row p_col]. rewrite canvas_size.
  rewrite !sub16_Some by (destruct wide; safe). cbn [mbind option_bind].
  replace (_ <? c) with true by (destruct wide; lia). rewrite (last_col_Some sz Hsz) by apply canvas_size.
  cbn [mbind option_bind]. rewrite (drawing_cell_row _ A P (R :: B)) by done. cbn [p_col].
  unfold Row_get. rewrite Hx, (index_app x [] d) by (rewrite Hx, len_app in HP; change (len [d]) with 1 in HP; lia).
  cbn [mbind option_bind]. unfold filled in Hf. rewrite Hf.
  change (set_pos_col 0 _) with (canvas (A ++ P :: R :: B) (mkPos (len A) 0)).
  rewrite row_inc_canvas by lia. cbn [mbind option_bind].
  rewrite (sub16_Some (len A) 0) by lia. cbn [mbind option_bind]. rewrite (add16_Some (len A - 0) 1) by safe. cbn [mbind option_bind].
  erewrite update_row_row; [|done|lia|done]. cbn [mbind option_bind pos canvas set_pos_field p_row andb].
  replace (len A - 0 + 1 =? len A + 1) with true by lia. by destruct wide.
Qed.

(** ** Erasing *)
Lemma Row_erase_over X q Q y Y w a :
  over (q :: Q) (y :: Y) → attrs_ok a → len (X ++ y :: Y) = s_cols sz →
  ∃ z Y' w', Row_erase (len X) a (mkRow (X ++ y :: Y) w) = Some (mkRow (X ++ z :: Y') w') ∧ blank a z ∧ rest Q Y' ∧
    (Q = [] → w' = false) ∧ (Q ≠ [] → mark_after w w' Y Y' Q) ∧ (is_wide y = true → len Y = 1 → w' = false).
Proof using Hsz.
  intros Ho Ha Hl. pose proof (len_nonneg X). pose proof Hl as Hl'. rewrite len_app, len_cons in Hl'.
  unfold Row_erase, clear_wide. rewrite (Row_get_app X y Y) by done. cbn [mbind option_bind].
  inversion Ho as [|? ? ? ? Hy HY|? d Q' ? k Y' Hy Hd Hk HQ HY]; subst.
  - destruct (plain_flags _ Hy) as [Hf1 Hf2]. rewrite Hf1, Hf2. cbn [mbind option_bind].
    rewrite (Row_update_app X y (Cell_clear a y) Y) by done. cbn [mbind option_bind wrapped].
    unfold Row_cols, try_from. cbn [cells]. rewrite (len_app_cons X Y _ y), Hl.
    replace (_ && _) with true by safe. cbn [mbind option_bind]. rewrite sub16_Some by safe. cbn [mbind option_bind].
    exists (Cell_clear a y), Y, (if len X =? s_cols sz - 1 then false else w). pose proof (rest_len _ _ HY) as HlY.
    split_and!; [by destruct (_ =? _)|by apply blank_clear|done| | |congruence].
    + intros ->. change (len (@nil Cell)) with 0 in HlY. by replace (len X =? s_cols sz - 1) with true by lia.
    + intros Hne. left. split; [|done]. destruct Q as [|q2 Q]; [done|]. rewrite len_cons in HlY. pose proof (len_nonneg Q).
      by replace (len X =? s_cols sz - 1) with false by lia.
  - rewrite (proj1 (wide_flags _ Hy)). rewrite len_cons in Hl'. pose proof (len_nonneg Y'). rewrite add16_Some by safe. cbn [mbind option_bind].
    rewrite (Row_update_app2 X y k (clear_keep k) Y') by done. cbn [mbind option_bind wrapped].
    rewrite (Row_update_app X y (Cell_clear a y) (clear_keep k :: Y')) by done. cbn [mbind option_bind wrapped].
    unfold Row_cols, try_from. cbn [cells]. rewrite (len_app_cons X (clear_keep k :: Y') _ y).
    replace (len (X ++ y :: clear_keep k :: Y')) with (s_cols sz) by (rewrite len_app, !len_cons; lia).
    replace (_ && _) with true by safe. cbn [mbind option_bind]. rewrite sub16_Some by lia. cbn [mbind option_bind].
    exists (Cell_clear a y), (clear_keep k :: Y'), (if len X =? s_cols sz - 2 then false else w).
    split_and!; [by destruct (_ =? _)|destruct Hy as (t & Hy & _); split; [by eapply clear_is|done]| |done| |].
    + constructor; [done| |done|done]. exists []. eapply clear_is; [apply Hk|apply Hk].
    + intros _. assert (len Y' = len Q') as HlY by (unfold len; by rewrite (Forall2_length _ _ _ HY)). destruct Y' as [|y' Y'].
      * right. change (len (@nil Cell)) with 0 in *. replace (len X =? s_cols sz - 2) with true by lia. split; [done|].
        exists d. inversion HY; subst. done.
      * left. rewrite len_cons in Hl', HlY. pose proof (len_nonneg Y'). replace (len X =? s_cols sz - 2) with false by lia.
        split; [done|]. intros Hf. apply (last_filled_app [clear_keep k]). by apply (last_filled_tail [k]).
    + intros _ H1. rewrite len_cons in H1. by replace (len X =? s_cols sz - 2) with true by lia.
Qed.

Lemma mark_after_trans w w1 w2 Y Y1 Z Q1 Q :
  mark_after w w1 Y Y1 (Q1 ++ Q) → mark_after w1 w2 Y1 Z Q → Q ≠ [] → Q1 ≠ [] → mark_after w w2 Y Z Q.
Proof using.
  intros [[-> H1]|[-> (k & Hk & _)]] H2 HQ HQ1.
  - destruct H2 as [[-> H2]|H2]; [left|by right]. split; [done|auto].
  - destruct Q1 as [|? [|? Q1]]; [done|by destruct Q|done].
Qed.

Lemma mark_after_cons w w' y z Y Z Q : Y ≠ [] → mark_after w w' Y Z Q → mark_after w w' (y :: Y) (z :: Z) Q.
Proof using.
  intros HY [[-> Hm]|Hm]; [left|by right]. split; [done|]. intros Hf. apply (last_filled_app [z]), Hm. by apply (last_filled_tail [y]).
Qed.

Lemma same_len_nonempty {A} (l k : list A) : len l = len k → k ≠ [] → l ≠ [].
Proof using. intros Hl Hk ->. destruct k as [|x k]; [done|]. rewrite len_cons in Hl. pose proof (len_nonneg k). change (len (@nil A)) with 0 in Hl. lia. Qed.

Lemma erase_over Q1 Q2 X Y w a e :
  over (Q1 ++ Q2) Y → Q1 ≠ [] → e = len X + len Q1 → attrs_ok a → len (X ++ Y) = s_cols sz →
  ∃ Z Y' w', for_each (range (len X) e) (λ col r, Row_erase col a r) (mkRow (X ++ Y) w) = Some (mkRow (X ++ Z ++ Y') w') ∧
    Forall (blank a) Z ∧ len Z = len Q1 ∧ rest Q2 Y' ∧ (Q2 = [] → w' = false) ∧ (Q2 ≠ [] → mark_after w w' Y (Z ++ Y') Q2).
Proof using Hsz.
  intros Ho Hne -> Ha. revert X Y w Ho. induction Q1 as [|q Q1 IH]; intros X Y w Ho Hl; [done|].
  assert (∃ y Y0, Y = y :: Y0) as (y & Y0 & ->) by (inversion Ho; subst; by eexists _, _).
  unfold range. rewrite len_cons. pose proof (len_nonneg Q1). rewrite seqZ_cons by lia. cbn [for_each].
  destruct (Row_erase_over X q (Q1 ++ Q2) y Y0 w a Ho Ha Hl) as (z & Y1 & w1 & -> & Hz & HY1 & Hw1 & Hm1 & _). cbn [mbind option_bind].
  pose proof (over_len _ _ Ho) as HlY. cbn [app] in HlY. rewrite !len_cons in HlY. assert (len Y0 = len (Q1 ++ Q2)) as HlY0 by lia.
  destruct Q1 as [|q1 Q1].
  - change (len (@nil Cell)) with 0 in *. replace (Z.pred _) with 0 by lia. exists [z], Y1, w1.
    split_and!; [done|by apply Forall_singleton|done|done|done|]. intros HQ2. apply mark_after_cons; [|by apply Hm1].
    by apply (same_len_nonempty _ Q2).
  - destruct (IH ltac:(done) (X ++ [z]) Y1 w1) as (Z & Y' & w' & HZ & HbZ & HlZ & Hr & Hnil & Hm).
    { by apply rest_over. }
    { rewrite <- app_assoc. cbn [app]. rewrite <- Hl, !(len_app X), !len_cons, (rest_len _ _ HY1). lia. }
    exists (z :: Z), Y', w'. rewrite len_app in HZ. change (len [z]) with 1 in HZ. rewrite <- !app_assoc in HZ. cbn [app] in HZ.
    unfold range in HZ. replace (Z.succ (len X)) with (len X + 1) by lia.
    replace (Z.pred (len X + (len (q1 :: Q1) + 1) - len X)) with (len X + 1 + len (q1 :: Q1) - (len X + 1)) by lia.
    split_and!; [exact HZ|by constructor|by rewrite (len_cons z), HlZ|done|done|]. intros HQ2. cbn [app].
    assert (Y0 ≠ []) as HY0 by (by apply (same_len_nonempty _ ((q1 :: Q1) ++ Q2))).
    apply mark_after_cons; [done|]. apply (mark_after_trans w w1 w' Y0 Y1 (Z ++ Y') (q1 :: Q1)); [by apply Hm1|by apply Hm|done|done].
Qed.

Lemma drawn_erase A B X Q1 Q2 Y w a :
  over (Q1 ++ Q2) Y → Q1 ≠ [] → attrs_ok a → len (X ++ Y) = s_cols sz →
  ∃ Z Y' w', Forall (blank a) Z ∧ len Z = len Q1 ∧ rest Q2 Y' ∧ (Q2 = [] → w' = false) ∧ (Q2 ≠ [] → mark_after w w' Y (Z ++ Y') Q2) ∧
    drawn (EraseChar_write_buf (len Q1)) (canvas (A ++ mkRow (X ++ Y) w :: B) (mkPos (len A) (len X)), a)
      (canvas (row_of A B w' X Y' Z) (mkPos (len A) (len X)), a).
Proof using HG Hsz IL.
  intros Ho Hne Ha Hl. destruct (erase_over Q1 Q2 X Y w a (len X + len Q1) Ho Hne eq_refl Ha Hl) as (Z & Y' & w' & HZ & Hb & HlZ & Hr & Hnil & Hm).
  exists Z, Y', w'. split_and!; try done. pose proof (over_len _ _ Ho) as HlY. rewrite len_app in Hl, HlY.
  pose proof (len_nonneg X). pose proof (len_nonneg Q2).
  assert (1 ≤ len Q1) as H1 by (destruct Q1 as [|q Q1]; [done|]; rewrite len_cons; pose proof (len_nonneg Q1); lia).
  apply drawn_erase_char; [done|unfold is_u16; safe|].
  unfold erase_cells, erase_cols, update_current_row. cbn [pos canvas set_pos_field p_row p_col]. rewrite canvas_size.
  replace (Z.min _ _) with (len X + len Q1) by safe. by erewrite update_row_row; [|done|done|exact HZ].
Qed.

(** The last character of a row, which takes its mark away. *)
Lemma drawn_erase_last A B X y ys w a wide :
  slot wide (y :: ys) → is_wide y = wide → attrs_ok a → len (X ++ y :: ys) = s_cols sz →
  ∃ z zs, slot wide (z :: zs) ∧ len (z :: zs) = len (y :: ys) ∧ blank a z ∧
    drawn (EraseChar_write_buf 1) (canvas (A ++ mkRow (X ++ y :: ys) w :: B) (mkPos (len A) (len X)), a)
      (canvas (A ++ mkRow (X ++ z :: zs) false :: B) (mkPos (len A) (len X)), a).
Proof using HG Hsz IL.
  intros Hs Hw Ha Hl.
  assert (over (y :: ys) (y :: ys)) as Ho.
  { inversion Hs as [? Hy|? ? Hy Hy2|? k Hy Hk]; subst.
    - apply over_plain; [done|]. apply rest_same; constructor.
    - destruct (plain_flags _ Hy). congruence.
    - apply over_wide; done || constructor. }
  destruct (Row_erase_over X y ys y ys w a Ho Ha Hl) as (z & zs & w' & He & Hz & Hr & Hnil & _ & Hwide).
  assert (w' = false ∧ slot wide (z :: zs) ∧ len zs = len ys) as (-> & Hslot & Hlz).
  { pose proof (rest_len _ _ Hr) as Hlz. inversion Hs as [? Hy|? ? Hy Hy2|? k Hy Hk]; subst.
    - inversion Hr; subst. match goal with H : Forall2 _ [] _ |- _ => inversion H; subst end.
      split_and!; [by apply Hnil|constructor; by eapply blank_plain|done].
    - destruct (plain_flags _ Hy). congruence.
    - split_and!; [by apply Hwide; [apply (wide_flags _ Hy)|]| |done]. inversion Hr as [? ? Hp _|? ? z2 ? _ Hz2 _ H0]; subst.
      + inversion Hp as [|? ? Hn _|]; subst. destruct (narrow_flags _ Hn), (second_flags _ Hk). congruence.
      + inversion H0; subst. constructor; [by eapply blank_plain|done]. }
  exists z, zs. split_and!; [done|by rewrite !len_cons, Hlz|done|].
  rewrite len_app, len_cons in Hl. pose proof (len_nonneg X). pose proof (len_nonneg ys).
  apply drawn_erase_char; [done|done|]. unfold erase_cells, erase_cols, update_current_row.
  cbn [pos canvas set_pos_field p_row p_col]. rewrite canvas_size. replace (Z.min _ _) with (len X + 1) by safe.
  erewrite update_row_row; [done|done|done|]. unfold range. replace (len X + 1 - len X) with 1 by lia.
  rewrite seqZ_cons by lia. cbn [Z.pred Z.add Z.opp seqZ for_each fmap list_fmap]. by rewrite He.
Qed.

(** Up to the end of the row, from its start or from the cursor. *)
Lemma erase_row_over Q X Y w a :
  over Q Y → Q ≠ [] → attrs_ok a → len (X ++ Y) = s_cols sz →
  ∃ Z, for_each (range (len X) (s_cols sz)) (λ col r, Row_erase col a r) (mkRow (X ++ Y) w) = Some (mkRow (X ++ Z) false) ∧
    Forall (blank a) Z ∧ len Z = len Q.
Proof using Hsz.
  intros Ho Hne Ha Hl. destruct (erase_over Q [] X Y w a (s_cols sz)) as (Z & Y' & w' & HZ & Hb & HlZ & Hr & Hnil & _);
    [by rewrite app_nil_r|done|by rewrite <- Hl, len_app, (over_len _ _ Ho)|done|done|].
  pose proof (rest_len _ _ Hr) as HY'. destruct Y' as [|y' Y']; [|rewrite len_cons in HY'; pose proof (len_nonneg Y'); change (len (@nil Cell)) with 0 in HY'; lia].
  rewrite app_nil_r, Hnil in HZ by done. by exists Z.
Qed.

Lemma drawn_erase_end A B X Q Y w a :
  over Q Y → Q ≠ [] → attrs_ok a → len (X ++ Y) = s_cols sz →
  ∃ Z, Forall (blank a) Z ∧ len Z = len Q ∧
    drawn ClearRowForward_write_buf (canvas (A ++ mkRow (X ++ Y) w :: B) (mkPos (len A) (len X)), a)
      (canvas (A ++ mkRow (X ++ Z) false :: B) (mkPos (len A) (len X)), a).
Proof using HG Hsz IL.
  intros Ho Hne Ha Hl. destruct (erase_row_over Q X Y w a Ho Hne Ha Hl) as (Z & HZ & Hb & HlZ). exists Z. split_and!; [done|done|].
  apply drawn_erase_line. unfold erase_row_forward, erase_cols, update_current_row.
  cbn [pos canvas set_pos_field p_row p_col]. rewrite canvas_size. by erewrite update_row_row; [|done|done|exact HZ].
Qed.
End canvas.
