(* ===== verification/Vt100Glyph.v ===== *)
(** * Characters in rows

    The cells of one character, the character that ends a row, and the mark of a row whose
    text goes on in the next one: what the writers of a row look at. *)

From Stdlib Require Import String.
From S2P Require Import Prelude Limits TerminalWidth Emulator Vt100Cell Vt100Row Vt100RowInv Vt100Grid Vt100GridInv Vt100Screen Vt100ScreenInv Vt100Attrs Vt100Format Vt100Tokens Vt100Canvas.

Local Open Scope Z_scope.

(** The last row marked as wrapped, if text goes on after it. *)
Definition mark (w : bool) (l : list Row) : list Row :=
  if w then alter (Row_wrap true) (length l - 1)%nat l else l.

Lemma mark_last w A P : mark w (A ++ [P]) = A ++ [if w then Row_wrap true P else P].
Proof.
  destruct w; [|done]. unfold mark. rewrite length_app. cbn [length].
  rewrite alter_app_r_alt by lia. by replace (length A + 1 - 1 - length A)%nat with 0%nat by lia.
Qed.

Lemma len_mark w l : len (mark w l) = len l.
Proof. unfold mark, len. destruct w; [|done]. by rewrite length_alter. Qed.

(** The last character of a row is the same in the other one. *)
Definition same_end (T P : list Cell) : bool :=
  match reverse T, reverse P with
  | c :: T', q :: P' =>
      if is_wide_continuation c
      then match T', P' with c' :: _, q' :: _ => Cell_eqb c' q' | _, _ => false end
      else Cell_eqb c q
  | _, _ => false
  end.

(** The cells of a character. *)
Definition glyph_cells `{UW : UnicodeWidth} (l : list Z) (wide : bool) (cs : list Cell) : Prop :=
  ∃ c ds, cs = c :: ds ∧ cell_is l wide false c ∧ text_of wide l ∧
    if wide then ∃ d, ds = [d] ∧ second_half d else ds = [].

Lemma drop_here {A} (Q : list A) n q Q' : drop n Q = q :: Q' → Q = take n Q ++ q :: Q' ∧ drop (S n) Q = Q'.
Proof.
  intros H. split; [by rewrite <- H, take_drop|]. rewrite <- (Nat.add_1_r n), <- drop_drop, H. done.
Qed.

Section glyphs.
Context `{UW : UnicodeWidth}.

Lemma glyph_alike a l wide cs zs c ds :
  glyph_cells l wide cs → cs = c :: ds → cell_attrs c = a → glyph a l wide zs → Forall2 alike cs zs.
Proof using.
  intros (c0 & ds0 & -> & Hc & _ & Hds) [= -> ->] Ha Hg. inversion Hg as [z Hz Haz Hw|z k Hz Haz Hk Hw]; subst wide; cbn in Hds.
  - subst ds. repeat constructor. exists l, false, false. split_and!; [done|done|congruence].
  - destruct Hds as (d & -> & Hd). repeat constructor; [exists l, true, false; split_and!; [done|done|congruence]|].
    destruct Hd as [Hd Had], Hk as [Hk Hak]. exists [], false, true. split_and!; [done|done|congruence].
Qed.

Lemma glyph_facts l wide cs :
  glyph_cells l wide cs →
  ∃ c ds, cs = c :: ds ∧ is_wide c = wide ∧ has_contents c = true ∧ len cs = (if wide then 2 else 1) ∧
    contents_of c = Some (l ≫= encode_utf8) ∧ attrs_ok (cell_attrs c) ∧ last_filled cs.
Proof using.
  intros (c & ds & -> & Hc & Ht & Hds). exists c, ds. destruct (cell_is_flags Hc) as (_ & Hw & _).
  pose proof (text_of_nonempty _ _ Ht) as Hne.
  split_and!; [done|done| | |by apply contents_of_Some in Hc|apply Hc|].
  - by rewrite (has_contents_text _ _ _ _ Hc), bool_decide_eq_false_2.
  - destruct wide; [by destruct Hds as (d & -> & _)|by subst ds].
  - destruct wide; [destruct Hds as (d & -> & Hd); exists [c], d; by rewrite filled_second|subst ds].
    apply last_filled_one. by eapply filled_text.
Qed.

(** A character at the end is compared by its first cell. *)
Lemma same_end_glyph l wide cs c ds done Pd q Q :
  glyph_cells l wide cs → cs = c :: ds → len (q :: Q) = len cs → same_end (done ++ cs) (Pd ++ q :: Q) = Cell_eqb c q.
Proof using.
  intros (c0 & ds0 & -> & Hc & _ & Hds) [= -> ->] Hl. destruct (cell_is_flags Hc) as (_ & _ & Hk).
  unfold same_end. destruct wide.
  - destruct Hds as (d & -> & Hd). rewrite !reverse_app. rewrite !len_cons in Hl. change (len (@nil Cell)) with 0 in Hl.
    destruct Q as [|q2 [|? Q]]; [change (len (@nil Cell)) with 0 in Hl; lia| |rewrite !len_cons in Hl; pose proof (len_nonneg Q); lia].
    cbn. by rewrite (proj2 (second_flags _ Hd)).
  - subst ds. rewrite !len_cons in Hl. change (len (@nil Cell)) with 0 in Hl.
    destruct Q as [|? Q]; [|rewrite len_cons in Hl; pose proof (len_nonneg Q); lia]. rewrite !reverse_app. cbn. by rewrite Hk.
Qed.

Lemma glyph_again l wide cs zs : glyph_cells l wide cs → Forall2 alike cs zs → slot wide zs.
Proof using.
  intros (c & ds & -> & Hc & Ht & Hds) Hz. inversion Hz as [|? z ? zs' Hcz Hzs]; subst.
  pose proof (alike_is _ _ _ _ _ Hcz Hc) as Hzi. destruct wide.
  - destruct Hds as (d & -> & Hd). inversion Hzs as [|? k ? ? Hdk Hn]; subst. inversion Hn; subst.
    apply slot_again; [by exists l|]. by eapply alike_second.
  - subst ds. inversion Hzs; subst. apply slot_narrow. by exists l.
Qed.

Lemma blank_end a done c (A : Prop) : blank a c → last_filled (done ++ [c]) → A.
Proof using.
  intros [Hc _] Hl. apply last_filled_tail in Hl as (x & d & Heq & Hf); [|done].
  destruct x as [|? x]; [injection Heq as <-|by destruct x]. unfold filled in Hf. rewrite (has_contents_text _ _ _ _ Hc) in Hf.
  destruct (cell_is_flags Hc) as (_ & _ & Hs). by rewrite Hs in Hf.
Qed.

Lemma same_end_blank x c P : cell_is [] false false c → same_end (x ++ [c]) P = true → last_filled P → False.
Proof using.
  intros Hc Hs (y & q & -> & Hq). unfold same_end in Hs. rewrite !reverse_app in Hs. cbn in Hs.
  destruct (cell_is_flags Hc) as (Hn & _ & Hk). rewrite Hk in Hs. unfold filled in Hq. rewrite <- (eqb_second _ _ Hs), Hk, orb_false_r in Hq.
  unfold Cell_eqb in Hs. rewrite !andb_true_iff in Hs. destruct Hs as ((Hl%Z.eqb_eq & _) & _).
  unfold has_contents, contents_len in Hq, Hn. rewrite <- Hl, Hn in Hq. done.
Qed.

Lemma paired_head c l : paired (c :: l) → is_wide_continuation c = false.
Proof using. inversion 1 as [|? ? Hn _|? ? ? Hw _ _]; [apply (narrow_flags _ Hn)|apply (wide_flags _ Hw)]. Qed.

(** The end of a row: a character, or a blank. *)
Lemma row_end T cols :
  paired T → len T = cols → 0 < cols ≤ U16_MAX →
  ∃ x c cs d, T = x ++ c :: cs ∧ index (cols - 1) T = Some d ∧
    (if is_wide_continuation d then sub16 cols 2 else Some (cols - 1)) = Some (len x) ∧ index (len x) T = Some c ∧
    ((has_contents c = true ∧ ∃ l wide, glyph_cells l wide (c :: cs)) ∨ (has_contents c = false ∧ cs = [] ∧ cell_is [] false false c)).
Proof using.
  intros Hp Hl Hc. assert (0 ≤ cols - 1 < len T) as Hi by lia. pose proof (paired_around _ _ Hp Hi) as H.
  inversion H as [x c b Hpx Hn Hpb Hx Hix|x c d b Hpx Hw Hs Hpb Hx Hix|x c d b Hpx Hw Hs Hpb Hx Hix]; subst T; rewrite len_app, !len_cons in Hl; pose proof (len_nonneg b); pose proof (len_nonneg x).
  - destruct b as [|? b]; [|rewrite len_cons in Hl; pose proof (len_nonneg b); lia]. exists x, c, [], c. change (len (@nil Cell)) with 0 in Hl.
    rewrite (proj2 (narrow_flags _ Hn)). replace (cols - 1) with (len x) by lia.
    split_and!; [done|by apply index_app|done|by apply index_app|]. destruct Hn as (l & Hcl & [-> | Ht]); [right|left].
    + split_and!; [|done|done]. by rewrite (has_contents_text _ _ _ _ Hcl).
    + split; [|by exists l, false, c, []]. rewrite (has_contents_text _ _ _ _ Hcl), bool_decide_eq_false_2; [done|by eapply text_of_nonempty].
  - lia.
  - destruct b as [|? b]; [|rewrite len_cons in Hl; pose proof (len_nonneg b); lia]. exists x, c, [d], d. change (len (@nil Cell)) with 0 in Hl.
    rewrite (proj2 (second_flags _ Hs)), sub16_Some by lia. replace (cols - 2) with (len x) by lia.
    split_and!; [done| |done|by apply index_app|left].
    + change (c :: [d]) with ([c] ++ [d]). rewrite app_assoc. apply index_app. rewrite len_app. change (len [c]) with 1. lia.
    + destruct Hw as (l & Hcl & Ht). split.
      * rewrite (has_contents_text _ _ _ _ Hcl), bool_decide_eq_false_2; [done|by eapply text_of_nonempty].
      * exists l, true, c, [d]. split_and!; [done|done|done|by exists d].
Qed.
End glyphs.
