(* ===== verification/Vt100Repaint.v ===== *)
(** * Writing a row over another

    The loops of [write_contents_diff] and [write_contents_formatted] of a row keep a
    terminal in step with what they have written: where they leave a cell out, the
    terminal shows it already. A full repaint is a difference to a row of new cells. *)

From Stdlib Require Import String.
From S2P Require Import Prelude Limits TerminalWidth Emulator Vt100Cell Vt100Row Vt100RowInv Vt100Grid Vt100GridInv Vt100Screen Vt100ScreenInv Vt100Attrs Vt100Format Vt100Tokens Vt100Canvas Vt100Glyph.

Local Open Scope Z_scope.

Section row.
Context `{UW : UnicodeWidth} {UWL : UnicodeWidthLaws UW} `{D : Discipline} `{IT : Itoa} {IL : ItoaLaws IT}.
Context (sz : Size) (Hsz : size_safe sz) (G : Grid) (HG : ready sz G).

(** The row that is written, the rows of the terminal around it, and where the
    terminal stood before. *)
Context (row : Z) (wrapping : bool) (above below : list Row) (start : Grid * Attrs).
Context (Hrow : 0 ≤ row < s_rows sz) (Habove : len above = row).
Context (Hwrap : wrapping = true → ∃ A P, above = A ++ [P] ∧ len (cells P) = s_cols sz ∧ last_filled (cells P)).

(** The cells to write and those they are written over; the mark of the terminal's row
    and the cursor when the row is begun. *)
Context (T P : list Cell) (w0 : bool) (p0 : Pos).
Context (HT : len T = s_cols sz) (HP : len P = s_cols sz).

Definition paper (entered w : bool) (cs : list Cell) (p : Pos) : Grid :=
  canvas G (mark (wrapping && entered) above ++ mkRow cs w :: below) p.

(** The cells written so far, and those that wait to be erased. *)
Definition inked (e : option (Z * Attrs)) (done X : list Cell) : Prop :=
  match e with
  | None => Forall2 alike done X
  | Some (col, a) =>
      attrs_ok a ∧ ∃ D1 D2, done = D1 ++ D2 ∧ len D1 = col ∧ D2 ≠ [] ∧ Forall (blank a) D2 ∧ Forall2 alike D1 X
  end.

(** The loop between two characters: [done] is written, the terminal shows [X] and then
    what is left of the old row. After a wrapped row the terminal may wait at the end of that
    row until something is drawn. *)
Record pen_inv (entered w : bool) (done todo X Y : list Cell) (p : Pen) : Prop := {
  pi_drawn : drawn (out p) start (paper entered w (X ++ Y) (prev_pos p), prev_attrs p);
  pi_attrs : attrs_ok (prev_attrs p);
  pi_pos : pos_ok sz (prev_pos p);
  pi_split : done ++ todo = T;
  pi_rest : rest (drop (length X) P) Y;
  pi_len : len (X ++ Y) = s_cols sz;
  pi_done : inked (erase p) done X;
  pi_flag : w = true → w0 = true ∧ last_filled (X ++ Y);
  pi_kept : last_filled T → same_end T P = true → w = w0;
  pi_wait : wrapping = true →
    if entered then p_row (prev_pos p) + 1 = row → p_col (prev_pos p) < s_cols sz
    else prev_pos p = mkPos (row - 1) (s_cols sz) ∧ X = [] ∧ ∀ c q, head T = Some c → head P = Some q → Cell_eqb c q = false;
  pi_from : prev_pos p = p0 ∨ (p_row (prev_pos p) = row ∧ (same_end T P = true → p_col (prev_pos p) < s_cols sz));
  pi_end : last_filled done → erase p = None ∧ (prev_pos p = mkPos row (len done) ∨ same_end done (take (length done) P) = true);
  pi_last : todo = [] → erase p = None → ∀ x c, T = x ++ [c] → cell_is [] false false c → same_end T P = true;
}.

(** The attributes. *)
Lemma switch_drawn a g p :
  drawn (out p) start (g, prev_attrs p) → attrs_ok (prev_attrs p) → attrs_ok a →
  ∃ b, switch_attrs a p = Some (set_prev_attrs a (write b p)) ∧ drawn (out p ++ b) start (g, a).
Proof using IL.
  intros Hd Hp Ha. unfold switch_attrs. case_bool_decide as Hne.
  - destruct (drawn_attrs a (prev_attrs p) g Ha Hp) as (b & Hb & Hdb). rewrite Hb. exists b. split; [done|]. by eapply drawn_app.
  - assert (prev_attrs p = a) as <- by (by destruct (decide (prev_attrs p = a))). exists []. rewrite app_nil_r. split; [|done].
    unfold set_prev_attrs, write. cbn. rewrite app_nil_r. by destruct p.
Qed.

(** ** The mark of the row *)
Lemma flag_after w w' X X' Y Y' Z Q :
  (w = true → w0 = true ∧ last_filled (X ++ Y)) → Y ≠ [] → Z = X' ++ Y' → mark_after w w' Y Y' Q → w' = true → w0 = true ∧ last_filled Z.
Proof using.
  intros Hf HY -> [[-> Hm]|[-> _]] Hw; [|done]. destruct (Hf Hw) as [H0 Hl]. split; [done|].
  apply last_filled_app, Hm. by apply (last_filled_tail X).
Qed.

Lemma kept_after w w' done todo Y Z :
  done ++ todo = T → paired todo → mark_after w w' Y Z (drop (length done) P) → same_end T P = true → w' = w.
Proof using HT HP.
  intros Hs Hp [[-> _]|[-> (k & Hk & Hsec)]] Hend; [done|]. exfalso. apply drop_here in Hk as [Hk _].
  assert (len todo = 1) as Hl.
  { clear Hrow Habove Hwrap Hend Hsec. pose proof HP as HP'. pose proof HT as HT'. rewrite Hk, len_app in HP'. rewrite <- Hs, len_app in HT'.
    change (len [k]) with 1 in HP'. unfold len in *. rewrite length_take in HP'. lia. }
  destruct todo as [|c [|? todo]]; [by vm_compute in Hl| |clear -Hl; rewrite !len_cons in Hl; pose proof (len_nonneg todo); lia].
  pose proof (paired_head _ _ Hp) as Hc. rewrite <- Hs, Hk in Hend. unfold same_end in Hend. rewrite !reverse_app in Hend. cbn in Hend.
  rewrite Hc in Hend. apply eqb_second in Hend. rewrite (proj2 (second_flags _ Hsec)) in Hend. congruence.
Qed.

(** ** Entering a row from the wrapped one before it *)
Lemma enters_row (wide : bool) w cs c :
  wrapping = true → s_cols sz - (if wide then 2 else 1) < c ≤ s_cols sz →
  ∀ entered, enters wide (paper entered w cs (mkPos (row - 1) c)) (paper true w cs (mkPos row 0)).
Proof using Habove HG Hrow Hsz Hwrap UWL.
  intros Hw Hc entered. unfold paper. rewrite Hw. cbn [andb]. destruct (Hwrap Hw) as (A & R & -> & HR & Hf). rewrite !mark_last.
  rewrite len_app in Habove. change (len [R]) with 1 in Habove. rewrite <- !app_assoc. cbn [app].
  replace (row - 1) with (len A) by lia. replace row with (len A + 1) by lia.
  destruct entered; [apply (enters_wrap sz Hsz G HG wide A (Row_wrap true R) (mkRow cs w) below c)
    |apply (enters_wrap sz Hsz G HG wide A R (mkRow cs w) below c)]; done || lia.
Qed.

Lemma text_space : text_of false [32].
Proof using UWL. apply text_base; rewrite ?width_ascii by lia; [split; [left|]; lia|done..]. Qed.

(** A space, and back. *)
Lemma drawn_entry w Q Y a :
  wrapping = true → over Q Y → Q ≠ [] → len Y = s_cols sz → attrs_ok a →
  ∃ z Y', plain z ∧ rest (drop 1 Q) Y' ∧ (w = true → last_filled Y → last_filled (z :: Y')) ∧ drawn ([32] ++ Backspace_write_buf)
    (paper false w Y (mkPos (row - 1) (s_cols sz)), a) (paper true w (z :: Y') (mkPos row 0), a).
Proof using Habove HG Hrow Hsz Hwrap UWL.
  intros Hw Ho Hne HlY Ha. destruct Q as [|q Q]; [done|].
  destruct (drawn_text_over sz Hsz G HG false [32] a (paper false w Y (mkPos (row - 1) (s_cols sz)))
    (mark true above) below w [] [q] Q Y) as (zs & Y' & w' & Hg & Hl & (Hr & Hm & Hn) & Hd); [apply text_space|done|done|done|done|..].
  { rewrite len_mark, Habove. pose proof (enters_row false w Y (s_cols sz) Hw ltac:(cbv iota; lia) false) as He.
    unfold paper in He |- *. rewrite Hw in He |- *. exact He. }
  rewrite Hn in Hd by done. inversion Hg as [z Hz Haz|]; subst zs. exists z, Y'. split_and!; [by exists [32]|done| |].
  { intros Hwt Hf. destruct Hm as [[_ Hm]|[-> _]]; [by apply Hm|]. by rewrite <- Hn in Hwt. }
  eapply drawn_app; [exact Hd|]. unfold paper. rewrite Hw. rewrite len_mark, Habove.
  exact (drawn_backspace (canvas G (row_of (mark true above) below w [] Y' [z]) (mkPos row 1)) a).
Qed.

(** A position of this row that is not after the end of a wrapped one is reached by a move. *)
Lemma drawn_move entered w cs p col a :
  0 ≤ col < s_cols sz → pos_ok sz p → (wrapping = true → entered = true) →
  ∃ b, MoveFromTo_write_buf p (mkPos row col) = Some b ∧ drawn b (paper entered w cs p, a) (paper true w cs (mkPos row col), a).
Proof using HG Hrow Hsz IL.
  intros Hc Hp Hen. unfold paper.
  assert (wrapping && entered = wrapping && true) as -> by (clear Hwrap; destruct wrapping; [by rewrite Hen|done]).
  apply (drawn_move_from_to sz Hsz G HG); [apply Hp|apply Hp|done].
Qed.

(** ** Erasing *)
Lemma inked_length col a done X : inked (Some (col, a)) done X → len X = col ∧ len X < len done.
Proof using.
  clear Hrow Habove HT HP. intros (_ & D1 & D2 & -> & Hc & Hne & _ & Hf). apply Forall2_length in Hf. rewrite len_app. unfold len in Hc |- *.
  destruct D2; [done|]. cbn [length]. lia.
Qed.

Lemma rest_left (Q X Y : list Cell) : rest (drop (length X) Q) Y → len X < len Q → drop (length X) Q ≠ [] ∧ Y ≠ [].
Proof using.
  clear Hrow Habove HT HP. intros Hr Hl. assert (drop (length X) Q ≠ []) as Hne.
  { intros Hd%(f_equal (@length Cell)). rewrite length_drop in Hd. unfold len in Hl. cbn in Hd. lia. }
  split; [done|]. eapply same_len_nonempty; [by apply rest_len|done].
Qed.

(** The move to the cells to erase. *)
Lemma reach_erase entered w done todo X Y p col a :
  pen_inv entered w done todo X Y p → erase p = Some (col, a) →
  ∃ b Y', move_to_erase (s_cols sz) row wrapping col p = Some (set_prev_pos (mkPos row col) (write b p)) ∧
    over (drop (length X) P) Y' ∧ len (X ++ Y') = s_cols sz ∧ (w = true → w0 = true ∧ last_filled (X ++ Y')) ∧
    drawn (out p ++ b) start (paper true w (X ++ Y') (mkPos row col), prev_attrs p).
Proof using Habove HG Hrow Hsz Hwrap IL UWL HT HP.
  intros [Hdr Hat Hpos Hsplit Hrest Hlen Hd Hflag _ Hwait _ _ _] He. rewrite He in Hd. apply inked_length in Hd as [Hcol Hlt].
  pose proof (len_nonneg X). pose proof HT as HT'. rewrite <- Hsplit, len_app in HT'. pose proof (len_nonneg todo).
  destruct (rest_left P X Y Hrest ltac:(lia)) as [HQ HY].
  unfold move_to_erase. cbn [p_row p_col].
  assert ((if wrapping then add16 (p_row (prev_pos p)) 1 else Some 0) = Some (if wrapping then p_row (prev_pos p) + 1 else 0)) as ->.
  { destruct wrapping; [|done]. apply add16_Some. safe. }
  cbn [mbind option_bind].
  destruct (decide (wrapping = true ∧ entered = false)) as [[Hw ->]|Hmove].
  - destruct (Hwait Hw) as (Hpp & -> & _). change (len (@nil Cell)) with 0 in *. subst col. rewrite Hpp. cbn [p_row p_col]. rewrite Hw.
    replace (row - 1 + 1 =? row) with true by lia. replace (s_cols sz <=? s_cols sz) with true by lia. cbn [andb mbind option_bind].
    rewrite (Z.ltb_irrefl 0). cbn [length app] in *. rewrite drop_0 in *.
    destruct (drawn_entry w P Y (prev_attrs p) Hw (rest_over _ _ Hrest) HQ Hlen Hat) as (z & Y' & Hz & HY' & Hf & Hdz).
    eexists _, (z :: Y'). destruct P as [|q Q]; [done|]. cbn [drop] in HY'. rewrite drop_0 in HY'. split_and!; [done|by constructor| | |].
    + rewrite len_cons, (rest_len _ _ HY'). by rewrite len_cons in HP.
    + intros Hwt. destruct (Hflag Hwt). split; [done|by apply Hf].
    + eapply drawn_app; [exact Hdr|]. rewrite Hpp. exact Hdz.
  - assert (wrapping = true → entered = true) as Hen by (intros Hw; destruct entered; [done|by destruct Hmove]).
    replace (_ && _) with false.
    2: { clear Hwrap. destruct wrapping; [|done]. rewrite (Hen eq_refl) in Hwait. specialize (Hwait eq_refl). cbn in Hwait |- *. lia. }
    destruct (drawn_move entered w (X ++ Y) (prev_pos p) col (prev_attrs p)) as (b & Hb & Hdb); [lia|done|done|].
    rewrite Hb. cbn [mbind option_bind]. exists b, Y. split_and!; [done|by apply rest_over|done|done|]. by eapply drawn_app.
Qed.

Lemma prepare_erase entered w done todo X Y p col a :
  pen_inv entered w done todo X Y p → erase p = Some (col, a) →
  ∃ p1 p2 Y', move_to_erase (s_cols sz) row wrapping col p = Some p1 ∧ switch_attrs a p1 = Some p2 ∧
    prev_pos p2 = mkPos row col ∧ prev_attrs p2 = a ∧ prev_was_wide p2 = prev_was_wide p ∧
    over (drop (length X) P) Y' ∧ len (X ++ Y') = s_cols sz ∧ (w = true → w0 = true ∧ last_filled (X ++ Y')) ∧
    drawn (out p2) start (paper true w (X ++ Y') (mkPos row col), a).
Proof using Habove HG Hrow Hsz Hwrap IL UWL HT HP.
  intros Hi He. destruct (reach_erase entered w done todo X Y p col a Hi He) as (b & Y' & Hm & Ho & Hl & Hf & Hd).
  pose proof (pi_done _ _ _ _ _ _ _ Hi) as Hink. rewrite He in Hink. destruct Hink as (Ha & _).
  destruct (switch_drawn a (paper true w (X ++ Y') (mkPos row col)) (set_prev_pos (mkPos row col) (write b p)) Hd (pi_attrs _ _ _ _ _ _ _ Hi) Ha)
    as (b2 & Hs & Hd2).
  eexists _, _, Y'. split_and!; [exact Hm|exact Hs|done|done|done|done|done|done|exact Hd2].
Qed.

Lemma alike_blanks a l k : Forall (blank a) l → Forall (blank a) k → length l = length k → Forall2 alike l k.
Proof using.
  clear Hrow Habove HT HP. intros Hl. revert k. induction Hl as [|c l Hc Hl IH]; intros [|d k] Hk Hlen; try done.
  apply Forall_cons in Hk as [Hd Hk]. constructor; [by eapply alike_blank|]. apply IH; [done|]. cbn in Hlen. lia.
Qed.

(** The part of the old row under some written cells. *)
Lemma part_under (done1 done2 : list Cell) :
  len (done1 ++ done2) ≤ len P →
  ∃ Q1, len Q1 = len done2 ∧ drop (length done1) P = Q1 ++ drop (length (done1 ++ done2)) P.
Proof using.
  clear Hrow Habove HT HP. intros Hl. exists (take (length done2) (drop (length done1) P)). split.
  - unfold len in *. rewrite length_app in Hl. rewrite length_take, length_drop. lia.
  - rewrite length_app, <- drop_drop. by rewrite take_drop.
Qed.

(** The cells erased before the next one is drawn. *)
Lemma flush_drawn entered w done c todo X Y p :
  pen_inv entered w done (c :: todo) X Y p → paired (c :: todo) →
  ∃ p' entered' w' X' Y', flush_erase (s_cols sz) row wrapping (len done) c p = Some p' ∧
    pen_inv entered' w' done (c :: todo) X' Y' p' ∧ prev_was_wide p' = prev_was_wide p ∧
    match erase p' with None => True | Some (_, a) => has_contents c = false ∧ cell_attrs c = a end.
Proof using Habove HG Hrow Hsz Hwrap IL UWL HT HP.
  intros Hi Hpair. unfold flush_erase. destruct (erase p) as [[col a]|] eqn:He; [|exists p, entered, w, X, Y; by rewrite He].
  destruct (_ || _) eqn:Hf.
  2: { apply orb_false_iff in Hf as [Hf Ha%bool_decide_eq_false]. exists p, entered, w, X, Y. rewrite He.
       split_and!; [done|done|done|done|]. by destruct (decide (cell_attrs c = a)). }
  destruct (prepare_erase entered w done (c :: todo) X Y p col a Hi He)
    as (p1 & p2 & Y1 & -> & Hs & Hpos & Hat & Hww & Ho & Hlen & Hfl & Hd).
  cbn [mbind option_bind]. rewrite Hs. cbn [mbind option_bind].
  destruct Hi as [_ _ _ Hsplit _ _ Hink _ Hkept _ _ Hend _]. rewrite He in Hink. pose proof (inked_length _ _ _ _ Hink) as [Hcol Hlt].
  destruct Hink as (Ha & D1 & D2 & Hdone & Hc1 & Hne & HD2 & HD1).
  pose proof HT as HT'. rewrite <- Hsplit, len_app, len_cons in HT'. pose proof (len_nonneg todo). pose proof (len_nonneg X).
  rewrite sub16_Some by lia. cbn [mbind option_bind].
  assert (length X = length D1) as HX by (by rewrite (Forall2_length _ _ _ HD1)).
  destruct (part_under D1 D2) as (Q1 & HlQ1 & HQ); [rewrite <- Hdone; lia|]. rewrite <- HX, <- Hdone in HQ.
  assert (drop (length done) P ≠ []) as HQ2 by (intros Hn%(f_equal (@length Cell)); rewrite length_drop in Hn; unfold len in *; cbn in Hn; lia).
  rewrite HQ in Ho. destruct (drawn_erase sz Hsz G HG (mark (wrapping && true) above) below X Q1 (drop (length done) P) Y1 w a Ho)
    as (Z & Y' & w' & HZ & HlZ & Hr & _ & Hm & Hdr); [by eapply same_len_nonempty|done|done|].
  specialize (Hm HQ2). rewrite len_mark, Habove, Hcol in Hdr.
  assert (len done - col = len Q1) as -> by (rewrite Hdone, len_app; lia).
  assert (length (X ++ Z) = length done) as HlX by (rewrite length_app, Hdone, length_app; unfold len in *; lia).
  assert (Y1 ≠ []) as HY1.
  { apply over_len in Ho. intros ->. rewrite len_app in Ho. change (len (@nil Cell)) with 0 in Ho. pose proof (len_nonneg (drop (length done) P)).
    destruct D2; [done|]. rewrite len_cons in HlQ1. pose proof (len_nonneg D2). lia. }
  eexists _, true, w', (X ++ Z), Y'. split_and!; [done| |done|done].
  split; cbn [out prev_pos prev_attrs erase set_erase write]; rewrite ?Hpos, ?Hat.
  - rewrite <- app_assoc. eapply drawn_app; [exact Hd|exact Hdr].
  - done.
  - split; cbn; [done|]. lia.
  - done.
  - by rewrite HlX.
  - rewrite len_app, (rest_len _ _ Hr). unfold len in *. rewrite HlX, length_drop. lia.
  - cbn. rewrite Hdone. apply Forall2_app; [done|]. apply (alike_blanks a); [done|done|]. unfold len in *. lia.
  - apply (flag_after w w' X X Y1 (Z ++ Y') _ (drop (length done) P) Hfl HY1); [by rewrite app_assoc|done].
  - intros HfT HeT. rewrite <- (Hkept HfT HeT). by apply (kept_after w w' done (c :: todo) Y1 (Z ++ Y')).
  - intros _. cbn. lia.
  - right. cbn. split; [done|]. intros _. lia.
  - intros Hl. destruct (Hend Hl) as [Hn _]. congruence.
  - done.
Qed.

(** ** Drawing *)

(** The move to the next character, which may happen by typing it. *)
Lemma reach_cell entered w done c todo X Y p :
  pen_inv entered w done (c :: todo) X Y p → erase p = None → len done + (if is_wide c then 2 else 1) ≤ s_cols sz →
  ∃ b g0,
    (if bool_decide (mkPos row (len done) ≠ prev_pos p)
     then move ← needs_move (s_cols sz) wrapping c (mkPos row (len done)) (prev_pos p);
          b ← (if move : bool then MoveFromTo_write_buf (prev_pos p) (mkPos row (len done)) else Some []);
          Some (set_prev_pos (mkPos row (len done)) (write b p))
     else Some p) = Some (set_prev_pos (mkPos row (len done)) (write b p)) ∧
    drawn (out p ++ b) start (g0, prev_attrs p) ∧
    enters (is_wide c) g0 (paper true w (X ++ Y) (mkPos row (len done))).
Proof using Habove HG Hrow Hsz Hwrap IL UWL.
  intros [Hdr Hat Hpos Hsplit Hrest Hlen Hd Hflag _ Hwait _ _ _] He Hfit. rewrite He in Hd. cbn in Hd. pose proof (len_nonneg done).
  assert (len done < s_cols sz) as Hlt by (destruct (is_wide c); lia).
  assert (enters (is_wide c) (paper true w (X ++ Y) (mkPos row (len done))) (paper true w (X ++ Y) (mkPos row (len done)))) as Hhere
    by (by apply enters_here with sz).
  destruct (decide (wrapping = true ∧ entered = false)) as [[Hw ->]|Hmove].
  - destruct (Hwait Hw) as (Hpp & -> & _). assert (done = []) as -> by (by inversion Hd). change (len (@nil Cell)) with 0 in *.
    rewrite Hpp, bool_decide_eq_true_2 by (intros [= ?]; lia). unfold needs_move. rewrite Hw. cbn [negb p_row p_col].
    rewrite add16_Some by safe. cbn [mbind option_bind]. replace (row - 1 + 1 =? row) with true by lia. cbn [negb].
    rewrite sub16_Some by (destruct (is_wide c); lia). cbn [mbind option_bind].
    replace (s_cols sz <? _) with false by (destruct (is_wide c); lia). cbn.
    exists [], (paper false w Y (prev_pos p)). rewrite app_nil_r. split_and!; [done|done|]. rewrite Hpp. apply enters_row; [done|destruct (is_wide c); lia].
  - assert (wrapping = true → entered = true) as Hen by (intros Hw; destruct entered; [done|by destruct Hmove]).
    assert (paper entered w (X ++ Y) (prev_pos p) = paper true w (X ++ Y) (prev_pos p)) as Hsame.
    { unfold paper. clear Hwrap Hwait. destruct wrapping; [by rewrite Hen|done]. }
    destruct (drawn_move entered w (X ++ Y) (prev_pos p) (len done) (prev_attrs p)) as (b & Hb & Hdb); [lia|done|done|].
    case_bool_decide as Hne.
    + assert (needs_move (s_cols sz) wrapping c (mkPos row (len done)) (prev_pos p) = Some true ∨
        needs_move (s_cols sz) wrapping c (mkPos row (len done)) (prev_pos p) = Some false ∧ wrapping = true ∧ is_wide c = true ∧
          prev_pos p = mkPos (row - 1) (s_cols sz - 1) ∧ len done = 0) as [->|(-> & Hw & Hwide & Hpp & H0)].
      { unfold needs_move. destruct wrapping; [|by left]. cbn [negb p_row p_col]. rewrite add16_Some by safe. cbn [mbind option_bind].
        destruct (Z.eqb_spec (p_row (prev_pos p) + 1) row) as [Hr|]; [|by left]. cbn [negb]. rewrite (Hen eq_refl) in Hwait.
        specialize (Hwait eq_refl Hr). rewrite sub16_Some by (destruct (is_wide c); lia). cbn [mbind option_bind].
        destruct (Z.ltb_spec (p_col (prev_pos p)) (s_cols sz - if is_wide c then 1 else 0)); [by left|].
        destruct (Z.eqb_spec (len done) 0); [right|by left]. destruct (is_wide c); [|lia]. split_and!; [done|done|done| |done].
        destruct (prev_pos p) as [r0 c0]. cbn in *. f_equal; lia. }
      * cbn [mbind option_bind]. rewrite Hb. exists b, (paper true w (X ++ Y) (mkPos row (len done))). split_and!; [done| |done].
        by eapply drawn_app.
      * cbn [mbind option_bind]. exists [], (paper entered w (X ++ Y) (prev_pos p)). rewrite app_nil_r. split_and!; [done|done|].
        rewrite Hwide, Hpp, H0. apply enters_row; [done|cbv iota; lia].
    + assert (prev_pos p = mkPos row (len done)) as Hpp by (by destruct (decide (mkPos row (len done) = prev_pos p))).
      exists [], (paper true w (X ++ Y) (mkPos row (len done))). rewrite app_nil_r. split_and!; [| |done].
      * f_equal. unfold set_prev_pos, write. cbn. rewrite app_nil_r, <- Hpp. by destruct p.
      * rewrite <- Hpp, <- Hsame. done.
Qed.

Lemma draw_drawn entered w done l wide cs todo X Y p c ds q :
  pen_inv entered w done (cs ++ todo) X Y p → erase p = None → glyph_cells l wide cs → cs = c :: ds → paired todo →
  head (drop (length done) P) = Some q → Cell_eqb c q = false →
  ∃ p' w' X' Y', draw_cell (s_cols sz) wrapping (mkPos row (len done)) c p = Some p' ∧
    pen_inv true w' (done ++ cs) todo X' Y' p' ∧ prev_was_wide p' = prev_was_wide p.
Proof using Habove HG Hrow Hsz Hwrap IL UWL HT HP.
  intros Hi He Hg Hcs Hpair Hq Hdiff. pose proof Hi as [_ Hat Hpos Hsplit Hrest Hlen Hd Hflag Hkept _ _ _ _]. rewrite He in Hd. cbn in Hd.
  pose proof HT as HT'. rewrite <- Hsplit, !len_app in HT'.
  assert (length X = length done) as HX by (by rewrite (Forall2_length _ _ _ Hd)). assert (len X = len done) as HlX by (unfold len; lia).
  pose proof (len_nonneg todo). pose proof (len_nonneg done).
  destruct (glyph_facts l wide cs Hg) as (c0 & ds0 & Hcs0 & Hw & Hcon & Hlcs & Htext & Hat' & Hfill).
  rewrite Hcs in Hcs0. injection Hcs0 as <- <-.
  destruct (reach_cell entered w done c (ds ++ todo) X Y p) as (b & g0 & Hm & Hdr & Hen);
    [by rewrite Hcs in Hi|done|rewrite Hw; lia|].
  unfold draw_cell. rewrite Hcon, Hm. cbn [mbind option_bind].
  destruct (switch_drawn (cell_attrs c) g0 (set_prev_pos (mkPos row (len done)) (write b p)) Hdr Hat Hat') as (b2 & -> & Hd2).
  cbn [mbind option_bind prev_pos set_prev_attrs write set_prev_pos p_col]. rewrite Hw, add16_Some by (destruct wide; safe).
  cbn [mbind option_bind]. rewrite Htext. cbn [mbind option_bind].
  destruct (part_under done cs) as (Q1 & HlQ1 & HQ); [rewrite len_app; lia|]. rewrite HX, HQ in Hrest.
  destruct (drawn_text_over sz Hsz G HG wide l (cell_attrs c) g0 (mark (wrapping && true) above) below w X Q1 (drop (length (done ++ cs)) P) Y)
    as (zs & Y' & w' & Hzs & Hlzs & (Hr & Hm' & _) & Hd3); [by destruct Hg as (? & ? & ? & ? & ? & ?)|by apply rest_over|lia|done|done|..].
  { rewrite len_mark, Habove, HlX. rewrite Hw in Hen. exact Hen. }
  assert (Forall2 alike cs zs) as Hal by (by eapply glyph_alike).
  assert (length (X ++ zs) = length (done ++ cs)) as HlXz by (rewrite !length_app, HX; by rewrite (Forall2_length _ _ _ Hal)).
  assert (Y ≠ []) as HY.
  { apply rest_len in Hrest. rewrite len_app in Hrest. intros ->. change (len (@nil Cell)) with 0 in Hrest.
    pose proof (len_nonneg (drop (length (done ++ cs)) P)). destruct wide; lia. }
  eexists _, w', (X ++ zs), Y'. split_and!; [done| |done].
  split; cbn [out prev_pos prev_attrs erase write set_prev_pos set_prev_attrs set_col p_row p_col].
  - eapply drawn_app; [exact Hd2|]. rewrite len_mark, Habove, HlX, HlQ1, Hlcs in Hd3. rewrite <- app_assoc. exact Hd3.
  - done.
  - split; cbn; [done|destruct wide; lia].
  - by rewrite <- app_assoc.
  - by rewrite HlXz.
  - rewrite len_app, (rest_len _ _ Hr). unfold len in *. rewrite HlXz, length_drop, length_app. lia.
  - rewrite He. cbn. by apply Forall2_app.
  - apply (flag_after w w' X X Y (zs ++ Y') _ (drop (length (done ++ cs)) P) Hflag HY); [by rewrite app_assoc|done].
  - intros HfT HeT. rewrite <- (Hkept HfT HeT). apply (kept_after w w' (done ++ cs) todo Y (zs ++ Y')); [by rewrite <- app_assoc|done|done|done].
  - intros _. cbn. lia.
  - right. cbn. split; [done|]. intros HeT.
    destruct (decide (todo = [])) as [->|Hne]; [exfalso|destruct todo as [|? todo]; [done|]; rewrite len_cons in HT'; pose proof (len_nonneg todo); destruct wide; lia].
    destruct (drop (length done) P) as [|q' Q'] eqn:HQ'; [done|]. injection Hq as ->. pose proof HQ' as HQ2. apply drop_here in HQ2 as [HPs _].
    rewrite app_nil_r in Hsplit. rewrite <- Hsplit, HPs in HeT.
    rewrite (same_end_glyph l wide cs c ds done _ q Q' Hg Hcs) in HeT; [congruence|].
    change (len (@nil Cell)) with 0 in HT'. rewrite <- HQ'. unfold len in *. rewrite length_drop. lia.
  - intros _. rewrite len_app, He, Hlcs. split; [done|by left].
  - intros -> _ x c' HTc Hblank. rewrite app_nil_r in Hsplit. exfalso. apply (blank_end (cell_attrs c') x c'); [done|].
    rewrite <- HTc, <- Hsplit. by apply last_filled_app.
Qed.

(** ** Cells that are the same *)
Lemma pen_inv_wide entered w done todo X Y p b : pen_inv entered w done todo X Y p → pen_inv entered w done todo X Y (set_prev_was_wide b p).
Proof using. by intros []. Qed.

Lemma extend_erase entered w done c todo X Y p col a :
  pen_inv entered w done (c :: todo) X Y p → erase p = Some (col, a) → blank a c → pen_inv entered w (done ++ [c]) todo X Y p.
Proof using.
  intros [Hdr Hat Hpos Hsplit Hrest Hlen Hd Hflag Hkept Hwait Hfrom _ _] He Hc. split; try done.
  - by rewrite <- app_assoc.
  - rewrite He in Hd |- *. destruct Hd as (Ha & D1 & D2 & -> & Hc1 & _ & HD2 & HD1). split; [done|].
    exists D1, (D2 ++ [c]). rewrite app_assoc. split_and!; [done|done|by destruct D2| |done]. apply Forall_app. by rewrite Forall_singleton.
  - by apply (blank_end a).
  - congruence.
Qed.

Lemma start_erase entered w done c todo X Y p a :
  pen_inv entered w done (c :: todo) X Y p → erase p = None → attrs_ok a → blank a c →
  pen_inv entered w (done ++ [c]) todo X Y (set_erase (Some (len done, a)) p).
Proof using.
  intros [Hdr Hat Hpos Hsplit Hrest Hlen Hd Hflag Hkept Hwait Hfrom _ _] He Ha Hc. split; try done.
  - by rewrite <- app_assoc.
  - rewrite He in Hd. cbn in Hd |- *. split; [done|]. exists done, [c]. split_and!; [done|done|done|by apply Forall_singleton|done].
  - by apply (blank_end a).
Qed.

(** The old cells under a character that is not drawn again. *)
Lemma rest_skip l wide cs c ds Q q Q' Y :
  (wide = false ∧ cs = [c] ∧ cell_is l false false c ∨ glyph_cells l wide cs ∧ cs = c :: ds) →
  Q = q :: Q' → Cell_eqb c q = true → rest Q Y → len cs ≤ len Q →
  ∃ Q1 Q2 ys Y', Q = Q1 ++ Q2 ∧ len Q1 = len cs ∧ Y = ys ++ Y' ∧ Forall2 alike cs ys ∧ rest Q2 Y'.
Proof using.
  clear Hrow Habove HT HP. intros Hcs -> He Hr Hl.
  assert (is_wide_continuation c = false ∧ is_wide c = wide ∧ cell_is l wide false c) as (Hk & Hw & Hc).
  { destruct Hcs as [(-> & _ & Hc)|[(? & ? & -> & Hc & _) [= -> ->]]]; by destruct (cell_is_flags Hc) as (_ & ? & ?). }
  inversion Hr as [? ? Hp Ha|? ? ? ? Hs]; subst; [|apply eqb_second in He; rewrite (proj2 (second_flags _ Hs)) in He; congruence].
  inversion Ha as [|? y ? Y' Hqy HY]; subst.
  assert (alike c q) as Hcq by (inversion Hp as [|? ? (t & Ht & _)|? ? ? (t & Ht & _)]; subst; by eapply eqb_alike).
  inversion Hp as [|? ? Hn HQ|? q2 Q2 Hwq Hq2 HQ]; subst.
  - assert (cs = [c]) as ->.
    { destruct Hcs as [(_ & -> & _)|[(? & ds0 & -> & _ & _ & Hds) [= -> ->]]]; [done|]. destruct (alike_flags _ _ Hcq) as (Hwq & _).
      rewrite (proj1 (narrow_flags _ Hn)) in Hwq. rewrite Hwq in Hds. by subst. }
    exists [q], Q', [y], Y'. split_and!; [done|done|done|constructor; [by eapply alike_trans|done]|by constructor].
  - destruct (alike_flags _ _ Hcq) as (Hwc & _). rewrite (proj1 (wide_flags _ Hwq)) in Hwc. 
    destruct Hcs as [(Hwf & _)|[(? & ds0 & -> & _ & _ & Hds) [= -> ->]]]; [congruence|]. rewrite Hwc in Hds. destruct Hds as (d & -> & Hd).
    inversion HY as [|? y2 ? Y2 Hqy2 HY2]; subst. exists [q; q2], Q2, [y; y2], Y2.
    split_and!; [done|done|done| |by constructor]. repeat constructor; [by eapply alike_trans|].
    pose proof (alike_second _ _ Hqy2 Hq2) as [Hy2 Hy2a]. destruct Hd as [Hd Hda]. exists [], false, true. split_and!; [done|done|congruence].
Qed.

Lemma pass_same entered w done l wide cs c ds todo X Y p q :
  pen_inv entered w done (cs ++ todo) X Y p → erase p = None →
  (wide = false ∧ cs = [c] ∧ blank (cell_attrs c) c ∧ l = [] ∨ glyph_cells l wide cs ∧ cs = c :: ds) →
  head (drop (length done) P) = Some q → Cell_eqb c q = true →
  ∃ X' Y', pen_inv entered w (done ++ cs) todo X' Y' p.
Proof using HT HP.
  intros [Hdr Hat Hpos Hsplit Hrest Hlen Hd Hflag Hkept Hwait Hfrom _ _] He Hcs Hq Heq. rewrite He in Hd. cbn in Hd.
  assert (length X = length done) as HX by (by rewrite (Forall2_length _ _ _ Hd)). rewrite HX in Hrest.
  destruct (drop (length done) P) as [|q' Q'] eqn:HQ; [done|]. injection Hq as ->. pose proof (drop_here _ _ _ _ HQ) as [HPs _].
  assert (len cs ≤ len (q :: Q')) as Hlcs.
  { clear Hrow Habove. rewrite <- HQ. pose proof HT as HT'. rewrite <- Hsplit, !len_app in HT'. pose proof (len_nonneg todo). unfold len in *. rewrite length_drop. lia. }
  destruct (rest_skip l wide cs c ds (q :: Q') q Q' Y) as (Q1 & Q2 & ys & Y' & HQ12 & HlQ1 & -> & Hal & Hr); [|done|done|done|done|].
  { destruct Hcs as [(? & ? & [Hb _] & ->)|?]; [left|by right]. done. }
  assert (length (X ++ ys) = length (done ++ cs)) as HlX by (rewrite !length_app, HX; by rewrite (Forall2_length _ _ _ Hal)).
  exists (X ++ ys), Y'. split; rewrite <- ?app_assoc; try done.
  - rewrite HlX, length_app, <- drop_drop, HQ, HQ12. unfold len in HlQ1. apply Nat2Z.inj in HlQ1. rewrite <- HlQ1. by rewrite drop_app_length.
  - rewrite He. by apply Forall2_app.
  - intros Hw. specialize (Hwait Hw). destruct entered; [done|]. destruct Hwait as (_ & -> & Hhead). exfalso.
    assert (done = []) as -> by (by inversion Hd). cbn in HQ. rewrite drop_0 in HQ.
    assert (head T = Some c) as Hc by (rewrite <- Hsplit; destruct Hcs as [(_ & -> & _)|[_ ->]]; done).
    rewrite (Hhead c q Hc) in Heq; [done|by rewrite HQ].
  - intros Hf. split; [done|]. right. destruct Hcs as [(_ & -> & Hb & _)|[Hg Hcs]]; [by apply (blank_end (cell_attrs c) done c)|].
    assert (take (length (done ++ cs)) P = take (length done) P ++ Q1) as ->.
    { rewrite HPs at 1. rewrite HQ12. assert (length (take (length done) P) = length done) as Hlt.
      { rewrite length_take. apply (f_equal (@length Cell)) in HQ. rewrite length_drop in HQ. cbn in HQ. lia. }
      rewrite length_app. unfold len in HlQ1. apply Nat2Z.inj in HlQ1. rewrite <- HlQ1, <- Hlt at 1. rewrite <- length_app, app_assoc. by rewrite take_app_length. }
    destruct Q1 as [|q1 Q1]; [subst cs; rewrite len_cons in HlQ1; pose proof (len_nonneg ds); change (len (@nil Cell)) with 0 in HlQ1; clear -HlQ1 H; lia|].
    injection HQ12 as <- _. by rewrite (same_end_glyph l wide cs c ds).
  - intros -> _ x c' HTc Hblank. rewrite app_nil_r in Hsplit. destruct Hcs as [(_ & Hcs1 & Hb & _)|[Hg Hcs]].
    + pose proof HT as HT'. rewrite <- Hsplit, Hcs1 in HT'. rewrite <- Hsplit, HPs, Hcs1. destruct Hb as [Hb _].
      assert (Q' = []) as ->.
      { apply (f_equal (@length Cell)) in HPs. rewrite length_app, length_take in HPs. apply (f_equal (@length Cell)) in HQ. rewrite length_drop in HQ.
        clear Hrow Habove. unfold len in *. rewrite length_app in HT'. cbn in *. destruct Q'; [done|]. cbn in *. lia. }
      unfold same_end. rewrite !reverse_app. cbn. by rewrite (proj2 (proj2 (cell_is_flags Hb))).
    + exfalso. apply (blank_end (cell_attrs c') x c'); [done|]. rewrite <- HTc, <- Hsplit. apply last_filled_app.
      by destruct (glyph_facts _ _ _ Hg) as (? & ? & ? & ? & ? & ? & ? & ? & ?).
Qed.

(** ** The loop *)
Definition writing (done todo : list Cell) (p : Pen) : Prop :=
  prev_was_wide p = false ∧ ∃ entered w X Y, pen_inv entered w done todo X Y p.

Lemma column_ok entered w done c todo X Y p : pen_inv entered w done (c :: todo) X Y p → try_from U16_MAX (len done) = Some (len done).
Proof using Hsz HT.
  clear Hrow Habove HP. intros Hi. pose proof HT as H. rewrite <- (pi_split _ _ _ _ _ _ _ Hi), len_app, len_cons in H.
  pose proof (len_nonneg done). pose proof (len_nonneg todo). unfold try_from. by replace (_ && _) with true by safe.
Qed.

Lemma step_blank entered w done c todo X Y p q :
  pen_inv entered w done (c :: todo) X Y p → cell_is [] false false c → head (drop (length done) P) = Some q →
  match erase p with None => True | Some (_, a) => has_contents c = false ∧ cell_attrs c = a end →
  ∃ p', (if negb (Cell_eqb c q) then draw_cell (s_cols sz) wrapping (mkPos row (len done)) c p else Some p) = Some p' ∧
    prev_was_wide p' = prev_was_wide p ∧ ∃ X' Y', pen_inv entered w (done ++ [c]) todo X' Y' p'.
Proof using HT HP.
  intros Hi Hc Hq He. pose proof (has_contents_text _ _ _ _ Hc) as Hcon. cbn in Hcon.
  unfold draw_cell. rewrite Hcon. cbn [p_col].
  destruct (erase p) as [[col a]|] eqn:Hep.
  - destruct He as [_ Ha]. exists p. split_and!; [by destruct (negb _)|done|].
    exists X, Y. by apply (extend_erase _ _ _ _ _ _ _ _ col a).
  - destruct (Cell_eqb c q) eqn:Hsame; cbn [negb].
    + exists p. split_and!; [done|done|]. apply (pass_same _ _ _ [] false [c] c [] _ X Y p q); [done|done| |done|done]. by left.
    + eexists. split_and!; [done|done|]. exists X, Y. apply start_erase; [done|done|apply Hc|done].
Qed.

Lemma step_glyph entered w done l wide cs c ds todo X Y p q :
  pen_inv entered w done (cs ++ todo) X Y p → glyph_cells l wide cs → cs = c :: ds → paired todo →
  head (drop (length done) P) = Some q →
  match erase p with None => True | Some (_, a) => has_contents c = false ∧ cell_attrs c = a end →
  ∃ p', (if negb (Cell_eqb c q) then draw_cell (s_cols sz) wrapping (mkPos row (len done)) c p else Some p) = Some p' ∧
    prev_was_wide p' = prev_was_wide p ∧ ∃ entered' w' X' Y', pen_inv entered' w' (done ++ cs) todo X' Y' p'.
Proof using Habove HG Hrow Hsz Hwrap IL UWL HT HP.
  intros Hi Hg Hcs Hpair Hq He.
  assert (erase p = None) as Hn.
  { destruct (glyph_facts _ _ _ Hg) as (c' & ds' & Hcs' & _ & Hcon & _). rewrite Hcs in Hcs'. injection Hcs' as <- <-.
    destruct (erase p) as [[]|]; [destruct He; congruence|done]. }
  destruct (Cell_eqb c q) eqn:Hsame; cbn [negb].
  - exists p. split_and!; [done|done|]. destruct (pass_same entered w done l wide cs c ds todo X Y p q) as (X' & Y' & Hi');
      [done|done|by right|done|done|]. by exists entered, w, X', Y'.
  - destruct (draw_drawn entered w done l wide cs todo X Y p c ds q) as (p' & w' & X' & Y' & Hd & Hi' & Hww); try done.
    exists p'. split_and!; [done|done|]. by exists true, w', X', Y'.
Qed.

Lemma old_cell done c todo : done ++ c :: todo = T → ∃ q, head (drop (length done) P) = Some q ∧ drop (length done) P = q :: drop (length (done ++ [c])) P.
Proof using HT HP.
  clear Hrow Habove. intros Hs. destruct (drop (length done) P) as [|q Q] eqn:HQ.
  - apply (f_equal (@length Cell)) in HQ. rewrite length_drop in HQ. pose proof HT as HT'. rewrite <- Hs in HT'. unfold len in *.
    rewrite length_app in HT'. cbn in *. lia.
  - exists q. split; [done|]. f_equal. apply drop_here in HQ as [_ <-]. rewrite length_app. cbn. by rewrite Nat.add_1_r.
Qed.

Lemma step_narrow done c todo p q :
  paired (c :: todo) → narrow c → paired todo → writing done (c :: todo) p → head (drop (length done) P) = Some q →
  ∃ p', diff_step (s_cols sz) row wrapping (len done, (c, q)) p = Some p' ∧ writing (done ++ [c]) todo p'.
Proof using Habove HG Hrow Hsz Hwrap IL UWL HT HP.
  intros Hp Hn Ht [Hww (entered & w & X & Y & Hi)] Hq. unfold diff_step, write_step. rewrite Hww.
  rewrite (proj1 (narrow_flags _ Hn)), (column_ok _ _ _ _ _ _ _ _ Hi). cbn [mbind option_bind].
  destruct (flush_drawn _ _ _ _ _ _ _ _ (pen_inv_wide _ _ _ _ _ _ _ false Hi) Hp) as (p1 & en1 & w1 & X1 & Y1 & -> & Hi1 & Hw1 & He1).
  cbn [mbind option_bind]. destruct Hn as (l & Hc & [-> | Htx]).
  - destruct (step_blank _ _ _ _ _ _ _ _ q Hi1 Hc Hq He1) as (p2 & -> & Hw2 & X2 & Y2 & Hi2).
    exists p2. split; [done|]. split; [by rewrite Hw2, Hw1|]. by exists en1, w1, X2, Y2.
  - destruct (step_glyph en1 w1 done l false [c] c [] todo X1 Y1 p1 q) as (p2 & -> & Hw2 & Hi2); try done; [by exists c, []|].
    exists p2. split; [done|]. split; [by rewrite Hw2, Hw1|done].
Qed.

Lemma step_wide done c d todo p q q2 :
  wide_half c → second_half d → paired todo → writing done (c :: d :: todo) p → head (drop (length done) P) = Some q →
  ∃ p' p'', diff_step (s_cols sz) row wrapping (len done, (c, q)) p = Some p' ∧
    diff_step (s_cols sz) row wrapping (len done + 1, (d, q2)) p' = Some p'' ∧ writing (done ++ [c; d]) todo p''.
Proof using Habove HG Hrow Hsz Hwrap IL UWL HT HP.
  intros Hc Hd Ht [Hww (entered & w & X & Y & Hi)] Hq. unfold diff_step, write_step. rewrite Hww.
  rewrite (proj1 (wide_flags _ Hc)), (column_ok _ _ _ _ _ _ _ _ Hi). cbn [mbind option_bind].
  destruct (flush_drawn _ _ _ _ _ _ _ _ (pen_inv_wide _ _ _ _ _ _ _ true Hi)) as (p1 & en1 & w1 & X1 & Y1 & -> & Hi1 & Hw1 & He1);
    [by constructor|].
  cbn [mbind option_bind]. destruct Hc as (l & Hc & Htx).
  destruct (step_glyph en1 w1 done l true [c; d] c [d] todo X1 Y1 p1 q) as (p2 & -> & Hw2 & en2 & w2 & X2 & Y2 & Hi2); try done.
  { exists c, [d]. split_and!; [done|done|done|by exists d]. }
  eexists p2, _. split; [done|]. rewrite Hw2, Hw1. cbn [prev_was_wide set_prev_was_wide].
  split; [done|]. split; [done|]. exists en2, w2, X2, Y2. by apply pen_inv_wide.
Qed.

Lemma seqZ_next {A} i l (x : A) : seqZ i (len (x :: l)) = i :: seqZ (i + 1) (len l).
Proof using.
  clear Hrow Habove HT HP. rewrite len_cons. pose proof (len_nonneg l). rewrite seqZ_cons by lia.
  replace (Z.succ i) with (i + 1) by lia. by replace (Z.pred (len l + 1)) with (len l) by lia.
Qed.

Lemma loop_drawn todo done p :
  paired todo → done ++ todo = T → writing done todo p →
  ∃ p', for_each (zip (seqZ (len done) (len todo)) (zip todo (drop (length done) P))) (diff_step (s_cols sz) row wrapping) p = Some p' ∧
    writing T [] p'.
Proof using Habove HG Hrow Hsz Hwrap IL UWL HT HP.
  intros Ht. revert done p. induction Ht as [|c todo Hc Ht IH|c d todo Hc Hd Ht IH]; intros done p Hs Hw.
  - exists p. rewrite app_nil_r in Hs. by subst.
  - destruct (old_cell done c todo Hs) as (q & Hq & HQ).
    destruct (step_narrow done c todo p q) as (p1 & H1 & Hw1); [by constructor|done|done|done|done|].
    rewrite HQ, seqZ_next. cbn [zip zip_with for_each]. rewrite H1. cbn [mbind option_bind].
    destruct (IH (done ++ [c]) p1) as (p2 & H2 & Hw2); [by rewrite <- app_assoc|done|]. rewrite len_app in H2. change (len [c]) with 1 in H2.
    by exists p2.
  - destruct (old_cell done c (d :: todo) Hs) as (q & Hq & HQ).
    destruct (old_cell (done ++ [c]) d todo) as (q2 & Hq2 & HQ2); [by rewrite <- app_assoc|].
    destruct (step_wide done c d todo p q q2 Hc Hd Ht Hw Hq) as (p1 & p2 & H1 & H2 & Hw2). rewrite HQ, HQ2, !seqZ_next. cbn [zip zip_with for_each].
    rewrite H1. cbn [mbind option_bind]. rewrite H2. cbn [mbind option_bind].
    destruct (IH (done ++ [c; d]) p2) as (p3 & H3 & Hw3); [by rewrite <- app_assoc|done|]. rewrite len_app in H3. change (len [c; d]) with 2 in H3.
    replace (len done + 1 + 1) with (len done + 2) by lia. rewrite <- app_assoc in *. cbn [app] in *. by exists p3.
Qed.

(** ** After the loop *)
Record row_looped (b : bytes) (p : Pos) (a : Attrs) (w : bool) (X : list Cell) : Prop := {
  rl_drawn : drawn b start (paper true w X p, a);
  rl_attrs : attrs_ok a;
  rl_pos : pos_ok sz p;
  rl_alike : Forall2 alike T X;
  rl_flag : w = true → w0 = true ∧ last_filled X;
  rl_kept : last_filled T → same_end T P = true → w = w0;
  rl_from : p = p0 ∨ (p_row p = row ∧ (same_end T P = true → p_col p < s_cols sz));
  rl_end : last_filled T → p = mkPos row (s_cols sz) ∨ same_end T P = true;
  rl_last : ∀ x c, T = x ++ [c] → cell_is [] false false c → same_end T P = true ∨ a = cell_attrs c;
}.

Lemma finish_drawn p :
  writing T [] p →
  ∃ p' w X, finish_erase (s_cols sz) row wrapping p = Some p' ∧ row_looped (out p') (prev_pos p') (prev_attrs p') w X.
Proof using Habove HG Hrow Hsz Hwrap IL UWL HT HP.
  intros [_ (entered & w & X & Y & Hi)]. unfold finish_erase. destruct (erase p) as [[col a]|] eqn:He.
  - destruct (prepare_erase entered w T [] X Y p col a Hi He)
      as (p1 & p2 & Y' & -> & Hs & Hpos & Hat & Hww & Ho & Hlen & Hfl & Hd).
    cbn [mbind option_bind]. rewrite Hs. cbn [mbind option_bind].
    destruct Hi as [_ _ _ _ _ _ Hink _ _ _ _ Hend _]. rewrite He in Hink. pose proof (inked_length _ _ _ _ Hink) as [Hcol Hlt].
    destruct Hink as (Ha & D1 & D2 & HTs & Hc1 & Hne & HD2 & HD1). pose proof (len_nonneg X).
    assert (¬ last_filled T) as Hnf by (intros Hl; destruct (Hend Hl); congruence).
    destruct (drawn_erase_end sz Hsz G HG (mark (wrapping && true) above) below X (drop (length X) P) Y' w a Ho)
      as (Z & HbZ & HlZ & Hdr); [|done|done|].
    { intros Hn%(f_equal (@length Cell)). rewrite length_drop in Hn. unfold len in *. cbn in Hn. lia. }
    exists (write ClearRowForward_write_buf p2), false, (X ++ Z). split; [done|]. cbn [out prev_pos prev_attrs write]. rewrite Hpos, Hat. split; try done.
    + eapply drawn_app; [exact Hd|]. rewrite len_mark, Habove, Hcol in Hdr. exact Hdr.
    + split; cbn; [done|]. lia.
    + rewrite HTs. apply Forall2_app; [done|]. apply (alike_blanks a); [done|done|]. apply Forall2_length in HD1.
      pose proof HT as HT'. rewrite HTs in HT'. unfold len in *. rewrite length_app in HT'. rewrite length_drop in HlZ. lia.
    + right. cbn. split; [done|]. intros _. lia.
    + intros x c HTc _. right. destruct D2 as [|c' D2 _] using rev_ind; [done|]. rewrite HTs, app_assoc in HTc. apply app_inj_tail in HTc as [_ ->].
      apply Forall_app in HD2 as [_ HD2]. apply Forall_cons in HD2 as [[_ HD2] _]. done.
  - exists p, w, X. split; [done|]. destruct Hi as [Hdr Hat Hpos _ Hrest Hlen Hd Hflag Hkept Hwait Hfrom Hend Hlast]. rewrite He in Hd. cbn in Hd.
    assert (len X = len T) as HX by (unfold len; by rewrite (Forall2_length _ _ _ Hd)).
    assert (Y = []) as ->.
    { rewrite len_app in Hlen. destruct Y as [|y Y]; [done|]. rewrite len_cons in Hlen. pose proof (len_nonneg Y). lia. }
    rewrite app_nil_r in *. split; try done.
    + unfold paper in Hdr |- *. replace (wrapping && true) with (wrapping && entered); [done|]. clear Hwrap Hfrom. destruct wrapping, entered; try done.
      destruct (Hwait eq_refl) as (_ & -> & _). change (len (@nil Cell)) with 0 in HX. safe.
    + intros Hl. destruct (Hend Hl) as [_ [Hpp|Hsame]]; [left; by rewrite Hpp, HT|right].
      rewrite take_ge in Hsame; [done|]. unfold len in *. lia.
    + intros x c HTc Hc. left. by apply (Hlast eq_refl He x c).
Qed.

(** ** Before the loop *)
Lemma begun entered w Y p :
  drawn (out p) start (paper entered w Y (prev_pos p), prev_attrs p) → attrs_ok (prev_attrs p) → pos_ok sz (prev_pos p) →
  paired P → Forall2 alike P Y → erase p = None → prev_was_wide p = false →
  (w = true → w0 = true ∧ last_filled Y) → (last_filled T → same_end T P = true → w = w0) →
  (wrapping = true →
    if entered then p_row (prev_pos p) + 1 = row → p_col (prev_pos p) < s_cols sz
    else prev_pos p = mkPos (row - 1) (s_cols sz) ∧ ∀ c q, head T = Some c → head P = Some q → Cell_eqb c q = false) →
  (prev_pos p = p0 ∨ prev_pos p = mkPos row 0) → writing [] T p.
Proof using Hsz HP.
  clear Hrow Habove. intros Hd Ha Hpos Hp HY He Hww Hflag Hkept Hwait Hfrom. split; [done|]. exists entered, w, [], Y. split; try done.
  - by constructor.
  - cbn. rewrite <- HP. unfold len. by rewrite (Forall2_length _ _ _ HY).
  - rewrite He. constructor.
  - intros Hw. specialize (Hwait Hw). destruct entered; [done|]. by destruct Hwait.
  - destruct Hfrom as [|Hpp]; [by left|right]. rewrite Hpp. cbn. split; [done|]. intros _. safe.
  - intros (x & c & Hx & _). by destruct x.
  - intros Hn _ x c Hx. rewrite Hn in Hx. by destruct x.
Qed.

Lemma rest_alike Q Y : rest Q Y → paired Q → Forall2 alike Q Y.
Proof using.
  intros [|k ? ? ? Hk]; [done|]. intros Hp%paired_head. rewrite (proj2 (second_flags _ Hk)) in Hp. congruence.
Qed.

(** A blank cell entered from the wrapped row, and back. *)
Lemma enter_blank a c q Q Y p :
  wrapping = true → p0 = mkPos (row - 1) (s_cols sz) → P = q :: Q → paired P → paired T → head T = Some c → blank a c → blank a q →
  Forall2 alike P Y → (w0 = true → last_filled Y) → attrs_ok a → prev_attrs p = a → erase p = None → prev_was_wide p = false →
  drawn (out p) start (paper false w0 Y p0, a) →
  writing [] T (set_prev_pos (mkPos row 0) (write ([32] ++ Backspace_write_buf ++ EraseChar_write_buf 1) p)).
Proof using Habove HG Hrow Hsz Hwrap IL UWL HT HP.
  intros Hw Hp0 HPq HpP HpT HcT Hc Hq HY Hfl Ha Hat He Hww Hd.
  assert (rest P Y) as Hr by (by constructor). assert (len Y = s_cols sz) as HlY by (by rewrite (rest_len _ _ Hr)).
  destruct (drawn_entry w0 P Y a Hw (rest_over _ _ Hr)) as (z & Y' & Hz & HY' & Hf1 & Hd1); [by subst P|done|done|].
  rewrite HPq in HY'. cbn in HY'. rewrite drop_0 in HY'.
  assert (len (z :: Y') = s_cols sz) as HlzY by (rewrite len_cons, (rest_len _ _ HY'); rewrite HPq, len_cons in HP; done).
  destruct (drawn_erase sz Hsz G HG (mark (wrapping && true) above) below [] [q] Q (z :: Y') w0 a) as (Z & Y2 & w' & HZ & HlZ & HY2 & Hnil & Hm & Hd2);
    [by constructor|done|done|done|].
  destruct Z as [|z' [|? Z]]; [by vm_compute in HlZ| |rewrite !len_cons in HlZ; pose proof (len_nonneg Z); change (len (@nil Cell)) with 0 in HlZ; lia].
  apply Forall_cons in HZ as [HZ _]. rewrite len_mark, Habove in Hd2.
  assert (paired Q) as HpQ.
  { rewrite HPq in HpP. inversion HpP as [|? ? _ ?|? ? ? (t & Ht & _)]; [done|]. destruct Hq as [Hq _].
    destruct (cell_is_flags Hq) as (_ & Hn1 & _), (cell_is_flags Ht) as (_ & Hn2 & _). congruence. }
  apply (begun true w' (z' :: Y2)); cbn [out prev_pos prev_attrs erase prev_was_wide write set_prev_pos]; try done.
  - rewrite Hat. eapply drawn_app; [exact Hd|]. rewrite Hp0.
    change ([32] ++ Backspace_write_buf ++ ?e) with (([32] ++ Backspace_write_buf) ++ e). eapply drawn_app; [exact Hd1|exact Hd2].
  - by rewrite Hat.
  - split; cbn; safe.
  - rewrite HPq. constructor; [by eapply alike_blank|by apply rest_alike].
  - destruct Q as [|q2 Q]; [by rewrite Hnil|]. specialize (Hm ltac:(done)).
    apply (flag_after w0 w' [] [] (z :: Y') ([z'] ++ Y2) _ (q2 :: Q)); [|done|done|done]. intros Hw0. split; [done|]. by apply Hf1; [|apply Hfl].
  - intros HfT HeT. assert (∃ T', T = c :: T') as (T' & HTc) by (clear -HcT; destruct T; [done|]; injection HcT as ->; by eexists).
    assert (paired T') as HpT'.
    { rewrite HTc in HpT. inversion HpT as [|? ? _ ?|? ? ? (t & Ht & _)]; [done|]. destruct Hc as [Hc _].
      destruct (cell_is_flags Hc) as (_ & Hn1 & _), (cell_is_flags Ht) as (_ & Hn2 & _). congruence. }
    destruct Q as [|q2 Q].
    + destruct T' as [|? T']; [rewrite HTc in HfT; by apply (blank_end a [] c)|]. exfalso. rewrite HPq, len_cons in HP. rewrite HTc, len_cons, len_cons in HT. pose proof (len_nonneg T').
      change (len (@nil Cell)) with 0 in HP. lia.
    + apply (kept_after w0 w' [c] T' (z :: Y') ([z'] ++ Y2)); [done|done| |done]. rewrite HPq. by apply Hm.
  - intros _. cbn. lia.
  - by right.
Qed.

(** A character entered from the wrapped row, and back. *)
Lemma backspaces A w cs B (wide : bool) a :
  len A = row →
  drawn (Backspace_write_buf ++ (if wide then Backspace_write_buf else []))
    (canvas G (A ++ mkRow cs w :: B) (mkPos row (if wide then 2 else 1)), a) (canvas G (A ++ mkRow cs w :: B) (mkPos row 0), a).
Proof using.
  intros HA. set (rs := A ++ mkRow cs w :: B). destruct wide.
  - eapply drawn_app; [apply (drawn_backspace (canvas G rs (mkPos row 2)))|exact (drawn_backspace (canvas G rs (mkPos row 1)) a)].
  - rewrite app_nil_r. exact (drawn_backspace (canvas G rs (mkPos row 1)) a).
Qed.

Lemma enter_glyph l wide cs q ds Q Y p :
  wrapping = true → p0 = mkPos (row - 1) (s_cols sz) → glyph_cells l wide cs → cs = q :: ds → P = cs ++ Q → paired P →
  Forall2 alike P Y → (w0 = true → last_filled Y) → prev_attrs p = cell_attrs q → erase p = None → prev_was_wide p = false →
  drawn (out p) start (paper false w0 Y p0, cell_attrs q) →
  writing [] T (set_prev_pos (mkPos row 0) (write ((l ≫= encode_utf8) ++ Backspace_write_buf ++ (if wide then Backspace_write_buf else [])) p)).
Proof using Habove HG Hrow Hsz Hwrap UWL HP.
  intros Hw Hp0 Hg Hcs HPq HpP HY Hfl Hat He Hww Hd. destruct (glyph_facts _ _ _ Hg) as (q' & ds' & Hcs' & _ & _ & Hlcs & _ & Ha & _).
  rewrite Hcs in Hcs'. injection Hcs' as <- <-. pose proof HY as HY2. rewrite HPq in HY2. apply Forall2_app_inv_l in HY2 as (ys & Y' & Hys & HY' & ->).
  assert (len ys = len cs) as Hlys by (unfold len; by rewrite (Forall2_length _ _ _ Hys)).
  destruct (drawn_text sz Hsz G HG wide l (cell_attrs q) (paper false w0 (ys ++ Y') p0) (mark true above) below w0 [] Y' ys)
    as (zs & Hzs & Hlzs & Hd1); [by destruct Hg as (? & ? & ? & ? & ? & ?)|by eapply glyph_again|done|..].
  { change (len (@nil Cell)) with 0. rewrite HPq, len_app in HP. pose proof (len_nonneg Q). lia. }
  { rewrite len_mark, Habove, Hp0. pose proof (enters_row wide w0 (ys ++ Y') (s_cols sz) Hw ltac:(destruct wide; lia) false) as Hen.
    unfold paper in Hen |- *. rewrite Hw in Hen |- *. exact Hen. }
  assert (Forall2 alike P (zs ++ Y')) as Hal by (rewrite HPq; apply Forall2_app; [by apply (glyph_alike (cell_attrs q) l wide cs zs q ds)|done]).
  apply (begun true w0 (zs ++ Y')); cbn [out prev_pos prev_attrs erase prev_was_wide write set_prev_pos]; try done.
  - rewrite app_assoc, Hat. eapply drawn_app; [eapply drawn_app; [exact Hd|exact Hd1]|].
    rewrite len_mark, Habove, Hlys, Hlcs. change (len (@nil Cell)) with 0. rewrite Z.add_0_l.
    unfold paper. rewrite Hw. unfold row_of. cbn [app andb]. apply backspaces. by rewrite len_mark.
  - by rewrite Hat.
  - split; cbn; safe.
  - intros Hw0. split; [done|]. by apply (alike_last P), (last_alike P (ys ++ Y')); [..|apply Hfl].
  - intros _. cbn. lia.
  - by right.
Qed.

(** The prologue of [write_contents_diff]. *)
Lemma diff_start_drawn entered prev_wrapping wt wp Y a :
  start = (paper entered w0 Y p0, a) → paired P → paired T → Forall2 alike P Y → (w0 = true → last_filled Y) → attrs_ok a → pos_ok sz p0 →
  (wrapping = true →
    if entered then prev_wrapping = true ∧ (p_row p0 + 1 = row → p_col p0 < s_cols sz)
    else p0 = mkPos (row - 1) (s_cols sz) ∧
      (prev_wrapping = true → ∀ c q, head T = Some c → head P = Some q → Cell_eqb c q = false)) →
  ∃ q, diff_start (s_cols sz) 0 row wrapping prev_wrapping (mkRow T wt) (mkRow P wp) (mkPen [] false p0 a None) = Some q ∧ writing [] T q.
Proof using Habove HG Hrow Hsz Hwrap IL UWL HT HP.
  intros Hst HpP HpT HY Hfl Ha Hpos Hcond. unfold diff_start. cbn [cells].
  assert (drawn [] start (paper entered w0 Y p0, a)) as Hd by (rewrite Hst; apply drawn_nil).
  assert (∀ l : list Cell, len l = s_cols sz → ∃ c l', l = c :: l') as Hcons.
  { intros [|c l] Hl; [change (len (@nil Cell)) with 0 in Hl; safe|by eexists _, _]. }
  destruct (Hcons T HT) as (c & T' & HTc), (Hcons P HP) as (q & Q & HPq). clear Hcons.
  replace (index 0 T) with (Some c) by (by rewrite HTc). replace (index 0 P) with (Some q) by (by rewrite HPq). cbn [mbind option_bind].
  destruct (wrapping && negb prev_wrapping && Cell_eqb c q) eqn:Hpro.
  - rewrite !andb_true_iff in Hpro. destruct Hpro as ((Hw & Hnw) & Heq). specialize (Hcond Hw).
    destruct entered; [destruct Hcond as [-> _]; done|]. destruct Hcond as [Hp0 _]. cbn [prev_pos]. rewrite Hp0. cbn [p_row p_col].
    rewrite add16_Some by safe. cbn [mbind option_bind]. replace (row - 1 + 1 =? row) with true by lia. cbn [negb].
    rewrite sub16_Some by (destruct (is_wide q); safe). cbn [mbind option_bind]. replace (s_cols sz <? _) with false by (destruct (is_wide q); lia).
    assert (alike c q) as Hcq.
    { pose proof HpT as HpT'. pose proof HpP as HpP'. rewrite HTc in HpT'. rewrite HPq in HpP'.
      inversion HpT' as [|? ? (? & ? & _)|? ? ? (? & ? & _)]; inversion HpP' as [|? ? (? & ? & _)|? ? ? (? & ? & _)]; subst; by eapply eqb_alike. }
    assert (cell_attrs c = cell_attrs q) as Hattrs by (by destruct Hcq as (? & ? & ? & _ & _ & ?)). rewrite Hattrs.
    assert (attrs_ok (cell_attrs q)) as Haq by (destruct Hcq as (? & ? & ? & _ & Hq & _); apply Hq).
    rewrite <- Hp0. destruct (switch_drawn (cell_attrs q) _ (mkPen [] false p0 a None) Hd Ha Haq) as (b & -> & Hd1). cbn [mbind option_bind].
    assert ((∃ t, cell_is [] t false q ∧ t = false) ∨ ∃ l wide cs ds Q', glyph_cells l wide cs ∧ cs = q :: ds ∧ P = cs ++ Q') as [(? & Hq & ->)|Hglyph].
    { pose proof HpP as HpP'. rewrite HPq in HpP'. inversion HpP' as [|? ? (l & Hq & [-> | Ht])|? d ? (l & Hq & Ht) Hd']; subst; [left; by exists false|right..].
      - exists l, false, [q], [], Q. by split_and!; [exists q, []|..].
      - eexists l, true, [q; d], [d], _. split_and!; [exists q, [d]; split_and!; [done|done|done|by exists d]|done|done]. }
    + rewrite (contents_of_Some Hq). cbn [mbind option_bind list_bind]. rewrite bool_decide_eq_true_2 by done.
      rewrite (proj1 (proj2 (cell_is_flags Hq))). cbn [app]. eexists. split; [done|].
      apply (enter_blank (cell_attrs q) c q Q Y); try done; [by rewrite HTc|]. split; [|done]. by apply (alike_is _ _ _ q c), Hq; symmetry.
    + destruct Hglyph as (l & wide & cs & ds & Q' & Hg & Hcs & HPs). pose proof Hg as (q' & ds' & Hcs' & Hq & Ht & _). rewrite Hcs in Hcs'. injection Hcs' as <- <-.
      rewrite (contents_of_Some Hq). cbn [mbind option_bind]. rewrite bool_decide_eq_false_2.
      2: { intros Hn. pose proof (has_contents_text _ _ _ _ Hq) as Hcon. rewrite bool_decide_eq_false_2 in Hcon by (by eapply text_of_nonempty).
           unfold has_contents in Hcon. destruct (cell_is_flags Hq) as (Hl & _). rewrite Hl, Hn in Hcon. done. }
      rewrite (proj1 (proj2 (cell_is_flags Hq))), app_nil_r. eexists. split; [done|]. by apply (enter_glyph l wide cs q ds Q' Y).
  - eexists. split; [done|]. apply (begun entered w0 Y); try done; [by auto| |by left].
    intros Hw. specialize (Hcond Hw). destruct entered; [by destruct Hcond|]. destruct Hcond as [Hp0 Hne]. split; [done|].
    destruct prev_wrapping; [by apply Hne|]. intros c' q' Hc' Hq'. rewrite HTc in Hc'. rewrite HPq in Hq'. injection Hc' as <-. injection Hq' as <-.
    rewrite Hw in Hpro. exact Hpro.
Qed.

(** ** The end of the row *)

(** What the next row needs to know: where the terminal waits, and the marks. *)
Record row_done (wt wp : bool) (b : bytes) (p : Pos) (a : Attrs) (w : bool) (X : list Cell) : Prop := {
  rd_drawn : drawn b start (paper true w X p, a);
  rd_attrs : attrs_ok a;
  rd_pos : pos_ok sz p;
  rd_alike : Forall2 alike T X;
  rd_flag : w = true → last_filled X;
  rd_marked : wt = true → p = mkPos row (s_cols sz) ∨
    (wp = true ∧ w = w0 ∧ same_end T P = true ∧ (p = p0 ∨ (p_row p = row ∧ p_col p < s_cols sz)));
  rd_unmarked : wt = false → wp = true ∨ w0 = false → w = false;
  rd_from : p = p0 ∨ (p_row p = row ∧ (wt = wp → same_end T P = true → p_col p < s_cols sz));
}.

(** The last character, or blank, of the row and of the terminal's, where a move leads. *)
Record at_end (w : bool) (X : list Cell) (q : Pen) (x : list Cell) (c : Cell) (cs X1 : list Cell) (y : Cell) (ys : list Cell) (m : bytes) : Prop := {
  ae_row : T = x ++ c :: cs;
  ae_terminal : X = X1 ++ y :: ys;
  ae_alike : Forall2 alike x X1 ∧ Forall2 alike (c :: cs) (y :: ys);
  ae_column : index (len x) T = Some c ∧ len x < s_cols sz;
  ae_move : MoveFromTo_write_buf (prev_pos q) (mkPos row (len x)) = Some m;
  ae_drawn : drawn (out q ++ m) start (paper true w X (mkPos row (len x)), prev_attrs q);
  ae_cell : (has_contents c = true ∧ ∃ l, glyph_cells l (is_wide c) (c :: cs)) ∨
            (has_contents c = false ∧ cs = [] ∧ cell_is [] false false c);
}.

Lemma reach_end w X q :
  row_looped (out q) (prev_pos q) (prev_attrs q) w X → paired T →
  ∃ x c cs d X1 y ys m, at_end w X q x c cs X1 y ys m ∧ index (s_cols sz - 1) T = Some d ∧
    (if is_wide_continuation d then sub16 (s_cols sz) 2 else Some (s_cols sz - 1)) = Some (len x).
Proof using HG Hrow Hsz IL HT.
  intros [Hdr _ Hpos Hal _ _ _ _ _] HpT.
  destruct (row_end T (s_cols sz) HpT HT) as (x & c & cs & d & HTs & Hi1 & Hcol & Hi2 & Hcase); [safe|].
  pose proof HT as HT'. rewrite HTs, len_app, len_cons in HT'. pose proof (len_nonneg x). pose proof (len_nonneg cs).
  destruct (drawn_move true w X (prev_pos q) (len x) (prev_attrs q)) as (m & Hm & Hdm); [lia|done|done|].
  pose proof Hal as Hal'. rewrite HTs in Hal'. apply Forall2_app_inv_l in Hal' as (X1 & ys & HX1 & Hys & HX).
  destruct ys as [|y ys]; [inversion Hys|]. exists x, c, cs, d, X1, y, ys, m. split_and!; [|done|done]. split; try done; [split; [done|lia]|by eapply drawn_app|].
  destruct Hcase as [(Hcon & l & wide & Hg)|]; [left|by right]. split; [done|].
  destruct (glyph_facts l wide (c :: cs) Hg) as (? & ? & [= <- <-] & -> & _). by exists l.
Qed.

Lemma slot_end w X q x c cs X1 y ys m :
  at_end w X q x c cs X1 y ys m → slot (is_wide c) (y :: ys) ∧ is_wide y = is_wide c ∧ len X1 = len x ∧ len (X1 ++ y :: ys) = s_cols sz.
Proof using HT.
  clear Hrow Habove. intros [HTs HX [Hx Hy] _ _ _ Hcase]. split_and!.
  - destruct Hcase as [(_ & l & Hg)|(_ & -> & Hc)]; [by eapply glyph_again|]. rewrite (proj1 (proj2 (cell_is_flags Hc))).
    inversion Hy as [|? ? ? ? Hcy Hn]; subst. inversion Hn; subst. apply slot_narrow. exists []. by eapply alike_is.
  - inversion Hy as [|? ? ? ? Hcy _]. by destruct (alike_flags _ _ Hcy).
  - unfold len. by rewrite (Forall2_length _ _ _ Hx).
  - rewrite <- HT, HTs. unfold len. rewrite !length_app. by rewrite (Forall2_length _ _ _ Hx), (Forall2_length _ _ _ Hy).
Qed.

(** The last character drawn once more. *)
Lemma redraw_end l x c cs X1 ys w wt wp q :
  glyph_cells l (is_wide c) (c :: cs) → T = x ++ c :: cs → Forall2 alike x X1 → slot (is_wide c) ys → len ys = len (c :: cs) →
  attrs_ok (prev_attrs q) → prev_pos q = mkPos row (len x) → wt ≠ wp → (wt = false → w = false) →
  drawn (out q) start (paper true w (X1 ++ ys) (mkPos row (len x)), prev_attrs q) →
  ∃ q' X', (p ← switch_attrs (cell_attrs c) q;
            text ← contents_of c;
            e ← add16 (p_col (prev_pos p)) (if is_wide c then 2 else 1);
            Some (set_prev_pos (set_col e (prev_pos p)) (write text p))) = Some q' ∧
    row_done wt wp (out q') (prev_pos q') (prev_attrs q') w X'.
Proof using Habove HG Hrow Hsz IL UWL HT.
  intros Hg HTs Hx Hslot Hlys Ha Hpq Hne Hw Hd.
  destruct (glyph_facts l (is_wide c) (c :: cs) Hg) as (? & ? & [= <- <-] & _ & _ & Hlc & Htext & Hat & Hfill).
  pose proof HT as HT'. rewrite HTs, len_app in HT'. pose proof (len_nonneg x).
  assert (len X1 = len x) as HlX by (unfold len; by rewrite (Forall2_length _ _ _ Hx)).
  destruct (switch_drawn (cell_attrs c) _ q Hd Ha Hat) as (b & -> & Hd2). cbn [mbind option_bind]. rewrite Htext.
  cbn [mbind option_bind prev_pos set_prev_attrs write]. rewrite Hpq. cbn [p_col]. rewrite add16_Some by (destruct (is_wide c); safe). cbn [mbind option_bind].
  destruct (drawn_text sz Hsz G HG (is_wide c) l (cell_attrs c) (paper true w (X1 ++ ys) (mkPos row (len x))) (mark (wrapping && true) above) below w X1 [] ys)
    as (zs & Hzs & Hlz & Hdt); [by destruct Hg as (? & ? & ? & ? & ? & ?)|done|done|lia|..].
  { rewrite len_mark, Habove. unfold row_of, paper. rewrite app_nil_r, HlX. apply (enters_here sz Hsz G HG). cbn. destruct (is_wide c); lia. }
  assert (Forall2 alike T (X1 ++ zs)) as Hal by (rewrite HTs; apply Forall2_app; [done|by eapply glyph_alike]).
  assert (set_col (len x + (if is_wide c then 2 else 1)) (mkPos row (len x)) = mkPos row (s_cols sz)) as Hsc by (unfold set_col; cbn; f_equal; lia).
  eexists _, (X1 ++ zs). split; [done|]. cbn [out prev_pos prev_attrs write set_prev_pos set_prev_attrs]. rewrite Hsc. split; try done.
  - eapply drawn_app; [exact Hd2|]. rewrite len_mark, Habove in Hdt. unfold row_of in Hdt. rewrite app_nil_r in Hdt.
    replace (len X1 + len ys) with (s_cols sz) in Hdt by lia. exact Hdt.
  - split; cbn; safe.
  - intros _. apply (alike_last T); [done|]. rewrite HTs. by apply last_filled_app.
  - by left.
  - intros Hn _. by apply Hw.
  - right. split; [done|]. intros Hwt. congruence.
Qed.

(** The last character erased and drawn once more: the mark goes. *)
Lemma unmark_end w X q x c cs X1 y ys m :
  row_looped (out q) (prev_pos q) (prev_attrs q) w X → last_filled P → at_end w X q x c cs X1 y ys m →
  let q1 := write (EraseChar_write_buf 1) (set_prev_pos (mkPos row (len x)) (write m q)) in
  ∃ q' X', (if has_contents c then
              p ← switch_attrs (cell_attrs c) q1;
              text ← contents_of c;
              e ← add16 (p_col (prev_pos p)) (if is_wide c then 2 else 1);
              Some (set_prev_pos (set_col e (prev_pos p)) (write text p))
            else Some q1) = Some q' ∧
    row_done false true (out q') (prev_pos q') (prev_attrs q') false X'.
Proof using Habove HG Hrow Hsz IL UWL HT.
  intros [_ Hat _ _ _ _ _ _ Hlast] HfP Hend. cbn zeta. destruct (slot_end _ _ _ _ _ _ _ _ _ _ Hend) as (Hslot & Hwy & HlX & Hl).
  destruct Hend as [HTs HX [Hx Hy] [_ Hcol] Hm Hd Hcase]. rewrite HX in Hd.
  assert (len (y :: ys) = len (c :: cs)) as Hly by (unfold len; by rewrite (Forall2_length _ _ _ Hy)).
  destruct (drawn_erase_last sz Hsz G HG (mark (wrapping && true) above) below X1 y ys w (prev_attrs q) (is_wide c))
    as (z & zs & Hslotz & Hlz & Hz & Hde); [done..|]. rewrite len_mark, Habove, HlX in Hde.
  pose proof (drawn_app _ _ _ _ _ Hd Hde) as Hd2. destruct Hcase as [(Hcon & l & Hg)|(Hcon & -> & Hc)]; rewrite Hcon.
  - apply (redraw_end l x c cs X1 (z :: zs) false false true (write (EraseChar_write_buf 1) (set_prev_pos (mkPos row (len x)) (write m q)))); try done.
    by rewrite Hlz.
  - eexists _, (X1 ++ z :: zs). split; [done|]. cbn [out prev_pos prev_attrs write set_prev_pos]. pose proof (len_nonneg x).
    split; try done; [split; cbn; safe| |right; split; [done|congruence]].
    rewrite HTs. apply Forall2_app; [done|]. rewrite Hly in Hlz.
    destruct zs as [|? zs]; [|rewrite !len_cons in Hlz; pose proof (len_nonneg zs); change (len (@nil Cell)) with 0 in Hlz; lia].
    constructor; [|done]. apply (alike_blank (cell_attrs c)); [done|]. destruct (Hlast x c HTs Hc) as [Hs|<-]; [|done].
    destruct (same_end_blank x c P); [done|by rewrite <- HTs|done].
Qed.

Lemma diff_wrap_drawn wt wp w X q :
  row_looped (out q) (prev_pos q) (prev_attrs q) w X → paired T → (wt = true → last_filled T) → (wp = true → last_filled P) →
  ∃ q' w' X', diff_wrap (s_cols sz) row (mkRow T wt) (mkRow P wp) q = Some q' ∧ row_done wt wp (out q') (prev_pos q') (prev_attrs q') w' X'.
Proof using Habove HG Hrow Hsz IL UWL HT.
  intros Hl HpT HwT HwP. pose proof Hl as [Hdr Hat Hpos Hal Hflag Hkept Hfrom Hend _]. unfold diff_wrap. cbn [wrapped cells].
  destruct (decide (wt = wp)) as [<-|Hne].
  { replace (_ || _) with false by (by destruct wt). exists q, w, X. split; [done|]. split; try done.
    - intros Hw. by destruct (Hflag Hw).
    - intros Hw. destruct (Hend (HwT Hw)) as [|Hs]; [by left|right]. split_and!; [done|by apply Hkept; [apply HwT|]|done|].
      destruct Hfrom as [|[Hr Hc]]; [by left|right]. split; [done|by apply Hc].
    - intros Hw [Hw'|Hw0]; [congruence|]. destruct w; [|done]. destruct (Hflag eq_refl). congruence.
    - destruct Hfrom as [|[]]; [by left|by right]. }
  replace (_ || _) with true by (by destruct wt, wp).
  destruct (reach_end w X q Hl HpT) as (x & c & cs & d & X1 & y & ys & m & Hae & Hi & Hcol).
  rewrite (sub16_Some (s_cols sz) 1) by safe. cbn [mbind option_bind]. rewrite Hi. cbn [mbind option_bind]. rewrite Hcol. cbn [mbind option_bind].
  rewrite (ae_move _ _ _ _ _ _ _ _ _ _ Hae). cbn [mbind option_bind]. rewrite (proj1 (ae_column _ _ _ _ _ _ _ _ _ _ Hae)). cbn [mbind option_bind].
  destruct wt; cbn [negb].
  - destruct (slot_end _ _ _ _ _ _ _ _ _ _ Hae) as (Hslot & _). destruct Hae as [HTs HX [Hx Hy] _ _ Hd Hcase]. rewrite HX in Hd.
    destruct Hcase as [(-> & l & Hg)|(_ & -> & Hc)].
    + destruct (redraw_end l x c cs X1 (y :: ys) w true wp (set_prev_pos (mkPos row (len x)) (write m q))) as (q' & X' & Hq & Hrd); try done; [|by exists q', w, X'].
      unfold len. by rewrite (Forall2_length _ _ _ Hy).
    + specialize (HwT eq_refl). rewrite HTs in HwT. by apply (blank_end (cell_attrs c) x c).
  - destruct wp; [|done]. destruct (unmark_end w X q x c cs X1 y ys m Hl (HwP eq_refl) Hae) as (q' & X' & Hq & Hrd). by exists q', false, X'.
Qed.

(** [Row::write_contents_diff] keeps the terminal in step. *)
Lemma row_diff_drawn entered prev_wrapping wt wp Y a :
  start = (paper entered w0 Y p0, a) → paired P → paired T → Forall2 alike P Y → (w0 = true → last_filled Y) → attrs_ok a → pos_ok sz p0 →
  (wrapping = true →
    if entered then prev_wrapping = true ∧ (p_row p0 + 1 = row → p_col p0 < s_cols sz)
    else p0 = mkPos (row - 1) (s_cols sz) ∧
      (prev_wrapping = true → ∀ c q, head T = Some c → head P = Some q → Cell_eqb c q = false)) →
  (wt = true → last_filled T) → (wp = true → last_filled P) →
  ∃ b p' a' w X, Row_write_contents_diff (mkRow P wp) 0 (s_cols sz) row wrapping prev_wrapping p0 a (mkRow T wt) = Some (b, p', a') ∧
    row_done wt wp b p' a' w X.
Proof using Habove HG Hrow Hsz Hwrap IL UWL HT HP.
  intros Hst HpP HpT HY Hfl Ha Hpos Hcond HwT HwP. unfold Row_write_contents_diff, Row_cols, try_from. cbn [cells]. rewrite HT.
  replace (_ && _) with true by safe. cbn [mbind option_bind].
  destruct (diff_start_drawn entered prev_wrapping wt wp Y a) as (p1 & -> & Hw1); try done. cbn [mbind option_bind].
  assert (len (zip T P) = s_cols sz) as Hlz by (unfold len in *; rewrite length_zip_with; lia).
  rewrite enumerated_all by lia. destruct (loop_drawn T [] p1 HpT eq_refl Hw1) as (p2 & H2 & Hw2).
  change (len (@nil Cell)) with 0 in H2. cbn [length] in H2. rewrite drop_0, HT in H2.
  rewrite Hlz, H2. cbn [mbind option_bind]. destruct (finish_drawn p2 Hw2) as (p3 & w & X & -> & Hl). cbn [mbind option_bind].
  destruct (diff_wrap_drawn wt wp w X p3 Hl HpT HwT HwP) as (p4 & w' & X' & -> & Hd). cbn [mbind option_bind]. by eexists _, _, _, w', X'.
Qed.
End row.

(** ** A full repaint: a difference to new cells *)
Section formatted.
Context `{UW : UnicodeWidth} {UWL : UnicodeWidthLaws UW} `{D : Discipline} `{IT : Itoa} {IL : ItoaLaws IT}.
Context (sz : Size) (Hsz : size_safe sz) (G : Grid) (HG : ready sz G).
Context (row : Z) (wrapping : bool) (above below : list Row).
Context (Hrow : 0 ≤ row < s_rows sz) (Habove : len above = row).
Context (Hwrap : wrapping = true → ∃ A P, above = A ++ [P] ∧ len (cells P) = s_cols sz ∧ last_filled (cells P)).

Definition new_cells : list Cell := replicate (Z.to_nat (s_cols sz)) Cell_new.

Lemma len_new_cells : len new_cells = s_cols sz.
Proof using Hsz. unfold len, new_cells. rewrite length_replicate. safe. Qed.

Lemma paired_new n : paired (replicate n Cell_new).
Proof using. induction n as [|n IH]; [constructor|]. apply paired_narrow; [|exact IH]. exists []. split; [apply new_is|by left]. Qed.

Lemma new_alike Y : Forall (blank Attrs_default) Y → len Y = s_cols sz → Forall2 alike new_cells Y.
Proof using.
  intros HY Hl. unfold new_cells. rewrite <- Hl. unfold len. rewrite Nat2Z.id. clear Hl. induction HY as [|y Y Hy HY IH]; constructor; [|done].
  apply (alike_blank Attrs_default); [|done]. split; [apply new_is|done].
Qed.

Lemma same_end_new T : paired T → len T = s_cols sz → last_filled T → same_end T new_cells = true → False.
Proof using Hsz.
  intros Hp Hl Hf Hs. destruct (row_end T (s_cols sz) Hp Hl) as (x & c & cs & _ & -> & _ & _ & _ & Hcase); [safe|].
  destruct Hcase as [(_ & l & wide & Hg)|(_ & -> & Hc)]; [|by apply (blank_end (cell_attrs c) x c)].
  pose proof Hg as (c' & ds & [= <- <-] & Hc & Ht & _). rewrite len_app, len_cons in Hl. pose proof (len_nonneg x). pose proof (len_nonneg cs).
  assert (new_cells = replicate (length x) Cell_new ++ Cell_new :: replicate (length cs) Cell_new) as Hn.
  { unfold new_cells. change (Cell_new :: replicate (length cs) Cell_new) with (replicate (S (length cs)) Cell_new).
    rewrite <- replicate_add. f_equal. unfold len in Hl. lia. }
  rewrite Hn, (same_end_glyph l wide (c :: cs) c cs) in Hs; [|done|done|unfold len; cbn; by rewrite length_replicate].
  destruct (eqb_new _ _ _ _ Hc Hs) as [Hb _]. pose proof (has_contents_text _ _ _ _ Hc) as H1. pose proof (has_contents_text _ _ _ _ Hb) as H2.
  rewrite bool_decide_eq_false_2 in H1 by (by eapply text_of_nonempty). cbn in H1, H2. congruence.
Qed.

(** The loops are the same. *)
Lemma formatted_loop cols T i p :
  for_each (zip (seqZ i (len T)) T) (formatted_step cols row wrapping) p =
  for_each (zip (seqZ i (len T)) (zip T (replicate (length T) Cell_new))) (diff_step cols row wrapping) p.
Proof using.
  revert i p. induction T as [|c T IH]; intros i p; [done|].
  rewrite !seqZ_next. cbn [zip zip_with for_each length replicate].
  change (diff_step cols row wrapping (i, (c, Cell_new)) p) with (formatted_step cols row wrapping (i, c) p).
  destruct (formatted_step _ _ _ _ _); [|done]. cbn [mbind option_bind]. apply IH.
Qed.

Definition row_written (start : Grid * Attrs) (T : list Cell) (b : bytes) (p : Pos) (a : Attrs) : Prop :=
  attrs_ok a ∧ pos_ok sz p ∧ (last_filled T → p = mkPos row (s_cols sz)) ∧
  ∃ X, Forall2 alike T X ∧ drawn b start (paper G wrapping above below true false X p, a).

Lemma formatted_start_drawn T w Y p a :
  Forall (blank Attrs_default) Y → len Y = s_cols sz → len T = s_cols sz → paired T →
  attrs_ok a → pos_ok sz p → (wrapping = true → p = mkPos (row - 1) (s_cols sz)) →
  ∃ q, formatted_start 0 row wrapping (mkRow T w) (mkPen [] false p a None) = Some q ∧
    writing sz G row wrapping above below (paper G wrapping above below false false Y p, a) T new_cells false p [] T q.
Proof using Habove HG Hrow Hsz Hwrap IL UWL.
  intros HY HlY HlT HpT Ha Hp Hpw. unfold formatted_start. cbn [cells].
  assert (∃ c T', T = c :: T') as (c & T' & HTc) by (destruct T; [change (len (@nil Cell)) with 0 in HlT; safe|by eexists _, _]).
  replace (index 0 T) with (Some c) by (by rewrite HTc). cbn [mbind option_bind].
  pose proof (drawn_nil (paper G wrapping above below false false Y p, a)) as Hd. pose proof (new_alike Y HY HlY) as Hal.
  assert (∃ Q, new_cells = Cell_new :: Q) as (Q & HQ).
  { unfold new_cells. destruct (Z.to_nat (s_cols sz)) eqn:E; [safe|by eexists]. }
  destruct (wrapping && Cell_eqb c Cell_new) eqn:Hnew.
  - apply andb_prop in Hnew as [Hw Hc].
    destruct (switch_drawn (paper G wrapping above below false false Y p, a) Attrs_default _ (mkPen [] false p a None) Hd Ha attrs_ok_default) as (b & Hb & Hd1).
    rewrite Hb. cbn [mbind option_bind]. eexists. split; [done|].
    apply (enter_blank sz Hsz G HG row wrapping above below _ Hrow Habove Hwrap T new_cells false p HlT len_new_cells Attrs_default c Cell_new Q Y); try done.
    + by apply Hpw.
    + apply paired_new.
    + by rewrite HTc.
    + rewrite HTc in HpT. inversion HpT as [|? ? (t & Ht & _)|? ? ? (t & Ht & _)]; subst; by eapply eqb_new.
  - eexists. split; [done|].
    apply (begun sz Hsz G row wrapping above below _ T new_cells false p len_new_cells false false Y); try done.
    + apply paired_new.
    + intros Hw. split; [by apply Hpw|]. intros c' q' Hc' Hq'. rewrite HTc in Hc'. rewrite HQ in Hq'. injection Hc' as <-. injection Hq' as <-.
      by rewrite Hw in Hnew.
    + by left.
Qed.

(** [Row::write_contents_formatted] keeps the terminal in step. *)
Lemma row_drawn T w Y p a :
  Forall (blank Attrs_default) Y → len Y = s_cols sz → len T = s_cols sz → paired T →
  attrs_ok a → pos_ok sz p → (wrapping = true → p = mkPos (row - 1) (s_cols sz)) →
  ∃ b p' a', Row_write_contents_formatted 0 (s_cols sz) row wrapping (Some p) (Some a) (mkRow T w) = Some (b, p', a') ∧
    row_written (paper G wrapping above below false false Y p, a) T b p' a'.
Proof using Habove HG Hrow Hsz Hwrap IL UWL.
  intros HY HlY HlT HT Ha Hp Hpw. unfold Row_write_contents_formatted, Row_cols, try_from. cbn [cells]. rewrite HlT.
  replace (_ && _) with true by safe. cbn [mbind option_bind from_option id].
  destruct (formatted_start_drawn T w Y p a) as (p1 & -> & Hw1); try done. cbn [mbind option_bind].
  rewrite enumerated_all by lia. rewrite formatted_loop.
  replace (replicate (length T) Cell_new) with new_cells by (unfold new_cells; f_equal; unfold len in HlT; lia).
  destruct (loop_drawn sz Hsz G HG row wrapping above below _ Hrow Habove Hwrap T new_cells false p HlT len_new_cells T [] p1 HT eq_refl Hw1) as (p2 & H2 & Hw2).
  change (len (@nil Cell)) with 0 in H2. cbn [length] in H2. rewrite drop_0 in H2. rewrite H2. cbn [mbind option_bind].
  destruct (finish_drawn sz Hsz G HG row wrapping above below _ Hrow Habove Hwrap T new_cells false p HlT len_new_cells p2 Hw2)
    as (p3 & w' & X & -> & [Hdr Hat Hpos Hal Hflag _ _ Hend _]). cbn [mbind option_bind].
  eexists _, _, _. split; [done|]. split_and!; [done|done| |].
  - intros Hl. destruct (Hend Hl) as [|Hs]; [done|]. destruct (same_end_new T HT HlT Hl Hs).
  - exists X. split; [done|]. destruct w'; [by destruct (Hflag eq_refl)|done].
Qed.
End formatted.
