(* ===== verification/Vt100Roundtrip.v ===== *)
(** * A repainted screen

    [Grid::write_contents_formatted], the cursor, the modes, and the whole of
    [state_formatted]: the terminal that displays the bytes shows the screen. *)

From Stdlib Require Import String.
From S2P Require Import Prelude Limits TerminalWidth Emulator Vt100Cell Vt100Row Vt100RowInv Vt100Grid Vt100GridInv Vt100Screen Vt100ScreenInv Vt100Attrs Vt100Parser Vt100Format Vt100Tokens Vt100Canvas Vt100Glyph Vt100Repaint.

Local Open Scope Z_scope.

(** Rows that look the same and go on in the same way. *)
Definition row_alike (t u : Row) : Prop := Forall2 alike (cells t) (cells u) ∧ wrapped t = wrapped u.

Section grid.
Context `{UW : UnicodeWidth} {UWL : UnicodeWidthLaws UW} `{D : Discipline} `{IT : Itoa} {IL : ItoaLaws IT}.
Context (sz : Size) (Hsz : size_safe sz) (G : Grid) (HG : ready sz G) (Hstrict : strict = true).

Definition blank_row (r : Row) : Prop :=
  wrapped r = false ∧ len (cells r) = s_cols sz ∧ Forall (blank Attrs_default) (cells r).

(** The loop over the rows: those written, and the blank ones below. *)
Definition rows_written (start : Grid * Attrs) (done todo : list Row) (st : bytes * Pos * Attrs * bool) : Prop :=
  let '(out, p, a, wrapping) := st in
  attrs_ok a ∧ pos_ok sz p ∧
  ∃ up blanks,
    drawn out start (canvas G (up ++ blanks) p, a) ∧ Forall2 row_alike done (mark wrapping up) ∧
    Forall blank_row blanks ∧ len blanks = len todo ∧
    (wrapping = true → p = mkPos (len done - 1) (s_cols sz) ∧
       ∃ A P, up = A ++ [P] ∧ len (cells P) = s_cols sz ∧ last_filled (cells P)).

Lemma formatted_row_drawn start done r todo st :
  rows_written start done (r :: todo) st → row_ok (s_cols sz) r → len done < s_rows sz →
  ∃ st', formatted_row (s_cols sz) (len done, r) st = Some st' ∧ rows_written start (done ++ [r]) todo st'.
Proof using HG Hsz Hstrict IL UWL.
  destruct st as [[[out p] a] wrapping]. intros (Ha & Hp & up & blanks & Hd & Hup & Hbl & Hlb & Hw) Hr Hlt.
  pose proof (len_nonneg done). assert (len up = len done) as Hlu.
  { apply Forall2_length in Hup. rewrite <- (len_mark wrapping up). unfold len. lia. }
  destruct blanks as [|b blanks]; [rewrite len_cons in Hlb; pose proof (len_nonneg todo); change (len (@nil Row)) with 0 in Hlb; lia|].
  apply Forall_cons in Hbl as [(Hb1 & Hb2 & Hb3) Hbl]. destruct b as [Y bw]. cbn in Hb1, Hb2, Hb3. subst bw.
  unfold formatted_row, try_from. replace (_ && _) with true by safe. cbn [mbind option_bind].
  destruct r as [T w]. destruct Hr as (HlT & HT & Hwrap). cbn [cells wrapped] in *.
  destruct (row_drawn sz Hsz G HG (len done) wrapping up blanks) with (T := T) (w := w) (Y := Y) (p := p) (a := a)
    as (bs & p' & a' & Hf & Ha' & Hp' & Hend & X & HX & Hdx); try done.
  { intros Hwt. destruct (Hw Hwt) as (_ & A & P & ?). by exists A, P. }
  { intros Hwt. by destruct (Hw Hwt). }
  unfold paper in Hdx. rewrite andb_true_r, andb_false_r in Hdx.
  rewrite Hf. cbn [mbind option_bind wrapped]. eexists. split; [done|]. split_and!; [done|done|].
  exists (mark wrapping up ++ [mkRow X false]), blanks. split_and!.
  - rewrite <- app_assoc. eapply drawn_app; [exact Hd|exact Hdx].
  - rewrite mark_last. apply Forall2_app; [done|]. constructor; [|constructor]. by destruct w.
  - done.
  - rewrite !len_cons in Hlb. lia.
  - intros ->. specialize (Hwrap Hstrict eq_refl). cbn [cells] in Hwrap. rewrite len_app. change (len [_]) with 1.
    replace (len done + 1 - 1) with (len done) by lia. split; [by apply Hend|]. eexists _, _. split_and!; [done| |].
    + cbn. rewrite <- HlT. unfold len. by rewrite (Forall2_length _ _ _ HX).
    + by eapply alike_last.
Qed.

Lemma formatted_rows_drawn start todo done st :
  rows_written start done todo st → Forall (row_ok (s_cols sz)) todo → len done + len todo ≤ s_rows sz →
  ∃ st', for_each (zip (seqZ (len done) (len todo)) todo) (formatted_row (s_cols sz)) st = Some st' ∧
    rows_written start (done ++ todo) [] st'.
Proof using HG Hsz Hstrict IL UWL.
  intros Hst Htodo. revert done st Hst. induction Htodo as [|r todo Hr Htodo IH]; intros done st Hst Hlen.
  { exists st. by rewrite app_nil_r. }
  rewrite len_cons in Hlen |- *. pose proof (len_nonneg todo). rewrite seqZ_cons by lia. cbn [zip zip_with for_each].
  destruct (formatted_row_drawn start done r todo st Hst Hr) as (st1 & -> & Hst1); [lia|]. cbn [mbind option_bind].
  destruct (IH (done ++ [r]) st1 Hst1) as (st2 & H2 & Hst2); [rewrite len_app; change (len [r]) with 1; lia|].
  rewrite len_app in H2. change (len [r]) with 1 in H2. replace (Z.succ (len done)) with (len done + 1) by lia.
  replace (Z.pred (len todo + 1)) with (len todo) by lia. exists st2. split; [done|]. by rewrite <- app_assoc in Hst2.
Qed.

(** ** The cursor *)

(** The terminal's row [u] looks like [t], and is marked only if it ends in text. *)
Definition near (t u : Row) : Prop := Forall2 alike (cells t) (cells u) ∧ (wrapped u = true → last_filled (cells u)).

(** The end of a row: a character, or a blank. *)
Lemma last_cell_cases i g t A B :
  live sz g → rows g = A ++ t :: B → len A = i → row_ok (s_cols sz) t →
  ∃ x c cs, last_cell i g = Some (mkPos i (len x), c) ∧ cells t = x ++ c :: cs ∧
    ((has_contents c = true ∧ ∃ l wide, glyph_cells l wide (c :: cs)) ∨ (has_contents c = false ∧ cs = [] ∧ cell_is [] false false c)).
Proof using Hsz.
  intros Hg Hrows HA (Hl & Hp & _). unfold last_cell. rewrite (last_col_Some sz Hsz) by apply (live_size sz g Hg).
  cbn [mbind option_bind]. rewrite (drawing_cell_row g A t B) by done. cbn [p_col]. unfold Row_get.
  destruct (row_end (cells t) (s_cols sz) Hp Hl) as (x & c & cs & d & Hx & -> & Hcol & Hc & Hcase); [safe|].
  cbn [mbind option_bind]. rewrite (live_size sz g Hg), Hcol. cbn [mbind option_bind].
  rewrite (drawing_cell_row g A t B) by done. unfold Row_get. cbn [p_col]. rewrite Hc. by exists x, c, cs.
Qed.

(** The last character of a row drawn again leaves the cursor after it. *)
Lemma redraw_drawn A0 t B0 x c cs l wide up p a :
  Forall2 near (A0 ++ t :: B0) up → cells t = x ++ c :: cs → glyph_cells l wide (c :: cs) → len (cells t) = s_cols sz →
  len A0 < s_rows sz → attrs_ok a → pos_ok sz p →
  ∃ m d up', MoveFromTo_write_buf p (mkPos (len A0) (len x)) = Some m ∧ redraw_cell a c = Some d ∧
    drawn (m ++ d) (canvas G up p, a) (canvas G up' (mkPos (len A0) (s_cols sz)), a) ∧
    Forall2 near (A0 ++ t :: B0) up' ∧ wrapped <$> up' = wrapped <$> up.
Proof using HG Hsz IL UWL.
  intros Hup Ht Hg Hl Hrow Ha Hp. apply Forall2_app_inv_l in Hup as (A & B1 & HA & HB & ->).
  inversion HB as [|? u ? B [Hu Hflag] HB']; subst. pose proof Hu as Hu'. rewrite Ht in Hu.
  apply Forall2_app_inv_l in Hu as (X & ys & HX & Hys & Hcu).
  assert (len A = len A0) as HlA by (unfold len; by rewrite (Forall2_length _ _ _ HA)).
  assert (len X = len x) as HlX by (unfold len; by rewrite (Forall2_length _ _ _ HX)).
  assert (len ys = len (c :: cs)) as Hly by (unfold len; by rewrite (Forall2_length _ _ _ Hys)).
  rewrite Ht, len_app in Hl. pose proof (len_nonneg A0). pose proof (len_nonneg x).
  destruct (glyph_facts l wide (c :: cs) Hg) as (c0 & cs0 & [= <- <-] & Hw & Hcon & Hlc & Htext & Hat & Hfill).
  destruct (drawn_move_from_to sz Hsz G HG (A ++ u :: B) p (mkPos (len A0) (len x)) a) as (m & Hm & Hdm);
    [apply Hp|apply Hp|split; cbn; [lia|destruct wide; lia]|].
  destruct (drawn_attrs (cell_attrs c) a (canvas G (A ++ u :: B) (mkPos (len A0) (len x))) Hat Ha) as (on & Hon & Hdon).
  destruct (drawn_text sz Hsz G HG wide l (cell_attrs c) (canvas G (A ++ u :: B) (mkPos (len A0) (len x))) A B (wrapped u) X [] ys)
    as (zs & Hzs & Hlz & Hdt); [by destruct Hg as (? & ? & ? & ? & ? & ?)|by eapply glyph_again|done|lia|..].
  { unfold row_of. rewrite app_nil_r, <- Hcu, HlA, HlX. replace (mkRow (cells u) (wrapped u)) with u by (by destruct u).
    apply (enters_here sz Hsz G HG). cbn. destruct wide; lia. }
  set (up' := row_of A B (wrapped u) X [] zs) in Hdt.
  destruct (drawn_attrs a (cell_attrs c) (canvas G up' (mkPos (len A0) (s_cols sz))) Ha Hat) as (off & Hoff & Hdoff).
  exists m, (on ++ (l ≫= encode_utf8) ++ off), up'. split_and!.
  - done.
  - unfold redraw_cell. rewrite Hon. cbn [mbind option_bind]. rewrite Htext. cbn [mbind option_bind]. by rewrite Hoff.
  - eapply drawn_app; [exact Hdm|]. eapply drawn_app; [exact Hdon|]. eapply drawn_app; [exact Hdt|].
    rewrite HlA, HlX, Hly, Hl. exact Hdoff.
  - assert (Forall2 alike (cells t) (X ++ zs)) as Hal by (rewrite Ht; apply Forall2_app; [done|by eapply glyph_alike]).
    apply Forall2_app; [done|]. constructor; [|done]. split; cbn; rewrite app_nil_r; [done|]. intros _.
    apply (alike_last _ _ Hal). rewrite Ht. by apply last_filled_app.
  - unfold up', row_of. by rewrite !fmap_app.
Qed.

Lemma drawn_linefeeds n rs i c a :
  0 ≤ i → i + Z.of_nat n < s_rows sz →
  drawn (replicate n 10) (canvas G rs (mkPos i c), a) (canvas G rs (mkPos (i + Z.of_nat n) c), a).
Proof using HG Hsz.
  revert i. induction n as [|n IH]; intros i Hi Hn.
  - replace (i + Z.of_nat 0) with i by lia. apply drawn_nil.
  - change (replicate (S n) 10) with ([10] ++ replicate n 10). eapply drawn_app.
    + eapply drawn_linefeed. apply (row_inc_canvas sz Hsz G HG); lia.
    + replace (i + Z.of_nat (S n)) with (i + 1 + Z.of_nat n) by lia. apply IH; lia.
Qed.

(** What the cursor's bytes leave: the same picture with the cursor in its place. *)
Definition cursor_placed (g : Grid) (up up' : list Row) : Prop :=
  Forall2 near (rows g) up' ∧ wrapped <$> up' = wrapped <$> up.

Lemma redraw_above_drawn g up p a above :
  live sz g → Forall2 near (rows g) up → attrs_ok a → pos_ok sz p → p_col (pos g) = s_cols sz →
  (∀ i, i ∈ above → 0 ≤ i < p_row (pos g)) →
  ∃ o, redraw_above above (Some p) a g = Some o ∧
    match o with
    | None => True
    | Some b => ∃ up', drawn b (canvas G up p, a) (canvas G up' (pos g), a) ∧ cursor_placed g up up'
    end.
Proof using HG Hsz IL UWL.
  intros Hg Hup Ha Hp Hcol Habove. pose proof (live_pos sz g Hg) as [Hr _].
  induction above as [|i rest IH]; [by exists None|]. cbn [redraw_above].
  assert (0 ≤ i < p_row (pos g)) as Hi by (apply Habove; by left).
  destruct (live_row sz g i Hg ltac:(lia)) as (A & t & B & Hrows & HlA & Ht & _).
  destruct (last_cell_cases i g t A B Hg Hrows HlA Ht) as (x & c & cs & -> & Hc & Hcase). cbn [mbind option_bind].
  destruct Hcase as [(Hcon & l & wide & Hgl)|(Hcon & _)]; rewrite Hcon; [|apply IH; intros j Hj; apply Habove; by right].
  rewrite (live_size sz g Hg), sub16_Some by lia.
  assert (∀ rs, drawn (replicate (Z.to_nat (p_row (pos g) - i)) 10) (canvas G rs (mkPos i (s_cols sz)), a) (canvas G rs (pos g), a)) as Hlf.
  { intros rs. replace (pos g) with (mkPos (i + Z.of_nat (Z.to_nat (p_row (pos g) - i))) (s_cols sz)) at 2;
      [apply drawn_linefeeds; lia|]. destruct (pos g) as [r0 c0]. cbn in *. f_equal; lia. }
  destruct (negb (p_row p =? i) || (p_col p <? s_cols sz)) eqn:Hq.
  - rewrite Hrows in Hup. destruct (redraw_drawn A t B x c cs l wide up p a) as (m & d & up' & Hm & Hd & Hdr & Hup' & Hfl);
      [done|done|done|apply Ht|lia|done|done|].
    rewrite HlA in Hm, Hdr. rewrite Hm. cbn [mbind option_bind]. rewrite Hd. cbn [mbind option_bind]. eexists. split; [done|]. exists up'.
    split; [eapply drawn_app; [exact Hdr|apply Hlf]|]. split; [by rewrite Hrows|done].
  - cbn [mbind option_bind]. eexists. split; [done|]. exists up. split; [|by split].
    assert (p = mkPos i (s_cols sz)) as -> by (destruct p as [pr pc]; unfold pos_ok in Hp; cbn in *; f_equal; lia). apply Hlf.
Qed.

(** The cursor saved and restored around an erasure. *)
Definition saved (p : Pos) (g : Grid) : Grid := set_saved_origin_mode (origin_mode g) (set_saved_pos p g).

Lemma ready_saved p : ready sz (saved p G).
Proof using HG. by destruct HG. Qed.

Lemma decsc_put rs p a s :
  decsc (put (canvas G rs p) a s) = put (canvas (saved p G) rs p) a (set_saved_attrs a s).
Proof using. unfold decsc, save_cursor. both_grids s. Qed.

Lemma decrc_put rs p q a v s :
  decrc (put (canvas (saved p G) rs q) a (set_saved_attrs v s)) = put (canvas (saved p G) rs p) v (set_saved_attrs v s).
Proof using.
  unfold decrc, restore_cursor. rewrite put_grid, put_set_grid, put_saved_attrs. done.
Qed.

(** The screen [s] with the picture [up] and the cursor of [g] comes to show it with the
    cursor in its place; the saved cursor may change. *)
Definition placed (b : bytes) (g : Grid) (up : list Row) (p : Pos) (a : Attrs) : Prop :=
  ∀ s, ∃ G' v up', ready sz G' ∧ cursor_placed g up up' ∧
    paints b (put (canvas G up p) a s) (put (canvas G' up' (pos g)) a (set_saved_attrs v s)).

Lemma drawn_placed b g up up' p a :
  drawn b (canvas G up p, a) (canvas G up' (pos g), a) → cursor_placed g up up' → placed b g up p a.
Proof using HG.
  intros Hd Hc s. exists G, (saved_attrs s), up'. split_and!; [done|done|].
  replace (set_saved_attrs (saved_attrs s) s) with s by (by destruct s). apply Hd.
Qed.

(** A space after the last column of a blank end, erased again. *)
Lemma blank_drawn A u B X y c rest a s :
  u = mkRow (X ++ [y]) false → plain y → attrs_ok a → attrs_ok c → len X = s_cols sz - 1 → len A < s_rows sz →
  write_escape_code_diff c a = Some rest →
  ∃ z off, write_escape_code_diff a c = Some off ∧ blank c z ∧
    paints ([32] ++ rest ++ SaveCursor_write_buf ++ Backspace_write_buf ++ EraseChar_write_buf 1 ++ RestoreCursor_write_buf ++ off)
      (put (canvas G (A ++ u :: B) (mkPos (len A) (s_cols sz - 1))) a s)
      (put (canvas (saved (mkPos (len A) (s_cols sz)) G) (A ++ mkRow (X ++ [z]) false :: B) (mkPos (len A) (s_cols sz))) a (set_saved_attrs c s)).
Proof using HG Hsz IL UWL.
  intros -> Hy Ha Hc HX HA Hon. set (q := mkPos (len A) (s_cols sz)).
  assert (text_of false [32]) as Ht by (apply text_base; rewrite ?width_ascii by lia; [split; [left|]; lia|done..]).
  destruct (drawn_text sz Hsz G HG false [32] a (canvas G (A ++ mkRow (X ++ [y]) false :: B) (mkPos (len A) (s_cols sz - 1))) A B false X [] [y])
    as (zs & Hzs & _ & Hd1); [done|by constructor|done|change (len [y]) with 1; lia|..].
  { unfold row_of. cbn [app]. rewrite HX. apply (enters_here sz Hsz G HG). cbn. lia. }
  inversion Hzs as [z Hz _|]; subst zs. assert (plain z) as Hzp by (by exists [32]).
  change (len [y]) with 1 in Hd1. replace (len X + 1) with (s_cols sz) in Hd1 by lia. fold q in Hd1.
  destruct (drawn_attrs c a (canvas G (row_of A B false X [] [z]) q) Hc Ha) as (on & Hon' & Hd2). rewrite Hon in Hon'. injection Hon' as <-.
  set (G' := saved q G). pose proof (drawn_backspace (canvas G' (row_of A B false X [] [z]) q) c) as Hd3.
  assert (col_dec 1 (canvas G' (row_of A B false X [] [z]) q) = canvas G' (row_of A B false X [] [z]) (mkPos (len A) (len X))) as Hcd.
  { unfold col_dec. cbn. unfold canvas, set_pos_col. cbn. unfold saturating_sub. rewrite Z.max_r by safe. by rewrite HX. }
  rewrite Hcd in Hd3.
  destruct (drawn_erase_last sz Hsz G' (ready_saved q) A B X z [] false c false) as (z2 & zs2 & _ & Hlz2 & Hz2 & Hd4);
    [by constructor|by apply plain_flags|done|rewrite len_app; change (len [z]) with 1; lia|].
  assert (zs2 = []) as -> by (destruct zs2 as [|? zs2]; [done|]; rewrite !len_cons in Hlz2; pose proof (len_nonneg zs2); change (len (@nil Cell)) with 0 in Hlz2; lia).
  destruct (drawn_attrs a c (canvas G' (A ++ mkRow (X ++ [z2]) false :: B) q) Ha Hc) as (off & Hoff & Hd5).
  exists z2, off. split_and!; [done|done|].
  eapply paints_app; [apply (Hd1 s)|]. eapply paints_app; [apply (Hd2 s)|]. cbn [fst snd].
  eapply paints_app; [apply (paints_escape 55 decsc); by left|]. rewrite decsc_put. fold G'.
  eapply paints_app; [apply (Hd3 (set_saved_attrs c s))|]. eapply paints_app; [apply (Hd4 (set_saved_attrs c s))|]. cbn [fst snd].
  eapply paints_app; [apply (paints_escape 56 decrc); by right; left|]. unfold G' at 1. rewrite decrc_put. apply (Hd5 (set_saved_attrs c s)).
Qed.

Lemma redraw_blank_drawn g up p a A0 t B0 x c :
  live sz g → rows g = A0 ++ t :: B0 → len A0 = p_row (pos g) → p_col (pos g) = s_cols sz → row_ok (s_cols sz) t →
  cells t = x ++ [c] → cell_is [] false false c → Forall2 near (rows g) up → attrs_ok a → pos_ok sz p →
  ∃ b, redraw_blank (Some p) a g = Some b ∧ placed b g up p a.
Proof using HG Hsz Hstrict IL UWL.
  intros Hg Hrows HlA Hcol (Hl & _ & Hwt) Ht Hc Hup Ha Hp. pose proof (live_pos sz g Hg) as [Hr _].
  unfold redraw_blank. rewrite (last_col_Some sz Hsz) by apply (live_size sz g Hg). cbn [mbind option_bind].
  rewrite Ht, len_app in Hl. change (len [c]) with 1 in Hl.
  destruct (drawn_move_from_to sz Hsz G HG up p (mkPos (p_row (pos g)) (s_cols sz - 1)) a) as (m & Hm & Hdm);
    [apply Hp|apply Hp|split; cbn; safe|]. unfold move_from. rewrite Hm. cbn [mbind option_bind].
  rewrite (drawing_cell_row g A0 t B0) by done. cbn [p_col]. 
  assert (Row_get (s_cols sz - 1) t = Some c) as -> by (replace (s_cols sz - 1) with (len x) by lia; by apply (Row_get_app x c [] t)).
  cbn [mbind option_bind].
  rewrite Hrows in Hup. apply Forall2_app_inv_l in Hup as (A & B1 & HA & HB & ->).
  inversion HB as [|? u ? B [Hu Hflag] HB']; subst. rewrite Ht in Hu.
  apply Forall2_app_inv_l in Hu as (X & ys & HX & Hys & Hcu). inversion Hys as [|? y ? ? Hcy Hn]; subst. inversion Hn; subst.
  assert (len A = len A0) as HlA' by (unfold len; by rewrite (Forall2_length _ _ _ HA)).
  assert (len X = len x) as HlX by (unfold len; by rewrite (Forall2_length _ _ _ HX)).
  assert (wrapped u = false) as Hwu.
  { destruct (wrapped u) eqn:E; [|done]. specialize (Hflag eq_refl). apply (last_alike (cells t)) in Hflag; [|by rewrite Ht, Hcu; apply Forall2_app].
    rewrite Ht in Hflag. by apply (blank_end (cell_attrs c) x c). }
  destruct (drawn_attrs (cell_attrs c) a (canvas G [] p) (ci_attrs _ _ _ _ Hc) Ha) as (on & Hon & _).
  destruct (drawn_attrs a (cell_attrs c) (canvas G [] p) Ha (ci_attrs _ _ _ _ Hc)) as (off & Hoff & _).
  rewrite Hon. cbn [mbind option_bind]. rewrite Hoff. cbn [mbind option_bind]. eexists. split; [done|]. intros s.
  destruct (blank_drawn A u B X y (cell_attrs c) on a s) as (z & off' & Hoff' & Hz & Hpaint);
    [destruct u; cbn in *; congruence|exists []; by eapply alike_is|done|apply Hc|lia|lia|done|].
  rewrite Hoff in Hoff'. injection Hoff' as <-. rewrite HlA', HlA in Hpaint.
  replace (mkPos (p_row (pos g)) (s_cols sz)) with (pos g) in Hpaint by (destruct (pos g); cbn in *; by subst).
  eexists _, (cell_attrs c), _. split_and!; [apply (ready_saved (pos g))| |eapply paints_app; [apply (Hdm s)|exact Hpaint]].
  split; [rewrite Hrows|by rewrite !fmap_app; cbn; rewrite Hwu]. apply Forall2_app; [done|]. constructor; [|done].
  split; [|done]. cbn. rewrite Ht. apply Forall2_app; [done|]. repeat constructor. by apply (alike_blank (cell_attrs c)).
Qed.

(** [Grid::write_cursor_position_formatted] *)
Lemma cursor_drawn g up p a :
  live sz g → Forall2 near (rows g) up → attrs_ok a → pos_ok sz p →
  ∃ b, write_cursor_position_formatted (Some p) (Some a) g = Some b ∧ placed b g up p a.
Proof using HG Hsz Hstrict IL UWL.
  intros Hg Hup Ha Hp. pose proof (live_pos sz g Hg) as [Hr Hc].
  unfold write_cursor_position_formatted. cbn [from_option id]. rewrite (live_size sz g Hg).
  destruct (_ && _) eqn:Hend.
  - assert (p_col (pos g) = s_cols sz) as Hcol by lia.
    destruct (live_row sz g _ Hg Hr) as (A & t & B & Hrows & HlA & Ht & _).
    destruct (last_cell_cases _ g t A B Hg Hrows HlA Ht) as (x & c & cs & -> & Hx & Hcase). cbn [mbind option_bind].
    destruct Hcase as [(Hcon & l & wide & Hgl)|(Hcon & -> & Hci)]; rewrite Hcon.
    + pose proof Hup as Hup'. rewrite Hrows in Hup'. rewrite <- HlA.
      destruct (redraw_drawn A t B x c cs l wide up p a) as (m & d & up' & Hm & Hd & Hdr & Hup1 & Hfl);
        [done|done|done|apply Ht|lia|done|done|]. unfold move_from. rewrite Hm. cbn [mbind option_bind]. rewrite Hd. cbn [mbind option_bind].
      eexists. split; [done|]. apply (drawn_placed _ _ _ up'); [|split; [by rewrite Hrows|done]].
      replace (pos g) with (mkPos (len A) (s_cols sz)) by (destruct (pos g); cbn in *; by subst). exact Hdr.
    + destruct (redraw_above_drawn g up p a (reverse (range 0 (p_row (pos g))))) as (o & -> & Ho); try done.
      { intros i. rewrite elem_of_reverse, elem_of_range. lia. }
      cbn [mbind option_bind]. destruct o as [b|].
      * destruct Ho as (up' & Hd & Hpl). exists b. split; [done|]. by apply (drawn_placed _ _ _ up').
      * by apply (redraw_blank_drawn g up p a A t B x c).
  - unfold move_from. destruct (decide (p = pos g)) as [->|Hne].
    + exists []. split; [|apply (drawn_placed _ _ _ up); [apply drawn_nil|by split]].
      unfold MoveFromTo_write_buf. rewrite add16_Some by safe. cbn [mbind option_bind].
      replace (p_row (pos g) =? p_row (pos g) + 1) with false by lia. rewrite Z.ltb_irrefl, andb_false_r. cbn [andb].
      by rewrite bool_decide_eq_false_2 by auto.
    + rewrite bool_decide_eq_true_2 in Hend by congruence. cbn [andb] in Hend.
      destruct (drawn_move_from_to sz Hsz G HG up p (pos g) a) as (b & Hb & Hd); [apply Hp|apply Hp|split; lia|].
      exists b. split; [done|]. by apply (drawn_placed _ _ _ up).
Qed.

(** ** The whole grid *)
Definition text_row (r : Row) : Prop := len (cells r) = s_cols sz ∧ paired (cells r).

Lemma blank_cleared r : text_row r → blank_row (Row_clear Attrs_default r).
Proof using.
  intros [Hl Hp]. split_and!; [done|by cbn; rewrite len_fmap|]. cbn. apply Forall_fmap. clear Hl.
  assert (∀ c, (∃ l w k, cell_is l w k c) → blank Attrs_default (Cell_clear Attrs_default c)) as Hc.
  { intros c (l & w & k & Hc). split; [by apply (clear_is Hc), attrs_ok_default|done]. }
  induction Hp as [|c l Hn _ IH|c d l Hw Hs _ IH]; [constructor|..].
  - constructor; [|done]. apply Hc. by apply narrow_is.
  - constructor; [apply Hc; by apply wide_is|]. constructor; [|done]. apply Hc. by apply second_is.
Qed.

Lemma screen_cleared rs p a :
  Forall text_row rs → len rs = s_rows sz →
  ∃ rs', drawn (ClearAttrs_write_buf ++ ClearScreen_write_buf) (canvas G rs p, a) (canvas G rs' Pos_default, Attrs_default) ∧
    Forall blank_row rs' ∧ len rs' = s_rows sz.
Proof using HG Hsz IL.
  intros Hrs Hl. destruct rs as [|r rs]; [change (len (@nil Row)) with 0 in Hl; safe|].
  apply Forall_cons in Hrs as [[Hlr Hr] Hrs]. destruct r as [Y w]. cbn in Hlr, Hr.
  destruct (erase_row_over sz Hsz Y [] Y w Attrs_default) as (Z & HZ & HbZ & HlZ);
    [by apply rest_over, rest_paired| |apply attrs_ok_default|done|].
  { intros ->. change (len (@nil Cell)) with 0 in Hlr. safe. }
  rewrite Hlr in HlZ.
  exists (mkRow Z false :: (Row_clear Attrs_default <$> rs)). split_and!.
  - eapply drawn_app; [apply drawn_clear_attrs|].
    destruct (drawn_move_to Pos_default (canvas G (mkRow Y w :: rs) p) (canvas G (mkRow Y w :: rs) Pos_default) Attrs_default)
      as (b & Hb & Hd); [done|done|apply (set_pos_canvas sz Hsz G HG); split; cbn; safe|].
    injection Hb as <-. eapply drawn_app; [exact Hd|]. apply drawn_erase_below.
    unfold erase_all_forward, erase_row_forward, erase_cols, update_current_row. cbn [pos canvas set_pos_field p_row p_col Pos_default].
    change (size (set_rows _ _)) with (size (canvas G [] p)). rewrite (canvas_size sz G HG).
    erewrite (update_row_row _ []); [|done|done|exact HZ]. done.
  - constructor; [by split_and!|]. apply Forall_fmap. eapply Forall_impl; [exact Hrs|]. intros r. apply blank_cleared.
  - rewrite len_cons in Hl |- *. by rewrite len_fmap.
Qed.

Lemma alike_near t u : row_ok (s_cols sz) t → Forall2 alike (cells t) (cells u) → (wrapped u = true → wrapped t = true) → near t u.
Proof using Hstrict. intros (_ & _ & Hw) Hc Hf. split; [done|]. intros Hu. apply (alike_last _ _ Hc), Hw; auto. Qed.

Lemma written_near done up w :
  Forall (row_ok (s_cols sz)) done → Forall2 row_alike done (mark w up) → (w = true → ∃ A P, up = A ++ [P]) →
  Forall2 near done up ∧ ∀ A0 t, done = A0 ++ [t] → ∃ A u, up = A ++ [u] ∧ wrapped <$> A = wrapped <$> A0.
Proof using Hstrict.
  intros Hok Hd Hw.
  assert (∀ l k, Forall (row_ok (s_cols sz)) l → Forall2 row_alike l k → Forall2 near l k ∧ wrapped <$> k = wrapped <$> l) as Hall.
  { intros l k Hl H. induction H as [|t u l k [Hc Hf] _ IH]; [done|]. apply Forall_cons in Hl as [Ht Hl]. destruct (IH Hl) as [IH1 IH2].
    cbn. rewrite IH2, Hf. split; [|done]. constructor; [|done]. apply alike_near; [done|done|congruence]. }
  assert (Forall2 near done up) as Hnear.
  { destruct w; [|by apply Hall]. destruct (Hw eq_refl) as (A & P & ->). rewrite mark_last in Hd.
    apply Forall2_app_inv_r in Hd as (A0 & B0 & HA & HB & ->). inversion HB as [|t ? ? ? [Hc Hf] Hn]; subst. inversion Hn; subst.
    apply Forall_app in Hok as [HokA Hokt]. apply Forall_cons in Hokt as [Hokt _].
    apply Forall2_app; [by apply Hall|]. constructor; [by apply alike_near|constructor]. }
  split; [done|]. intros A0 t ->. apply Forall2_app_inv_l in Hnear as (A & B & _ & HB & ->). inversion HB as [|? u ? ? _ Hn]; subst.
  inversion Hn; subst. exists A, u. split; [done|]. rewrite mark_last in Hd. apply Forall_app in Hok as [HokA _]. apply Forall2_app_inv in Hd as [HA _].
  - by apply Hall.
  - pose proof (Forall2_length _ _ _ Hd) as Hlen. rewrite !length_app in Hlen. cbn in Hlen. lia.
Qed.

(** Rows that look the same; all but the last go on in the same way. *)
Definition pictured (rs up : list Row) : Prop :=
  Forall2 near rs up ∧ take (length rs - 1) (wrapped <$> up) = take (length rs - 1) (wrapped <$> rs).

Lemma written_pictured done up w :
  Forall (row_ok (s_cols sz)) done → Forall2 row_alike done (mark w up) → (w = true → ∃ A P, up = A ++ [P]) → pictured done up.
Proof using Hstrict.
  intros Hok Hd Hw. destruct (written_near done up w Hok Hd Hw) as [Hn Hf]. split; [done|]. clear Hok.
  destruct done as [|t A0 _] using rev_ind; [by inversion Hn|]. destruct (Hf A0 t eq_refl) as (A & u & -> & HA).
  rewrite length_app. cbn [length]. replace (length A0 + 1 - 1)%nat with (length A0) by lia. rewrite !fmap_app.
  assert (length A0 = length (wrapped <$> A0)) as Hl by (by rewrite length_fmap). rewrite Hl at 2. rewrite take_app_length.
  rewrite Hl, <- HA. by rewrite take_app_length.
Qed.

(** [Grid::write_contents_formatted] *)
Lemma grid_repainted g rs p a :
  live sz g → Forall text_row rs → len rs = s_rows sz →
  ∃ b a', Grid_write_contents_formatted g = Some (b, a') ∧ attrs_ok a' ∧
    ∀ s, ∃ G' v up, ready sz G' ∧ pictured (rows g) up ∧
      paints b (put (canvas G rs p) a s) (put (canvas G' up (pos g)) a' (set_saved_attrs v s)).
Proof using HG Hsz Hstrict IL UWL.
  intros Hg Hrs Hl. unfold Grid_write_contents_formatted. rewrite (visible_rows_live sz g (proj1 Hg)). cbn [mbind option_bind].
  rewrite (live_size sz g Hg). destruct (screen_cleared rs p a Hrs Hl) as (rs' & Hd & Hb & Hl').
  destruct (formatted_rows_drawn (canvas G rs p, a) (rows g) []
    (ClearAttrs_write_buf ++ ClearScreen_write_buf, Pos_default, Attrs_default, false)) as ([[[out p1] a1] w] & Hf & Ha1 & Hp1 & up & bl & Hd1 & Hal & _ & Hlb & Hw).
  { split_and!; [apply attrs_ok_default|split; cbn; safe|]. exists [], rs'. split_and!; [exact Hd|constructor|done|by rewrite Hl', (proj2 Hg)|done]. }
  { apply Hg. }
  { change (len (@nil Row)) with 0. rewrite (proj2 Hg). lia. }
  change (len (@nil Row)) with 0 in Hf. rewrite Hf. cbn [mbind option_bind]. cbn [app] in Hal, Hw.
  assert (bl = []) as -> by (destruct bl as [|? bl]; [done|]; rewrite len_cons in Hlb; pose proof (len_nonneg bl); change (len (@nil Row)) with 0 in Hlb; lia).
  rewrite app_nil_r in Hd1.
  assert (pictured (rows g) up) as [Hnear Hflags].
  { apply (written_pictured _ _ w (go_row _ _ (proj1 Hg)) Hal). intros Hwt. destruct (Hw Hwt) as (_ & A & P & -> & _). by exists A, P. }
  destruct (cursor_drawn g up p1 a1 Hg Hnear Ha1 Hp1) as (cur & -> & Hcur). cbn [mbind option_bind].
  eexists _, a1. split_and!; [done|done|]. intros s. destruct (Hcur s) as (G' & v & up' & HG' & [Hn' Hf'] & Hpaint).
  exists G', v, up'. split_and!; [done|split; [done|by rewrite Hf']|]. eapply paints_app; [apply (Hd1 s)|exact Hpaint].
Qed.
End grid.
