(* ===== verification/Vt100Alike.v ===== *)
(** * Screens that look the same are written the same

    Cells are compared by their text and attributes, not by the bytes behind the text:
    [alike] is that equivalence, and the writers respect it. A wrap of the last row
    does not show. *)

From S2P Require Import Prelude Limits TerminalWidth Emulator Vt100Cell Vt100Row Vt100RowInv Vt100Grid Vt100GridInv Vt100Screen Vt100ScreenInv Vt100Format Vt100Canvas Vt100Roundtrip.

Local Open Scope Z_scope.

#[export] Instance is_wide_proper : Proper (alike ==> eq) is_wide.
Proof. intros c d H. apply (alike_flags _ _ H). Qed.
#[export] Instance is_wide_continuation_proper : Proper (alike ==> eq) is_wide_continuation.
Proof. intros c d H. apply (alike_flags _ _ H). Qed.
#[export] Instance has_contents_proper : Proper (alike ==> eq) has_contents.
Proof. intros c d H. apply (alike_flags _ _ H). Qed.
#[export] Instance cell_attrs_proper : Proper (alike ==> eq) cell_attrs.
Proof. by intros c d (l & w & k & Hc & Hd & Ha). Qed.
#[export] Instance contents_of_proper : Proper (alike ==> eq) contents_of.
Proof. intros c d (l & w & k & Hc & Hd & Ha). by rewrite (contents_of_Some Hc), (contents_of_Some Hd). Qed.

(** Equality with a new cell. *)
Definition is_new (c : Cell) : bool := Cell_eqb c Cell_new.
#[export] Instance is_new_proper : Proper (alike ==> eq) is_new.
Proof.
  assert (∀ c d, alike c d → is_new c = true → is_new d = true) as H.
  { intros c d Hcd Hc. pose proof Hcd as (l & w & k & Hic & _). apply new_eqb.
    destruct (eqb_new _ _ _ _ Hic Hc) as [Hb Ha]. split; [by eapply alike_is|]. by rewrite <- Hcd. }
  intros c d Hcd. destruct (is_new c) eqn:Hc, (is_new d) eqn:Hd; try done.
  - apply (H c d Hcd) in Hc. congruence.
  - symmetry in Hcd. apply (H d c Hcd) in Hd. congruence.
Qed.

(** Everything read of one cell, read of the other. *)
Ltac look H :=
  rewrite ?(is_wide_proper _ _ H), ?(is_wide_continuation_proper _ _ H), ?(has_contents_proper _ _ H),
    ?(cell_attrs_proper _ _ H), ?(contents_of_proper _ _ H), ?(is_new_proper _ _ H).

Section rows.
Context `{IT : Itoa}.

#[export] Instance formatted_step_proper cols row wrapping i :
  Proper (alike ==> eq ==> eq) (λ c, formatted_step cols row wrapping (i, c)).
Proof using.
  intros c d Hcd p ? <-. unfold formatted_step, write_step, flush_erase, draw_cell, needs_move. cbn [fst snd].
  change (Cell_eqb c Cell_new) with (is_new c). change (Cell_eqb d Cell_new) with (is_new d). by look Hcd.
Qed.

Lemma formatted_loop_alike cols row wrapping T X i p :
  Forall2 alike T X →
  for_each (zip (seqZ i (len T)) T) (formatted_step cols row wrapping) p =
  for_each (zip (seqZ i (len X)) X) (formatted_step cols row wrapping) p.
Proof using.
  intros H. revert i p. induction H as [|c d T X Hcd H IH]; intros i p; [done|].
  rewrite !len_cons. pose proof (len_nonneg T). pose proof (len_nonneg X). rewrite (seqZ_cons i (len T + 1)), (seqZ_cons i (len X + 1)) by lia. cbn [zip zip_with for_each].
  rewrite (formatted_step_proper cols row wrapping i c d Hcd p p eq_refl). destruct (formatted_step _ _ _ (i, d) p); [|done].
  cbn [mbind option_bind]. replace (Z.pred (len T + 1)) with (len T) by lia. replace (Z.pred (len X + 1)) with (len X) by lia. apply IH.
Qed.

Lemma formatted_start_alike row wrapping t u p :
  Forall2 alike (cells t) (cells u) → formatted_start 0 row wrapping t p = formatted_start 0 row wrapping u p.
Proof using.
  intros H. unfold formatted_start. destruct (cells t) as [|c T], (cells u) as [|d X]; inversion H as [|? ? ? ? Hcd]; subst; [done|].
  change (index 0 (c :: T)) with (Some c). change (index 0 (d :: X)) with (Some d). cbn [mbind option_bind].
  change (Cell_eqb c Cell_new) with (is_new c). change (Cell_eqb d Cell_new) with (is_new d). by look Hcd.
Qed.

Lemma formatted_row_alike cols row wrapping p a t u :
  Forall2 alike (cells t) (cells u) → len (cells t) ≤ cols →
  Row_write_contents_formatted 0 cols row wrapping p a t = Row_write_contents_formatted 0 cols row wrapping p a u.
Proof using.
  intros H Hl. assert (len (cells u) = len (cells t)) as Hlen by (unfold len; by rewrite (Forall2_length _ _ _ H)).
  unfold Row_write_contents_formatted, Row_cols. rewrite Hlen. destruct (try_from _ _) as [n|]; [|done]. cbn [mbind option_bind].
  destruct (match p with Some q => _ | None => _ end) as [q|]; [|done]. cbn [mbind option_bind].
  rewrite (formatted_start_alike row wrapping t u) by done. rewrite !enumerated_all by lia.
  destruct (formatted_start _ _ _ _ _) as [p1|]; [|done]. cbn [mbind option_bind]. by rewrite (formatted_loop_alike n row wrapping _ _ 0 p1 H).
Qed.
End rows.

(** ** Grids *)
Definition rows_alike : relation (list Row) := Forall2 (λ t u, Forall2 alike (cells t) (cells u)).

Record grid_alike (g h : Grid) : Prop := {
  ga_size : size h = size g;
  ga_pos : pos h = pos g;
  ga_rows : rows_alike (rows g) (rows h);
}.

Lemma index_Forall2 {A B} (P : A → B → Prop) l k i : Forall2 P l k → option_Forall2 P (index i l) (index i k).
Proof. intros H. unfold index. destruct (_ <=? _); [|constructor]. by apply Forall2_lookup. Qed.

Section grids.
Context `{IT : Itoa} (g h : Grid) (Hgh : grid_alike g h).

Lemma drawing_cell_alike p : option_Forall2 alike (drawing_cell p g) (drawing_cell p h).
Proof using Hgh.
  unfold drawing_cell, drawing_row. destruct (index_Forall2 _ _ _ (p_row p) (ga_rows _ _ Hgh)) as [t u Htu|]; [|constructor].
  cbn [mbind option_bind]. by apply index_Forall2.
Qed.

Lemma last_cell_alike row :
  option_Forall2 (λ x y, x.1 = y.1 ∧ alike x.2 y.2) (last_cell row g) (last_cell row h).
Proof using Hgh.
  unfold last_cell, last_col. rewrite (ga_size _ _ Hgh). destruct (sub16 _ 1) as [right|]; [|constructor]. cbn [mbind option_bind].
  destruct (drawing_cell_alike (mkPos row right)) as [c d Hcd|]; [|constructor]. cbn [mbind option_bind]. look Hcd.
  destruct (if is_wide_continuation d then _ else _) as [col|]; [|constructor]. cbn [mbind option_bind].
  destruct (drawing_cell_alike (mkPos row col)) as [c' d' Hcd'|]; [|constructor]. cbn [mbind option_bind]. by constructor.
Qed.

Lemma redraw_cell_alike a c d : alike c d → redraw_cell a c = redraw_cell a d.
Proof using. intros Hcd. unfold redraw_cell. by look Hcd. Qed.

Lemma redraw_above_alike above prev a : redraw_above above prev a g = redraw_above above prev a h.
Proof using Hgh.
  induction above as [|i rest IH]; [done|]. cbn [redraw_above]. rewrite (ga_size _ _ Hgh), (ga_pos _ _ Hgh), IH.
  destruct (last_cell_alike i) as [[p c] [q d] [Hpq Hcd]|]; [|done]. cbn in Hpq, Hcd. subst q. cbn [mbind option_bind].
  look Hcd. by rewrite (redraw_cell_alike a c d Hcd).
Qed.

Lemma redraw_blank_alike prev a : redraw_blank prev a g = redraw_blank prev a h.
Proof using Hgh.
  unfold redraw_blank, last_col. rewrite (ga_size _ _ Hgh), (ga_pos _ _ Hgh). destruct (sub16 _ 1) as [right|]; [|done]. cbn [mbind option_bind].
  destruct (move_from _ _) as [m|]; [|done]. cbn [mbind option_bind].
  destruct (drawing_cell_alike (mkPos (p_row (pos g)) right)) as [c d Hcd|]; [|done]. cbn [mbind option_bind]. by look Hcd.
Qed.

Lemma cursor_alike prev a : write_cursor_position_formatted prev a g = write_cursor_position_formatted prev a h.
Proof using Hgh.
  unfold write_cursor_position_formatted. rewrite (ga_size _ _ Hgh), (ga_pos _ _ Hgh). destruct (_ && _); [|done].
  destruct (last_cell_alike (p_row (pos g))) as [[p c] [q d] [Hpq Hcd]|]; [|done]. cbn in Hpq, Hcd. subst q. cbn [mbind option_bind].
  look Hcd. rewrite (redraw_cell_alike _ c d Hcd), redraw_above_alike, redraw_blank_alike. done.
Qed.

(** The loop over the rows: the flag of the last one is dropped. *)
Definition without_wrap (st : bytes * Pos * Attrs * bool) : bytes * Pos * Attrs := st.1.

Lemma formatted_rows_alike cols rs us i st :
  rows_alike rs us → Forall (λ r, len (cells r) ≤ cols) rs →
  take (length rs - 1) (wrapped <$> us) = take (length rs - 1) (wrapped <$> rs) →
  without_wrap <$> for_each (zip (seqZ i (len rs)) rs) (formatted_row cols) st =
  without_wrap <$> for_each (zip (seqZ i (len us)) us) (formatted_row cols) st.
Proof using.
  intros H. revert i st. induction H as [|t u rs us Htu H IH]; intros i st Hl Hf; [done|].
  apply Forall_cons in Hl as [Hlt Hl]. rewrite !len_cons. pose proof (len_nonneg rs). pose proof (len_nonneg us).
  rewrite (seqZ_cons i (len rs + 1)), (seqZ_cons i (len us + 1)) by lia. cbn [zip zip_with for_each].
  replace (Z.pred (len rs + 1)) with (len rs) by lia. replace (Z.pred (len us + 1)) with (len us) by lia.
  destruct st as [[[out p] a] w]. unfold formatted_row at 2 4. destruct (try_from _ _) as [n|]; [|done]. cbn [mbind option_bind].
  rewrite (formatted_row_alike cols n w (Some p) (Some a) t u) by done.
  destruct (Row_write_contents_formatted _ _ _ _ _ _ _) as [[[b p'] a']|]; [|done]. cbn [mbind option_bind].
  destruct rs as [|t2 rs]; [inversion H; by subst|]. cbn [length] in Hf. replace (S (S (length rs)) - 1)%nat with (S (length rs)) in Hf by lia.
  cbn [fmap list_fmap take] in Hf. injection Hf as -> Hf. apply IH; [done|]. cbn [length]. by replace (S (length rs) - 1)%nat with (length rs) by lia.
Qed.

Lemma grid_formatted_alike :
  visible_rows g = Some (rows g) → visible_rows h = Some (rows h) → Forall (λ r, len (cells r) ≤ s_cols (size g)) (rows g) →
  take (length (rows g) - 1) (wrapped <$> rows h) = take (length (rows g) - 1) (wrapped <$> rows g) →
  Grid_write_contents_formatted g = Grid_write_contents_formatted h.
Proof using Hgh.
  intros Hvg Hvh Hl Hf. unfold Grid_write_contents_formatted. rewrite Hvg, Hvh, (ga_size _ _ Hgh). cbn [mbind option_bind].
  pose proof (formatted_rows_alike (s_cols (size g)) (rows g) (rows h) 0
    (ClearAttrs_write_buf ++ ClearScreen_write_buf, Pos_default, Attrs_default, false) (ga_rows _ _ Hgh) Hl Hf) as H.
  destruct (for_each (zip (seqZ 0 (len (rows g))) (rows g)) _ _) as [[[[o p] a] w]|],
    (for_each (zip (seqZ 0 (len (rows h))) (rows h)) _ _) as [[[[o' p'] a'] w']|]; cbn in H; simplify_eq; [|done].
  cbn [mbind option_bind]. by rewrite cursor_alike.
Qed.
End grids.
