(* ===== verification/Vt100Difference.v ===== *)
(** * The difference of two screens

    [Grid::write_contents_diff] on a terminal that shows the old screen: the rows come to
    show the new one, if no wrapped row that stays wrapped is left with the cursor behind it
    and the start of the next row unchanged. *)

From Stdlib Require Import String.
From S2P Require Import Prelude Limits TerminalWidth Emulator Vt100Cell Vt100Row Vt100RowInv Vt100Grid Vt100GridInv Vt100Screen Vt100ScreenInv Vt100Attrs Vt100Parser Vt100Format Vt100Tokens Vt100Canvas Vt100Glyph Vt100Repaint Vt100Roundtrip.

Local Open Scope Z_scope.

(** ** The condition *)

(** The first cell changes. *)
Definition first_differs (t q : Row) : bool :=
  match cells t, cells q with c :: _, d :: _ => negb (Cell_eqb c d) | _, _ => false end.

(** A row that is wrapped before and after: the next row starts anew, or the row ends as before and
    the old cursor does not wait behind it. *)
Definition steady_row (cols i : Z) (cur : Pos) (t q t2 q2 : Row) : bool :=
  negb (wrapped t && wrapped q) || first_differs t2 q2 ||
  same_end (cells t) (cells q) && bool_decide (cur ≠ mkPos i cols).

Fixpoint steady_rows (cols i : Z) (cur : Pos) (l : list (Row * Row)) : bool :=
  match l with
  | (t, q) :: rest =>
      match rest with
      | (t2, q2) :: _ => steady_row cols i cur t q t2 q2
      | [] => true
      end && steady_rows cols (i + 1) cur rest
  | [] => true
  end.

Definition steady (prev s : VtScreen) : bool :=
  steady_rows (s_cols (size (grid s))) 0 (pos (grid prev)) (zip (rows (grid s)) (rows (grid prev))).

Section grid.
Context `{UW : UnicodeWidth} {UWL : UnicodeWidthLaws UW} `{D : Discipline} `{IT : Itoa} {IL : ItoaLaws IT}.
Context (sz : Size) (Hsz : size_safe sz) (G : Grid) (HG : ready sz G) (Hstrict : strict = true).

(** The old cursor, and where the terminal stood before. *)
Context (cur : Pos) (start : Grid * Attrs).

Lemma near_mark wrapping rs up :
  Forall2 near rs up → (wrapping = true → ∃ A P, up = A ++ [P] ∧ last_filled (cells P)) → Forall2 near rs (mark wrapping up).
Proof using.
  intros Hn Hw. destruct wrapping; [|done]. destruct (Hw eq_refl) as (A & P & -> & Hf). rewrite mark_last.
  apply Forall2_app_inv_r in Hn as (A0 & B0 & HA & HB & ->). inversion HB as [|t ? ? ? [Hc _] Hn]; subst. inversion Hn; subst.
  apply Forall2_app; [done|]. constructor; [|constructor]. by split.
Qed.

(** The wrapped row before the next one: the terminal waits behind it and the next row
    starts anew, or it is marked and the terminal does not wait there. *)
Definition goes_on (n : Z) (up : list Row) (p : Pos) (prev_wrapping : bool) (todo : list (Row * Row)) : Prop :=
  (∃ A P, up = A ++ [P] ∧ len (cells P) = s_cols sz ∧ last_filled (cells P)) ∧
  (p = mkPos (n - 1) (s_cols sz) ∧ (prev_wrapping = true → ∀ t q rest, todo = (t, q) :: rest → first_differs t q = true) ∨
   prev_wrapping = true ∧ mark true up = up ∧ (p_row p + 1 = n → p_col p < s_cols sz)).

(** The rows [us] that the terminal still shows of the old screen. *)
Definition still_shown (todo : list (Row * Row)) (us : list Row) : Prop :=
  Forall2 (λ r u, near r.2 u) todo us ∧
  take (length todo - 1) (wrapped <$> us) = take (length todo - 1) (wrapped <$> todo.*2).

(** The loop over the rows: those written, and the old ones below. *)
Definition rows_changed (done : list Row) (todo : list (Row * Row)) (st : bytes * Pos * Attrs * bool * bool) : Prop :=
  let '(out, p, a, wrapping, prev_wrapping) := st in
  attrs_ok a ∧ pos_ok sz p ∧ (p = cur ∨ p_row p < len done) ∧
  ∃ up us, drawn out start (canvas G (up ++ us) p, a) ∧ Forall2 near done up ∧ still_shown todo us ∧
    (todo ≠ [] → wrapped <$> mark wrapping up = wrapped <$> done) ∧
    (todo = [] → take (length done - 1) (wrapped <$> up) = take (length done - 1) (wrapped <$> done)) ∧
    (todo ≠ [] → wrapping = true → goes_on (len done) up p prev_wrapping todo).

Lemma first_differs_cells t q c d :
  first_differs t q = true → head (cells t) = Some c → head (cells q) = Some d → Cell_eqb c d = false.
Proof using.
  unfold first_differs. destruct (cells t), (cells q); try done. cbn. intros He [= ->] [= ->]. by apply negb_true_iff.
Qed.

(** The row that is written next: how the terminal enters it. *)
Lemma change_row_drawn done t q todo out p a wrapping prev_wrapping up u us :
  rows_changed done ((t, q) :: todo) (out, p, a, wrapping, prev_wrapping) →
  drawn out start (canvas G (up ++ u :: us) p, a) → Forall2 near done up → near q u →
  (wrapping = true → goes_on (len done) up p prev_wrapping ((t, q) :: todo)) →
  row_ok (s_cols sz) t → row_ok (s_cols sz) q → len done < s_rows sz →
  ∃ b p' a' w X, Row_write_contents_diff q 0 (s_cols sz) (len done) wrapping prev_wrapping p a t = Some (b, p', a') ∧
    row_done sz G (len done) wrapping up us (canvas G (up ++ u :: us) p, a) (cells t) (cells q) (wrapped u) p
      (wrapped t) (wrapped q) b p' a' w X.
Proof using HG Hsz Hstrict IL UWL.
  intros (Ha & Hp & _) _ Hup [Hqu Hfu] Hon (HlT & HpT & HwT) (HlQ & HpQ & HwQ) Hlt. pose proof (len_nonneg done).
  assert (len up = len done) as Hlu by (unfold len; by rewrite (Forall2_length _ _ _ Hup)).
  set (entered := negb (bool_decide (wrapping = true ∧ p = mkPos (len done - 1) (s_cols sz)))).
  assert (canvas G (up ++ u :: us) p = paper G wrapping up us entered (wrapped u) (cells u) p) as Hpaper.
  { unfold paper. replace (mkRow (cells u) (wrapped u)) with u by (by destruct u). destruct wrapping; [|done]. unfold entered. case_bool_decide as Hb; [done|].
    destruct (Hon eq_refl) as [_ [[Hpp _]|(_ & Hm & _)]]; [by destruct Hb|]. cbn [negb andb]. by rewrite Hm. }
  destruct t as [T wt], q as [P wp]. cbn [cells wrapped] in *.
  apply (row_diff_drawn sz Hsz G HG (len done) wrapping up us _) with (entered := entered) (Y := cells u); try done; try (by rewrite Hpaper); try lia.
  - intros Hw. destruct (Hon Hw) as [(A & R & ?) _]. by exists A, R.
  - intros Hw. unfold entered. destruct (Hon Hw) as [_ Hcase]. case_bool_decide as Hb; cbn [negb].
    + destruct Hb as [_ Hpp]. split; [done|]. intros Hpw c d Hc Hd. destruct Hcase as [[_ Hfd]|(_ & _ & Hnp)].
      * by apply (first_differs_cells (mkRow T wt) (mkRow P wp)); [apply (Hfd Hpw _ _ todo)|..].
      * rewrite Hpp in Hnp. cbn in Hnp. lia.
    + destruct Hcase as [[Hpp _]|(Hpw & _ & Hnp)]; [by destruct Hb|done].
  - intros Hw. by apply HwT.
  - intros Hw. by apply HwQ.
Qed.

(** How the row after it will be entered. *)
Lemma goes_on_after done t q todo p wrapping up u us b p' a' w X st :
  row_done sz G (len done) wrapping up us st (cells t) (cells q) (wrapped u) p (wrapped t) (wrapped q) b p' a' w X →
  (p = cur ∨ p_row p < len done) → steady_rows (s_cols sz) (len done) cur ((t, q) :: todo) = true →
  wrapped u = wrapped q → row_ok (s_cols sz) t → todo ≠ [] → wrapped t = true →
  goes_on (len (done ++ [t])) (mark wrapping up ++ [mkRow X w]) p' (wrapped q) todo.
Proof using Hstrict.
  intros [_ _ Hp' Hal _ Hmark _ Hfrom] Hcur Hsteady Hu (HlT & _ & HwT) Hne Hw. rewrite len_app. change (len [t]) with 1. split.
  { eexists _, _. split_and!; [done|cbn; rewrite <- HlT; unfold len; by rewrite (Forall2_length _ _ _ Hal)|]. cbn. by apply (alike_last (cells t)), HwT. }
  specialize (Hmark Hw). cbn [steady_rows] in Hsteady. destruct todo as [|[t2 q2] rest]; [done|].
  apply andb_prop in Hsteady as [Hsteady _]. unfold steady_row in Hsteady. rewrite Hw in Hsteady. cbn [andb] in Hsteady.
  destruct (decide (p' = mkPos (len done) (s_cols sz))) as [Hpp|Hnp]; [left|right].
  - split; [by replace (len done + 1 - 1) with (len done) by lia|]. intros Hq t3 q3 rest3 [= <- <- <-]. rewrite Hq in Hsteady. cbn [negb orb] in Hsteady.
    apply orb_prop in Hsteady as [|[Hs Hc%bool_decide_eq_true]%andb_prop]; [done|]. exfalso.
    destruct Hfrom as [->|[_ Hcol]]; [|rewrite Hpp in Hcol; cbn in Hcol; rewrite Hw, Hq in Hcol; specialize (Hcol eq_refl Hs); lia].
    destruct Hcur as [->|Hlt]; [done|]. rewrite Hpp in Hlt. cbn in Hlt. lia.
  - destruct Hmark as [|(Hq & Hww & _ & _)]; [done|]. split_and!; [done| |].
    + rewrite mark_last, Hww, Hu, Hq. done.
    + intros Hr. destruct Hp' as [_ Hc]. assert (p_col p' ≠ s_cols sz) as Hcne; [|lia].
      intros Hcol. apply Hnp. destruct p' as [r c]. cbn in *. f_equal; lia.
Qed.

Lemma diff_row_drawn done t q todo st :
  rows_changed done ((t, q) :: todo) st → row_ok (s_cols sz) t → row_ok (s_cols sz) q → len done < s_rows sz →
  steady_rows (s_cols sz) (len done) cur ((t, q) :: todo) = true →
  ∃ st', diff_row (s_cols sz) (len done, (t, q)) st = Some st' ∧ rows_changed (done ++ [t]) todo st'.
Proof using HG Hsz Hstrict IL UWL.
  destruct st as [[[[out p] a] wrapping] prev_wrapping]. intros Hst Ht Hq Hlt Hsteady.
  pose proof Hst as (_ & _ & Hcur & up & us & Hd & Hup & [Hus Hfl] & Hflags & _ & Hon). pose proof (len_nonneg done).
  inversion Hus as [|? u ? us' Hqu Hus']; subst. cbn [snd] in Hqu. specialize (Hflags ltac:(done)). specialize (Hon ltac:(done)).
  unfold diff_row, try_from. replace (_ && _) with true by safe. cbn [mbind option_bind].
  destruct (change_row_drawn done t q todo out p a wrapping prev_wrapping up u us') as (b & p' & a' & w & X & -> & Hrd); try done.
  cbn [mbind option_bind]. eexists. split; [done|].
  assert (todo ≠ [] → wrapped u = wrapped q ∧ still_shown todo us') as Hrest.
  { intros Hne. destruct todo as [|r todo]; [done|]. cbn [length] in Hfl. replace (S (S (length todo)) - 1)%nat with (S (length todo)) in Hfl by lia.
    cbn [fmap list_fmap take] in Hfl. injection Hfl as Hw Hfl. split; [done|]. split; [done|].
    cbn [length]. replace (S (length todo) - 1)%nat with (length todo) by lia. exact Hfl. }
  pose proof Hrd as [Hdr Ha' Hp' Hal Hflag _ Hun Hfrom].
  split_and!; [done|done| |].
  { rewrite len_app. change (len [t]) with 1. destruct Hfrom as [->|[Hr _]]; [destruct Hcur; [by left|right; lia]|right; lia]. }
  exists (mark wrapping up ++ [mkRow X w]), us'. split_and!.
  - rewrite <- app_assoc. eapply drawn_app; [exact Hd|]. unfold paper in Hdr. rewrite andb_true_r in Hdr. exact Hdr.
  - apply Forall2_app; [|constructor; [by split|constructor]]. apply near_mark; [done|]. intros Hw. destruct (Hon Hw) as [(A & P & ? & _ & ?) _]. by exists A, P.
  - destruct (decide (todo = [])) as [->|Hne]; [|by apply Hrest]. by inversion Hus'.
  - intros Hne. rewrite mark_last, !fmap_app, Hflags. cbn [fmap list_fmap]. destruct (wrapped t) eqn:Hwt; [done|].
    destruct (Hrest Hne) as [Hwu _]. rewrite Hun; [done|done|]. rewrite Hwu. destruct (wrapped q); auto.
  - intros _. rewrite length_app. cbn [length]. replace (length done + 1 - 1)%nat with (length done) by lia. rewrite !fmap_app, <- Hflags.
    assert (length done = length (wrapped <$> mark wrapping up)) as Hl by (by rewrite Hflags, length_fmap). rewrite Hl at 1 2. by rewrite !take_app_length.
  - intros Hne Hw. destruct (Hrest Hne) as [Hwu _]. by eapply goes_on_after.
Qed.

Lemma diff_rows_drawn todo done st :
  rows_changed done todo st → Forall (λ r, row_ok (s_cols sz) r.1 ∧ row_ok (s_cols sz) r.2) todo → len done + len todo ≤ s_rows sz →
  steady_rows (s_cols sz) (len done) cur todo = true →
  ∃ st', for_each (zip (seqZ (len done) (len todo)) todo) (diff_row (s_cols sz)) st = Some st' ∧ rows_changed (done ++ todo.*1) [] st'.
Proof using HG Hsz Hstrict IL UWL.
  intros Hst Htodo. revert done st Hst. induction Htodo as [|[t q] todo [Ht Hq] Htodo IH]; intros done st Hst Hlen Hsteady.
  { exists st. by rewrite app_nil_r. }
  rewrite len_cons in Hlen. pose proof (len_nonneg todo). rewrite seqZ_next. cbn [zip zip_with for_each].
  destruct (diff_row_drawn done t q todo st Hst Ht Hq) as (st1 & -> & Hst1); [lia|done|]. cbn [mbind option_bind].
  assert (len (done ++ [t]) = len done + 1) as Hl by (by rewrite len_app).
  destruct (IH (done ++ [t]) st1 Hst1) as (st2 & H2 & Hst2); [lia|cbn [steady_rows] in Hsteady; rewrite Hl; by apply andb_prop in Hsteady as [_ ?]|].
  rewrite Hl in H2. exists st2. split; [done|]. by rewrite <- app_assoc in Hst2.
Qed.
End grid.

Section screen.
Context `{UW : UnicodeWidth} {UWL : UnicodeWidthLaws UW} `{D : Discipline} `{IT : Itoa} {IL : ItoaLaws IT}.
Context (sz : Size) (Hsz : size_safe sz) (G : Grid) (HG : ready sz G) (Hstrict : strict = true).

(** [Grid::write_contents_diff] *)
Lemma grid_changed prev g us a :
  live sz prev → live sz g → pictured (rows prev) us → attrs_ok a →
  steady_rows (s_cols sz) 0 (pos prev) (zip (rows g) (rows prev)) = true →
  ∃ b a', Grid_write_contents_diff prev a g = Some (b, a') ∧ attrs_ok a' ∧
    ∀ s, ∃ G' v up, ready sz G' ∧ pictured (rows g) up ∧
      paints b (put (canvas G us (pos prev)) a s) (put (canvas G' up (pos g)) a' (set_saved_attrs v s)).
Proof using HG Hsz Hstrict IL UWL.
  intros Hp Hg [Hnear Hfl] Ha Hsteady. unfold Grid_write_contents_diff.
  rewrite (visible_rows_live sz g (proj1 Hg)), (visible_rows_live sz prev (proj1 Hp)). cbn [mbind option_bind].
  assert (length (rows g) = length (rows prev)) as Hlen by (pose proof (proj2 Hg); pose proof (proj2 Hp); unfold len in *; lia).
  set (pairs := zip (rows g) (rows prev)) in *.
  assert (pairs.*1 = rows g ∧ pairs.*2 = rows prev) as [H1 H2] by (unfold pairs; rewrite fst_zip, snd_zip by lia; done).
  assert (length pairs = length (rows prev)) as Hlp by (by rewrite <- H2, length_fmap).
  assert (len pairs = s_rows sz) as Hls by (rewrite <- (proj2 Hp); unfold len; by rewrite Hlp).
  rewrite (live_size sz g Hg).
  destruct (diff_rows_drawn sz Hsz G HG Hstrict (pos prev) (canvas G us (pos prev), a) pairs [] ([], pos prev, a, false, false))
    as ([[[[out p1] a1] w] pw] & Hf & Ha1 & Hp1 & _ & up & us' & Hd & Hnup & [Hus' _] & _ & Hflags & _).
  { split_and!; [done|apply (live_pos sz prev Hp)|by left|]. exists [], us. split_and!; try done; [apply drawn_nil|].
    split; [|by rewrite Hlp, H2]. rewrite <- H2 in Hnear. by rewrite Forall2_fmap_l in Hnear. }
  { apply Forall_forall. intros [t q] Hin. pose proof (elem_of_zip_l _ _ _ _ Hin). pose proof (elem_of_zip_r _ _ _ _ Hin).
    pose proof (go_row _ _ (proj1 Hg)) as Hrg. pose proof (go_row _ _ (proj1 Hp)) as Hrp. rewrite Forall_forall in Hrg, Hrp. split; [by apply Hrg|by apply Hrp]. }
  { change (len (@nil Row)) with 0. lia. }
  { done. }
  change (len (@nil Row)) with 0 in Hf. rewrite Hf. cbn [mbind option_bind]. cbn [app] in Hnup, Hflags. rewrite H1 in Hnup, Hflags.
  inversion Hus'; subst. rewrite app_nil_r in Hd.
  destruct (cursor_drawn sz Hsz G HG Hstrict g up p1 a1 Hg Hnup Ha1 Hp1) as (cr & -> & Hcur). cbn [mbind option_bind].
  eexists _, a1. split_and!; [done|done|]. intros s. destruct (Hcur s) as (G' & v & up' & HG' & [Hn' Hf'] & Hpaint).
  exists G', v, up'. split_and!; [done|split; [done|rewrite Hf'; by apply Hflags]|]. eapply paints_app; [apply (Hd s)|exact Hpaint].
Qed.
End screen.
