(* ===== verification/Vt100Ansi.v ===== *)
(** * A parser of tokens

    A concrete parser that meets what the development relies on of the [vte] crate:
    characters in UTF-8, control codes, escape sequences, and control sequences with numeric
    parameters that saturate at 16 bits. *)

From S2P Require Import Prelude TerminalWidth Emulator Vt100Cell Vt100RowInv Vt100Attrs Vt100Tokens.

Local Open Scope Z_scope.

(** The parameters of a control sequence, and the rest from the final byte on. *)
Fixpoint read_params (l : bytes) (current : Z) (params : list (list Z)) : list (list Z) * bytes :=
  match l with
  | b :: rest =>
      if between 48 57 b then read_params rest (Z.min U16_MAX (current * 10 + (b - 48))) params
      else if b =? 59 then read_params rest 0 (params ++ [[current]])
      else (params ++ [[current]], l)
  | [] => (params, [])
  end.

(** The first character; an ill-formed one is replaced. *)
Definition REPLACEMENT : Z := 0xfffd.
Definition scalar (c : Z) : bool := between 0 0xd7ff c || between 0xe000 0x10ffff c.
Definition first_char (l : bytes) : Z :=
  match utf8_chars (take 4 l) with c :: _ => if scalar c then c else REPLACEMENT | [] => REPLACEMENT end.

(** One token; [None] at the end of the input. *)
Definition next_csi (private : bytes) (l : bytes) : option (VteEvent * bytes) :=
  match read_params l 0 [] with
  | (params, final :: rest) => Some (CsiDispatch params private final, rest)
  | (_, []) => None
  end.

Definition next_event (l : bytes) : option (VteEvent * bytes) :=
  match l with
  | [] => None
  | b :: rest =>
      if b =? 27 then
        match rest with
        | b2 :: rest2 =>
            if b2 =? 91 then
              match rest2 with
              | b3 :: rest3 => if b3 =? 63 then next_csi [63] rest3 else next_csi [] rest2
              | [] => None
              end
            else Some (EscDispatch [] b2, rest2)
        | [] => None
        end
      else if b <? 32 then Some (Execute b, rest)
      else Some (Print (first_char l), drop (Z.to_nat (len_utf8 (first_char l))) l)
  end.

Fixpoint ansi_events (fuel : nat) (l : bytes) : list VteEvent :=
  match fuel with
  | O => []
  | S f => match next_event l with Some (e, rest) => e :: ansi_events f rest | None => [] end
  end.

#[local] Instance ansi_vte : Vte :=
  {| VteParser := unit; vte_new := tt; vte_advance _ l := (tt, ansi_events (length l) l) |}.

(** ** Its laws *)
Lemma read_params_typed l current params :
  is_u16 current → Forall (Forall is_u16) params → Forall (Forall is_u16) (read_params l current params).1.
Proof.
  revert current params. induction l as [|b l IH]; intros current params Hc Hp; [done|]. cbn [read_params].
  assert (Forall (Forall is_u16) (params ++ [[current]])) as Hp' by (apply Forall_app; by rewrite !Forall_singleton).
  destruct (between 48 57 b) eqn:Hb; [|by destruct (b =? 59); [apply IH|]].
  apply IH; [|done]. unfold between in Hb. unfold is_u16, U16_MAX in *. lia.
Qed.

Lemma next_csi_typed private l e rest : next_csi private l = Some (e, rest) → event_typed e.
Proof.
  unfold next_csi. pose proof (read_params_typed l 0 [] ltac:(by vm_compute) ltac:(constructor)) as H.
  destruct (read_params l 0 []) as [params [|final r]]; [done|]. by intros [= <- _].
Qed.

Lemma first_char_scalar l : is_scalar (first_char l).
Proof.
  unfold first_char, scalar, between, is_scalar, REPLACEMENT. destruct (utf8_chars _) as [|c k]; [right; lia|].
  destruct (_ || _) eqn:E; lia.
Qed.

Lemma next_event_typed l e rest : next_event l = Some (e, rest) → event_typed e.
Proof.
  unfold next_event. destruct l as [|b l]; [done|].
  destruct (b =? 27).
  - destruct l as [|b2 l]; [done|]. destruct (b2 =? 91); [|by intros [= <- _]]. destruct l as [|b3 l]; [done|].
    destruct (b3 =? 63); apply next_csi_typed.
  - destruct (b <? 32); [by intros [= <- _]|]. intros [= <- _]. apply first_char_scalar.
Qed.

#[local] Instance ansi_typed : VteTyped ansi_vte.
Proof.
  intros p l. cbn. generalize (length l). intros f. revert l. induction f as [|f IH]; intros l; [constructor|]. cbn [ansi_events].
  destruct (next_event l) as [[e rest]|] eqn:He; [|constructor]. constructor; [by eapply next_event_typed|apply IH].
Qed.

(** Numbers are read back. *)
Lemma read_digits f i l params :
  0 ≤ i < 10 ^ Z.of_nat f → i ≤ U16_MAX → (1 ≤ f)%nat → read_params (digits f i ++ l) 0 params = read_params l i params.
Proof.
  revert i l. induction f as [|f IH]; intros i l Hi Hu Hf; [lia|]. cbn [digits].
  destruct (Z.ltb_spec i 10).
  - cbn [app read_params]. replace (between 48 57 (48 + i)) with true by (unfold between; lia).
    f_equal. unfold U16_MAX. lia.
  - assert (1 ≤ f)%nat as Hf' by (destruct f; [|lia]; cbn in Hi; lia).
    pose proof (Z.div_mod i 10 ltac:(lia)). pose proof (Z.mod_pos_bound i 10 ltac:(lia)).
    rewrite <- app_assoc. cbn [app]. rewrite IH; [|split; [lia|]|lia|done].
    + cbn [read_params]. replace (between 48 57 _) with true by (unfold between; lia). f_equal. lia.
    + rewrite Nat2Z.inj_succ, Z.pow_succ_r in Hi by lia. lia.
Qed.

Lemma read_decimal i l params : is_u16 i → read_params (decimal i ++ l) 0 params = read_params l i params.
Proof. intros Hi. unfold is_u16, U16_MAX in Hi. apply read_digits; [split; [lia|]; change (10 ^ Z.of_nat 5) with 100000; lia|unfold U16_MAX; lia|lia]. Qed.

Lemma read_list ns final rest params :
  Forall is_u16 ns → ns ≠ [] → 64 ≤ final ≤ 126 →
  read_params (separated [59] (decimal <$> ns) ++ final :: rest) 0 params = (params ++ as_params ns, final :: rest).
Proof.
  intros Hns Hne Hf. revert params. induction Hns as [|n ns Hn Hns IH]; intros params; [done|].
  destruct ns as [|m ns].
  - cbn [fmap list_fmap separated]. rewrite read_decimal by done. cbn [read_params].
    replace (between 48 57 final) with false by (unfold between; lia). by replace (final =? 59) with false by lia.
  - change (separated [59] (decimal <$> n :: m :: ns)) with (decimal n ++ [59] ++ separated [59] (decimal <$> m :: ns)).
    rewrite <- !app_assoc. rewrite read_decimal by done. cbn [app read_params].
    replace (between 48 57 59) with false by done. rewrite Z.eqb_refl. rewrite IH by done. by rewrite <- app_assoc.
Qed.

Lemma next_csi_list private ns final rest :
  Forall is_u16 ns → 64 ≤ final ≤ 126 →
  next_csi private (separated [59] (decimal <$> ns) ++ final :: rest) =
    Some (CsiDispatch (if bool_decide (ns = []) then [[0]] else as_params ns) private final, rest).
Proof.
  intros Hns Hf. unfold next_csi. case_bool_decide as He.
  - subst ns. cbn [fmap list_fmap separated app read_params].
    replace (between 48 57 final) with false by (unfold between; lia). by replace (final =? 59) with false by lia.
  - by rewrite read_list.
Qed.

(** The byte after [ESC \[] tells a private sequence. *)
Lemma csi_head ns final rest :
  Forall is_u16 ns → 64 ≤ final ≤ 126 →
  ∃ b k, separated [59] (decimal <$> ns) ++ final :: rest = b :: k ∧ (b =? 63) = false.
Proof.
  intros Hns Hf. destruct Hns as [|n ns Hn Hns]; [exists final, rest; split; [done|lia]|].
  assert (∀ f i, 0 ≤ i → ∃ b k, digits (S f) i = b :: k ∧ 48 ≤ b ≤ 57) as Hd.
  { intros f. induction f as [|f IH]; intros i Hi.
    - cbn. pose proof (Z.mod_pos_bound i 10 ltac:(lia)). destruct (Z.ltb_spec i 10); (eexists _, _; split; [done|lia]).
    - change (digits (S (S f)) i) with (if i <? 10 then [48 + i] else digits (S f) (i / 10) ++ [48 + i mod 10]).
      destruct (Z.ltb_spec i 10); [eexists _, _; split; [done|lia]|].
      destruct (IH (i / 10)) as (b & k & -> & Hb); [by apply Z.div_pos|]. by eexists b, _. }
  destruct (Hd 4%nat n) as (b & k & Hb & Hr); [apply Hn|]. change (digits 5 n) with (decimal n) in Hb.
  destruct ns as [|m ns].
  - cbn [fmap list_fmap separated]. rewrite Hb. eexists b, _. split; [done|lia].
  - change (separated [59] (decimal <$> n :: m :: ns)) with (decimal n ++ [59] ++ separated [59] (decimal <$> m :: ns)).
    rewrite Hb. eexists b, _. split; [done|lia].
Qed.

Lemma take_encode c rest : ∃ k, take 4 (encode_utf8 c ++ rest) = encode_utf8 c ++ k.
Proof.
  pose proof (len_encode_utf8 c) as Hl. pose proof (len_utf8_bounds c). unfold len in Hl.
  rewrite take_app. rewrite take_ge by lia. by eexists.
Qed.

Lemma next_token t rest : token_ok t → next_event (token_bytes t ++ rest) = Some (token_event t, rest).
Proof.
  destruct t as [c|b|b|private ns final]; cbn [token_ok token_bytes token_event].
  - intros (Hs & H32 & Hr).
    assert (first_char (encode_utf8 c ++ rest) = c) as Hc.
    { unfold first_char. destruct (take_encode c rest) as [k ->]. rewrite encode_utf8_chars by done.
      unfold scalar, between. replace (_ || _) with true; [done|]. unfold is_scalar in Hs. lia. }
    assert (∃ b k, encode_utf8 c ++ rest = b :: k ∧ 32 ≤ b) as (b & k & Hb & Hb32).
    { unfold encode_utf8. unfold is_scalar in Hs. repeat case_match; cbn [app]; eexists _, _; (split; [done|]).
      - lia.
      - pose proof (Z.div_pos c 64). lia.
      - pose proof (Z.div_pos c 4096). lia.
      - pose proof (Z.div_pos c 262144). lia. }
    unfold next_event. rewrite Hb. replace (b =? 27) with false by lia. replace (b <? 32) with false by lia.
    rewrite <- Hb, Hc. do 2 f_equal. rewrite <- len_encode_utf8. unfold len. by rewrite Nat2Z.id, drop_app_length.
  - by intros [->|[->| ->]].
  - by intros [->|[->|[->| ->]]].
  - intros (Hns & _ & Hf). cbn [app]. unfold next_event. rewrite !Z.eqb_refl.
    pose proof (next_csi_list (if private then [63] else []) ns final rest Hns Hf) as Hn.
    destruct private; cbn [app].
    + rewrite Z.eqb_refl, <- app_assoc. exact Hn.
    + rewrite <- app_assoc. cbn [app]. destruct (csi_head ns final rest Hns Hf) as (b & k & Hb & H63). rewrite Hb in Hn |- *.
      by rewrite H63.
Qed.

Lemma token_nonempty t : (1 ≤ length (token_bytes t))%nat.
Proof.
  destruct t; cbn; try lia. pose proof (len_encode_utf8 c) as Hl. pose proof (len_utf8_bounds c). unfold len in Hl. lia.
Qed.

#[local] Instance ansi_tokens : VteTokens ansi_vte.
Proof.
  intros tokens Ht. cbn [vte_advance ansi_vte snd].
  assert (∀ f, (length tokens ≤ f)%nat → ansi_events f (tokens ≫= token_bytes) = token_event <$> tokens) as H.
  { induction Ht as [|t tokens Hok Ht IH]; intros f Hf.
    - by destruct f.
    - destruct f as [|f]; [cbn in Hf; lia|]. cbn [ansi_events mbind list_bind]. rewrite next_token by done. cbn [fmap list_fmap].
      f_equal. apply IH. cbn in Hf. lia. }
  apply H. clear. induction tokens as [|t tokens IH]; [done|]. rewrite bind_cons, length_app. cbn [length].
  pose proof (token_nonempty t). lia.
Qed.
