(* ===== verification/Vt100Display.v ===== *)
(** * Displaying a screen

    The whole of [state_formatted] on another terminal: contents, cursor, attributes
    and modes arrive. With the parser of the [vte] crate in between, this is the full
    repaint that the client sends to the application's terminal. *)

From Stdlib Require Import String.
From S2P Require Import Prelude Limits TerminalWidth Emulator Terminal Vt100Cell Vt100Row Vt100RowInv Vt100Grid Vt100GridInv Vt100Screen Vt100ScreenInv Vt100Attrs Vt100Parser Vt100Format EmulatorSafety Vt100Tokens Vt100Canvas Vt100Glyph Vt100Repaint Vt100Roundtrip Vt100Alike Vt100Difference Vt100Ansi.

Local Open Scope Z_scope.

(** ** Modes *)
Definition plain_modes : list Z :=
  [MODE_APPLICATION_KEYPAD; MODE_APPLICATION_CURSOR; MODE_HIDE_CURSOR; MODE_BRACKETED_PASTE; MODE_REVERSE_VIDEO].

Ltac in_modes := apply (bool_decide_unpack _); vm_compute; exact I.

Definition toggled (b : bool) (m : Z) (s : VtScreen) : VtScreen := set_modes (set_flag b m (modes s)) s.

Lemma flags_toggled n :
  is_u8 n →
  Forall (λ b, Forall (λ m, has_flag m (set_flag b m n) = b ∧
    Forall (λ m', m' = m ∨ has_flag m' (set_flag b m n) = has_flag m' n) plain_modes) plain_modes) [true; false].
Proof. intros Hn. pattern n. refine (all_u8 _ _ n Hn). vm_compute. reflexivity. Qed.

Lemma toggled_facts b m s :
  is_u8 (modes s) → m ∈ plain_modes →
  is_u8 (modes (toggled b m s)) ∧ grid (toggled b m s) = grid s ∧ mode m (toggled b m s) = b ∧
  (∀ m', m' ∈ plain_modes → m' ≠ m → mode m' (toggled b m s) = mode m' s).
Proof.
  intros Hs Hm. destruct (modes_flag b (modes s) Hs) as (_ & _ & Hf). pose proof (flags_toggled (modes s) Hs) as Ht.
  rewrite Forall_forall in Hf. destruct (Hf m Hm) as [Hu Ha].
  rewrite Forall_forall in Ht. assert (b ∈ [true; false]) as Hb by (destruct b; [left|right; left]).
  specialize (Ht b Hb). rewrite Forall_forall in Ht. destruct (Ht m Hm) as [H1 H2]. rewrite Forall_forall in H2.
  split_and!; [done| |done|].
  - unfold grid, mode. cbn. by rewrite Ha.
  - intros m' Hm' Hne. by destruct (H2 m' Hm') as [|].
Qed.

Section display.
Context `{UW : UnicodeWidth} {UWL : UnicodeWidthLaws UW} `{IT : Itoa} {IL : ItoaLaws IT}.

(** Each mode by its own sequence. *)
Lemma paints_modes b s :
  paints (ReverseVideo_write_buf b) s (toggled b MODE_REVERSE_VIDEO s) ∧
  paints (HideCursor_write_buf b) s (toggled b MODE_HIDE_CURSOR s) ∧
  paints (ApplicationKeypad_write_buf b) s (toggled b MODE_APPLICATION_KEYPAD s) ∧
  paints (ApplicationCursor_write_buf b) s (toggled b MODE_APPLICATION_CURSOR s) ∧
  paints (BracketedPaste_write_buf b) s (toggled b MODE_BRACKETED_PASTE s).
Proof using.
  destruct b; split_and!;
    first [by eapply (paints_decset 5)|by eapply (paints_decset 25)|by eapply (paints_decset 1)|by eapply (paints_decset 2004)
          |by eapply (paints_decrst 5)|by eapply (paints_decrst 25)|by eapply (paints_decrst 1)|by eapply (paints_decrst 2004)
          |apply (paints_escape 61 deckpam); by right; right; left|apply (paints_escape 62 deckpnm); by right; right; right; left].
Qed.

(** The mouse reports are written as a difference to none: [after] is what they become. *)
Definition after {A} `{EqDecision A} (none wanted before : A) : A := if bool_decide (wanted = none) then before else wanted.

Lemma after_none {A} `{EqDecision A} (none before : A) : after none none before = before.
Proof using. unfold after. by rewrite bool_decide_eq_true_2. Qed.
Lemma after_wanted {A} `{EqDecision A} (none wanted before : A) : wanted ≠ none → after none wanted before = wanted.
Proof using. intros Hw. unfold after. by rewrite bool_decide_eq_false_2. Qed.

Lemma paints_mouse_mode m s :
  paints (MouseProtocolMode_write_buf m NoMouse) s (set_mouse_mode (after NoMouse m (mouse_protocol_mode s)) s).
Proof using.
  destruct m; [rewrite after_none|rewrite after_wanted by done..].
  - replace (set_mouse_mode (mouse_protocol_mode s) s) with s by (by destruct s). apply paints_nil.
  - by eapply (paints_decset 9).
  - by eapply (paints_decset 1000).
  - by eapply (paints_decset 1002).
  - by eapply (paints_decset 1003).
Qed.

Lemma paints_mouse_encoding e s :
  paints (MouseProtocolEncoding_write_buf e DefaultEncoding) s
    (set_mouse_encoding (after DefaultEncoding e (mouse_protocol_encoding s)) s).
Proof using.
  destruct e; [rewrite after_none|rewrite after_wanted by done..].
  - replace (set_mouse_encoding (mouse_protocol_encoding s) s) with s by (by destruct s). apply paints_nil.
  - by eapply (paints_decset 1005).
  - by eapply (paints_decset 1006).
Qed.

(** ** Screens *)

(** [r] shows [s]: the same cells, cursor, attributes and modes, and the same flags for
    text that goes on in the next row, the last row apart. *)
Record shows (s r : VtScreen) : Prop := {
  sh_size : size (grid r) = size (grid s);
  sh_cells : Forall2 (λ t u, Forall2 (λ c d, Cell_eqb c d = true) (cells t) (cells u)) (rows (grid s)) (rows (grid r));
  sh_wrapped : take (length (rows (grid s)) - 1) (wrapped <$> rows (grid r)) =
               take (length (rows (grid s)) - 1) (wrapped <$> rows (grid s));
  sh_pos : pos (grid r) = pos (grid s);
  sh_attrs : attrs r = attrs s;
  sh_modes : ∀ m, m ∈ plain_modes → mode m r = mode m s;
}.

(** A terminal to display on: the whole screen scrolls, and the origin is its corner. *)
Record display (sz : Size) (r : VtScreen) : Prop := {
  dp_ready : ready sz (grid r);
  dp_rows : Forall (text_row sz) (rows (grid r));
  dp_len : len (rows (grid r)) = s_rows sz;
  dp_modes : is_u8 (modes r);
}.

Lemma canvas_same (g : Grid) : canvas g (rows g) (pos g) = g.
Proof using. by destruct g. Qed.

Lemma put_fields g a s :
  modes (put g a s) = modes s ∧ mouse_protocol_mode (put g a s) = mouse_protocol_mode s ∧
  mouse_protocol_encoding (put g a s) = mouse_protocol_encoding s.
Proof using. both_grids s. Qed.

Lemma pictured_cells rs up :
  pictured rs up → Forall2 (λ t u, Forall2 (λ c d, Cell_eqb c d = true) (cells t) (cells u)) rs up.
Proof using.
  intros [Hn _]. eapply Forall2_impl; [exact Hn|]. intros t u [Hc _]. eapply Forall2_impl; [exact Hc|]. apply alike_eqb.
Qed.

(** The sequences after the contents. *)
Lemma paints_input_modes s r :
  is_u8 (modes r) → reverse_video r = reverse_video s → hide_cursor r = hide_cursor s →
  ∃ r', paints (write_input_mode_formatted s) r r' ∧ grid r' = grid r ∧ attrs r' = attrs r ∧
    (∀ m, m ∈ plain_modes → mode m r' = mode m s) ∧ is_u8 (modes r') ∧
    mouse_protocol_mode r' = after NoMouse (mouse_protocol_mode s) (mouse_protocol_mode r) ∧
    mouse_protocol_encoding r' = after DefaultEncoding (mouse_protocol_encoding s) (mouse_protocol_encoding r).
Proof using.
  intros Hu Hrv Hhc. unfold write_input_mode_formatted.
  set (r1 := toggled (mode MODE_APPLICATION_KEYPAD s) MODE_APPLICATION_KEYPAD r).
  set (r2 := toggled (mode MODE_APPLICATION_CURSOR s) MODE_APPLICATION_CURSOR r1).
  set (r3 := toggled (mode MODE_BRACKETED_PASTE s) MODE_BRACKETED_PASTE r2).
  destruct (toggled_facts (mode MODE_APPLICATION_KEYPAD s) MODE_APPLICATION_KEYPAD r Hu ltac:(in_modes)) as (Hu1 & Hg1 & Ho1 & Hk1).
  fold r1 in Hu1, Hg1, Ho1, Hk1.
  destruct (toggled_facts (mode MODE_APPLICATION_CURSOR s) MODE_APPLICATION_CURSOR r1 Hu1 ltac:(in_modes)) as (Hu2 & Hg2 & Ho2 & Hk2).
  fold r2 in Hu2, Hg2, Ho2, Hk2.
  destruct (toggled_facts (mode MODE_BRACKETED_PASTE s) MODE_BRACKETED_PASTE r2 Hu2 ltac:(in_modes)) as (Hu3 & Hg3 & Ho3 & Hk3).
  fold r3 in Hu3, Hg3, Ho3, Hk3.
  set (r4 := set_mouse_mode (after NoMouse (mouse_protocol_mode s) (mouse_protocol_mode r3)) r3).
  exists (set_mouse_encoding (after DefaultEncoding (mouse_protocol_encoding s) (mouse_protocol_encoding r4)) r4). split_and!.
  - do 3 (eapply paints_app; [apply paints_modes|]). eapply paints_app; [apply paints_mouse_mode|apply paints_mouse_encoding].
  - change (grid (set_mouse_encoding _ _)) with (grid r3). congruence.
  - done.
  - intros m Hin. change (mode m (set_mouse_encoding _ _)) with (mode m r3).
    unfold reverse_video, hide_cursor in *. repeat (apply elem_of_cons in Hin as [->|Hin]); [..|by apply not_elem_of_nil in Hin].
    all: rewrite ?Hk3, ?Hk2, ?Hk1 by (in_modes || done); done.
  - exact Hu3.
  - done.
  - done.
Qed.

(** Marked rows end in text. *)
#[local] Instance strict_rows : Discipline := {| strict := true |}.

(** The terminal [r] shows [s] and can be sent the difference to another screen: the
    cells are alike and a mark stands only behind text. *)
Record pictures (sz : Size) (s r : VtScreen) : Prop := {
  pc_ready : ready sz (grid r);
  pc_rows : pictured (rows (grid s)) (rows (grid r));
  pc_pos : pos (grid r) = pos (grid s);
  pc_attrs : attrs r = attrs s;
  pc_modes : ∀ m, m ∈ plain_modes → mode m r = mode m s;
  pc_u8 : is_u8 (modes r);
}.

Lemma pictures_shows sz s r : screen_ok sz s → pictures sz s r → shows s r.
Proof using.
  intros Hs [Hr Hrows Hp Ha Hm _]. split; try done; [|by apply pictured_cells|apply Hrows].
  by rewrite (rd_size _ _ Hr), (live_size sz _ (screen_grid sz s Hs)).
Qed.

(** What shows a screen is written with the same bytes. *)
Lemma pictures_formatted sz s r :
  screen_ok sz s → pictures sz s r → mouse_protocol_mode r = mouse_protocol_mode s → mouse_protocol_encoding r = mouse_protocol_encoding s →
  VtScreen_state_formatted r = VtScreen_state_formatted s.
Proof using.
  intros Hs [Hr [Hn Hw] Hp Ha Hm _] Hmm Hme. pose proof (screen_grid sz s Hs) as Hg.
  unfold VtScreen_state_formatted, write_contents_formatted, write_input_mode_formatted, reverse_video, hide_cursor.
  rewrite !Hm by in_modes. rewrite Ha, Hmm, Hme, <- (grid_formatted_alike (grid s) (grid r)); try done.
  - split; [by rewrite (rd_size _ _ Hr), (live_size sz _ Hg)|done|]. eapply Forall2_impl; [exact Hn|]. by intros t u [? _].
  - apply (visible_rows_live sz), Hg.
  - apply visible_rows_all; apply (rd_scrollback _ _ Hr).
  - eapply Forall_impl; [apply Hg|]. intros t (Hl & _). rewrite (live_size sz _ Hg). lia.
Qed.

Lemma screen_repainted sz s r :
  size_safe sz → screen_ok sz s → display sz r →
  ∃ b r', VtScreen_state_formatted s = Some b ∧ paints b r r' ∧ pictures sz s r' ∧
    mouse_protocol_mode r' = after NoMouse (mouse_protocol_mode s) (mouse_protocol_mode r) ∧
    mouse_protocol_encoding r' = after DefaultEncoding (mouse_protocol_encoding s) (mouse_protocol_encoding r).
Proof using IL UWL.
  intros Hsz Hs [Hready Hrows Hlen Hu]. pose proof (screen_grid sz s Hs) as Hg.
  set (r1 := toggled (reverse_video s) MODE_REVERSE_VIDEO r). set (r2 := toggled (hide_cursor s) MODE_HIDE_CURSOR r1).
  destruct (toggled_facts (reverse_video s) MODE_REVERSE_VIDEO r Hu ltac:(in_modes)) as (Hu1 & Hg1 & Ho1 & Hk1). fold r1 in Hu1, Hg1, Ho1, Hk1.
  destruct (toggled_facts (hide_cursor s) MODE_HIDE_CURSOR r1 Hu1 ltac:(in_modes)) as (Hu2 & Hg2 & Ho2 & Hk2). fold r2 in Hu2, Hg2, Ho2, Hk2.
  destruct (grid_repainted (D:=strict_rows) sz Hsz (grid r) Hready eq_refl (grid s) (rows (grid r)) (pos (grid r)) (attrs r) Hg Hrows Hlen)
    as (b & a' & HGf & Ha' & Hb).
  destruct (Hb r2) as (G' & v & up & HG' & Hup & Hpaint). rewrite canvas_same, <- Hg1, <- Hg2 in Hpaint.
  change (attrs r) with (attrs r2) in Hpaint. rewrite put_same in Hpaint.
  destruct (drawn_attrs (attrs s) a' (canvas G' up (pos (grid s))) (so_attrs _ _ Hs) Ha') as (tail & Htf & Htail).
  assert (VtScreen_state_formatted s = Some ((ReverseVideo_write_buf (reverse_video s) ++ HideCursor_write_buf (hide_cursor s) ++ b ++ tail)
    ++ write_input_mode_formatted s)) as Hsf.
  { unfold VtScreen_state_formatted, write_contents_formatted. rewrite HGf. cbn [mbind option_bind]. by rewrite Htf. }
  set (r3 := put (canvas G' up (pos (grid s))) (attrs s) (set_saved_attrs v r2)).
  destruct (put_fields (canvas G' up (pos (grid s))) (attrs s) (set_saved_attrs v r2)) as (Hmo & Hmm & Hme).
  fold r3 in Hmo, Hmm, Hme. change (modes (set_saved_attrs v r2)) with (modes r2) in Hmo.
  destruct (paints_input_modes s r3) as (r4 & Hp4 & Hg4 & Ha4 & Hmodes & Hu4 & Hm4 & He4).
  { by rewrite Hmo. }
  { unfold reverse_video in *. unfold mode at 1. rewrite Hmo. change (has_flag _ (modes r2)) with (mode MODE_REVERSE_VIDEO r2).
    rewrite Hk2 by (in_modes || done). exact Ho1. }
  { unfold hide_cursor in *. unfold mode at 1. rewrite Hmo. exact Ho2. }
  unfold r3 in Hg4. rewrite put_grid in Hg4.
  eexists _, r4. split_and!; [exact Hsf| | |by rewrite Hm4, Hmm|by rewrite He4, Hme].
  - rewrite <- !app_assoc. eapply paints_app; [apply paints_modes|]. eapply paints_app; [apply paints_modes|]. fold r1 r2.
    eapply paints_app; [exact Hpaint|]. eapply paints_app; [apply (Htail (set_saved_attrs v r2))|exact Hp4].
  - split; rewrite ?Hg4; try done. by destruct HG'.
Qed.
End display.

(** ** The screens of the client *)
Section claims.
Context `{UW : UnicodeWidth} {UWL : UnicodeWidthLaws UW} `{IT : Itoa} {IL : ItoaLaws IT}.
Context `{VTE : Vte} {VT : VteTyped VTE} {VTK : VteTokens VTE}.

(** Screens as [safe_screen], made without a resize that leaves the scroll region a single row. *)
Inductive tidy_screen : VtScreen → Prop :=
  | tidy_new rows cols s :
      size_safe (mkSize rows cols) → screen_new rows cols = Some s → tidy_screen s
  | tidy_process s l s' u :
      tidy_screen s → screen_process s l = Some (s', u) → tidy_screen s'
  | tidy_resize s rows cols s' :
      tidy_screen s → size_safe (mkSize rows cols) → cuts_wide cols s = false →
      scroll_top (primary_grid s) ≠ rows - 1 → scroll_top (alternate_grid s) ≠ rows - 1 →
      screen_set_size rows cols s = Some s' → tidy_screen s'.

Lemma tidy_screen_ok s : tidy_screen s → ∃ sz, size_safe sz ∧ screen_ok (D:=strict_rows) sz s.
Proof using UWL VT.
  induction 1 as [rows cols s Hsz Hn|s l s' u _ (sz & Hsz & Hok) Hp|s rows cols s' _ (sz & Hsz & Hok) Hsz' Hcut Hk1 Hk2 Hr].
  - exists (mkSize rows cols). split; [done|]. destruct (VtScreen_new_ok (D:=strict_rows) _ Hsz) as (s1 & H1 & Hok). cbn in Hn. congruence.
  - exists sz. split; [done|]. destruct (process_ok (D:=strict_rows) sz Hsz l s Hok) as (w & Hw & Hok').
    cbn in Hp. unfold process_reported in Hp. rewrite Hw in Hp. by injection Hp as <- _.
  - exists (mkSize rows cols). split; [done|]. destruct (set_size_ok (D:=strict_rows) sz (mkSize rows cols) s) as (s1 & H1 & Hok1);
      [done|done|done|done|by intros _|by intros _|]. cbn in Hr, H1. congruence.
Qed.

(** The terminal that displays: any safe screen whose region is the whole screen, with the
    origin in its corner. *)
Definition accepts_repaint (r : VtScreen) : bool :=
  negb (origin_mode (grid r)) && (scroll_top (grid r) =? 0) && (scroll_bottom (grid r) =? s_rows (size (grid r)) - 1).

Lemma accepts_display r rows cols :
  safe_screen r → accepts_repaint r = true → screen_size r = (rows, cols) → display (mkSize rows cols) r.
Proof using UWL VT.
  intros (sz & Hsz & Hok)%safe_screen_ok Ha Hs. rewrite (screen_ok_size sz r Hok) in Hs.
  assert (mkSize rows cols = sz) as -> by (destruct sz; cbn in Hs; congruence).
  pose proof (screen_grid sz r Hok) as Hg. unfold accepts_repaint in Ha. rewrite !andb_true_iff in Ha.
  destruct Ha as ((Ho & Ht%Z.eqb_eq) & Hb%Z.eqb_eq). rewrite (live_size sz _ Hg) in Hb.
  split; [|..|apply Hok].
  - split; [exact (live_size sz _ Hg)|by destruct (origin_mode _)|done|done|apply Hg].
  - eapply Forall_impl; [apply Hg|]. by intros t (Hl & Hp & _).
  - apply Hg.
Qed.

Lemma painted_process b r r' : paints b r r' → screen_process r b = Some (r', []).
Proof using VTK.
  intros (tokens & -> & Ht & Hr). cbn [screen_process vt100]. unfold process_reported, process.
  rewrite vte_tokens by done. by rewrite Hr.
Qed.

(** The codes in front of every full repaint switch off reports that the emulator does not know. *)
Definition reset_tokens : list Token := [TCsi true [1001] 108; TCsi true [1004] 108; TCsi true [1015] 108].
Definition reset_reports : list Unhandled := (λ n, UnhandledCsi (Some 63) None [[n]] 108) <$> [1001; 1004; 1015].

Lemma reset_process b r r' : paints b r r' → screen_process r (INITIAL_PROFILE_POLICY_RESET ++ b) = Some (r', reset_reports).
Proof using VTK.
  intros (tokens & -> & Ht & Hr). cbn [screen_process vt100]. unfold process_reported, process.
  change INITIAL_PROFILE_POLICY_RESET with (reset_tokens ≫= token_bytes). rewrite <- bind_app, vte_tokens.
  - rewrite fmap_app, for_each_app.
    change (for_each (token_event <$> reset_tokens) perform (mkWrappedScreen r []))
      with (Some (mkWrappedScreen r (OnUnhandled <$> reset_reports))).
    cbn [mbind option_bind]. by rewrite Hr.
  - apply Forall_app. split; [|done]. repeat constructor; by vm_compute.
Qed.

(** A full repaint of a tidy screen on a display of its size. *)
Lemma full_repainted (t : TerminalState) r :
  tidy_screen (screen t) → safe_screen r → screen_size r = screen_size (screen t) → accepts_repaint r = true →
  ∃ f r', state_formatted (screen t) = Some f ∧
    screen_process r (INITIAL_PROFILE_POLICY_RESET ++ f) = Some (r', reset_reports) ∧
    (∃ sz, size_safe sz ∧ screen_ok (D:=strict_rows) sz (screen t) ∧ pictures sz (screen t) r') ∧ shows (screen t) r' ∧
    mouse_protocol_mode r' = after NoMouse (mouse_protocol_mode (screen t)) (mouse_protocol_mode r) ∧
    mouse_protocol_encoding r' = after DefaultEncoding (mouse_protocol_encoding (screen t)) (mouse_protocol_encoding r) ∧
    (mouse_protocol_mode r' = mouse_protocol_mode (screen t) →
     mouse_protocol_encoding r' = mouse_protocol_encoding (screen t) → state_formatted r' = Some f).
Proof using IL UWL VT VTK.
  intros (sz & Hsz & Hok)%tidy_screen_ok Hr Hs Ha. assert (screen_size (screen t) = (s_rows sz, s_cols sz)) as Hss.
  { cbn. unfold VtScreen_size. by rewrite (live_size sz _ (screen_grid sz _ Hok)). }
  rewrite Hss in Hs. pose proof (accepts_display r _ _ Hr Ha Hs) as Hd.
  replace (mkSize (s_rows sz) (s_cols sz)) with sz in Hd by (by destruct sz).
  destruct (screen_repainted sz (screen t) r Hsz Hok Hd) as (f & r' & Hf & Hp & Hpic & Hm & He). exists f, r'.
  split_and!; [exact Hf|by apply reset_process|by exists sz|by apply (pictures_shows sz)|exact Hm|exact He|].
  intros Hm' He'. rewrite <- Hf. by apply (pictures_formatted sz).
Qed.

Lemma painter_full_cases (t : TerminalState) f :
  state_formatted (screen t) = Some f →
  painter_full t = if MAX_OUTPUT_CHUNK_BYTES <? len (INITIAL_PROFILE_POLICY_RESET ++ f)
                   then Err OutputTooLarge else Ok (INITIAL_PROFILE_POLICY_RESET ++ f).
Proof using. intros Hf. unfold painter_full. by rewrite Hf. Qed.

(** C16. A full repaint shows a tidy screen: one made from a new screen of at least two rows and
    two columns by host bytes and by resizes to such sizes, none of which cuts a wide
    character or leaves the scroll region a single row. On a terminal of the same size, itself
    made without a resize to less than two rows or columns or through a wide character, whose scroll
    region is now the whole screen, whose origin is the corner and which reports no mouse, with
    any cells, cursor, attributes and other modes, the bytes of a full repaint leave the cells, the cursor,
    the attributes, the modes, the mouse reports and the wrapped rows (the last apart) of the
    painted screen; the terminal would be repainted with the same bytes, and it reports nothing unhandled
    but the three codes in front. For such screens the repaint fails only when the bytes exceed the limit of
    a chunk. *)
Theorem full_repaint_shows (t : TerminalState) r :
  tidy_screen (screen t) → safe_screen r → screen_size r = screen_size (screen t) → accepts_repaint r = true →
  mouse_protocol_mode r = NoMouse → mouse_protocol_encoding r = DefaultEncoding →
  match painter_full t with
  | Ok out =>
      ∃ r', screen_process r out = Some (r', reset_reports) ∧ shows (screen t) r' ∧
        mouse_protocol_mode r' = mouse_protocol_mode (screen t) ∧
        mouse_protocol_encoding r' = mouse_protocol_encoding (screen t) ∧
        state_formatted r' = state_formatted (screen t)
  | Err _ => ∃ f, state_formatted (screen t) = Some f ∧ MAX_OUTPUT_CHUNK_BYTES < len (INITIAL_PROFILE_POLICY_RESET ++ f)
  | Panic => False
  end.
Proof using IL UWL VT VTK.
  intros Ht Hr Hs Ha Hm He. destruct (full_repainted t r Ht Hr Hs Ha) as (f & r' & Hf & Hp & _ & Hsh & Hm' & He' & Hsame).
  rewrite (painter_full_cases t f Hf). destruct (Z.ltb_spec MAX_OUTPUT_CHUNK_BYTES (len (INITIAL_PROFILE_POLICY_RESET ++ f))).
  { by exists f. }
  assert (mouse_protocol_mode r' = mouse_protocol_mode (screen t)) as Hmode by (rewrite Hm', Hm; unfold after; by case_bool_decide).
  assert (mouse_protocol_encoding r' = mouse_protocol_encoding (screen t)) as Hencoding by (rewrite He', He; unfold after; by case_bool_decide).
  exists r'. split_and!; [done|done|done|done|]. rewrite Hf. by apply Hsame.
Qed.

(** C37. A full repaint is not self-contained: it never switches mouse reports off. On a
    display that reports the mouse, a full repaint of a screen that does not leaves
    the reports on, though everything else is shown. *)
Theorem full_repaint_keeps_mouse (t : TerminalState) r out :
  tidy_screen (screen t) → safe_screen r → screen_size r = screen_size (screen t) → accepts_repaint r = true →
  mouse_protocol_mode (screen t) = NoMouse → painter_full t = Ok out →
  ∃ r', screen_process r out = Some (r', reset_reports) ∧ shows (screen t) r' ∧
    mouse_protocol_mode r' = mouse_protocol_mode r.
Proof using IL UWL VT VTK.
  intros Ht Hr Hs Ha Hm Hout. destruct (full_repainted t r Ht Hr Hs Ha) as (f & r' & Hf & Hp & _ & Hsh & Hm' & _).
  rewrite (painter_full_cases t f Hf) in Hout. destruct (_ <? _); [done|]. injection Hout as <-.
  exists r'. split_and!; [done|done|]. by rewrite Hm', Hm, after_none.
Qed.
End claims.

(** ** Witnesses *)
#[local] Existing Instance wide_width.
#[local] Existing Instance wide_width_laws.
#[local] Existing Instance decimal_itoa.
#[local] Existing Instance ansi_vte.
#[local] Existing Instance ansi_typed.
#[local] Existing Instance ansi_tokens.
#[export] Instance decimal_itoa_laws : ItoaLaws decimal_itoa.
Proof. by intros i Hi. Qed.

(** Text that wraps, in color, with a wide character; and a display that reports the mouse. *)
Definition sample_bytes : bytes := lit "ab" ++ esc "[31m" ++ [0xe4; 0xb8; 0xad] ++ lit "de" ++ esc "[2;4H" ++ lit "f".
Definition small_screen : VtScreen := default (mkVtScreen (mkGrid (mkSize 0 0) Pos_default Pos_default [] 0 0 false false [] 0 0)
  (mkGrid (mkSize 0 0) Pos_default Pos_default [] 0 0 false false [] 0 0) Attrs_default Attrs_default 0 NoMouse DefaultEncoding) (screen_new 2 4).
Definition sample_screen : VtScreen := (default (small_screen, []) (screen_process small_screen sample_bytes)).1.
Definition sample_state : TerminalState := mkTerminalState (VT:=vt100) sample_screen None.
Definition mouse_display : VtScreen := (default (small_screen, []) (screen_process small_screen (esc "[?1000h"))).1.

Lemma small_tidy : tidy_screen small_screen.
Proof. apply (tidy_new 2 4); [by vm_compute|]. vm_compute. reflexivity. Qed.
Lemma sample_tidy : tidy_screen sample_screen.
Proof. eapply (tidy_process small_screen sample_bytes _ []); [apply small_tidy|]. vm_compute. reflexivity. Qed.
Lemma small_safe : safe_screen small_screen.
Proof. apply (safe_new 2 4); [by vm_compute|]. vm_compute. reflexivity. Qed.
Lemma mouse_safe : safe_screen mouse_display.
Proof. eapply (safe_process small_screen (esc "[?1000h") _ []); [apply small_safe|]. vm_compute. reflexivity. Qed.

Lemma full_repaint_shows_witness :
  ∃ out r', painter_full sample_state = Ok out ∧
    screen_process small_screen out = Some (r', reset_reports) ∧ screen_cell r' 0 2 = Some (Some [0x4e2d]) ∧
    state_formatted r' = state_formatted (screen sample_state).
Proof.
  assert (screen_size small_screen = screen_size (screen sample_state)) as Hs by (vm_compute; reflexivity).
  assert (accepts_repaint small_screen = true) as Ha by (vm_compute; reflexivity).
  pose proof (full_repaint_shows sample_state small_screen sample_tidy small_safe Hs Ha eq_refl eq_refl) as H.
  destruct (painter_full sample_state) as [out|e|] eqn:Hout; [|vm_compute in Hout; discriminate..].
  destruct H as (r' & Hp & _ & _ & _ & Hf). exists out, r'. split; [reflexivity|]. split; [exact Hp|]. split; [|exact Hf].
  vm_compute in Hout. injection Hout as <-. vm_compute in Hp. injection Hp as <-. vm_compute. reflexivity.
Defined.

Lemma full_repaint_keeps_mouse_witness :
  ∃ out r', painter_full sample_state = Ok out ∧ mouse_protocol_mode (screen sample_state) = NoMouse ∧
    screen_process mouse_display out = Some (r', reset_reports) ∧ mouse_protocol_mode r' = PressRelease.
Proof.
  assert (screen_size mouse_display = screen_size (screen sample_state)) as Hs by (vm_compute; reflexivity).
  assert (accepts_repaint mouse_display = true) as Ha by (vm_compute; reflexivity).
  assert (mouse_protocol_mode (screen sample_state) = NoMouse) as Hn by (vm_compute; reflexivity).
  destruct (painter_full sample_state) as [out|e|] eqn:Hout; [|vm_compute in Hout; discriminate..].
  destruct (full_repaint_keeps_mouse sample_state mouse_display out sample_tidy mouse_safe Hs Ha Hn Hout)
    as (r' & Hp & _ & Hm). exists out, r'. split; [reflexivity|]. split; [exact Hn|]. split; [exact Hp|]. rewrite Hm. vm_compute. reflexivity.
Defined.
