(* ===== verification/Vt100Follow.v ===== *)
(** * A display that follows the client

    The client paints its first screen in full and every later one as a difference to
    the one before. A terminal that is sent these bytes shows each screen in turn, as long as
    the differences are [steady]. *)

From Stdlib Require Import String.
From S2P Require Import Prelude Limits TerminalWidth Emulator Terminal Vt100Cell Vt100Row Vt100RowInv Vt100Grid Vt100GridInv Vt100Screen Vt100ScreenInv Vt100Attrs Vt100Parser Vt100Format EmulatorSafety Vt100Tokens Vt100Canvas Vt100Glyph Vt100Repaint Vt100Roundtrip Vt100Difference Vt100Ansi Vt100Display.

Local Open Scope Z_scope.

Section screens.
Context `{UW : UnicodeWidth} {UWL : UnicodeWidthLaws UW} `{IT : Itoa} {IL : ItoaLaws IT}.

(** [r'] is [r] with the mode [m] set to [b]. *)
Record switched (m : Z) (b : bool) (r r' : VtScreen) : Prop := {
  sw_u8 : is_u8 (modes r');
  sw_grid : grid r' = grid r;
  sw_attrs : attrs r' = attrs r;
  sw_mode : mode m r' = b;
  sw_others : ∀ m', m' ∈ plain_modes → m' ≠ m → mode m' r' = mode m' r;
  sw_mouse : mouse_protocol_mode r' = mouse_protocol_mode r ∧ mouse_protocol_encoding r' = mouse_protocol_encoding r;
}.

(** A mode is written when it changes. *)
Lemma paints_switch m (wr : bool → bytes) b0 b r :
  m ∈ plain_modes → (∀ b s, paints (wr b) s (toggled b m s)) → is_u8 (modes r) → mode m r = b0 →
  ∃ r', paints (if Bool.eqb b b0 then [] else wr b) r r' ∧ switched m b r r'.
Proof using.
  intros Hm Hwr Hu Hb. destruct (Bool.eqb b b0) eqn:He.
  - apply eqb_prop in He as ->. exists r. split; [apply paints_nil|by split].
  - destruct (toggled_facts b m r Hu Hm) as (Hu' & Hg & Hmode & Ho). exists (toggled b m r). split; [apply Hwr|by split].
Qed.

(** The mouse reports too, from those before. *)
Lemma paints_mouse_mode_change m r :
  paints (MouseProtocolMode_write_buf m (mouse_protocol_mode r)) r (set_mouse_mode m r).
Proof using.
  unfold MouseProtocolMode_write_buf. case_bool_decide as Hm.
  - replace (set_mouse_mode m r) with r by (destruct r; cbn in *; by subst). apply paints_nil.
  - destruct m; [|by eapply (paints_decset 9)|by eapply (paints_decset 1000)|by eapply (paints_decset 1002)|by eapply (paints_decset 1003)].
    destruct (mouse_protocol_mode r) eqn:Hr; [done| | | |]; [eapply (paints_decrst 9)|eapply (paints_decrst 1000)|eapply (paints_decrst 1002)|eapply (paints_decrst 1003)];
      try done; cbn; unfold clear_mouse_mode; by rewrite Hr, bool_decide_eq_true_2.
Qed.

Lemma paints_mouse_encoding_change e r :
  paints (MouseProtocolEncoding_write_buf e (mouse_protocol_encoding r)) r (set_mouse_encoding e r).
Proof using.
  unfold MouseProtocolEncoding_write_buf. case_bool_decide as He.
  - replace (set_mouse_encoding e r) with r by (destruct r; cbn in *; by subst). apply paints_nil.
  - destruct e; [|by eapply (paints_decset 1005)|by eapply (paints_decset 1006)].
    destruct (mouse_protocol_encoding r) eqn:Hr; [done| |]; [eapply (paints_decrst 1005)|eapply (paints_decrst 1006)];
      try done; cbn; unfold clear_mouse_encoding; by rewrite Hr, bool_decide_eq_true_2.
Qed.

#[local] Existing Instance strict_rows.

(** The sequences after the contents. *)
Lemma paints_input_mode_diff prev s r :
  is_u8 (modes r) →
  (∀ m, m ∈ [MODE_APPLICATION_KEYPAD; MODE_APPLICATION_CURSOR; MODE_BRACKETED_PASTE] → mode m r = mode m prev) →
  (∀ m, m ∈ [MODE_HIDE_CURSOR; MODE_REVERSE_VIDEO] → mode m r = mode m s) →
  mouse_protocol_mode r = mouse_protocol_mode prev → mouse_protocol_encoding r = mouse_protocol_encoding prev →
  ∃ r', paints (write_input_mode_diff prev s) r r' ∧ is_u8 (modes r') ∧ grid r' = grid r ∧ attrs r' = attrs r ∧
    (∀ m, m ∈ plain_modes → mode m r' = mode m s) ∧
    mouse_protocol_mode r' = mouse_protocol_mode s ∧ mouse_protocol_encoding r' = mouse_protocol_encoding s.
Proof using.
  intros Hu Hold Hnew Hmm Hme. unfold write_input_mode_diff.
  destruct (paints_switch MODE_APPLICATION_KEYPAD ApplicationKeypad_write_buf (mode MODE_APPLICATION_KEYPAD prev) (mode MODE_APPLICATION_KEYPAD s) r)
    as (r1 & Hp1 & [Hu1 Hg1 Ha1 Hb1 Ho1 [Hm1 He1]]); [in_modes|intros; apply paints_modes|done|apply Hold; in_modes|].
  destruct (paints_switch MODE_APPLICATION_CURSOR ApplicationCursor_write_buf (mode MODE_APPLICATION_CURSOR prev) (mode MODE_APPLICATION_CURSOR s) r1)
    as (r2 & Hp2 & [Hu2 Hg2 Ha2 Hb2 Ho2 [Hm2 He2]]); [in_modes|intros; apply paints_modes|done|rewrite Ho1 by (in_modes || done); apply Hold; in_modes|].
  destruct (paints_switch MODE_BRACKETED_PASTE BracketedPaste_write_buf (mode MODE_BRACKETED_PASTE prev) (mode MODE_BRACKETED_PASTE s) r2)
    as (r3 & Hp3 & [Hu3 Hg3 Ha3 Hb3 Ho3 [Hm3 He3]]);
    [in_modes|intros; apply paints_modes|done|rewrite Ho2, Ho1 by (in_modes || done); apply Hold; in_modes|].
  pose proof (paints_mouse_mode_change (mouse_protocol_mode s) r3) as Hp4. replace (mouse_protocol_mode r3) with (mouse_protocol_mode prev) in Hp4 by congruence.
  pose proof (paints_mouse_encoding_change (mouse_protocol_encoding s) (set_mouse_mode (mouse_protocol_mode s) r3)) as Hp5.
  replace (mouse_protocol_encoding (set_mouse_mode _ r3)) with (mouse_protocol_encoding prev) in Hp5 by (change (mouse_protocol_encoding (set_mouse_mode _ r3)) with (mouse_protocol_encoding r3); congruence).
  exists (set_mouse_encoding (mouse_protocol_encoding s) (set_mouse_mode (mouse_protocol_mode s) r3)). split_and!; try done.
  - cbn zeta. eapply paints_app; [exact Hp1|]. eapply paints_app; [exact Hp2|]. eapply paints_app; [exact Hp3|]. by eapply paints_app.
  - change (grid (set_mouse_encoding _ _)) with (grid r3). congruence.
  - change (attrs (set_mouse_encoding _ _)) with (attrs r3). congruence.
  - intros m Hin. change (mode m (set_mouse_encoding _ _)) with (mode m r3).
    repeat (apply elem_of_cons in Hin as [->|Hin]); [..|by apply not_elem_of_nil in Hin].
    all: rewrite ?Ho3, ?Ho2, ?Ho1 by (in_modes || done); done || (apply Hnew; in_modes).
Qed.

(** [Screen::state_diff] on a terminal that shows the old screen. *)
Lemma screen_changed sz prev s r :
  size_safe sz → screen_ok sz prev → screen_ok sz s → pictures sz prev r →
  mouse_protocol_mode r = mouse_protocol_mode prev → mouse_protocol_encoding r = mouse_protocol_encoding prev → steady prev s = true →
  ∃ b r', VtScreen_state_diff s prev = Some b ∧ paints b r r' ∧ pictures sz s r' ∧
    mouse_protocol_mode r' = mouse_protocol_mode s ∧ mouse_protocol_encoding r' = mouse_protocol_encoding s.
Proof using IL UWL.
  intros Hsz Hprev Hs [Hready Hrows Hpos Hattrs Hmodes Hu] Hmm Hme Hsteady.
  pose proof (screen_grid sz s Hs) as Hg. pose proof (screen_grid sz prev Hprev) as Hgp.
  destruct (paints_switch MODE_REVERSE_VIDEO ReverseVideo_write_buf (reverse_video prev) (reverse_video s) r)
    as (r1 & Hp1 & [Hu1 Hg1 Ha1 Hb1 Ho1 [Hm1 He1]]); [in_modes|intros; apply paints_modes|done|apply Hmodes; in_modes|].
  destruct (paints_switch MODE_HIDE_CURSOR HideCursor_write_buf (hide_cursor prev) (hide_cursor s) r1)
    as (r2 & Hp2 & [Hu2 Hg2 Ha2 Hb2 Ho2 [Hm2 He2]]); [in_modes|intros; apply paints_modes|done|rewrite Ho1 by (in_modes || done); apply Hmodes; in_modes|].
  unfold steady in Hsteady. rewrite (live_size sz _ Hg) in Hsteady.
  destruct (grid_changed (D:=strict_rows) sz Hsz (grid r) Hready eq_refl (grid prev) (grid s) (rows (grid r)) (attrs prev) Hgp Hg Hrows (so_attrs _ _ Hprev) Hsteady)
    as (b & a' & HGd & Ha' & Hb).
  destruct (Hb r2) as (G' & v & up & HG' & Hup & Hpaint). rewrite <- Hpos, canvas_same in Hpaint.
  replace (put (grid r) (attrs prev) r2) with r2 in Hpaint by (rewrite <- Hg1, <- Hg2, <- Hattrs, <- Ha1, <- Ha2; by rewrite put_same).
  destruct (drawn_attrs (attrs s) a' (canvas G' up (pos (grid s))) (so_attrs _ _ Hs) Ha') as (tail & Htf & Htail).
  set (r3 := put (canvas G' up (pos (grid s))) (attrs s) (set_saved_attrs v r2)).
  destruct (put_fields (canvas G' up (pos (grid s))) (attrs s) (set_saved_attrs v r2)) as (Hmo & Hmm3 & Hme3).
  fold r3 in Hmo, Hmm3, Hme3. change (modes (set_saved_attrs v r2)) with (modes r2) in Hmo.
  assert (∀ m, mode m r3 = mode m r2) as Hmode3 by (intros m; unfold mode; by rewrite Hmo).
  destruct (paints_input_mode_diff prev s r3) as (r4 & Hp4 & Hu4 & Hg4 & Ha4 & Hmodes4 & Hm4 & He4).
  { by rewrite Hmo. }
  { intros m Hin. rewrite Hmode3, Ho2, Ho1; [apply Hmodes| | | |];
      repeat (apply elem_of_cons in Hin as [->|Hin]); try (by apply not_elem_of_nil in Hin); in_modes || done. }
  { intros m Hin. rewrite Hmode3. repeat (apply elem_of_cons in Hin as [->|Hin]); [exact Hb2| |by apply not_elem_of_nil in Hin].
    rewrite Ho2 by (in_modes || done). exact Hb1. }
  { rewrite Hmm3. change (mouse_protocol_mode (set_saved_attrs v r2)) with (mouse_protocol_mode r2). congruence. }
  { rewrite Hme3. change (mouse_protocol_encoding (set_saved_attrs v r2)) with (mouse_protocol_encoding r2). congruence. }
  unfold VtScreen_state_diff, write_contents_diff. rewrite HGd. cbn [mbind option_bind]. rewrite Htf. cbn [mbind option_bind].
  eexists _, r4. split_and!; [done| | |done|done].
  - rewrite <- !app_assoc. eapply paints_app; [exact Hp1|]. eapply paints_app; [exact Hp2|]. eapply paints_app; [exact Hpaint|].
    eapply paints_app; [apply (Htail (set_saved_attrs v r2))|exact Hp4].
  - unfold r3 in Hg4. rewrite put_grid in Hg4. split; rewrite ?Hg4; try done. by destruct HG'.
Qed.
End screens.

(** ** A sequence of paintings *)
Section claims.
Context `{UW : UnicodeWidth} {UWL : UnicodeWidthLaws UW} `{IT : Itoa} {IL : ItoaLaws IT}.
Context `{VTE : Vte} {VT : VteTyped VTE} {VTK : VteTokens VTE}.

(** The display [r] is sent the paintings of the states after [previous]. *)
Fixpoint follow (r : VtScreen) (previous : TerminalState) (l : list TerminalState) : Result PaintError VtScreen :=
  match l with
  | [] => Ok r
  | t :: l =>
      out ← painter_incremental previous t;
      '(r', _) ← expect (screen_process r out);
      follow r' t l
  end.

(** The first of them in full. *)
Definition display_states (r : VtScreen) (t : TerminalState) (l : list TerminalState) : Result PaintError VtScreen :=
  out ← painter_full t;
  '(r', _) ← expect (screen_process r out);
  follow r' t l.

Fixpoint all_steady (t : TerminalState) (l : list TerminalState) : bool :=
  match l with
  | [] => true
  | t' :: l => steady (screen t) (screen t') && all_steady t' l
  end.

(** [r] is in step with [t]. *)
Definition in_step (t : TerminalState) (r : VtScreen) : Prop :=
  (∃ sz, size_safe sz ∧ screen_ok (D:=strict_rows) sz (screen t) ∧ pictures sz (screen t) r) ∧
  mouse_protocol_mode r = mouse_protocol_mode (screen t) ∧ mouse_protocol_encoding r = mouse_protocol_encoding (screen t).

Lemma in_step_shows t r : in_step t r → shows (screen t) r ∧ state_formatted r = state_formatted (screen t).
Proof using. intros [(sz & Hsz & Hok & Hp) [Hm He]]. split; [by apply (pictures_shows sz)|by apply (pictures_formatted sz)]. Qed.

Lemma incremental_in_step previous t r :
  in_step previous r → tidy_screen (screen t) → screen_size (screen t) = screen_size (screen previous) →
  steady (screen previous) (screen t) = true →
  match painter_incremental previous t with
  | Ok out => ∃ r', screen_process r out = Some (r', []) ∧ in_step t r'
  | Err _ => True
  | Panic => False
  end.
Proof using IL UWL VT VTK.
  intros [(sz & Hsz & Hok & Hp) [Hm He]] (sz' & Hsz' & Hok')%tidy_screen_ok Hs Hsteady.
  assert (sz' = sz) as ->.
  { cbn in Hs. unfold VtScreen_size in Hs. rewrite (live_size sz _ (screen_grid sz _ Hok)), (live_size sz' _ (screen_grid sz' _ Hok')) in Hs.
    destruct sz, sz'. cbn in Hs. congruence. }
  destruct (screen_changed sz (screen previous) (screen t) r) as (b & r' & Hb & Hpaint & Hp' & Hm' & He'); try done.
  unfold painter_incremental. rewrite bool_decide_eq_true_2 by done. cbn [negb]. cbn [state_diff vt100]. rewrite Hb. cbn [expect mbind Result_bind].
  unfold bounded. destruct (_ <? _); [done|]. exists r'. split; [by apply painted_process|]. split; [by exists sz|done].
Qed.

(** Consecutive states of a list. *)
Definition consecutive (p t : TerminalState) (l : list TerminalState) : Prop := ∃ k, l !! k = Some p ∧ l !! S k = Some t.

Lemma of_size n m (l : list TerminalState) :
  n = m → Forall (λ t, tidy_screen (screen t) ∧ screen_size (screen t) = n) l → Forall (λ t, tidy_screen (screen t) ∧ screen_size (screen t) = m) l.
Proof using. by intros ->. Qed.

Lemma follow_in_step l previous r :
  in_step previous r → Forall (λ t, tidy_screen (screen t) ∧ screen_size (screen t) = screen_size (screen previous)) l →
  all_steady previous l = true →
  match follow r previous l with
  | Ok r' => in_step (List.last l previous) r'
  | Err e => ∃ p t, consecutive p t (previous :: l) ∧ painter_incremental p t = Err e
  | Panic => False
  end.
Proof using IL UWL VT VTK.
  revert previous r. induction l as [|t l IH]; intros previous r Hr Hl Hs; [done|]. apply Forall_cons in Hl as [[Ht Hst] Hl].
  cbn [all_steady] in Hs. apply andb_prop in Hs as [Hs Hsl]. cbn [follow].
  pose proof (incremental_in_step previous t r Hr Ht Hst Hs) as H. destruct (painter_incremental previous t) as [out|e|] eqn:Hp; [|..|done].
  - destruct H as (r' & Hpr & Hr'). cbn [mbind Result_bind]. rewrite Hpr. cbn [expect mbind Result_bind].
    specialize (IH t r' Hr' (of_size _ _ _ (eq_sym Hst) Hl) Hsl). destruct (follow r' t l) as [r2|e|]; [|..|done].
    + assert (List.last (t :: l) previous = List.last l t) as -> by (clear; revert t; induction l as [|u l IH]; intros t; [done|]; cbn in *; by destruct l).
      done.
    + destruct IH as (p & u & (k & H1 & H2) & He). exists p, u. split; [by exists (S k)|done].
  - cbn [mbind Result_bind]. exists previous, t. split; [by exists 0%nat|done].
Qed.

(** C17. A display follows the client. A terminal whose scroll region is the whole screen, whose
    origin is the corner and which reports no mouse is sent the full repaint of a first state and then
    the incremental repaint of each later one, all of the terminal's size: it comes to show the last
    state, with its cells, cursor, attributes, modes, mouse reports and marks of wrapped rows, and
    would be repainted with the same bytes. This holds under two conditions. Every state is tidy and the
    terminal safe: made from a new screen of at least two rows and two columns by host bytes and
    by resizes to such sizes, none of which cuts a wide character nor, for the states, leaves the
    scroll region a single row. And every change is steady: no row that is wrapped before and after is left with
    the cursor behind it while the start of the next row does not change. Then nothing panics, and the
    display only fails when one of these repaints returns an error. *)
Theorem display_follows_client r (t : TerminalState) (l : list TerminalState) :
  Forall (λ t, tidy_screen (screen t) ∧ screen_size (screen t) = screen_size r) (t :: l) → all_steady t l = true →
  safe_screen r → accepts_repaint r = true → mouse_protocol_mode r = NoMouse → mouse_protocol_encoding r = DefaultEncoding →
  match display_states r t l with
  | Ok r' =>
      let t' := List.last l t in
      shows (screen t') r' ∧ mouse_protocol_mode r' = mouse_protocol_mode (screen t') ∧
        mouse_protocol_encoding r' = mouse_protocol_encoding (screen t') ∧ state_formatted r' = state_formatted (screen t')
  | Err e => painter_full t = Err e ∨ ∃ p u, consecutive p u (t :: l) ∧ painter_incremental p u = Err e
  | Panic => False
  end.
Proof using IL UWL VT VTK.
  intros Hl Hsteady Hr Ha Hm He. apply Forall_cons in Hl as [[Ht Hs] Hl]. unfold display_states.
  destruct (full_repainted t r Ht Hr (eq_sym Hs) Ha) as (f & r1 & Hf & Hp & Hok & _ & Hm1 & He1 & _). rewrite (painter_full_cases t f Hf).
  destruct (_ <? _); [by left|]. cbn [mbind Result_bind]. rewrite Hp. cbn [expect mbind Result_bind].
  assert (in_step t r1) as Hstep.
  { split; [done|]. rewrite Hm1, He1, Hm, He. unfold after. split; by case_bool_decide. }
  pose proof (follow_in_step l t r1 Hstep (of_size _ _ _ (eq_sym Hs) Hl) Hsteady) as H. destruct (follow r1 t l) as [r2|e|]; [|by right|done].
  destruct (in_step_shows _ _ H) as [Hsh Hsf]. by destruct H as [_ [Hm2 He2]].
Qed.
End claims.

(** ** Witness *)
#[local] Existing Instance wide_width.
#[local] Existing Instance wide_width_laws.
#[local] Existing Instance decimal_itoa.
#[local] Existing Instance ansi_vte.
#[local] Existing Instance ansi_typed.
#[local] Existing Instance ansi_tokens.
#[local] Existing Instance decimal_itoa_laws.

(** The wrapped text changes in both rows; then a narrow character cuts the wide one at the
    end of the first row, and the row is not wrapped any more. *)
Definition second_bytes : bytes := esc "[1;1H" ++ lit "X" ++ esc "[2;2H" ++ esc "[7m" ++ lit "y" ++ esc "[?1000h".
Definition third_bytes : bytes := esc "[1;3H" ++ lit "z" ++ esc "[K" ++ esc "[2;1H" ++ esc "[2X".
Definition second_screen : VtScreen := (default (small_screen, []) (screen_process sample_screen second_bytes)).1.
Definition third_screen : VtScreen := (default (small_screen, []) (screen_process second_screen third_bytes)).1.
Definition second_state : TerminalState := mkTerminalState (VT:=vt100) second_screen None.
Definition third_state : TerminalState := mkTerminalState (VT:=vt100) third_screen None.

Lemma second_tidy : tidy_screen second_screen.
Proof. eapply (tidy_process sample_screen second_bytes _ []); [apply sample_tidy|]. vm_compute. reflexivity. Qed.
Lemma third_tidy : tidy_screen third_screen.
Proof. eapply (tidy_process second_screen third_bytes _ []); [apply second_tidy|]. vm_compute. reflexivity. Qed.

Lemma display_follows_client_witness :
  ∃ r', display_states small_screen sample_state [second_state; third_state] = Ok r' ∧
    screen_cell r' 0 0 = Some (Some (lit "X")) ∧ screen_cell r' 0 3 = Some (Some []) ∧
    state_formatted r' = state_formatted (screen third_state).
Proof.
  assert (∀ t, t ∈ [sample_screen; second_screen; third_screen] → screen_size t = screen_size small_screen) as Hs.
  { intros t Ht. repeat (apply elem_of_cons in Ht as [->|Ht]); [vm_compute; reflexivity..|by apply not_elem_of_nil in Ht]. }
  assert (all_steady sample_state [second_state; third_state] = true) as Hst by (vm_compute; reflexivity).
  assert (accepts_repaint small_screen = true) as Ha by (vm_compute; reflexivity).
  pose proof (display_follows_client small_screen sample_state [second_state; third_state]
    ltac:(repeat (apply Forall_cons; split); [split; [apply sample_tidy|apply Hs; by left]|split; [apply second_tidy|apply Hs; by right; left]
      |split; [apply third_tidy|apply Hs; by right; right; left]|constructor]) Hst small_safe Ha eq_refl eq_refl) as H.
  destruct (display_states small_screen sample_state [second_state; third_state]) as [r'|e|] eqn:Hd; [|vm_compute in Hd; discriminate..].
  destruct H as (_ & _ & _ & Hf). exists r'. split; [reflexivity|]. split; [|split; [|exact Hf]].
  all: vm_compute in Hd; injection Hd as <-; vm_compute; reflexivity.
Defined.

(** A change that is not steady: the text behind a wrapped row is erased, and the row's last
    character replaced. *)
Example unsteady_change :
  ∃ s1 s2, screen_process small_screen (lit "aaaabcdx") = Some (s1, []) ∧
    screen_process s1 (esc "[1;4H" ++ lit "Z" ++ esc "[2;4H" ++ esc "[K") = Some (s2, []) ∧ steady s1 s2 = false.
Proof. eexists _, _. split; [vm_compute; reflexivity|]. split; vm_compute; reflexivity. Qed.
