(* ===== verification/Vt100Paint.v ===== *)
(** * Paintings that go wrong

    A terminal that follows the escape codes like the emulator itself does not always
    end up with the screen that was painted: a difference can overwrite text that did not
    change, and a full repaint can put text in the wrong row after a resize that left
    a single row to scroll. *)

From Stdlib Require Import String.
From S2P Require Import Prelude TerminalWidth Emulator Vt100Cell Vt100Row Vt100RowInv Vt100Grid Vt100Screen Vt100Parser EmulatorSafety Vt100Tokens Vt100Ansi.

Local Open Scope Z_scope.

(** ** Only the widths of printed characters matter *)
Lemma for_each_ext {A S} (l : list A) (f g : A → S → option S) s :
  (∀ x s, x ∈ l → f x s = g x s) → for_each l f s = for_each l g s.
Proof.
  revert s. induction l as [|x l IH]; intros s H; [done|]. cbn [for_each]. rewrite H by by left.
  destruct (g x s); [|done]. apply IH. intros y s' Hy. apply H. by right.
Qed.

Section widths.
Context (U V : UnicodeWidth) (Hspace : @width U 32 = @width V 32).

Definition agree_on (e : VteEvent) : Prop :=
  match e with Print c => @width U c = @width V c | _ => True end.

Lemma Cell_set_agree c a d : @width U c = @width V c → @Cell_set U c a d = @Cell_set V c a d.
Proof using. intros Hc. unfold Cell_set. by rewrite Hc. Qed.

Lemma update_cell_agree c p a g :
  @width U c = @width V c → update_cell p (@Cell_set U c a) g = update_cell p (@Cell_set V c a) g.
Proof using.
  intros Hc. unfold update_cell, update_row, update, Row_update, update.
  destruct (index (p_row p) (rows g)) as [r|]; [|done]. cbn.
  destruct (index (p_col p) (cells r)) as [d|]; [|done]. cbn. by rewrite Cell_set_agree.
Qed.

Lemma text_agree c s : @width U c = @width V c → @text U c s = @text V c s.
Proof using Hspace.
  intros Hc. unfold text, on_grid, grid_text. rewrite Hc.
  destruct (_ && _); [done|]. destruct (try_from _ _) as [w|]; [|done]. cbn.
  destruct (text_wraps _ _) as [wrap|]; [|done]. cbn. destruct (col_wrap _ _ _) as [g|]; [|done]. cbn.
  destruct (w =? 0); [done|]. f_equal. unfold text_printing.
  destruct (drawing_cell _ _) as [here|]; [|done]. cbn.
  match goal with |- ?m ≫= _ = _ => destruct m as [g1|]; [|done] end. cbn.
  destruct (drawing_cell (pos g) g1) as [here1|]; [|done]. cbn. destruct (is_wide here1).
  - destruct (add16 _ _); [|done]. cbn. rewrite (update_cell_agree 32) by done.
    destruct (update_cell _ _ _); [|done]. cbn. by rewrite (update_cell_agree c).
  - cbn. by rewrite (update_cell_agree c).
Qed.

Lemma perform_agree e w : agree_on e → @perform U e w = @perform V e w.
Proof using Hspace.
  intros He. destruct e as [c| | | | |]; [|reflexivity..]. unfold perform, perform_print, on_screen.
  destruct (_ && _); [done|]. by rewrite text_agree.
Qed.

Lemma run_agree l w : Forall agree_on l → for_each l (@perform U) w = for_each l (@perform V) w.
Proof using Hspace.
  intros Hl. apply for_each_ext. intros e w' He. apply perform_agree. by apply (proj1 (Forall_forall _ _) Hl).
Qed.
End widths.

(** ** A difference that overwrites unchanged text *)
Section defect.
Context `{UW : UnicodeWidth} {UWL : UnicodeWidthLaws UW} `{VTE : Vte} `{IT : Itoa}.

(** The calls that a new parser makes for the bytes. *)
Definition parses_to (l : bytes) (events : list VteEvent) : Prop := (vte_advance vte_new l).2 = events.

(** [a a a a] wraps to [b c d x]; then [Z] replaces the fourth [a], and [x] is erased. *)
Definition old_text : bytes := lit "aaaabcdx".
Definition change : bytes := esc "[1;4H" ++ lit "Z" ++ esc "[2;4H" ++ esc "[K".
Definition change_events : list VteEvent :=
  [CsiDispatch [[1]; [4]] [] 72; Print 90; CsiDispatch [[2]; [4]] [] 72; CsiDispatch [[0]] [] 75].

(** The bytes that [state_diff] writes for the change, and their events. *)
Definition painted : bytes := esc "[1;4H" ++ lit "Z   " ++ esc "[K".
Definition painted_events : list VteEvent :=
  [CsiDispatch [[1]; [4]] [] 72; Print 90; Print 32; Print 32; Print 32; CsiDispatch [[0]] [] 75].

(** The events use characters of width 1 only. *)
Definition unit_width : UnicodeWidth := {| unicode_width _ := Some 1 |}.

Definition ascii_event (e : VteEvent) : bool := match e with Print c => between 32 126 c | _ => true end.

Lemma agree_ascii e : ascii_event e = true → agree_on UW unit_width e.
Proof using UWL.
  destruct e as [c| | | | |]; try done. unfold ascii_event, between, agree_on. intros He.
  rewrite (@width_ascii UW UWL) by lia. symmetry.
  unfold width. replace (c =? 11647) with false by lia.
  assert (in_ranges double_width_overrides c = false) as ->.
  { apply not_true_is_false. intros Ht. apply existsb_exists in Ht as ([lo hi] & Hin & Hb).
    cbn in Hin. naive_solver lia. }
  by destruct (in_ranges single_width_overrides c).
Qed.

Lemma process_unit l events s :
  parses_to l events → forallb ascii_event events = true →
  process l s = for_each events (@perform unit_width) (mkWrappedScreen s []).
Proof using UWL.
  intros Hp He. unfold process. unfold parses_to in Hp. rewrite Hp. apply run_agree.
  - by apply (agree_ascii (Print 32)).
  - apply Forall_forall. intros e Hin. apply agree_ascii.
    by apply (proj1 (forallb_forall _ _) He), list_elem_of_In.
Qed.

(** A terminal that shows [aaaa bcdx] and is sent the difference to [aaaZ bcd] loses the
    text [bcd], which did not change: the row before was redrawn up to its last column and
    is wrapped, so the writer moves to the cell to erase by printing spaces over the cells
    before it. *)
Theorem diff_overwrites_unchanged_text :
  itoa 1 = lit "1" → itoa 4 = lit "4" →
  parses_to old_text (Print <$> old_text) → parses_to change change_events → parses_to painted painted_events →
  ∃ s0 s1 s2 s3,
    screen_new 2 4 = Some s0 ∧ screen_process s0 old_text = Some (s1, []) ∧
    screen_process s1 change = Some (s2, []) ∧ state_diff s2 s1 = Some painted ∧
    screen_process s1 painted = Some (s3, []) ∧
    screen_cell s2 1 0 = Some (Some (lit "b")) ∧ screen_cell s3 1 0 = Some (Some (lit " ")).
Proof using UWL.
  intros Hi1 Hi4 H1 H2 H3. cbn [screen_new screen_process state_diff screen_cell vt100].
  unfold process_reported. eexists _, _, _, _. split; [vm_compute; reflexivity|].
  split; [rewrite (process_unit _ _ _ H1) by reflexivity; vm_compute; reflexivity|].
  split; [rewrite (process_unit _ _ _ H2) by reflexivity; vm_compute; reflexivity|].
  split; [vm_compute in Hi1, Hi4 |- *; rewrite Hi1, Hi4; reflexivity|].
  split; [rewrite (process_unit _ _ _ H3) by reflexivity; vm_compute; reflexivity|].
  split; vm_compute; reflexivity.
Qed.

(** ** A repaint that puts text in the wrong row *)
Context {VTK : VteTokens VTE}.

(** A region of the last two of three rows, of which a resize keeps one; then text that
    runs over the end of its row, and a row that starts with a blank. *)
Definition region : list Token := [TCsi false [2; 3] 114].
Definition typed : list Token :=
  [TCsi false [2; 1] 72; TChar 97; TChar 98; TChar 99; TChar 100; TChar 101;
   TCsi false [2; 1] 72; TCsi false [] 88; TCsi false [2; 2] 72; TChar 120].

(** What the repaint writes: a space and a move back stand for a wrap that does not happen. *)
Definition repaint : list Token :=
  [TCsi true [5] 108; TCsi true [25] 104; TCsi false [] 109; TCsi false [] 72; TCsi false [] 74;
   TChar 32; TControl 8; TCsi false [] 88; TCsi false [] 67; TChar 120;
   TEscape 62; TCsi true [1] 108; TCsi true [2004] 108].

Lemma process_tokens tokens s :
  Forall token_ok tokens → forallb ascii_event (token_event <$> tokens) = true →
  process (tokens ≫= token_bytes) s = for_each (token_event <$> tokens) (@perform unit_width) (mkWrappedScreen s []).
Proof using UWL VTK. intros Ht He. apply process_unit; [|done]. by apply vte_tokens. Qed.

(** After a resize that leaves one row of the scroll region, a line of text that runs over its end
    marks the row above as wrapped, whose last column is empty. The full repaint of such a
    screen on a new terminal then draws the text of the second row in the first. *)
Theorem collapsed_region_misplaces_text :
  ∃ s0 s1 s2 s3 d0 d1,
    screen_new 3 4 = Some s0 ∧ screen_process s0 (region ≫= token_bytes) = Some (s1, []) ∧
    screen_set_size 2 4 s1 = Some s2 ∧ screen_process s2 (typed ≫= token_bytes) = Some (s3, []) ∧
    state_formatted s3 = Some (repaint ≫= token_bytes) ∧
    screen_new 2 4 = Some d0 ∧ screen_process d0 (repaint ≫= token_bytes) = Some (d1, []) ∧
    screen_cell s3 1 1 = Some (Some (lit "x")) ∧ screen_cell d1 1 1 = Some (Some []) ∧
    screen_cell d1 0 1 = Some (Some (lit "x")).
Proof using UWL VTK.
  assert (∀ tokens, tokens ∈ [region; typed; repaint] → Forall token_ok tokens ∧ forallb ascii_event (token_event <$> tokens) = true) as Hok.
  { intros tokens Ht. repeat (apply elem_of_cons in Ht as [->|Ht]); [..|by apply not_elem_of_nil in Ht].
    all: split; [apply (bool_decide_unpack _); vm_compute; exact I|reflexivity]. }
  cbn [screen_new screen_process screen_set_size state_formatted screen_cell vt100]. unfold process_reported.
  eexists _, _, _, _, _, _. split; [vm_compute; reflexivity|].
  split; [rewrite process_tokens by (apply Hok; by left); vm_compute; reflexivity|].
  split; [vm_compute; reflexivity|].
  split; [rewrite process_tokens by (apply Hok; by right; left); vm_compute; reflexivity|].
  split; [vm_compute; reflexivity|]. split; [vm_compute; reflexivity|].
  split; [rewrite process_tokens by (apply Hok; by right; right; left); vm_compute; reflexivity|].
  split_and!; vm_compute; reflexivity.
Qed.
End defect.

(** ** Witness *)

#[local] Existing Instance ansi_vte.
#[local] Existing Instance ansi_tokens.
#[local] Existing Instance wide_width.
#[local] Existing Instance wide_width_laws.
#[local] Existing Instance decimal_itoa.

Lemma diff_overwrites_unchanged_text_witness :
  ∃ s1 s2 s3,
    screen_process s1 change = Some (s2, []) ∧ state_diff s2 s1 = Some painted ∧
    screen_process s1 painted = Some (s3, []) ∧
    screen_cell s2 1 0 = Some (Some (lit "b")) ∧ screen_cell s3 1 0 = Some (Some (lit " ")).
Proof.
  destruct diff_overwrites_unchanged_text as (s0 & s1 & s2 & s3 & _ & _ & H); [vm_compute; reflexivity..|].
  exists s1, s2, s3. exact H.
Defined.

Lemma collapsed_region_misplaces_text_witness :
  ∃ s3 d1, state_formatted s3 = Some (repaint ≫= token_bytes) ∧
    screen_cell s3 1 1 = Some (Some (lit "x")) ∧ screen_cell d1 0 1 = Some (Some (lit "x")).
Proof.
  destruct collapsed_region_misplaces_text as (s0 & s1 & s2 & s3 & d0 & d1 & _ & _ & _ & _ & Hf & _ & _ & Hs & _ & Hd).
  exists s3, d1. split; [exact Hf|]. split; [exact Hs|exact Hd].
Defined.
