(* ===== verification/SessionSafety.v ===== *)
(** * Sessions with the client's own emulator

    The parts put together: a session whose screens stay within the sizes that the
    emulator supports never panics, and what the client holds as a state of the
    server is that state. *)

From S2P Require Import Prelude Limits BTreeMap Packet Fragment Instruction Synchronization Timing.
From S2P Require Import Reachability TerminalWidth Emulator Terminal Prediction Errors ClientHistory Bootstrap Driver DriverInput DriverInv DriverSafety.
From S2P Require Import Vt100Cell Vt100Row Vt100RowInv Vt100Grid Vt100GridInv Vt100Screen Vt100Parser Vt100ScreenInv Vt100Format EmulatorSafety Vt100Ansi.

Local Open Scope Z_scope.

(** ** The states of the server *)
Section states.
Context `{ZL : Zlib} `{PR : Prost} `{VT : Vt100} `{VTE : Vte} `{UW : UnicodeWidth} `{PH : ProstHost}.

(** An instruction that can be assembled from the fragments of [pool], with the
    operations of its difference. *)
Definition carries (pool : list Fragment) (i : TransportInstruction) (d : TerminalDifference) : Prop :=
  ∃ compressed, assembled pool compressed ∧ decode_zlib compressed = Ok i ∧
    TerminalDifference_decode (state_difference i) = Ok d.

(** What the server's states can be: the initial one, and what an instruction makes of
    its base state. *)
Inductive server_state (pool : list Fragment) (initial : TerminalState) : Z → TerminalState → Prop :=
  | server_initial : server_state pool initial 0 initial
  | server_applied i d t t' :
      server_state pool initial (base_state i) t → carries pool i d → terminal_apply t d = Ok t' →
      server_state pool initial (new_state i) t'.
(** Every operation meets [ok] on the state it is applied to, as far as they succeed. *)
Fixpoint operations_meet (ok : TerminalOperation → TerminalState → bool) (ops : list TerminalOperation) (t : TerminalState) : bool :=
  match ops with
  | [] => true
  | op :: rest =>
      ok op t && match apply_operation op t with (t', Ok _) => operations_meet ok rest t' | _ => true end
  end.

(** The operations of every instruction of the server do, on the state it is based on. *)
Definition peer_meets (ok : TerminalOperation → TerminalState → bool) (pool : list Fragment) (initial : TerminalState) : Prop :=
  ∀ i d t, server_state pool initial (base_state i) t → carries pool i d → operations_meet ok (Terminal.operations d) t = true.

(** If [ok] keeps the screens in a set, so does the server. *)
Section meets.
Context `{SS : !ScreenSet} (ok : TerminalOperation → TerminalState → bool).
Context (Hok : ∀ op t, within t → ok op t = true → resize_stays op t).

Lemma operations_meet_stay ops t : within t → operations_meet ok ops t = true → operations_stay ops t.
Proof using Hok.
  revert t. induction ops as [|op ops IH]; intros t Ht; [done|]. cbn [operations_meet operations_stay].
  intros [Hop Hops]%andb_true_iff. pose proof (Hok op t Ht Hop) as Hstay. split; [done|].
  pose proof (apply_operation_within op t Ht Hstay) as Hw.
  destruct (apply_operation op t) as [t' [[]| |]]; [by apply IH|done|done].
Qed.

Definition state_within (pool : list Fragment) (initial : TerminalState) (n : Z) (t : TerminalState) : Prop :=
  server_state pool initial n t ∧ within t.

Lemma meets_peer_stays pool initial : peer_meets ok pool initial → peer_stays (state_within pool initial) pool.
Proof using Hok.
  intros Hpeer compressed i Hasm Hdec diff t Hdiff [Ht Hin].
  assert (carries pool i diff) as Hcar by by exists compressed.
  pose proof (terminal_apply_within t diff Hin (operations_meet_stay _ _ Hin (Hpeer _ _ _ Ht Hcar))) as Ha.
  destruct (terminal_apply t diff) as [t'|err|] eqn:Happ; [|done|done]. split; [by eapply server_applied|done].
Qed.
End meets.
End states.

(** A session whose server meets such a condition stays within the set. *)
Section stays.
Context `{AE : Aead} `{AEL : !AeadLaws AE} `{PR : Prost} `{PL : !ProstLaws PR} `{ZL : Zlib} `{ZB : !ZlibBounds ZL}.
Context `{VT : Vt100} `{VTE : Vte} `{UW : UnicodeWidth} `{PH : ProstHost} `{SS : !ScreenSet}.

Lemma session_meets ok bootstrap columns rows mode bound e d initial shutdown_fuel fuel :
  (∀ op t, within t → ok op t = true → resize_stays op t) → within initial →
  script_ok e → TerminalState_new columns rows = Ok initial → peer_meets ok (session_fragments bootstrap e) initial →
  connect bootstrap columns rows mode bound e = Ok d →
  spec internal_error emulator_panic (run_turns shutdown_fuel fuel)
    (λ _ d', session_keeps bootstrap e (state_within (session_fragments bootstrap e) initial) d') d.
Proof.
  intros Hok Hin He Hnew Hpeer Hc. eapply session_within; [by intros ?? []| |by eapply meets_peer_stays|done|done].
  intros t Ht. rewrite Hnew in Ht. injection Ht as <-. split; [apply server_initial|done].
Qed.
End stays.

(** ** Safe screens *)
Section safe.
Context `{UW : UnicodeWidth} {UWL : UnicodeWidthLaws UW} `{VTE : Vte} {VT : VteTyped VTE} `{IT : Itoa}.

#[refine] Definition safe_screens : ScreenSet := {|
  in_set := safe_screen;
  emulator_panic := False;
|}.
Proof.
  - intros l s Hs _. destruct (safe_screen_process s l Hs) as (s' & u & Hp & _). rewrite Hp. by eapply safe_process.
  - intros row column s Hs Hc. destruct (safe_screen_cell s row column Hs) as (text & Ht & _). congruence.
  - intros s Hs Hf. destruct (safe_screen_formatted s Hs) as [b Hb]. congruence.
  - intros s s' Hs Hs' Hd. destruct (safe_screen_diff s s' Hs Hs') as [b Hb]. congruence.
Defined.
#[local] Existing Instance safe_screens.

(** A resize is safe if it leaves two rows and two columns and cuts no wide character. *)
Definition resize_safe (op : TerminalOperation) (t : TerminalState) : bool :=
  match op with
  | TerminalResize columns rows => (2 <=? rows) && (2 <=? columns) && negb (cuts_wide columns (screen t))
  | _ => true
  end.

Lemma resize_safe_spec columns rows t :
  size_ok rows columns → resize_safe (TerminalResize columns rows) t = true →
  size_safe (mkSize rows columns) ∧ cuts_wide columns (screen t) = false.
Proof.
  intros Hs Hop. apply andb_true_iff in Hop as [[Hr%Z.leb_le Hc%Z.leb_le]%andb_true_iff Hcut%negb_true_iff].
  split; [|done]. unfold size_ok in Hs. unfold size_safe. cbn. lia.
Qed.

Lemma resize_safe_stays op t : within t → resize_safe op t = true → resize_stays op t.
Proof.
  destruct op as [|columns rows|]; [done| |done]. intros Ht Hop Hs. destruct (resize_safe_spec _ _ _ Hs Hop) as [Hsz Hcut].
  destruct (safe_screen_resize (screen t) rows columns) as (s' & Hs' & Hsafe & _); [done..|]. by rewrite Hs'.
Qed.

Lemma TerminalState_new_size columns rows t :
  2 ≤ rows → 2 ≤ columns → TerminalState_new columns rows = Ok t →
  size_safe (mkSize rows columns) ∧ screen_new rows columns = Some (screen t).
Proof.
  intros Hr Hc Ht. unfold TerminalState_new in Ht. destruct (checked_size columns rows) as [[r c]| |] eqn:Hs; [|done..].
  apply checked_size_Ok in Hs as (Hs & -> & ->). cbn [mbind Result_bind] in Ht.
  destruct (screen_new rows columns) as [s|] eqn:Hn; [|done]. injection Ht as <-. split; [|done].
  unfold size_ok in Hs. unfold size_safe. cbn. lia.
Qed.
End safe.

(** ** Claims *)
Section claims.
Context `{AE : Aead} `{AEL : !AeadLaws AE} `{PR : Prost} `{PL : !ProstLaws PR} `{ZL : Zlib} `{ZB : !ZlibBounds ZL}.
Context `{UW : UnicodeWidth} `{VTE : Vte} `{PH : ProstHost}.

(** C2. A session with the client's own emulator never panics, and never fails with an error
    that would mean an inconsistency of the client, for every number of turns and whatever
    the user, the timers and the sockets do, if the window has two rows and two columns
    and no instruction that can be assembled from the server's authentic datagrams resizes
    the state it is based on to less than that or through a wide character. What the
    client then holds as state [n] was made from the initial state by such instructions. *)
Theorem session_never_panics {UWL : UnicodeWidthLaws UW} {VT : VteTyped VTE} `{IT : Itoa}
    bootstrap columns rows mode bound e d initial shutdown_fuel fuel :
  script_ok e → 2 ≤ rows → 2 ≤ columns → TerminalState_new columns rows = Ok initial →
  peer_meets resize_safe (session_fragments bootstrap e) initial → connect bootstrap columns rows mode bound e = Ok d →
  match run_turns shutdown_fuel fuel d with
  | (d', Ok _) => ∀ n t, terminal_states d' !! n = Some t → server_state (session_fragments bootstrap e) initial n t
  | (_, Err error) => internal_error error = false
  | (_, Panic) => False
  end.
Proof.
  intros He Hr Hc Hnew Hpeer Hconn.
  assert (within (H:=safe_screens) initial) as Hin.
  { destruct (TerminalState_new_size _ _ _ Hr Hc Hnew) as [Hsz Hn]. exact (safe_new rows columns (screen initial) Hsz Hn). }
  pose proof (session_meets (SS:=safe_screens) resize_safe bootstrap columns rows mode bound e d initial shutdown_fuel fuel
    resize_safe_stays Hin He Hnew Hpeer Hconn) as Hs.
  unfold spec in Hs. destruct (run_turns shutdown_fuel fuel d) as [d' [exit|error|]]; [|done|done].
  destruct Hs as [now Hinv]. intros n t Ht. by apply (di_screens _ _ _ _ _ _ _ Hinv n t Ht).
Qed.

(** C1. The client follows the server. Let [history] be the server's states by number, the
    first one the client's initial terminal, such that every instruction that can be
    assembled from the server's authentic datagrams leads from the state it is based on
    to the state it announces. Then at any time, however the datagrams are lost,
    repeated, reordered or mixed with others, what the client holds as state [n] is the
    server's state [n], and it holds the newest state that it has acknowledged. *)
Theorem client_holds_server_states `{VT : Vt100} (history : Z → option TerminalState)
    bootstrap columns rows mode bound e d shutdown_fuel fuel d' exit :
  script_ok e → connect bootstrap columns rows mode bound e = Ok d →
  (∀ t, TerminalState_new columns rows = Ok t → history 0 = Some t) →
  (∀ i diff t t', carries (session_fragments bootstrap e) i diff → history (base_state i) = Some t →
     terminal_apply t diff = Ok t' → history (new_state i) = Some t') →
  run_turns shutdown_fuel fuel d = (d', Ok exit) →
  (∀ n t, terminal_states d' !! n = Some t → history n = Some t) ∧
  is_Some (terminal_states d' !! remote_latest (synchronization d')).
Proof.
  intros He Hconn Hinit Hpeer Hrun. set (origin n t := history n = Some t ∧ reachable_state n t).
  assert (peer_stays (H:=reachable_screens) origin (session_fragments bootstrap e)) as Hstay.
  { intros compressed i Hasm Hdec diff t Hdiff [Ht Hreach].
    pose proof (reachable_peer_stays _ _ _ Hasm Hdec diff t Hdiff Hreach) as Hr.
    destruct (terminal_apply t diff) as [t'|err|] eqn:Happ; [|done|done]. split; [|done].
    eapply Hpeer; [by exists compressed|done|done]. }
  pose proof (session_within (H:=reachable_screens) origin bootstrap columns rows mode bound e d shutdown_fuel fuel
    (λ _ _ H, proj2 H) (λ t Ht, conj (Hinit t Ht) (reachable_state_new _ _ t Ht)) Hstay He Hconn) as Hs.
  unfold spec in Hs. rewrite Hrun in Hs. destruct Hs as [now Hinv]. split.
  - intros n t Ht. by apply (di_screens _ _ _ _ _ _ _ Hinv n t Ht).
  - apply (di_terminals _ _ _ _ _ _ _ Hinv). by eapply latest_received.
Qed.
End claims.

(** ** Witnesses *)

(** Fragments with the number 0 are assembled one at a time. *)
Lemma assembled_single pool c :
  Forall (λ f, Fragment.number f = 0) pool → assembled pool c → c = [] ∨ c ∈ body <$> pool.
Proof.
  rewrite Forall_forall. intros Hpool (id & fs & Hfs & Hnum & ->). destruct fs as [|a [|b fs]]; [by left| |].
  - apply Forall_singleton in Hfs as [Ha _]. right. csimpl. rewrite app_nil_r. by apply list_elem_of_fmap_2.
  - do 2 (apply Forall_cons in Hfs as [[?%Hpool _] Hfs]). exfalso.
    assert ((Fragment.number <$> a :: b :: fs) !! 1%nat = Some 1) as H1.
    { rewrite Hnum. apply lookup_seqZ. unfold len. cbn [length]. lia. }
    csimpl in H1. cbn in H1. congruence.
Qed.

#[local] Existing Instance null_aead.
#[local] Existing Instance null_aead_laws.
#[local] Existing Instance plain_prost.
#[local] Existing Instance plain_prost_laws.
#[local] Existing Instance stored_zlib.
#[local] Existing Instance stored_zlib_bounds.
#[local] Existing Instance ansi_vte.
#[local] Existing Instance ansi_typed.
#[local] Existing Instance wide_width.
#[local] Existing Instance wide_width_laws.
#[local] Existing Instance decimal_itoa.

(** A difference is a size followed by host bytes. *)
#[local] Instance sized_prost : ProstHost := {|
  host_difference_decode l :=
    match l with
    | columns :: rows :: text =>
        Some [mkWireHostOperation None (Some (columns, rows)) None; mkWireHostOperation (Some text) None None]
    | _ => None
    end;
|}.

(** The server resizes the terminal and prints [hi]. *)
Definition served : TransportInstruction := mkTransportInstruction PROTOCOL_VERSION 0 1 0 0 [6; 3; 104; 105] [0].
Definition served_difference : TerminalDifference := mkTerminalDifference [TerminalResize 6 3; HostBytes [104; 105]].

Definition server_datagram (sequence : Z) (i : TransportInstruction) : bytes :=
  let plaintext := envelope 100 None sequence 0 true (plain_instruction i ++ [0]) in
  (PacketCodec_seal (session_codec sample_bootstrap) ServerToClient sequence plaintext
     (replicate (Z.to_nat (len plaintext + OVERHEAD_BYTES)) 0)).1.

Definition from_server (sequence : Z) (i : TransportInstruction) : Ready :=
  mkReady None None false false None (Some (inl (server_datagram sequence i, V4 (bootstrap_server_addr sample_bootstrap)))).

(** The datagram arrives twice; then the output is painted, a key is typed and the
    session is cancelled. *)
Definition served_env : Env :=
  mkEnv [0; 10; 20; 40; 60; 90; 130; 180; 260; 400; 500] 0 [] []
    [from_server 0 served; from_server 0 served; mkReady None None false false (Some true) None;
     mkReady None (Some (Some (CommandInput [104]))) false false None None;
     mkReady None None false false (Some true) None; mkReady (Some true) None false false None None] 1000000 [] [].

Lemma served_script : script_ok served_env.
Proof. split; [|done]. split; [done|]. split; [done|]. cbn. repeat constructor; lia. Qed.

Definition served_fragment : Fragment := mkFragment 100 None 0 0 true (plain_instruction served ++ [0]).

Lemma served_pool : session_fragments sample_bootstrap served_env = [served_fragment; served_fragment].
Proof. vm_compute. reflexivity. Qed.

Lemma served_carries i d :
  carries (session_fragments sample_bootstrap served_env) i d → i = served ∧ d = served_difference.
Proof.
  intros (compressed & Hasm & Hdec & Hdiff). rewrite served_pool in Hasm.
  apply assembled_single in Hasm as [-> | Hc]; [by vm_compute in Hdec| |by repeat constructor].
  assert (compressed = body served_fragment) as -> by set_solver. vm_compute in Hdec. injection Hdec as <-. vm_compute in Hdiff. injection Hdiff as <-. done.
Qed.

(** The state that the server's instruction makes of the initial one. *)
Definition served_history (n : Z) : option TerminalState :=
  match TerminalState_new 5 2 with
  | Ok t =>
      if n =? 0 then Some t
      else if n =? 1 then match terminal_apply t served_difference with Ok t' => Some t' | _ => None end
      else None
  | _ => None
  end.

Lemma served_zero n t initial :
  server_state (session_fragments sample_bootstrap served_env) initial n t → n = 0 → t = initial.
Proof. intros [|i d t0 t' _ Hc _]; [done|]. apply served_carries in Hc as [-> _]. done. Qed.

Lemma served_safe initial :
  TerminalState_new 5 2 = Ok initial →
  peer_meets resize_safe (session_fragments sample_bootstrap served_env) initial.
Proof.
  intros Hnew i d t Ht [-> ->]%served_carries. apply served_zero in Ht as ->; [|done].
  assert (match TerminalState_new 5 2 with Ok t => operations_meet resize_safe (Terminal.operations served_difference) t | _ => false end = true) as H
    by (vm_compute; reflexivity).
  by rewrite Hnew in H.
Qed.

Lemma session_never_panics_witness :
  ∃ d initial, connect sample_bootstrap 5 2 Always None served_env = Ok d ∧
    match run_turns 5 12 d with
    | (d', Ok _) => ∀ n t, terminal_states d' !! n = Some t →
        server_state (session_fragments sample_bootstrap served_env) initial n t
    | (_, Err error) => internal_error error = false
    | (_, Panic) => False
    end.
Proof.
  assert (is_ok (TerminalState_new 5 2) = true) as Hok by (vm_compute; reflexivity).
  assert (is_ok (connect sample_bootstrap 5 2 Always None served_env) = true) as Hok' by (vm_compute; reflexivity).
  destruct (TerminalState_new 5 2) as [initial| |] eqn:Hnew; [|done..].
  destruct (connect sample_bootstrap 5 2 Always None served_env) as [d| |] eqn:Hc; [|done..].
  exists d, initial. split; [done|].
  apply (session_never_panics sample_bootstrap 5 2 Always None served_env d initial); try done; [apply served_script|].
  by apply served_safe.
Defined.

Lemma client_holds_server_states_witness :
  ∃ d d', connect sample_bootstrap 5 2 Always None served_env = Ok d ∧ run_turns 5 12 d = (d', Ok (Some Cancelled)) ∧
    remote_latest (synchronization d') = 1 ∧ ∃ t, terminal_states d' !! 1 = Some t ∧ served_history 1 = Some t.
Proof.
  assert (match connect sample_bootstrap 5 2 Always None served_env with
    | Ok d => (run_turns 5 12 d).2 = Ok (Some Cancelled) ∧ remote_latest (synchronization (run_turns 5 12 d).1) = 1
    | _ => False end) as Hrun by (vm_compute; split; reflexivity).
  destruct (connect sample_bootstrap 5 2 Always None served_env) as [d| |] eqn:Hc; [|done..].
  destruct (run_turns 5 12 d) as [d' r] eqn:Hr. exists d, d'. destruct Hrun as [Hok Hl]. cbn [fst snd] in Hok, Hl. subst r.
  destruct (client_holds_server_states served_history sample_bootstrap 5 2 Always None served_env d 5 12 d' (Some Cancelled))
    as [Hstates [t Ht]]; [apply served_script|done|intros t Ht; unfold served_history; by rewrite Ht| |done|].
  - intros i d1 t t' [-> ->]%served_carries Ht Happ. unfold served_history in *.
    change (base_state served) with 0 in Ht. change (new_state served) with 1.
    destruct (TerminalState_new 5 2); [|done..]. cbn in *. injection Ht as ->. by rewrite Happ.
  - rewrite Hl in Ht. split_and!; [done|done|done|]. exists t. split; [done|by apply Hstates].
Defined.

Example served_session_paints :
  match connect sample_bootstrap 5 2 Always None served_env with
  | Ok d => (run_turns 5 12 d).2 = Ok (Some Cancelled) ∧ len (emitted (env (run_turns 5 12 d).1)) = 1
  | _ => False
  end.
Proof. vm_compute. split; reflexivity. Qed.
