(* ===== verification/SessionDisplay.v ===== *)
(** * What a session shows

    The output of a session, written to a terminal in order, shows the state that the
    driver painted last: the driver's log of paintings meets the painter's theorems. *)

From S2P Require Import Prelude Limits BTreeMap Packet Fragment Instruction Synchronization Timing.
From S2P Require Import Reachability TerminalWidth Emulator Terminal Prediction Errors ClientHistory Bootstrap Driver DriverInput DriverInv DriverSafety.
From S2P Require Import Vt100Cell Vt100Row Vt100RowInv Vt100Grid Vt100GridInv Vt100Screen Vt100Parser Vt100ScreenInv EmulatorSafety Vt100Tokens Vt100Canvas Vt100Difference Vt100Ansi Vt100Display Vt100Follow SessionSafety.

Local Open Scope Z_scope.

(** ** Tidy screens *)
Section tidy.
Context `{UW : UnicodeWidth} {UWL : UnicodeWidthLaws UW} `{VTE : Vte} {VT : VteTyped VTE} `{IT : Itoa}.

Lemma tidy_safe s : tidy_screen s → safe_screen s.
Proof.
  induction 1 as [rows cols s Hsz Hn|s l s' u _ IH Hp|s rows cols s' _ IH Hsz Hcut _ _ Hr].
  - exact (safe_new rows cols s Hsz Hn).
  - exact (safe_process s l s' u IH Hp).
  - exact (safe_resize s rows cols s' IH Hsz Hcut Hr).
Qed.

#[refine] Definition tidy_screens : ScreenSet := {|
  in_set := tidy_screen;
  emulator_panic := False;
|}.
Proof.
  - intros l s Hs _. destruct (safe_screen_process s l (tidy_safe s Hs)) as (s' & u & Hp & _). rewrite Hp.
    exact (tidy_process s l s' u Hs Hp).
  - intros row column s Hs Hc. destruct (safe_screen_cell s row column (tidy_safe s Hs)) as (text & Ht & _). congruence.
  - intros s Hs Hf. destruct (safe_screen_formatted s (tidy_safe s Hs)) as [b Hb]. congruence.
  - intros s s' Hs Hs' Hd. destruct (safe_screen_diff s s' (tidy_safe s Hs) (tidy_safe s' Hs')) as [b Hb]. congruence.
Defined.

(** A resize is tidy if it is safe and leaves more than one row of the scroll regions. *)
Definition resize_tidy (op : TerminalOperation) (t : TerminalState) : bool :=
  resize_safe op t &&
  match op with
  | TerminalResize _ rows =>
      negb (scroll_top (primary_grid (screen t)) =? rows - 1) && negb (scroll_top (alternate_grid (screen t)) =? rows - 1)
  | _ => true
  end.

Lemma resize_tidy_stays op t :
  within (H:=tidy_screens) t → resize_tidy op t = true → resize_stays (H:=tidy_screens) op t.
Proof.
  intros Ht [Hop Hk]%andb_true_iff. destruct op as [|columns rows|]; [done| |done]. intros Hs.
  destruct (resize_safe_spec _ _ _ Hs Hop) as [Hsz Hcut].
  apply andb_true_iff in Hk as [Hk1%negb_true_iff%Z.eqb_neq Hk2%negb_true_iff%Z.eqb_neq].
  destruct (safe_screen_resize (screen t) rows columns (tidy_safe _ Ht)) as (s' & Hs' & _ & _); [done..|]. rewrite Hs'.
  exact (tidy_resize (screen t) rows columns s' Ht Hsz Hcut Hk1 Hk2 Hs').
Qed.
End tidy.

(** ** A log of paintings on a display *)
Section log.
Context `{UW : UnicodeWidth} {UWL : UnicodeWidthLaws UW} `{IT : Itoa} {IL : ItoaLaws IT}.
Context `{VTE : Vte} {VT : VteTyped VTE} {VTK : VteTokens VTE}.

(** The display processes the chunks in order. *)
Fixpoint show_all (r : VtScreen) (chunks : list bytes) : option VtScreen :=
  match chunks with
  | [] => Some r
  | b :: chunks => '(r', _) ← screen_process r b; show_all r' chunks
  end.

Lemma show_all_snoc r chunks b :
  show_all r (chunks ++ [b]) = (r' ← show_all r chunks; '(r'', _) ← screen_process r' b; Some r'').
Proof.
  revert r. induction chunks as [|c chunks IH]; intros r; cbn [show_all app mbind option_bind].
  - by destruct (screen_process (Vt100:=vt100) r b) as [[r' u]|].
  - destruct (screen_process (Vt100:=vt100) r c) as [[r' u]|]; [apply IH|done].
Qed.

(** A full repaint never switches mouse reports off. *)
Definition mouse_kept (p t : VtScreen) : bool :=
  (bool_decide (mouse_protocol_mode p = NoMouse) || negb (bool_decide (mouse_protocol_mode t = NoMouse))) &&
  (bool_decide (mouse_protocol_encoding p = DefaultEncoding) || negb (bool_decide (mouse_protocol_encoding t = DefaultEncoding))).

(** What a log of paintings, newest first, needs to be followed: every difference is
    steady, and a later full repaint finds no mouse reports to switch off. *)
Fixpoint followable (log : list (bool * TerminalState)) : bool :=
  match log with
  | (full, t) :: rest =>
      match rest with
      | (_, p) :: _ => if full : bool then mouse_kept (screen p) (screen t) else steady (screen p) (screen t)
      | [] => true
      end && followable rest
  | [] => true
  end.

(** A display that shows what was painted last. *)
Definition displays (size : Z * Z) (log : list (bool * TerminalState)) (r : VtScreen) : Prop :=
  safe_screen r ∧ screen_size r = size ∧ accepts_repaint r = true ∧
  match log with
  | [] => mouse_protocol_mode r = NoMouse ∧ mouse_protocol_encoding r = DefaultEncoding
  | (_, t) :: _ => in_step t r
  end.

Lemma in_step_accepts t r : in_step t r → accepts_repaint r = true ∧ screen_size r = screen_size (screen t).
Proof.
  intros [(sz & Hsz & Hok & Hp) _]. destruct Hp as [Hready _ _ _ _ _]. unfold accepts_repaint.
  rewrite (rd_size _ _ Hready), (rd_origin _ _ Hready), (rd_top _ _ Hready), (rd_bottom _ _ Hready), !Z.eqb_refl. split; [done|].
  cbn. unfold VtScreen_size. by rewrite (rd_size _ _ Hready), (live_size sz _ (screen_grid sz _ Hok)).
Qed.

Lemma after_kept {A} `{EqDecision A} (none wanted before : A) :
  bool_decide (before = none) || negb (bool_decide (wanted = none)) = true → after none wanted before = wanted.
Proof. unfold after. do 2 case_bool_decide; cbn; congruence. Qed.

Lemma full_in_step t r out :
  tidy_screen (screen t) → safe_screen r → screen_size r = screen_size (screen t) → accepts_repaint r = true →
  mouse_kept r (screen t) = true → painter_full t = Ok out →
  ∃ r' u, screen_process r out = Some (r', u) ∧ in_step t r'.
Proof using IL UWL VT VTK.
  intros Ht Hr Hs Ha [Hm He]%andb_true_iff Hout. destruct (full_repainted t r Ht Hr Hs Ha) as (f & r' & Hf & Hp & Hpic & _ & Hm' & He' & _).
  rewrite (painter_full_cases t f Hf) in Hout. destruct (_ <? _); [done|]. injection Hout as <-. exists r', reset_reports.
  split; [done|]. split; [done|]. rewrite Hm', He'. split; by apply after_kept.
Qed.

(** The display follows the log. *)
Lemma log_displayed chunks log r :
  painted_log chunks log → Forall (λ x, tidy_screen (screen x.2) ∧ screen_size (screen x.2) = screen_size r) log →
  followable log = true → safe_screen r → accepts_repaint r = true →
  mouse_protocol_mode r = NoMouse → mouse_protocol_encoding r = DefaultEncoding →
  ∃ r', show_all r chunks = Some r' ∧ displays (screen_size r) log r'.
Proof using IL UWL VT VTK.
  intros Hlog Hall Hf Hr Ha Hm He.
  assert (∀ t r1 r2 out u, displays (screen_size r) [] r1 ∨ safe_screen r1 → screen_process r1 out = Some (r2, u) →
    screen_size (screen t) = screen_size r → in_step t r2 → displays (screen_size r) [(true, t)] r2) as Hnext.
  { intros t r1 r2 out u H1 Hp Hs Hstep. destruct (in_step_accepts _ _ Hstep) as [Ha2 Hs2].
    split_and!; [|by rewrite Hs2|done|done]. apply (safe_process r1 out r2 u); [by destruct H1 as [[]|]|done]. }
  induction Hlog as [|chunks log t b Hlog IH Hb|chunks full p log t b Hlog IH Hb].
  - by exists r.
  - apply Forall_cons in Hall as [[Ht Hs] Hall]. cbn [snd] in Ht, Hs. cbn [followable] in Hf. apply andb_true_iff in Hf as [Hk Hf].
    destruct (IH Hall Hf) as (r1 & H1 & Hsafe & Hsz & Hacc & Hd).
    assert (mouse_kept r1 (screen t) = true) as Hmouse.
    { destruct log as [|[full p] log].
      - destruct Hd as [Hm1 He1]. unfold mouse_kept. rewrite Hm1, He1.
        by rewrite (bool_decide_eq_true_2 (NoMouse = NoMouse)), (bool_decide_eq_true_2 (DefaultEncoding = DefaultEncoding)).
      - destruct Hd as [_ [Hm1 He1]]. unfold mouse_kept. rewrite Hm1, He1. exact Hk. }
    destruct (full_in_step t r1 b) as (r2 & u & Hp & Hstep); [done|done|by rewrite Hsz, Hs|done|done|done|].
    exists r2. split; [|by eapply Hnext; eauto]. rewrite show_all_snoc, H1. cbn [mbind option_bind]. by rewrite Hp.
  - apply Forall_cons in Hall as [[Ht Hs] Hall]. cbn [snd] in Ht, Hs. cbn [followable] in Hf. apply andb_true_iff in Hf as [Hk Hf].
    destruct (IH Hall Hf) as (r1 & H1 & Hsafe & Hsz & Hacc & Hd).
    pose proof (proj1 (proj1 (Forall_cons _ _ _) Hall)) as [_ Hps].
    pose proof (incremental_in_step p t r1 Hd Ht) as Hi. cbn [snd] in Hps. rewrite Hps, Hs in Hi. specialize (Hi eq_refl Hk).
    rewrite Hb in Hi. destruct Hi as (r2 & Hp & Hstep).
    exists r2. split; [|by eapply Hnext; eauto]. rewrite show_all_snoc, H1. cbn [mbind option_bind]. by rewrite Hp.
Qed.
End log.

(** ** The claim *)
Section claim.
Context `{AE : Aead} `{AEL : !AeadLaws AE} `{PR : Prost} `{PL : !ProstLaws PR} `{ZL : Zlib} `{ZB : !ZlibBounds ZL}.
Context `{UW : UnicodeWidth} {UWL : UnicodeWidthLaws UW} `{IT : Itoa} {IL : ItoaLaws IT}.
Context `{VTE : Vte} {VT : VteTyped VTE} {VTK : VteTokens VTE} `{PH : ProstHost}.

(** C3. What the application sees. The output of a session paints a list of states one after
    the other, the newest one last: the first in full and the others as differences or, after a
    request, in full, as long as the server's resizes are tidy. Written chunk by chunk to a terminal of
    these states' size whose scroll region is the whole screen, whose origin is the corner
    and which reports no mouse, it comes to show the state that the driver painted last,
    with its cells, cursor, attributes, modes and mouse reports, if the list can be
    followed: every difference is steady, and a later full repaint finds no mouse
    reports to switch off. *)
Theorem session_output_shows bootstrap columns rows mode bound e d initial shutdown_fuel fuel d' exit :
  script_ok e → 2 ≤ rows → 2 ≤ columns → TerminalState_new columns rows = Ok initial →
  peer_meets resize_tidy (session_fragments bootstrap e) initial → connect bootstrap columns rows mode bound e = Ok d →
  run_turns shutdown_fuel fuel d = (d', Ok exit) →
  (∃ log, painted_log (emitted (env d')) log ∧ painted_state d' = newest log ∧ Forall (λ x, tidy_screen (screen x.2)) log) ∧
  ∀ log r,
    painted_log (emitted (env d')) log →
    Forall (λ x, tidy_screen (screen x.2) ∧ screen_size (screen x.2) = screen_size r) log → followable log = true →
    safe_screen r → accepts_repaint r = true → mouse_protocol_mode r = NoMouse → mouse_protocol_encoding r = DefaultEncoding →
    ∃ r', show_all r (emitted (env d')) = Some r' ∧
      ∀ t, newest log = Some t →
        shows (screen t) r' ∧ mouse_protocol_mode r' = mouse_protocol_mode (screen t) ∧
        mouse_protocol_encoding r' = mouse_protocol_encoding (screen t).
Proof using All.
  intros He Hr Hc Hnew Hpeer Hconn Hrun. split.
  - assert (within (H:=tidy_screens) initial) as Hin.
    { destruct (TerminalState_new_size _ _ _ Hr Hc Hnew) as [Hsz Hn]. exact (tidy_new rows columns (screen initial) Hsz Hn). }
    pose proof (session_meets (SS:=tidy_screens) resize_tidy bootstrap columns rows mode bound e d initial shutdown_fuel fuel
      resize_tidy_stays Hin He Hnew Hpeer Hconn) as Hs.
    unfold spec in Hs. rewrite Hrun in Hs. destruct Hs as [now Hinv]. exact (di_output _ _ _ _ _ _ _ Hinv).
  - intros log r Hlog Hall Hf Hsafe Ha Hm Hen.
    destruct (log_displayed (emitted (env d')) log r) as (r' & Hshow & Hd); try done. exists r'. split; [done|].
    intros t Ht. destruct log as [|[full p] log]; [done|]. injection Ht as ->.
    destruct Hd as (_ & _ & _ & Hstep). destruct (in_step_shows _ _ Hstep) as [Hsh _]. by destruct Hstep as [_ [? ?]].
Qed.
End claim.

(** ** Witness *)
#[local] Existing Instance null_aead.
#[local] Existing Instance null_aead_laws.
#[local] Existing Instance plain_prost.
#[local] Existing Instance plain_prost_laws.
#[local] Existing Instance stored_zlib.
#[local] Existing Instance stored_zlib_bounds.
#[local] Existing Instance ansi_vte.
#[local] Existing Instance ansi_typed.
#[local] Existing Instance ansi_tokens.
#[local] Existing Instance wide_width.
#[local] Existing Instance wide_width_laws.
#[local] Existing Instance decimal_itoa.
#[local] Existing Instance sized_prost.

(** The server's second instruction prints [!] after the first one's [hi]. *)
Definition printed : TransportInstruction := mkTransportInstruction PROTOCOL_VERSION 1 2 0 0 [6; 3; 33] [0].
Definition printed_difference : TerminalDifference := mkTerminalDifference [TerminalResize 6 3; HostBytes [33]].

Definition output_permit : Ready := mkReady None None false false (Some true) None.

(** Both instructions arrive and are painted; then a repaint is asked for. *)
Definition shown_env : Env :=
  mkEnv [0; 10; 20; 40; 60; 90; 130; 180; 260; 400; 500] 0 [] []
    [from_server 0 served; output_permit; from_server 1 printed; output_permit;
     mkReady None (Some (Some CommandRepaint)) false false None None; output_permit;
     mkReady (Some true) None false false None None] 1000000 [] [].

Lemma shown_script : script_ok shown_env.
Proof. split; [|done]. split; [done|]. split; [done|]. cbn. repeat constructor; lia. Qed.

Definition printed_fragment : Fragment := mkFragment 100 None 1 0 true (plain_instruction printed ++ [0]).

Lemma shown_pool : session_fragments sample_bootstrap shown_env = [served_fragment; printed_fragment].
Proof. vm_compute. reflexivity. Qed.

Lemma shown_carries i d :
  carries (session_fragments sample_bootstrap shown_env) i d →
  i = served ∧ d = served_difference ∨ i = printed ∧ d = printed_difference.
Proof.
  intros (compressed & Hasm & Hdec & Hdiff). rewrite shown_pool in Hasm.
  apply assembled_single in Hasm as [-> | Hc]; [by vm_compute in Hdec| |by repeat constructor].
  apply elem_of_cons in Hc as [->|Hc]; [left|apply elem_of_cons in Hc as [->|Hc]; [right|set_solver]];
    vm_compute in Hdec; injection Hdec as <-; vm_compute in Hdiff; injection Hdiff as <-; done.
Qed.

(** The first state and the second, of which the two instructions are based. *)
Lemma shown_states n t initial :
  server_state (session_fragments sample_bootstrap shown_env) initial n t →
  (n = 0 → t = initial) ∧ (n = 1 → terminal_apply initial served_difference = Ok t).
Proof.
  induction 1 as [|i d t t' Ht [IH0 IH1] Hc Ha]; [done|].
  apply shown_carries in Hc as [[-> ->]|[-> ->]]; [|done]. split; [done|]. intros _. by rewrite <- (IH0 eq_refl).
Qed.

Lemma shown_tidy initial :
  TerminalState_new 5 2 = Ok initial → peer_meets resize_tidy (session_fragments sample_bootstrap shown_env) initial.
Proof.
  intros Hnew i d t [H0 H1]%shown_states Hc.
  assert (match TerminalState_new 5 2 with
    | Ok t => operations_meet resize_tidy (Terminal.operations served_difference) t = true ∧
        match terminal_apply t served_difference with
        | Ok t' => operations_meet resize_tidy (Terminal.operations printed_difference) t' = true | _ => False end
    | _ => False end) as H by (vm_compute; split; reflexivity).
  rewrite Hnew in H. apply shown_carries in Hc as [[-> ->]|[-> ->]].
  - rewrite (H0 eq_refl). apply H.
  - rewrite (H1 eq_refl) in H. apply H.
Qed.

(** The states, and a terminal of their size that shows something else. *)
Definition state_after (d : TerminalDifference) (t : TerminalState) : TerminalState :=
  match terminal_apply t d with Ok t' => t' | _ => t end.
Definition shown_initial : TerminalState :=
  match TerminalState_new 5 2 with Ok t => t | _ => mkTerminalState small_screen None end.
Definition shown_first : TerminalState := state_after served_difference shown_initial.
Definition shown_second : TerminalState := state_after printed_difference shown_first.
Definition shown_display : VtScreen :=
  match screen_new 3 6 with
  | Some s => match screen_process s [97; 98; 99; 13; 10; 100] with Some (s', _) => s' | None => s end
  | None => small_screen
  end.
Definition shown_log : list (bool * TerminalState) := [(true, shown_second); (false, shown_second); (true, shown_first)].

Definition is_chunk (r : Result PaintError bytes) (b : bytes) : bool :=
  match r with Ok b' => bytes_eqb b' b | _ => false end.

Lemma shown_painted :
  match connect sample_bootstrap 5 2 Always None shown_env with
  | Ok d => (run_turns 5 16 d).2 = Ok (Some Cancelled) ∧
      match emitted (env (run_turns 5 16 d).1) with
      | [a; b; c] => is_chunk (painter_full shown_first) a && is_chunk (painter_incremental shown_first shown_second) b &&
                     is_chunk (painter_full shown_second) c = true
      | _ => False
      end
  | _ => False
  end.
Proof. vm_compute. split; reflexivity. Qed.

Lemma shown_new : TerminalState_new 5 2 = Ok shown_initial.
Proof.
  assert (is_ok (TerminalState_new 5 2) = true) as H by (vm_compute; reflexivity).
  unfold shown_initial. by destruct (TerminalState_new 5 2).
Qed.

Lemma state_after_tidy d t :
  tidy_screen (screen t) → operations_meet resize_tidy (Terminal.operations d) t = true → tidy_screen (screen (state_after d t)).
Proof.
  intros Ht Hd. unfold state_after.
  pose proof (terminal_apply_within (SS:=tidy_screens) t d Ht (operations_meet_stay _ resize_tidy_stays _ _ Ht Hd)) as Ha.
  by destruct (terminal_apply t d).
Qed.

Lemma shown_log_tidy : Forall (λ x, tidy_screen (screen x.2)) shown_log.
Proof.
  assert (tidy_screen (screen shown_initial)) as H0.
  { destruct (TerminalState_new_size 5 2 _ ltac:(done) ltac:(done) shown_new) as [Hsz Hn]. exact (tidy_new 2 5 _ Hsz Hn). }
  assert (tidy_screen (screen shown_first)) as H1 by (apply state_after_tidy; [done|vm_compute; reflexivity]).
  assert (tidy_screen (screen shown_second)) as H2 by (apply state_after_tidy; [done|vm_compute; reflexivity]).
  by repeat constructor.
Qed.

Lemma shown_display_safe : safe_screen shown_display.
Proof.
  assert (size_safe (mkSize 3 6)) as Hsz by (unfold size_safe; cbn; llia).
  unfold shown_display. destruct (screen_new 3 6) as [s|] eqn:Hs; cycle 1.
  { destruct (safe_screen_new 3 6 Hsz) as (s & Hs' & _). congruence. }
  assert (safe_screen s) as Hsafe by exact (safe_new 3 6 s Hsz Hs).
  destruct (screen_process s _) as [[s' u]|] eqn:Hp; [exact (safe_process s _ s' u Hsafe Hp)|done].
Qed.

Lemma session_output_shows_witness :
  ∃ d d' r', connect sample_bootstrap 5 2 Always None shown_env = Ok d ∧ run_turns 5 16 d = (d', Ok (Some Cancelled)) ∧
    len (emitted (env d')) = 3 ∧ show_all shown_display (emitted (env d')) = Some r' ∧ shows (screen shown_second) r'.
Proof.
  pose proof shown_painted as Hrun.
  destruct (connect sample_bootstrap 5 2 Always None shown_env) as [d| |] eqn:Hc; [|done..].
  destruct (run_turns 5 16 d) as [d' r] eqn:Hr. destruct Hrun as [Hok Hchunks]. cbn [fst snd] in Hok, Hchunks. subst r.
  destruct (session_output_shows sample_bootstrap 5 2 Always None shown_env d shown_initial 5 16 d' (Some Cancelled))
    as [_ Hshow]; [apply shown_script|lia|lia|apply shown_new|apply shown_tidy, shown_new|exact Hc|exact Hr|].
  assert (painted_log (emitted (env d')) shown_log ∧ len (emitted (env d')) = 3) as [Hlog Hlen].
  { destruct (emitted (env d')) as [|a [|b [|c [|x l]]]];
      [destruct Hchunks|destruct Hchunks|destruct Hchunks| |destruct Hchunks]. split; [|reflexivity].
    rewrite !andb_true_iff in Hchunks. destruct Hchunks as ((Ha & Hb) & Hc').
    assert (∀ r x, is_chunk r x = true → r = Ok x) as Hchunk.
    { intros [y| |] x Hx; [|done..]. by apply bool_decide_eq_true in Hx as ->. }
    apply (log_full [a; b]); [|exact (Hchunk _ _ Hc')]. apply (log_incremental [a]); [|exact (Hchunk _ _ Hb)].
    apply (log_full []); [constructor|exact (Hchunk _ _ Ha)]. }
  destruct (Hshow shown_log shown_display Hlog) as (r' & Hr' & Hs).
  - apply Forall_and. split; [apply shown_log_tidy|]. repeat constructor; vm_compute; reflexivity.
  - vm_compute. reflexivity.
  - apply shown_display_safe.
  - vm_compute. reflexivity.
  - vm_compute. reflexivity.
  - vm_compute. reflexivity.
  - exists d, d', r'. split; [reflexivity|]. split; [exact Hr|]. split; [exact Hlen|]. split; [exact Hr'|].
    apply (Hs shown_second). unfold newest, shown_log. cbn [head fmap option_fmap option_map snd]. reflexivity.
Defined.
