(* ===== verification/Fuzzing.v ===== *)
(** * The fuzzing entry points: [src/src/fuzzing.rs]

    The two functions that the fuzzer calls with arbitrary bytes. They run the
    parsers and the state machines of the client and assert their bounds; [None] is a
    panic, of an assertion or of what is called. *)

From S2P Require Import Prelude Limits BTreeMap Packet Fragment Instruction Synchronization Timing TerminalWidth Emulator Terminal Bootstrap DriverInv DriverSafety Vt100Cell Vt100Grid Vt100GridInv Vt100Screen Vt100Parser EmulatorSafety.

Local Open Scope Z_scope.

(** [let _ = call]: the outcome is dropped, unless the call panics. *)
Definition ignore {E A} (r : Result E A) : option unit :=
  match r with Panic => None | _ => Some tt end.

(** The same for a call that changes a component. *)
Definition settle {S E A} (m : M S E A) (s : S) : option S :=
  match m s with (_, Panic) => None | (s', _) => Some s' end.

(** [assert!] *)
Definition assert_that (b : bool) : option unit := if b then Some tt else None.

(** The assertions on the reassembler, which both functions make. *)
Definition assert_reassembler (r : FragmentReassembler) : option unit :=
  _ ← assert_that (incomplete_count r <=? 1);
  assert_that (reassembler_stored_bytes r <=? MAX_COMPRESSED_INSTRUCTION_BYTES).

(** [Ipv4Addr::LOCALHOST] *)
Definition LOCALHOST : Z := 2130706433.

Definition FUZZ_KEY : SessionKey := mkSessionKey (replicate 16 0x5a).

(** ** [exercise_untrusted_parsers] *)
Section parsers.
Context `{HA : Aead} `{PR : Prost} `{ZL : Zlib} `{B64 : Base64}.
Context `{VT : Vt100} `{VTE : Vte} `{UW : UnicodeWidth} `{PH : ProstHost}.

Definition fuzz_fragment (data : bytes) : option unit :=
  match Fragment.decode data with
  | Ok fragment =>
      reassembler ← settle (push 0 fragment) (FragmentReassembler_new 0);
      assert_reassembler reassembler
  | Err _ => Some tt
  | Panic => None
  end.

Definition fuzz_terminal (data : bytes) : option unit :=
  match TerminalDifference_decode data with
  | Ok difference =>
      match TerminalState_new 80 24 with
      | Ok initial =>
          match terminal_apply initial difference with
          | Ok next =>
              _ ← ignore (painter_full next);
              ignore (painter_incremental initial next)
          | Err _ => Some tt
          | Panic => None
          end
      | _ => None
      end
  | Err _ => Some tt
  | Panic => None
  end.

Definition fuzz_packet (data : bytes) : option unit :=
  let receiver := PacketReceiver_new FUZZ_KEY ServerToClient in
  let datagram := take (Z.to_nat (Z.min (len data) (MAX_DATAGRAM_BYTES + 1))) data in
  ignore (PacketReceiver_open (receiver, datagram)).2.

Definition exercise_untrusted_parsers (data : bytes) : option unit :=
  _ ← ignore (Bootstrap_parse LOCALHOST data);
  _ ← ignore (decode_zlib data);
  _ ← fuzz_fragment data;
  _ ← fuzz_terminal data;
  fuzz_packet data.
End parsers.

(** ** [exercise_state_transitions] *)
Record FuzzState := mkFuzzState {
  fz_now_ms : Z;
  fz_reassembler : FragmentReassembler;
  fz_synchronization : SynchronizationState;
  fz_scheduler : SendScheduler;
  fz_timing : RttEstimator;
}.

Definition FuzzState_new : FuzzState :=
  mkFuzzState 0 (FragmentReassembler_new 0) SynchronizationState_new (SendScheduler_new 0) RttEstimator_new.

(** [padded_eight], and [u64::from_le_bytes] of it. *)
Definition padded_eight (l : bytes) : bytes :=
  let copied := Nat.min (length l) 8 in
  take copied l ++ replicate (8 - copied) 0.
Definition from_le_bytes (l : bytes) : Z := from_be_bytes (rev l).

(** [chunk.get(i).copied().unwrap_or_default()] and the test of its lowest bit. *)
Definition byte_at (i : nat) (chunk : bytes) : Z := default 0 (chunk !! i).
Definition bit_at (i : nat) (chunk : bytes) : bool :=
  match chunk !! i with Some b => negb (Z.land b 1 =? 0) | None => false end.

Definition fuzz_piece (now_ms number : Z) (chunk : bytes) : Fragment :=
  mkFragment (Z.land now_ms 0xffff) None (number mod 4) (byte_at 2 chunk mod 8) (bit_at 3 chunk) (drop 4 chunk).

Definition fuzz_instruction (number : Z) (chunk : bytes) : TransportInstruction :=
  mkTransportInstruction (if bit_at 2 chunk then PROTOCOL_VERSION else PROTOCOL_VERSION + 1)
    (number mod 64) (byte_at 3 chunk mod 64) (byte_at 4 chunk mod 64) (byte_at 5 chunk mod 64) (drop 6 chunk) [].

Definition fuzz_send (now_ms : Z) (s : SynchronizationState) : option SynchronizationState :=
  match plan_send now_ms 50 s with
  | Ok plan => settle (commit_send plan) s
  | Err _ => Some s
  | Panic => None
  end.

Definition fuzz_receive (i : TransportInstruction) (s : SynchronizationState) : option SynchronizationState :=
  match begin_receive i s with
  | (s', Ok transition) =>
      match remote_state transition with
      | Apply plan => settle (commit_receive plan) s'
      | _ => Some s'
      end
  | (s', Err _) => Some s'
  | (_, Panic) => None
  end.

Definition fuzz_poll (now_ms : Z) (timing : RttEstimator) (s : SendScheduler) : option SendScheduler :=
  match poll now_ms timing None s with
  | (s', Ok (Send plan)) => settle (scheduler_commit_send plan) s'
  | (_, Panic) => None
  | (s', _) => Some s'
  end.

(** The [match] on the operation. *)
Definition fuzz_operation (operation now_ms number : Z) (chunk : bytes) (f : FuzzState) : option FuzzState :=
  let '(mkFuzzState _ reassembler synchronization scheduler timing) := f in
  let on_reassembler o := r ← o; Some (mkFuzzState now_ms r synchronization scheduler timing) in
  let on_synchronization o := s ← o; Some (mkFuzzState now_ms reassembler s scheduler timing) in
  let on_scheduler o := s ← o; Some (mkFuzzState now_ms reassembler synchronization s timing) in
  if operation =? 0 then on_reassembler (settle (push now_ms (fuzz_piece now_ms number chunk)) reassembler)
  else if operation =? 1 then on_reassembler (settle (expire now_ms) reassembler)
  else if operation =? 2 then on_synchronization (settle advance_local synchronization)
  else if operation =? 3 then on_synchronization (fuzz_send now_ms synchronization)
  else if operation =? 4 then on_synchronization (fuzz_receive (fuzz_instruction number chunk) synchronization)
  else if operation =? 5 then on_scheduler (settle (note_local_change now_ms) scheduler)
  else if operation =? 6 then on_scheduler (settle (note_acknowledgement_needed now_ms) scheduler)
  else
    timing ← settle (observe_sample (number mod 60001)) timing;
    scheduler ← fuzz_poll now_ms timing scheduler;
    Some (mkFuzzState now_ms reassembler synchronization scheduler timing).

(** [fuzz_retained_counts] and the assertions at the end of an iteration. *)
Definition fuzz_assertions (f : FuzzState) : option unit :=
  _ ← assert_reassembler (fz_reassembler f);
  _ ← assert_that (len (sent_states (fz_synchronization f)) <=? MAX_SENT_STATES_AFTER_ACK);
  assert_that (len (received_states (fz_synchronization f)) <=? MAX_RECEIVED_REFERENCE_STATES).

Definition fuzz_chunk (chunk : bytes) (f : FuzzState) : option FuzzState :=
  let now_ms := saturating_add U64_MAX (fz_now_ms f) (byte_at 1 chunk mod 32) in
  f ← fuzz_operation (byte_at 0 chunk mod 8) now_ms (from_le_bytes (padded_eight chunk)) chunk f;
  _ ← fuzz_assertions f;
  Some f.

Fixpoint fuzz_chunks (l : list bytes) (f : FuzzState) : option FuzzState :=
  match l with
  | [] => Some f
  | chunk :: rest => f' ← fuzz_chunk chunk f; fuzz_chunks rest f'
  end.

Definition exercise_state_transitions (data : bytes) : option unit :=
  _ ← fuzz_chunks (take 256 (chunks 16 data)) FuzzState_new;
  Some tt.

(** ** The assertions hold *)
Record fuzz_inv (f : FuzzState) : Prop := {
  fi_now : 0 ≤ fz_now_ms f;
  fi_reassembler : reassembler_inv (fz_reassembler f);
  fi_synchronization : sync_wf (fz_synchronization f);
  fi_scheduler : sched_wf (fz_scheduler f);
  fi_timing : rtt_wf (fz_timing f);
}.

Lemma settle_ok {S E A} (m : M S E A) s (P : S → Prop) :
  (∀ s' r, m s = (s', r) → P s' ∧ no_panic r) → ∃ s', settle m s = Some s' ∧ P s'.
Proof.
  intros H. unfold settle. destruct (m s) as [s' r] eqn:Hm. destruct (H s' r eq_refl) as [HP Hr].
  destruct r; [by exists s'|by exists s'|done].
Qed.

Lemma assert_reassembler_ok r : reassembler_inv r → assert_reassembler r = Some tt.
Proof.
  intros Hr. unfold assert_reassembler, incomplete_count, reassembler_stored_bytes.
  destruct (incomplete r) as [i|] eqn:Hi; [|done]. destruct (Hr i Hi) as (_ & _ & _ & Hs & _).
  cbn. unfold assert_that. by rewrite (proj2 (Z.leb_le _ _) Hs).
Qed.

Lemma fuzz_assertions_ok f : fuzz_inv f → fuzz_assertions f = Some tt.
Proof.
  intros []. unfold fuzz_assertions. rewrite assert_reassembler_ok by done. cbn. unfold assert_that.
  rewrite (proj2 (Z.leb_le _ _) (wf_sent_len _ fi_synchronization0)). cbn.
  by rewrite (proj2 (Z.leb_le _ _) (wf_received_len _ fi_synchronization0)).
Qed.

(** *** No operation panics *)
Ltac never_panics := unfold no_panic; run; intros ?; cases.

Lemma advance_local_no_panic s s' r : advance_local s = (s', r) → no_panic r.
Proof. unfold advance_local. intros H. never_panics. Qed.
Lemma plan_base_no_panic now rto known l : no_panic (plan_base now rto known l).
Proof. induction l as [|x l IH]; [done|]. unfold no_panic in *. simpl. run. unfold ok_or. repeat case_match; done. Qed.
Lemma plan_send_no_panic now rto s : no_panic (plan_send now rto s).
Proof. unfold plan_send. pose proof (plan_base_no_panic now rto (known_receiver_state s) (rev (sent_states s))). never_panics. Qed.
Lemma commit_send_no_panic p s s' r : commit_send p s = (s', r) → no_panic r.
Proof. unfold commit_send. intros H. never_panics. Qed.
Lemma begin_receive_no_panic i s s' r : begin_receive i s = (s', r) → no_panic r.
Proof. unfold begin_receive, validate_instruction, observe_acknowledgement. intros H. never_panics. Qed.
Lemma commit_receive_no_panic p s s' r : commit_receive p s = (s', r) → no_panic r.
Proof. unfold commit_receive. intros H. never_panics. Qed.
Lemma note_local_change_no_panic now s s' r : note_local_change now s = (s', r) → no_panic r.
Proof. unfold note_local_change, scheduler_observe_time, next_generation. intros H. never_panics. Qed.
Lemma note_acknowledgement_needed_no_panic now s s' r : note_acknowledgement_needed now s = (s', r) → no_panic r.
Proof. unfold note_acknowledgement_needed, scheduler_observe_time, next_generation. intros H. never_panics. Qed.
Lemma scheduler_commit_send_no_panic p s s' r : scheduler_commit_send p s = (s', r) → no_panic r.
Proof. unfold scheduler_commit_send, next_generation. intros H. never_panics. Qed.
Lemma poll_no_panic now rtt s s' r : poll now rtt None s = (s', r) → no_panic r.
Proof.
  intros H. destruct (Z.ltb_spec now (ss_last_observed_ms s)) as [Hl|Hl].
  - unfold poll, scheduler_observe_time in H. run. rewrite (proj2 (Z.ltb_lt _ _) Hl) in H. by simplify_eq.
  - pose proof (poll_safe now rtt None s Hl ltac:(by intros ?)) as Hp.
    unfold spec in Hp. rewrite H in Hp. by destruct r.
Qed.

(** *** Each operation keeps the invariant *)
Lemma push_keeps now p r : 0 ≤ Fragment.number p → reassembler_inv r → ∃ r', settle (push now p) r = Some r' ∧ reassembler_inv r'.
Proof.
  intros Hn Hr. apply settle_ok. intros r' x Hx. pose proof (push_inv now p r Hr Hn) as Hp. unfold wp in Hp. rewrite Hx in Hp.
  by destruct Hp as (? & ? & _).
Qed.

Lemma expire_keeps now r : reassembler_inv r → ∃ r', settle (expire now) r = Some r' ∧ reassembler_inv r'.
Proof.
  intros Hr. apply settle_ok. intros r' x Hx. unfold expire in Hx. cbv [mbind M_bind] in Hx.
  destruct (reassembler_observe_time now r) as [r1 y] eqn:Hy. destruct (observe_time_inv _ _ _ _ Hy) as (Hi & Hp & _).
  assert (reassembler_inv r1) as Hr1 by (unfold reassembler_inv in *; by rewrite Hi).
  destruct y; simplify_eq; [|done|done]. by destruct (expire_due_inv _ _ _ _ Hr1 Hx) as (? & _ & ?).
Qed.

Lemma fuzz_send_keeps now s : sync_wf s → ∃ s', fuzz_send now s = Some s' ∧ sync_wf s'.
Proof.
  intros Hs. unfold fuzz_send. pose proof (plan_send_no_panic now 50 s) as Hp.
  destruct (plan_send now 50 s); [|by exists s|done].
  apply settle_ok. eauto using commit_send_wf, commit_send_no_panic.
Qed.

Lemma fuzz_receive_keeps i s : instruction_wf i → sync_wf s → ∃ s', fuzz_receive i s = Some s' ∧ sync_wf s'.
Proof.
  intros Hi Hs. unfold fuzz_receive. destruct (begin_receive i s) as [s' r] eqn:Hr.
  pose proof (begin_receive_wf _ _ _ _ Hs Hr) as Hs'. pose proof (begin_receive_no_panic _ _ _ _ Hr) as Hp.
  destruct r as [t|e|]; [|by exists s'|done]. destruct (remote_state t) as [p| | | |] eqn:Ht; try by exists s'.
  destruct (begin_receive_plan i s s' t p Hi Hs Hr Ht) as (Hok & _).
  apply settle_ok. eauto using commit_receive_wf, commit_receive_no_panic.
Qed.

Lemma fuzz_poll_keeps now rtt s : sched_wf s → ∃ s', fuzz_poll now rtt s = Some s' ∧ sched_wf s'.
Proof.
  intros Hs. unfold fuzz_poll. destruct (poll now rtt None s) as [s' r] eqn:Hr.
  pose proof (poll_wf _ _ _ _ _ _ Hs Hr) as Hs'. pose proof (poll_no_panic _ _ _ _ _ Hr) as Hp.
  destruct r as [[w|p]|e|]; [by exists s'| |by exists s'|done].
  apply settle_ok. eauto using scheduler_commit_send_wf, scheduler_commit_send_no_panic.
Qed.

Lemma byte_at_u8 i chunk : Forall is_u8 chunk → is_u8 (byte_at i chunk).
Proof.
  intros Hc. unfold byte_at. destruct (chunk !! i) as [b|] eqn:Hb; [|by vm_compute].
  by eapply Forall_lookup_1.
Qed.

Lemma mod_u64 x m : 0 < m ≤ U64_MAX → is_u64 (x mod m).
Proof. intros Hm. pose proof (Z.mod_pos_bound x m). unfold is_u64. lia. Qed.

Lemma fuzz_instruction_wf number chunk : Forall is_u8 chunk → instruction_wf (fuzz_instruction number chunk).
Proof.
  intros Hc. unfold instruction_wf, fuzz_instruction. cbn [protocol_version base_state new_state acknowledged_state discard_before_state state_difference chaff].
  split_and!; try (apply mod_u64; by vm_compute); [by destruct (bit_at 2 chunk); vm_compute|by apply Forall_drop|done].
Qed.

Lemma fuzz_piece_number now number chunk : 0 ≤ Fragment.number (fuzz_piece now number chunk).
Proof. cbn. apply Z.mod_pos_bound. lia. Qed.

Lemma fuzz_operation_keeps operation now number chunk f :
  Forall is_u8 chunk → 0 ≤ now → fuzz_inv f → ∃ f', fuzz_operation operation now number chunk f = Some f' ∧ fuzz_inv f'.
Proof.
  intros Hc Hn Hf. destruct f as [t r s d e]. destruct Hf as [_ Hr Hs Hd He]. cbn [fz_reassembler fz_synchronization fz_scheduler fz_timing] in *.
  unfold fuzz_operation.
  destruct (operation =? 0).
  { destruct (push_keeps now (fuzz_piece now number chunk) r) as (r' & -> & Hr'); [apply fuzz_piece_number|done|]. by eexists. }
  destruct (operation =? 1).
  { destruct (expire_keeps now r Hr) as (r' & -> & Hr'). by eexists. }
  destruct (operation =? 2).
  { destruct (settle_ok advance_local s sync_wf) as (s' & -> & Hs'); [eauto using advance_local_wf, advance_local_no_panic|]. by eexists. }
  destruct (operation =? 3).
  { destruct (fuzz_send_keeps now s Hs) as (s' & -> & Hs'). by eexists. }
  destruct (operation =? 4).
  { destruct (fuzz_receive_keeps (fuzz_instruction number chunk) s) as (s' & -> & Hs'); [by apply fuzz_instruction_wf|done|]. by eexists. }
  destruct (operation =? 5).
  { destruct (settle_ok (note_local_change now) d sched_wf) as (d' & -> & Hd'); [eauto using note_local_change_wf, note_local_change_no_panic|]. by eexists. }
  destruct (operation =? 6).
  { destruct (settle_ok (note_acknowledgement_needed now) d sched_wf) as (d' & -> & Hd');
      [eauto using note_acknowledgement_needed_wf, note_acknowledgement_needed_no_panic|]. by eexists. }
  destruct (settle_ok (observe_sample (number mod 60001)) e rtt_wf) as (e' & -> & He').
  { intros e' x Hx. pose proof (Z.mod_pos_bound number 60001 eq_refl) as Hb.
    destruct (observe_sample_total (number mod 60001) e He ltac:(lia)) as [Ho Hw]. rewrite Hx in Ho, Hw.
    split; [done|]. destruct (_ <? _); by simplify_eq. }
  destruct (fuzz_poll_keeps now e' d Hd) as (d' & Hd' & Hd''). cbn [mbind option_bind]. rewrite Hd'. by eexists.
Qed.

Lemma fuzz_chunk_keeps chunk f : Forall is_u8 chunk → fuzz_inv f → ∃ f', fuzz_chunk chunk f = Some f' ∧ fuzz_inv f'.
Proof.
  intros Hc Hf. unfold fuzz_chunk.
  destruct (fuzz_operation_keeps (byte_at 0 chunk mod 8) (saturating_add U64_MAX (fz_now_ms f) (byte_at 1 chunk mod 32))
    (from_le_bytes (padded_eight chunk)) chunk f) as (f' & -> & Hf'); [done| |done|].
  { pose proof (fi_now _ Hf). pose proof (Z.mod_pos_bound (byte_at 1 chunk) 32 eq_refl). unfold saturating_add. apply Z.min_glb; [|lia]. by vm_compute. }
  cbn [mbind option_bind]. rewrite fuzz_assertions_ok by done. by exists f'.
Qed.

Lemma fuzz_chunks_keeps l f : Forall (Forall is_u8) l → fuzz_inv f → ∃ f', fuzz_chunks l f = Some f' ∧ fuzz_inv f'.
Proof.
  intros Hl. revert f. induction Hl as [|chunk l Hc _ IH]; intros f Hf; [by exists f|]. cbn [fuzz_chunks].
  destruct (fuzz_chunk_keeps chunk f Hc Hf) as (f1 & -> & Hf1). by apply IH.
Qed.

Lemma fuzz_new_inv : fuzz_inv FuzzState_new.
Proof.
  split; cbn [FuzzState_new fz_now_ms fz_reassembler fz_synchronization fz_scheduler fz_timing];
    [lia|done|apply sync_new_wf|by apply scheduler_new_wf|apply rtt_new_wf].
Qed.

(** ** The parsers *)
Lemma find_candidate_no_panic candidate l : no_panic (find_candidate candidate l).
Proof. revert candidate. induction l as [|x l IH]; intros c; [done|]. cbn. destruct (looks_like_connect_record _); [destruct c; [done|]|]; apply IH. Qed.

Lemma parse_port_no_panic l : no_panic (parse_port l).
Proof. unfold no_panic, parse_port. cbv [mbind Result_bind ok_or]. repeat case_match; simplify_eq; done. Qed.

Lemma Bootstrap_parse_no_panic `{B64 : Base64} address output : no_panic (Bootstrap_parse address output).
Proof.
  unfold Bootstrap_parse. do 2 (split_if; [done|]).
  pose proof (find_candidate_no_panic None (split_inclusive (λ b, b =? NEWLINE) output)) as Hc.
  destruct (find_candidate _ _) as [[record|]|e|]; [|done|done|done]. cbn [mbind Result_bind ok_or].
  assert (no_panic (parse_connect_record record)) as Hr; [|by destruct (parse_connect_record record) as [[]| |]].
  unfold no_panic, parse_connect_record. cbn zeta. cbv [mbind Result_bind ok_or].
  pose proof parse_port_no_panic as Hp. unfold no_panic in Hp. repeat case_match; simplify_eq; try done. all: naive_solver.
Qed.

Lemma ignore_ok {E A} (r : Result E A) : no_panic r → ignore r = Some tt.
Proof. by destruct r. Qed.

Lemma fuzz_packet_ok `{AE : Aead} {AEL : AeadLaws AE} data : fuzz_packet data = Some tt.
Proof.
  apply ignore_ok. pose proof (PacketReceiver_open_cases (PacketReceiver_new FUZZ_KEY ServerToClient)
    (take (Z.to_nat (Z.min (len data) (MAX_DATAGRAM_BYTES + 1))) data)) as H. by destruct (_.2).
Qed.

Lemma fuzz_fragment_ok data : fuzz_fragment data = Some tt.
Proof.
  unfold fuzz_fragment. pose proof (Fragment.decode_cases data) as H.
  destruct (Fragment.decode data) as [f|e|]; [|done|done]. destruct H as (_ & _ & _ & Hn & _).
  destruct (push_keeps 0 f (FragmentReassembler_new 0) Hn ltac:(done)) as (r & -> & Hr).
  by apply assert_reassembler_ok.
Qed.

(** The terminal part, with the emulator of the client: it can only panic where the
    input resizes the screen. *)
Section client.
Context `{UW : UnicodeWidth} {UWL : UnicodeWidthLaws UW} `{VTE : Vte} {VT : VteTyped VTE} `{IT : Itoa}.

Definition is_resize (op : TerminalOperation) : bool :=
  match op with TerminalResize _ _ => true | _ => false end.

Definition safe_outcome (r : TerminalState * Result TerminalError unit) : Prop :=
  match r with
  | (t, Ok _) => safe_screen (screen t)
  | (_, Err _) => True
  | (_, Panic) => False
  end.

Lemma validate_screen_no_panic (s : Screen) : safe_screen s → no_panic (validate_screen s).
Proof using UWL VT.
  intros Hs. unfold validate_screen. destruct (screen_size s) as [rows columns]. intros H.
  apply for_all_panic in H as (row & _ & H). apply for_all_panic in H as (column & _ & H).
  unfold validate_cell in H. destruct (safe_screen_cell s row column Hs) as (c & Hc & _). rewrite Hc in H.
  destruct c as [c|]; cbn in H; [by destruct (_ <? _)|done].
Qed.

Lemma apply_operation_safe op t : is_resize op = false → safe_screen (screen t) → safe_outcome (apply_operation op t).
Proof using UWL VT.
  intros Hop Ht. destruct op as [l|columns rows|n]; [|done|].
  - cbn [apply_operation]. unfold apply_host_bytes. cbv [mbind M_bind lift get put throw expect].
    pose proof (validate_host_bytes_no_panic l). destruct (validate_host_bytes l) as [[]| |]; try done.
    destruct (safe_screen_process (screen t) l Ht) as (s' & u & Hp & _). rewrite Hp.
    assert (safe_screen s') as Hs' by by eapply safe_process.
    destruct (fold_left on_unhandled u None); [done|].
    pose proof (validate_screen_no_panic s' Hs'). by destruct (validate_screen s') as [[]| |].
  - cbn [apply_operation]. cbv [mbind M_bind get put fail_if throw mret M_ret]. by destruct (is_some_and _ _).
Qed.

Lemma apply_operations_safe ops t :
  existsb is_resize ops = false → safe_screen (screen t) → safe_outcome (apply_operations ops t).
Proof using UWL VT.
  revert t. induction ops as [|op ops IH]; intros t Hops Ht; [done|].
  cbn in Hops. apply orb_false_iff in Hops as [Hop Hops]. cbn [apply_operations]. cbv [mbind M_bind].
  pose proof (apply_operation_safe op t Hop Ht) as Ho.
  destruct (apply_operation op t) as [t1 [[]| |]]; [by apply IH|done|done].
Qed.

Lemma bounded_no_panic l : no_panic (bounded l).
Proof. unfold bounded. by destruct (_ <? _). Qed.

Lemma fuzz_terminal_ok `{PH : ProstHost} data :
  (∀ d, TerminalDifference_decode data = Ok d → existsb is_resize (operations d) = false) →
  fuzz_terminal data = Some tt.
Proof using UWL VT.
  intros Hd. unfold fuzz_terminal. pose proof (TerminalDifference_decode_no_panic data) as Hn.
  destruct (TerminalDifference_decode data) as [d|e|]; [|done|done]. specialize (Hd d eq_refl).
  assert (size_safe (mkSize 24 80)) as Hsz by (repeat split; done).
  assert (∃ t, TerminalState_new 80 24 = Ok t ∧ safe_screen (screen t)) as (t & -> & Ht).
  { unfold TerminalState_new. change (checked_size 80 24) with (Ok (E:=TerminalError) (24, 80)).
    cbn [mbind Result_bind]. destruct (safe_screen_new 24 80 Hsz) as (s & Hs & Hsafe).
    exists (mkTerminalState (VT:=vt100) s None). by rewrite Hs. }
  unfold terminal_apply. pose proof (apply_operations_safe (operations d) t Hd Ht) as Ha.
  destruct (apply_operations (operations d) t) as [next [[]| |]]; [|done|done]. cbn in Ha.
  assert (no_panic (painter_full next)) as Hf.
  { unfold painter_full. destruct (safe_screen_formatted (screen next) Ha) as [f ->]. apply bounded_no_panic. }
  rewrite (ignore_ok _ Hf). apply ignore_ok. unfold painter_incremental. destruct (negb _); [done|].
  destruct (safe_screen_diff (screen next) (screen t) Ha Ht) as [b ->]. apply bounded_no_panic.
Qed.
End client.

(** ** Claim *)
Section fuzzing.
Context `{AE : Aead} {AEL : AeadLaws AE} `{PR : Prost} {PL : ProstLaws PR} `{ZL : Zlib} {ZB : ZlibBounds ZL}.
Context `{B64 : Base64} `{PH : ProstHost}.
Context `{UW : UnicodeWidth} {UWL : UnicodeWidthLaws UW} `{VTE : Vte} {VT : VteTyped VTE} `{IT : Itoa}.

(** C33. The fuzz targets find nothing, on any input: every sequence of operations on
    the reassembler, the synchronization state, the scheduler and the RTT estimator
    runs without a panic and ends each step with at most one incomplete instruction
    and with all stores within their limits; and the parsers of untrusted bytes return on
    every input and the bounds hold, with the client's own emulator behind the
    terminal part, unless the input holds a resize of the terminal. *)
Theorem fuzz_targets_pass data :
  Forall is_u8 data →
  exercise_state_transitions data = Some tt ∧
  (exercise_untrusted_parsers data = Some tt ∨
   ∃ d columns rows, TerminalDifference_decode data = Ok d ∧ TerminalResize columns rows ∈ operations d).
Proof using AEL PL ZB UWL VT.
  intros Hdata. split.
  - unfold exercise_state_transitions.
    destruct (fuzz_chunks_keeps (take 256 (chunks 16 data)) FuzzState_new) as (f & -> & _); [|apply fuzz_new_inv|done].
    apply Forall_take, Forall_concat. by rewrite chunks_concat by lia.
  - unfold exercise_untrusted_parsers. rewrite (ignore_ok (Bootstrap_parse _ _)) by apply Bootstrap_parse_no_panic.
    cbn [mbind option_bind]. rewrite (ignore_ok (decode_zlib data)) by apply decode_zlib_safe. cbn [mbind option_bind]. rewrite fuzz_fragment_ok. cbn [mbind option_bind].
    destruct (TerminalDifference_decode data) as [d|e|] eqn:Hd.
    + destruct (existsb is_resize (operations d)) eqn:Hr.
      * right. apply existsb_exists in Hr as ([l|columns rows|n] & Hin & Hr); [done| |done].
        exists d, columns, rows. by rewrite list_elem_of_In.
      * left. rewrite fuzz_terminal_ok by (rewrite Hd; by intros ? [= <-]). apply fuzz_packet_ok.
    + left. rewrite fuzz_terminal_ok by (by rewrite Hd). apply fuzz_packet_ok.
    + left. rewrite fuzz_terminal_ok by (by rewrite Hd). apply fuzz_packet_ok.
Qed.
End fuzzing.

(** ** Witness *)
#[local] Existing Instance null_aead.
#[local] Existing Instance null_aead_laws.
#[local] Existing Instance plain_prost.
#[local] Existing Instance plain_prost_laws.
#[local] Existing Instance stored_zlib.
#[local] Existing Instance stored_zlib_bounds.
#[local] Existing Instance copy_base64.
#[local] Existing Instance host_prost.
#[local] Existing Instance wide_width.
#[local] Existing Instance wide_width_laws.
#[local] Existing Instance byte_vte.
#[local] Existing Instance byte_vte_typed.
#[local] Existing Instance decimal_itoa.

(** Two chunks: a fragment that ends its instruction, and a send. *)
Definition fuzz_input : bytes := [0; 3; 0; 1; 72; 105; 0; 0; 0; 0; 0; 0; 0; 0; 0; 0; 3; 1; 0; 0].

Lemma fuzz_targets_pass_witness :
  Forall is_u8 fuzz_input ∧ exercise_state_transitions fuzz_input = Some tt ∧ exercise_untrusted_parsers fuzz_input = Some tt.
Proof.
  assert (Forall is_u8 fuzz_input) as Hu by (repeat constructor; unfold U8_MAX; lia).
  destruct (fuzz_targets_pass fuzz_input Hu) as [Hs [Hp|(d & columns & rows & Hd & Hr)]]; [done|].
  exfalso. vm_compute in Hd. injection Hd as <-. cbn in Hr. by apply list_elem_of_singleton in Hr.
Defined.
